(* ===== verification/_CoqProject ===== *)
-Q . S2P
Prelude.v
Decimal.v
Stream.v
Util.v
Hash.v
Phc.v
Inspector.v
Index.v
Regex.v
UserPasswordReader.v
Convert.v
Pipeline.v
PriorityQueue.v
Merge.v
MergeObjects.v
Merger.v
Queue.v
QueueCancel.v
Converter.v
Uri.v
Server.v
LookupCli.v
Random.v
TestSet.v
Units.v
Memory.v
Benchmark.v
LoadTest.v
ClientServer.v
Tools.v
MergerProgram.v
MergerEnds.v
Service.v
EndToEnd.v
Extractor.v
Markov.v
MarkovJson.v
MarkovTools.v
