(* ===== verification/Prelude.v ===== *)
(** * A verification library for the #pwned tools

    The #pwned tools turn lists of leaked passwords into files of MD5 hashes with the number of
    their occurrences, sorted by hash, and look passwords up in them.  This library models the
    C++ sources under [src/] and proves what the programs do.  This file is its root: the
    documentation, and what all other files share.

    ** The program

    - [pwned-lib] has the data ([hash.*], [passwordhashandcount.hpp]), the reader of password
      lists ([userpasswordreader.*]), the search in a sorted file ([passwordinspector.*]), the
      Markov chain ([markovnode.hpp], [markovchain.hpp]), the queue that runs operations in
      threads ([operation*.*], [semaphore.hpp]) and helpers ([util.*], [uuid.*]).
    - [pwned-converter-cli] reads password lists and writes MD5:count files, as many as its
      memory makes necessary; [pwned-merger-cli] merges such files; [pwned-index] writes an
      index of one; [pwned-lookup-cli] and [pwned-server] answer questions from one.
    - [pwned-server/loadtest] is a client of the service; [extras/] has a test set extractor, a
      benchmark, a password extractor and two tools for Markov chains; [deprecated/be2le]
      swaps the byte order of old files.

    The programs are joined by files: what one proves of the bytes it writes is what the next
    one assumes of the bytes it reads.  [lookup_file] (Inspector) is this contract for
    MD5:count files, [index_file] (Index) the one for indexes.

    ** The files

    Foundations, not code of the repository:
    - Prelude: bytes, machine integers, [outcome], list lemmas, [std::sort], tactics, hints;
    - Decimal: numbers as [std::to_string] and [printf] print them;
    - Stream: [std::istream] with its state bits, [std::getline], lines of a text;
    - Regex: [std::regex], a backtracking matcher with the language of an expression as its
      reference;
    - PriorityQueue: [std::priority_queue] as a class, with an instance;
    - Random: [std::mt19937_64].

    Components, each with the sources it models:
    - Util, Units, Memory: [pwned-lib/util.*];
    - Hash, Phc: [pwned-lib/hash.*], [passwordhashandcount.hpp];
    - Inspector: [pwned-lib/passwordinspector.*];
    - Index: [pwned-index/index.cpp];
    - UserPasswordReader: [pwned-lib/userpasswordreader.*];
    - Convert: [pwned-converter-cli];
    - Merge, MergeObjects: [mergeoperation.*], [mergerinput.hpp] of [pwned-merger-cli];
      Merger: [lazy.hpp], [inputfile.hpp], [progressbar.hpp], [progresscallback.hpp] and the
      rounds of its [main];
    - Queue, QueueCancel: [operation.*], [operationexception.*], [semaphore.hpp],
      [operationqueue.hpp]; QueueCancel has what a cancellation does to them, and the queue that
      is filled again;
    - Converter: the program of [pwned-converter-cli]: conversions in the queue's threads;
    - MergerProgram, MergerEnds: the program of [pwned-merger-cli]: its [main], the merge in a
      thread of the queue, the keyboard and the files;
    - Uri, Server: [pwned-server/uri.*], [httpworker.*]; LoadTest: [pwned-server/loadtest], the
      loading of certificates included;
    - LookupCli: [pwned-lookup-cli];
    - Tools: [pwned-lib/uuid.*], [deprecated/be2le], and the front ends of the index tool, the
      merger and the server, a Module each;
    - Markov, MarkovJson: [pwned-lib/markovnode.hpp], [markovchain.hpp]; MarkovTools: the
      generator and the lookup of [extras];
    - TestSet, Benchmark, Extractor: the other programs of [extras].

    Compositions of components:
    - Service: the process of [pwned-server] with all its workers;
    - EndToEnd: the converter and the merger, each with its threads, then the service;
    - Pipeline: the converter, then lookups in its files;
    - Benchmark: the test set extractor, then the benchmark on its test set;
    - MarkovTools: the generator, then the lookup in its chain;
    - ClientServer: a client of the load test and a worker of the service.

    A definition has the name the code has, and a record of the state has the code's fields.  A
    handler or operation is one definition, with the code's guards in the code's order.

    ** How code is modelled

    - A [uintN_t] is a [Z] reduced modulo [2 ^ N] where the code computes it ([u8] to [u64]);
      [int64_t] and [std::streamoff] are wrapped by [i64].  [int] counters that count lines or
      records one by one are unbounded.  [float] and [double] are the standard library's
      [spec_float] with the rounding of IEEE 754.
    - A text, a file and a buffer are lists of bytes.  A stream is a value that every read
      returns anew; that [failbit] survives [seekg] is what several results are about.
    - A loop whose end is not evident has fuel, and [OutOfFuel] when it is used up.  Theorems
      about such code say how much is enough and that the code returns: [S (length (lines t))]
      for the loops over the lines of a text, [bs_fuel] (two more than the logarithm of the
      file size) inside the binary search, so that it needs none from outside,
      [2 ^ bits] for a lookup with an index of that many bits (a walk over the whole index),
      the number of inputs for the rounds of the merger, [N + 1] for a test set of [N].  Where a
      loop never ends the theorem says so for every fuel.
    - Undefined behaviour is [Undefined] ([outcome], below), an exception that leaves the code
      is [Throws]; [option] is used where only one thing can go wrong.
    - Threads (Queue, Converter, MergerProgram) and asynchronous operations (Server, LoadTest) are step
      functions on an explicit state; a schedule is any list of steps or completions.  What a
      thread does without a lock is several steps where others can see it: the loop of [pause]
      over the running operations is two steps for each, so that an operation that ends
      meanwhile is deleted under its iterator ([pause_uses_deleted]).  That two accesses at the
      very same time are undefined in themselves is left out.  A step
      of a conversion is one look at the file system or one record written, a step of a merge
      one turn of its loop; that a stream collects records before it writes them is left out.
    - Wake-ups of a condition variable without a notification are steps of their own
      ([LSpurious]).  The code waits without a predicate, so one of them breaks it
      ([spurious_top_of_empty]); the theorems about keys are about runs without them
      ([notified]).
    - Keys: in Queue, Converter and MergerProgram a thread of its own presses them.  In Merge,
      Merger and Tools what [isCancelled] returns at each look is an argument ([cancelled],
      [Cancelled]); [merger_program_refines] says which answers the threads can give.
    - Aliasing is modelled where it matters: the merger changes the top of its queue through a
      pointer (Merge) and deletes it (MergeObjects), operations are deleted while others look
      at them (Queue).
    - Boost, OpenSSL, libbz2, the clock and the operating system are parameters.  What a
      theorem needs of one is a named law ([split_law], [write_json_law], [replace_law],
      [read_json_law], [bz_law], [ptree_law],
      [append_law]) that states its documentation (that boost's [stem] of a file has no slash is
      a hypothesis of its own); every law has an instance, and
      the theorems' witnesses use it.

    ** The theorems

    - Lookups: [lookups_correct], [smart_binsearch_correct], [indexed_lookups_correct]: the
      count of every hash, absent ones included, by the two algorithms and with an index;
      [binsearch_total]: a logarithmic number of reads; [lookup_beyond_poisons],
      [indexed_lookup_diverges]: the hashes for which the object breaks.
    - The whole: [lists_served], from password lists to the service's answers.
    - Files: [convert_correct], [convert_lookup], [convert_cancel_prefix],
      [converter_main_budget] for one conversion, alone; [converter_program_converts],
      [converter_program_safe] for the converter with its threads, [same_stem_lost] for the
      race between two of them; [merge_sorted_union], [merge_counts], [merger_loop_correct],
      [merger_main_merges], [merger_cancelled], [inputs_deleted_once] for the merger;
      [merger_program_refines], [merger_program_ends], [merger_program_cancelled] for the merger
      with its threads and keys: it refines the loop of its [main], ends, and leaves the
      beginning of the result when it is cancelled;
      [index_main_correct] for the index; [phc_file_roundtrip], [read_all_blocks] for records,
      of whole files and of any bytes.
    - Password lists: [reader_reads_all_lines], [guessSeparator_correct],
      [md5_line_same_hash], [hex_line_same_hash].
    - Hashes: [hash_text_roundtrip], [Hash_order_lexicographic].
    - The queue: [queue_safe] (the loop of [pause] is the only code that uses an operation after
      it is deleted, and when; no more run than there are processors), [queue_runs_all] (everything added is run), [queue_returns_complete]
      (what has been done whenever it returns, whatever was cancelled), [paused_sleeps] (a
      wake-up that is lost), [cancel_pending_deadlock].
    - The service: [service_refines] (the process does what a specification without state
      says, for every schedule, including its end when a request is logged whose sender has
      gone), [worker_serving], [lookup_response], [parseTarget_parts],
      [parse_validity], [server_main_workers], [client_served], [loadtest_counts]
      (every schedule of the client's threads),
      [lookup_cli_answers].
    - Markov chains: [train_all_counts], [node_update_probs], [save_load_roundtrip],
      [generator_lookup].
    - Auxiliary programs: [test_set_existent], [test_set_benchmark],
      [benchmark_indexed_counts], [extractor_resumes], [be2le_extra_record].
    - Helpers: [popcnt64_correct], [string_format_total], [readableSize_nearest],
      [getMemoryStat_reads], [getMemoryStat_apple_wraps], [setStdinEcho_restores], [progress_bar_shape].

    The interfaces are [PriorityQueue] (Merge and Merger are proved for every instance) and
    [LookupService] (Server), which the inspector implements with and without an index and
    which the service, the lookup tool and the client's composition use.

    ** Not modelled

    - The option parsers (boost::program_options), banners, licence texts, progress output
      other than the merger's bar and the load test's line: they do not change what the
      programs compute.
    - The printing of property trees, and of time points.
    - Thread priorities, the branches for Windows, purging of the file system's cache, Unicode
      conversion, MD5: calls to libraries.
    - The inside of asio: accepting, expiry, the threads of an [io_context]; the handlers of one
      worker do not overlap.
    - A merge whose output cannot be opened, in the merger as a whole ([Merge.merge_execute] has
      it).  A merge whose
      target is among its inputs: it truncates a file it reads, which is [Undefined] here; other
      names of output files that are at the same time names of input files.
    - [root_certificates_generated.hpp], a table made by a script, is a parameter; scripts, web
      page, build files and unit tests. *)

From stdpp Require Export base list gmap sorting relations.
From stdpp Require Export strings.
From Stdlib Require Export ZArith Lia Init.Byte.
From coqutil Require Export Byte Word.LittleEndianList.
From stdpp Require Import options.

#[global] Open Scope Z_scope.

(** ** Bytes and strings

    A C++ [std::string], a file and a buffer are all [list byte]. *)

#[export] Instance byte_eq_decision : EqDecision byte := Byte.byte_eq_dec.

#[export] Instance byte_countable : Countable byte.
Proof. apply (inj_countable' byte.unsigned byte.of_Z). apply byte.of_Z_unsigned. Defined.

(** The bytes of a string literal of the source. *)
Definition bs (s : string) : list byte := String.list_byte_of_string s.

(** A C++ [char] is signed on the platforms the program is built for. *)
Definition schar (c : byte) : Z :=
  if byte.unsigned c <? 128 then byte.unsigned c else byte.unsigned c - 256.

(** ** Machine integers: a value of [uintN_t] is a [Z] reduced modulo [2^N] *)

Definition u8 (z : Z) : Z := z mod 2 ^ 8.
Definition u16 (z : Z) : Z := z mod 2 ^ 16.
Definition u32 (z : Z) : Z := z mod 2 ^ 32.
Definition u64 (z : Z) : Z := z mod 2 ^ 64.
(** Conversion to [int64_t] / [std::streamoff]: two's complement. *)
Definition i64 (z : Z) : Z := (z + 2 ^ 63) mod 2 ^ 64 - 2 ^ 63.

Abbreviation in_u16 z := (0 <= z < 2 ^ 16).
Abbreviation in_u32 z := (0 <= z < 2 ^ 32).
Abbreviation in_u64 z := (0 <= z < 2 ^ 64).

Lemma u32_range z : in_u32 (u32 z).
Proof. apply Z.mod_pos_bound. lia. Qed.
Lemma u64_range z : in_u64 (u64 z).
Proof. apply Z.mod_pos_bound. lia. Qed.
Lemma u32_small z : in_u32 z -> u32 z = z.
Proof. apply Z.mod_small. Qed.
Lemma u64_small z : in_u64 z -> u64 z = z.
Proof. apply Z.mod_small. Qed.
Lemma u32_u32 z : u32 (u32 z) = u32 z.
Proof. apply Z.mod_mod. lia. Qed.
Lemma u32_add_l a b : u32 (u32 a + b) = u32 (a + b).
Proof. apply Zplus_mod_idemp_l. Qed.
Lemma u32_add_r a b : u32 (a + u32 b) = u32 (a + b).
Proof. apply Zplus_mod_idemp_r. Qed.
Lemma i64_small z : - 2 ^ 63 <= z < 2 ^ 63 -> i64 z = z.
Proof. intros. unfold i64. rewrite Z.mod_small; lia. Qed.

(** ** Outcomes of code that may loop or leave the language

    [Ok a]: the code returns [a]; [OutOfFuel]: the loops did not end within the fuel;
    [Undefined]: the code does something the C++ standard leaves undefined; [Throws]: an
    exception leaves the code. *)

Inductive outcome (A : Type) : Type :=
  | Ok (a : A)
  | OutOfFuel
  | Undefined
  | Throws (what : list byte).
Arguments Ok {A} a.
Arguments OutOfFuel {A}.
Arguments Undefined {A}.
Arguments Throws {A} what.

#[export] Instance outcome_ret : MRet outcome := fun A a => Ok a.
#[export] Instance outcome_bind : MBind outcome := fun A B f m =>
  match m with
  | Ok a => f a
  | OutOfFuel => OutOfFuel
  | Undefined => Undefined
  | Throws w => Throws w
  end.
#[export] Instance outcome_fmap : FMap outcome := fun A B f m => m ≫= (fun a => Ok (f a)).

Lemma fmap_snd_Ok {A B} (m : outcome (A * B)) b : snd <$> m = Ok b -> exists a, m = Ok (a, b).
Proof. destruct m as [[a b']| | |]; intros H; try done. injection H as ->. by exists a. Qed.

Lemma bind_Ok {A B} (m : outcome A) (f : A -> outcome B) b : m ≫= f = Ok b <-> exists a, m = Ok a /\ f a = Ok b.
Proof. split; [destruct m as [a| | |]; intros H; try done; by exists a|by intros (a & -> & ?)]. Qed.

(** Code that needs a condition to be defined. *)
Definition defined_if {A} (b : bool) (m : outcome A) : outcome A := if b then m else Undefined.

Lemma Ok_inj {A} {a b : A} : Ok a = Ok b -> a = b.
Proof. by intros [= ->]. Qed.

(** ** Proof automation shared by the components *)

Create HintDb pwned discriminated.
#[export] Hint Resolve u32_range u64_range : pwned.
Create Rewrite HintDb pwned_le.
#[export] Hint Rewrite @length_le_split @length_app @length_take @length_drop
  @length_fmap @length_nil @length_cons : pwned_le.

(** Arithmetic with constant divisors and moduli. *)
Ltac dlia := Z.div_mod_to_equations; lia.

(** Splits every boolean test of the goal and the context into its cases. *)
Ltac bool_cases :=
  repeat match goal with
  | H : context [Z.ltb ?a ?b] |- _ => destruct (Z.ltb_spec a b); try lia
  | |- context [Z.ltb ?a ?b] => destruct (Z.ltb_spec a b); try lia
  | H : context [Z.leb ?a ?b] |- _ => destruct (Z.leb_spec a b); try lia
  | |- context [Z.leb ?a ?b] => destruct (Z.leb_spec a b); try lia
  | H : context [Z.eqb ?a ?b] |- _ => destruct (Z.eqb_spec a b); try lia
  | |- context [Z.eqb ?a ?b] => destruct (Z.eqb_spec a b); try lia
  | H : context [Nat.ltb ?a ?b] |- _ => destruct (Nat.ltb_spec a b); try lia
  | |- context [Nat.ltb ?a ?b] => destruct (Nat.ltb_spec a b); try lia
  end.

(** Length of a list expression, computed by the [pwned_le] rewrite hints. *)
Ltac len := autorewrite with pwned_le; try lia.

(** A boolean property of a small range of integers, checked by evaluation. *)
Lemma Z_range_check (P : Z -> bool) n z :
  forallb P (seqZ 0 n) = true -> 0 <= z < n -> P z = true.
Proof.
  intros Hall Hz. rewrite forallb_forall in Hall. apply Hall.
  apply list_elem_of_In, elem_of_seqZ. lia.
Qed.

(** ** Little-endian bytes *)

Lemma land_shiftl_small a c k : 0 <= k -> 0 <= a < 2 ^ k -> Z.land a (Z.shiftl c k) = 0.
Proof.
  intros Hk Ha. rewrite <- (Z.mod_small a (2 ^ k)), <- Z.land_ones by done.
  apply Z.bits_inj'. intros i Hi.
  rewrite Z.bits_0, !Z.land_spec, Z.shiftl_spec, Z.testbit_ones_nonneg by done.
  destruct (Z.ltb_spec i k); [|by rewrite andb_false_r].
  rewrite (Z.testbit_neg_r c) by lia. by rewrite andb_false_r.
Qed.

Lemma le_combine_app_add l k :
  le_combine (l ++ k) = le_combine l + 2 ^ (8 * Z.of_nat (length l)) * le_combine k.
Proof.
  pose proof (le_combine_bound l).
  rewrite le_combine_app, <- Z.add_nocarry_lor, Z.shiftl_mul_pow2 by
    (try apply land_shiftl_small; rewrite ?(Z.mul_comm (Z.of_nat _)); lia).
  rewrite (Z.mul_comm (Z.of_nat _)). lia.
Qed.

Lemma le_combine_cons b l : le_combine (b :: l) = byte.unsigned b + 256 * le_combine l.
Proof. change (b :: l) with ([b] ++ l). by rewrite le_combine_app_add, le_combine_1. Qed.

Lemma le_combine_split_small n z :
  0 <= z < 2 ^ (Z.of_nat n * 8) -> le_combine (le_split n z) = z.
Proof. intros Hz. rewrite le_combine_split. by apply Z.mod_small. Qed.

(** ** Lists *)

Section lists.
Context {A : Type}.
Implicit Types l : list A.

Lemma take_app_exact n l k : length l = n -> take n (l ++ k) = l.
Proof. intros <-. apply take_app_length. Qed.

Lemma drop_app_exact n l k : length l = n -> drop n (l ++ k) = k.
Proof. intros <-. apply drop_app_length. Qed.

(** Fixed-width records: the bytes from record [i] on are its encoding followed by the
    bytes of the later records. *)
Lemma drop_concat_width {B} (enc : B -> list A) (w : nat) (l : list B) i :
  (forall x, length (enc x) = w) ->
  drop (w * i) (concat (enc <$> l)) = concat (enc <$> drop i l).
Proof.
  intros Hw. revert i. induction l as [|x l IH]; intros i; [csimpl; by rewrite !drop_nil|].
  destruct i as [|i]; [by rewrite Nat.mul_0_r|].
  csimpl. rewrite <- IH, drop_app, Hw.
  rewrite (drop_ge (enc x)) by (rewrite Hw; lia). simpl. f_equal. lia.
Qed.

Lemma length_concat_width {B} (enc : B -> list A) (w : nat) (l : list B) :
  (forall x, length (enc x) = w) -> length (concat (enc <$> l)) = (w * length l)%nat.
Proof.
  intros Hw. induction l as [|x l IH]; csimpl; [lia|]. rewrite length_app, IH, Hw. lia.
Qed.

Lemma StronglySorted_lookup (R : relation A) l i j x y :
  StronglySorted R l -> l !! i = Some x -> l !! j = Some y -> (i < j)%nat -> R x y.
Proof.
  intros Hs Hi Hj Hij.
  pose proof (lookup_lt_Some _ _ _ Hi). rewrite <- (take_drop (S i) l) in Hs.
  eapply StronglySorted_app_1_elem_of; [done| |].
  - apply list_elem_of_lookup. exists i. by rewrite lookup_take_lt by lia.
  - apply list_elem_of_lookup. exists (j - S i)%nat.
    rewrite lookup_drop. by replace (S i + (j - S i))%nat with j by lia.
Qed.

Lemma StronglySorted_by_lookup (R : relation A) l :
  (forall i j x y, l !! i = Some x -> l !! j = Some y -> (i < j)%nat -> R x y) -> StronglySorted R l.
Proof.
  induction l as [|x l IH]; intros Hl; constructor.
  - apply IH. intros i j y z Hi Hj Hij. apply (Hl (S i) (S j)); [done|done|lia].
  - apply Forall_lookup. intros i y Hi. apply (Hl 0%nat (S i)); [done|done|lia].
Qed.

Lemma filter_none (P : A -> Prop) `{!forall x, Decision (P x)} l :
  Forall (fun x => ~ P x) l -> filter P l = [].
Proof. induction 1; [done|]. rewrite filter_cons. by rewrite decide_False. Qed.
End lists.

(** ** [std::sort] with a comparison (the order it leaves equal elements in is unspecified by
    the standard; the program sorts elements that differ). *)

Section sort.
Context {A : Type} (less : A -> A -> bool).

Fixpoint insert_by (x : A) (l : list A) : list A :=
  match l with
  | [] => [x]
  | y :: l' => if less y x then y :: insert_by x l' else x :: l
  end.
Fixpoint std_sort (l : list A) : list A :=
  match l with [] => [] | x :: l => insert_by x (std_sort l) end.

Lemma insert_by_perm x l : insert_by x l ≡ₚ x :: l.
Proof.
  induction l as [|y l IH]; simpl; [done|]. destruct (less y x); [|done]. 
  etransitivity; [apply perm_skip, IH|apply perm_swap].
Qed.

Lemma std_sort_perm l : std_sort l ≡ₚ l.
Proof. induction l as [|x l IH]; simpl; [done|].
  etransitivity; [apply insert_by_perm|by apply perm_skip]. Qed.

(** A relation between the elements and another list survives the sort. *)
Lemma std_sort_Forall2 {B} (P : A -> B -> Prop) l k : Forall2 P l k ->
  exists k', k' ≡ₚ k /\ Forall2 P (std_sort l) k'.
Proof.
  intros Hl. destruct (Permutation_Forall2 (symmetry (std_sort_perm l)) Hl) as (k' & Hk & Hk'). by exists k'.
Qed.

(** A list in strict order is left as it is. *)
Lemma std_sort_sorted l :
  (forall x y, less x y = true -> less y x = false) ->
  StronglySorted (fun x y => less x y = true) l -> std_sort l = l.
Proof.
  intros Hasym. induction 1 as [|x l Hs IH Hx]; simpl; [done|]. rewrite IH.
  destruct l as [|y l]; [done|]. simpl. apply Forall_cons in Hx as [Hxy _]. by rewrite (Hasym _ _ Hxy).
Qed.
End sort.

(** Sum of a list of integers. *)
Definition sum_Z (l : list Z) : Z := foldr Z.add 0 l.

Lemma sum_Z_app l k : sum_Z (l ++ k) = sum_Z l + sum_Z k.
Proof. induction l as [|x l IH]; simpl; [done|]. rewrite IH. lia. Qed.

Lemma sum_Z_perm l k : l ≡ₚ k -> sum_Z l = sum_Z k.
Proof. induction 1; simpl; lia. Qed.
