(* ===== verification/Decimal.v ===== *)
(** * Numbers in decimal

    What the standard library prints for integers ([std::to_string], [%d], [%ld]) and for
    floating-point numbers in fixed notation ([%.1f]), and the value [std::stoi] and
    [std::stoull] read.  The fixed notation is exact: the value of a binary floating-point
    number is a fraction, which is rounded once, to even on a tie. *)

From Stdlib Require Import Floats.SpecFloat.
From S2P Require Import Prelude.
From stdpp Require Import options.

(** [std::to_string] of an integer. *)
Fixpoint dec_digits (fuel : nat) (z : Z) (acc : list byte) : list byte :=
  match fuel with
  | O => acc
  | S fuel =>
      let acc := byte.of_Z (48 + z mod 10) :: acc in
      if z <? 10 then acc else dec_digits fuel (z / 10) acc
  end.
Definition to_string (z : Z) : list byte :=
  let digits z := dec_digits (Z.to_nat (Z.log2 z) + 1) z [] in
  if z <? 0 then x2d :: digits (- z) else digits z.

(** The value of a run of digits. *)
Definition digits_value (l : list byte) : Z := foldl (fun a c => 10 * a + (byte.unsigned c - 48)) 0 l.

(** Padding on the left, [%5s] and [std::setw]. *)
Definition pad_left (w : nat) (c : byte) (l : list byte) : list byte := replicate (w - length l) c ++ l.

(** [n / d], rounded to the nearest integer, ties to even. *)
Definition div_half_even (n d : Z) : Z :=
  let q := n / d in
  match 2 * (n mod d) ?= d with
  | Lt => q
  | Gt => q + 1
  | Eq => if Z.even q then q else q + 1
  end.

(** The magnitude [m * 2 ^ e], times [10 ^ k], rounded. *)
Definition scaled (k : nat) (m e : Z) : Z :=
  if 0 <=? e then m * 2 ^ e * 10 ^ Z.of_nat k else div_half_even (m * 10 ^ Z.of_nat k) (2 ^ (- e)).

(** [q / 10 ^ k] with [k] digits after the point. *)
Definition with_point (k : nat) (q : Z) : list byte :=
  match k with
  | O => to_string q
  | _ => to_string (q / 10 ^ Z.of_nat k) ++ x2e :: pad_left k x30 (to_string (q mod 10 ^ Z.of_nat k))
  end.

(** [%.kf] *)
Definition fixed (k : nat) (x : spec_float) : list byte :=
  match x with
  | S754_zero s => (if s then [x2d] else []) ++ with_point k 0
  | S754_infinity s => (if s then [x2d] else []) ++ bs "inf"
  | S754_nan => bs "nan"
  | S754_finite s m e => (if s then [x2d] else []) ++ with_point k (scaled k (Zpos m) e)
  end.

(** [0.5], [0.25], [2.5 * 10 ^ 21]: ties go to the even digit. *)
Example fixed_ties : fixed 0 (S754_finite false 1 (-1)) = bs "0" /\ fixed 1 (S754_finite false 1 (-2)) = bs "0.2" /\
  fixed 1 (S754_finite true 3 (-2)) = bs "-0.8" /\ fixed 4 (S754_finite false 7 (-3)) = bs "0.8750".
Proof. vm_compute. auto. Qed.

(** ** Lemmas *)

Lemma to_string_chars c z : byte.unsigned c <> 45 -> ~ (48 <= byte.unsigned c <= 57) -> c ∉ to_string z.
Proof.
  intros Hc Hd. assert (forall fuel z acc, c ∉ acc -> c ∉ dec_digits fuel z acc) as Hgen.
  { induction fuel as [|fuel IH]; intros y acc Hacc; [done|]. cbn [dec_digits].
    assert (c ∉ byte.of_Z (48 + y mod 10) :: acc) as Hcons.
    { apply not_elem_of_cons. split; [|done]. intros ->. pose proof (Z.mod_pos_bound y 10).
      rewrite byte.unsigned_of_Z in Hd. unfold byte.wrap in Hd. rewrite Z.mod_small in Hd by lia. lia. }
    destruct (y <? 10); [done|by apply IH]. }
  unfold to_string. destruct (z <? 0); [|apply Hgen, not_elem_of_nil].
  apply not_elem_of_cons. split; [|apply Hgen, not_elem_of_nil]. intros ->. by apply Hc.
Qed.

(** The digits of a number, read again. *)
Lemma to_string_value z : 0 <= z -> digits_value (to_string z) = z.
Proof.
  intros Hz. unfold to_string. rewrite (proj2 (Z.ltb_ge _ _)) by lia.
  assert (forall fuel z acc, 0 <= z < 2 ^ Z.of_nat fuel ->
    foldl (fun a c => 10 * a + (byte.unsigned c - 48)) 0 (dec_digits fuel z acc) =
    foldl (fun a c => 10 * a + (byte.unsigned c - 48)) z acc) as Hgen.
  { induction fuel as [|fuel IH]; intros y acc Hy; [cbn; f_equal; simpl in Hy; lia|]. cbn [dec_digits].
    assert (byte.unsigned (byte.of_Z (48 + y mod 10)) = 48 + y mod 10) as Hb.
    { rewrite byte.unsigned_of_Z. unfold byte.wrap. apply Z.mod_small. dlia. }
    destruct (Z.ltb_spec y 10).
    - cbn [foldl]. rewrite Hb, Z.mod_small by lia. f_equal. lia.
    - rewrite IH.
      + cbn [foldl]. rewrite Hb. f_equal. dlia.
      + rewrite Nat2Z.inj_succ, Z.pow_succ_r in Hy by lia. dlia. }
  apply (Hgen _ z []). pose proof (Z.log2_spec z). pose proof (Z.log2_nonneg z).
  replace (Z.of_nat (Z.to_nat (Z.log2 z) + 1)) with (Z.succ (Z.log2 z)) by lia.
  destruct (decide (z = 0)) as [->|]; [by vm_compute|]. lia.
Qed.

(** Different integers have different texts. *)
Lemma to_string_inj a b : to_string a = to_string b -> a = b.
Proof.
  assert (forall z, z < 0 -> to_string z = x2d :: to_string (- z)) as Hneg.
  { intros z Hz. unfold to_string. rewrite (proj2 (Z.ltb_lt z 0)), (proj2 (Z.ltb_ge (- z) 0)) by lia. done. }
  assert (forall z, x2d ∉ to_string (Z.abs z)) as Hno.
  { intros z. assert (forall fuel y acc, 0 <= y -> x2d ∉ acc -> x2d ∉ dec_digits fuel y acc) as Hgen.
    { induction fuel as [|fuel IH]; intros y acc Hy Hacc; [done|]. cbn [dec_digits].
      assert (x2d ∉ byte.of_Z (48 + y mod 10) :: acc) as Hc.
      { apply not_elem_of_cons. split; [|done]. intros E%(f_equal byte.unsigned). rewrite byte.unsigned_of_Z in E.
        unfold byte.wrap in E. change (byte.unsigned x2d) with 45 in E. dlia. }
      destruct (y <? 10); [done|]. apply IH; [dlia|done]. }
    unfold to_string. rewrite (proj2 (Z.ltb_ge _ _)) by lia. apply Hgen; [lia|apply not_elem_of_nil]. }
  intros E. destruct (Z.lt_ge_cases a 0) as [Ha|Ha], (Z.lt_ge_cases b 0) as [Hb|Hb].
  - rewrite (Hneg a Ha), (Hneg b Hb) in E. injection E as E%(f_equal digits_value). rewrite !to_string_value in E by lia. lia.
  - rewrite (Hneg a Ha) in E. exfalso. apply (Hno b). rewrite Z.abs_eq, <- E by lia. left.
  - rewrite (Hneg b Hb) in E. exfalso. apply (Hno a). rewrite Z.abs_eq, E by lia. left.
  - apply (f_equal digits_value) in E. by rewrite !to_string_value in E.
Qed.

Lemma div_half_even_near n d : 0 < d -> 2 * Z.abs (div_half_even n d * d - n) <= d.
Proof.
  intros Hd. unfold div_half_even. pose proof (Z.div_mod n d ltac:(lia)) as Hn. pose proof (Z.mod_pos_bound n d Hd).
  destruct (Z.compare_spec (2 * (n mod d)) d); [destruct (Z.even (n / d))|..]; nia.
Qed.

(** The printed value is within half a unit of the last digit of the exact one. *)
Lemma scaled_near k m e : 0 <= m -> e < 0 ->
  2 * Z.abs (scaled k m e * 2 ^ (- e) - m * 10 ^ Z.of_nat k) <= 2 ^ (- e).
Proof.
  intros Hm He. unfold scaled. rewrite (proj2 (Z.leb_gt _ _)) by lia. apply div_half_even_near.
  apply Z.pow_pos_nonneg; lia.
Qed.

Lemma pad_left_notin c w p l : c <> p -> c ∉ l -> c ∉ pad_left w p l.
Proof.
  intros Hp Hl. unfold pad_left. rewrite elem_of_app, elem_of_replicate. intros [[? _]|?]; done.
Qed.

Lemma fixed_no_nul k x : x00 ∉ fixed k x.
Proof.
  assert (forall z, x00 ∉ to_string z) as Hz by (intros z; apply to_string_chars; vm_compute; [discriminate|by intros []]).
  assert (forall q, x00 ∉ with_point k q) as Hq.
  { intros q. unfold with_point. destruct k; [done|]. rewrite elem_of_app, elem_of_cons.
    intros [?|[?|?]]; [by eapply Hz|done|]. by eapply pad_left_notin; [| |done]. }
  assert (forall s : bool, x00 ∉ if s then [x2d] else []) as Hs by (intros []; set_solver).
  destruct x as [s|s| |s m e]; cbn [fixed]; rewrite ?elem_of_app; try (intros [?|?]; [by eapply Hs|]); try by eapply Hq.
  - set_solver.
  - set_solver.
Qed.
