(* ===== verification/Stream.v ===== *)
(** * Standard streams

    The part of [std::istream], [std::ifstream] and [std::getline] the program uses, with the
    state bits of the C++ standard: an unformatted input function does nothing on a stream
    that is not [good()], a short read sets [eofbit] and [failbit], and [seekg] clears
    [eofbit] only.  A stream whose [failbit] is set therefore stays unreadable until
    [clear()].  A file's bytes do not change while it is open. *)

From S2P Require Import Prelude.
From stdpp Require Import options.

Record istream := IStream {
  sopen : bool;         (** whether there is a file behind the stream *)
  src : list byte;      (** the bytes of the file *)
  spos : Z;             (** the get position *)
  eofbit : bool;
  failbit : bool;
  badbit : bool }.

Definition good (s : istream) : bool := negb (eofbit s || failbit s || badbit s).
Definition eof (s : istream) : bool := eofbit s.
Definition fail (s : istream) : bool := failbit s || badbit s.
Definition bad (s : istream) : bool := badbit s.

(** A file opened for reading, and a stream whose [open] failed. *)
Definition open_stream (bytes : list byte) : istream := IStream true bytes 0 false false false.
Definition unopened : istream := IStream false [] 0 false true false.

(** A file of the file system: its bytes and whether it may be read. *)
Record file_entry := FileEntry { fbytes : list byte; freadable : bool }.

(** [f.open(path)] and [f.is_open()]. *)
Definition fopen (e : file_entry) : bool * istream :=
  if freadable e then (true, open_stream (fbytes e)) else (false, unopened).

Definition clear (s : istream) : istream := IStream (sopen s) (src s) (spos s) false false false.

(** The bytes from the get position on. *)
Definition rest (s : istream) : list byte := drop (Z.to_nat (spos s)) (src s).

(** [f.read(buf, n)]: the bytes stored in [buf], in number [gcount()], and the stream. *)
Definition read (s : istream) (n : nat) : list byte * istream :=
  if good s then
    let got := take n (rest s) in
    let short := (length got <? n)%nat in
    (got, IStream (sopen s) (src s) (spos s + Z.of_nat (length got)) short short false)
  else ([], IStream (sopen s) (src s) (spos s) (eofbit s) true (badbit s)).

(** [f.seekg(p)]: [eofbit] is cleared first; a failed stream is left where it is, a negative
    offset and a stream without a file fail, and a position past the end is legal. *)
Definition seekg (s : istream) (p : Z) : istream :=
  if fail s then IStream (sopen s) (src s) (spos s) false true (badbit s)
  else if (p <? 0) || negb (sopen s) then IStream (sopen s) (src s) (spos s) false true false
  else IStream (sopen s) (src s) p false false false.

(** [f.tellg()]: -1 when the stream has failed, or has hit end of file. *)
Definition tellg (s : istream) : Z * istream :=
  if good s then (spos s, s)
  else (-1, IStream (sopen s) (src s) (spos s) (eofbit s) true (badbit s)).

(** The characters up to the first newline, whether there was one, and the number of
    characters extracted (the newline counts). *)
Fixpoint line_of (l : list byte) : list byte * bool * Z :=
  match l with
  | [] => ([], false, 0)
  | c :: l' =>
      if decide (c = x0a) then ([], true, 1)
      else let '(ln, nl, n) := line_of l' in (c :: ln, nl, n + 1)
  end.

(** [std::getline(s, line)]: [line] is left alone when the stream is not good; end of file
    before a newline sets [eofbit], and [failbit] too when nothing was extracted. *)
Definition getline (s : istream) (line : list byte) : list byte * istream :=
  if good s then
    let '(ln, nl, n) := line_of (rest s) in
    (ln, IStream (sopen s) (src s) (spos s + n) (negb nl) (n =? 0) false)
  else (line, IStream (sopen s) (src s) (spos s) (eofbit s) true (badbit s)).

(** ** Lemmas *)

(** A good stream over [bytes] at position [p]. *)
Definition at_pos (bytes : list byte) (p : Z) (s : istream) : Prop :=
  s = IStream true bytes p false false false.

Lemma open_stream_at bytes : at_pos bytes 0 (open_stream bytes).
Proof. done. Qed.

Lemma read_full bytes p n got rst s :
  at_pos bytes p s -> 0 <= p ->
  drop (Z.to_nat p) bytes = got ++ rst -> length got = n ->
  read s n = (got, IStream true bytes (p + Z.of_nat n) false false false).
Proof.
  intros -> Hp Hd Hl. unfold read, rest, good. simpl. rewrite Hd.
  rewrite take_app_exact by done. rewrite Hl, Nat.ltb_irrefl. done.
Qed.

Lemma read_eof bytes p n s :
  at_pos bytes p s -> Z.of_nat (length bytes) <= p -> (0 < n)%nat ->
  read s n = ([], IStream true bytes p true true false).
Proof.
  intros -> Hp Hn. unfold read, rest, good. simpl. rewrite drop_ge by lia.
  rewrite take_nil. simpl. destruct (Nat.ltb_spec 0 n); [|lia]. by rewrite Z.add_0_r.
Qed.

Lemma read_failed s n : failbit s = true ->
  read s n = ([], IStream (sopen s) (src s) (spos s) (eofbit s) true (badbit s)).
Proof. intros Hf. unfold read, good. rewrite Hf. by rewrite orb_true_r. Qed.

(** What a short read leaves is the situation of the next lemma: [seekg] does not repair
    it. *)
Lemma seekg_failed s p : failbit s = true ->
  seekg s p = IStream (sopen s) (src s) (spos s) false true (badbit s).
Proof. intros Hf. unfold seekg, fail. by rewrite Hf. Qed.

Lemma seekg_good bytes q p s : at_pos bytes q s -> 0 <= p -> at_pos bytes p (seekg s p).
Proof. intros -> Hp. unfold seekg, fail. simpl. by destruct (Z.ltb_spec p 0); [lia|]. Qed.

Lemma seekg_eof bytes q p b s :
  s = IStream true bytes q b false false -> 0 <= p -> at_pos bytes p (seekg s p).
Proof. intros -> Hp. unfold seekg, fail. simpl. by destruct (Z.ltb_spec p 0); [lia|]. Qed.

Lemma line_of_spec l :
  let '(ln, nl, n) := line_of l in
  if nl then exists l', l = ln ++ x0a :: l' /\ x0a ∉ ln /\ n = Z.of_nat (length ln) + 1
  else l = ln /\ x0a ∉ ln /\ n = Z.of_nat (length ln).
Proof.
  induction l as [|c l IH]; simpl; [set_solver|].
  case_decide as Hc.
  - exists l. set_solver.
  - destruct (line_of l) as [[ln nl] n]. destruct nl.
    + destruct IH as (l' & -> & ? & ->). exists l'. simpl. split; [done|]. split; [set_solver|lia].
    + destruct IH as (-> & ? & ->). simpl. split; [done|]. split; [set_solver|lia].
Qed.

(** *** Lines *)

(** The lines of a text: the pieces between its newlines, the last one possibly empty. *)
Fixpoint lines (t : list byte) : list (list byte) :=
  match t with
  | [] => [[]]
  | c :: t =>
      if decide (c = x0a) then [] :: lines t
      else match lines t with [] => [[c]] | l :: ls => (c :: l) :: ls end
  end.

(** A stream whose [getline]s still have to return exactly these lines. *)
Definition has_lines (f : istream) (ls : list (list byte)) : Prop :=
  badbit f = false /\
  match ls with
  | [] => eofbit f = true
  | _ => good f = true /\ 0 <= spos f /\ lines (rest f) = ls
  end.

Lemma lines_cons t : exists l ls, lines t = l :: ls.
Proof. destruct t as [|c t]; simpl; [by eexists _, _|]. case_decide; [eauto|]. destruct (lines t); eauto. Qed.

(** A line and its newline. *)
Lemma lines_app l t : x0a ∉ l -> lines (l ++ x0a :: t) = l :: lines t.
Proof.
  induction l as [|c l IH]; intros Hl; [done|]. apply not_elem_of_cons in Hl as [Hc Hl]. cbn [app lines].
  rewrite decide_False by done. by rewrite IH.
Qed.

Lemma lines_line_of t :
  lines t = let '(ln, nl, n) := line_of t in ln :: if nl then lines (drop (Z.to_nat n) t) else [].
Proof.
  induction t as [|c t IH]; [done|]. cbn [lines line_of].
  case_decide; [done|]. rewrite IH. pose proof (line_of_spec t) as Hs.
  destruct (line_of t) as [[ln nl] n]. assert (0 <= n) by (destruct nl; [destruct Hs as (?&?&?&?)|destruct Hs as (?&?&?)]; lia).
  by replace (Z.to_nat (n + 1)) with (S (Z.to_nat n)) by lia.
Qed.

Lemma open_stream_lines t : has_lines (open_stream t) (lines t).
Proof. split; [done|]. destruct (lines_cons t) as (l & ls & E). rewrite E. unfold rest. simpl. by rewrite drop_0. Qed.

Lemma good_bits f : good f = true -> eofbit f = false /\ failbit f = false /\ badbit f = false.
Proof. unfold good. destruct (eofbit f), (failbit f), (badbit f); done. Qed.

(** [getline] takes the lines one after the other; end of file is set with the last one. *)
Lemma getline_lines f l ls line :
  has_lines f (l :: ls) -> exists f', getline f line = (l, f') /\ has_lines f' ls /\ src f' = src f.
Proof.
  intros (Hb & Hg & Hp & Hl). unfold getline. rewrite Hg. rewrite lines_line_of in Hl.
  pose proof (line_of_spec (rest f)) as Hs. destruct (line_of (rest f)) as [[ln nl] n].
  simplify_eq. eexists. split; [done|]. split; [|done]. split; [done|].
  destruct nl; [|done]. destruct Hs as (l' & Hr & _ & ->).
  destruct (lines_cons (drop (Z.to_nat (Z.of_nat (length l) + 1)) (rest f))) as (l1 & ls1 & Hls).
  rewrite Hls. split_and!.
  - unfold good. simpl. rewrite (proj2 (Z.eqb_neq _ _)) by lia. done.
  - simpl. lia.
  - rewrite <- Hls. unfold rest. simpl. rewrite drop_drop. do 2 f_equal. lia.
Qed.

Lemma has_lines_eof f ls : has_lines f ls -> eof f = bool_decide (ls = []).
Proof.
  destruct ls as [|l ls]; intros [_ H]; [done|]. destruct H as [(H & _)%good_bits _]. done.
Qed.

(** *** Sequential reading *)

(** A stream whose reads still have to return these bytes. *)
Definition has_rest (f : istream) (l : list byte) : Prop := good f = true /\ 0 <= spos f /\ rest f = l.

Lemma open_stream_rest l : has_rest (open_stream l) l.
Proof. split; [done|]. split; [done|]. unfold rest. simpl. by rewrite drop_0. Qed.

Lemma has_rest_eof f l : has_rest f l -> eof f = false.
Proof. intros ((H & _)%good_bits & _). done. Qed.

(** A read that is served in full. *)
Lemma read_rest f a l n :
  has_rest f (a ++ l) -> length a = n -> exists f', read f n = (a, f') /\ has_rest f' l.
Proof.
  intros (Hg & Hp & Hr) Hl. unfold read. rewrite Hg, Hr, take_app_exact by done.
  rewrite Hl, Nat.ltb_irrefl. eexists. split; [done|]. split; [done|]. split; [simpl; lia|].
  unfold rest in *. simpl. rewrite Z2Nat.inj_add, Nat2Z.id by lia. rewrite <- drop_drop, Hr.
  by apply drop_app_exact.
Qed.

(** A read past the end sets end of file. *)
Lemma read_short f l n :
  has_rest f l -> (length l < n)%nat -> exists f', read f n = (l, f') /\ eof f' = true.
Proof.
  intros (Hg & Hp & Hr) Hl. unfold read. rewrite Hg, Hr, take_ge by lia. eexists. split; [done|].
  unfold eof. simpl. by apply Nat.ltb_lt.
Qed.
