(* ===== verification/Util.v ===== *)
(** * pwned-lib/util.cpp: hexadecimal decoding, population count, terminal flags, [string_format]

    The hexadecimal decoder is shared by [Hash::fromHex] and by the reader of [$HEX[...]]
    passwords; [popcnt64] (the portable version, compiled under [NO_POPCNT], which the build
    sets by default) recovers the width of an index from its number of keys. *)

From S2P Require Import Prelude.
From stdpp Require Import options.

(** ** decodeHex *)

Definition decodeHex (c : byte) : Z :=
  let c := schar c in
  if (schar "0" <=? c) && (c <=? schar "9") then c - schar "0"
  else if (schar "a" <=? c) && (c <=? schar "f") then c - schar "a" + 10
  else if (schar "A" <=? c) && (c <=? schar "F") then c - schar "A" + 10
  else -1.

(** ** hexToCharSeq

    The loop over [seq.at(i)], [seq.at(i + 1)]: [result] keeps what was decoded before the
    first bad pair. *)
Fixpoint hexToCharSeq_loop (seq result : list byte) : bool * list byte :=
  match seq with
  | c1 :: c2 :: seq' =>
      let hi := decodeHex c1 in
      let lo := decodeHex c2 in
      if (0 <=? lo) && (0 <=? hi)
      then hexToCharSeq_loop seq' (result ++ [byte.of_Z (hi * 16 + lo)])
      else (false, result)
  | _ => (true, result)
  end.

(** The return value and the [result] argument, which is cleared first. *)
Definition hexToCharSeq (seq : list byte) : bool * list byte :=
  if Nat.even (length seq) then hexToCharSeq_loop seq [] else (true, []).

(** ** Hexadecimal output: what [std::hex] and [std::uppercase] print *)

Definition hexDigit (uppercase : bool) (d : Z) : byte :=
  byte.of_Z (if d <? 10 then schar "0" + d
             else (if uppercase then schar "A" else schar "a") + (d - 10)).

(** Digits of [z], most significant first, no leading zero except for 0 itself. *)
Fixpoint hexDigits (fuel : nat) (uppercase : bool) (z : Z) : list byte :=
  match fuel with
  | O => []
  | S fuel =>
      if z <? 16 then [hexDigit uppercase z]
      else hexDigits fuel uppercase (z / 16) ++ [hexDigit uppercase (z mod 16)]
  end.

(** [os << std::setw(w) << std::setfill('0') << std::hex << z] for a value of at most
    [w] digits or more: shorter numbers are padded on the left. *)
Definition hexOut (w : nat) (uppercase : bool) (z : Z) : list byte :=
  let ds := hexDigits 16 uppercase z in
  replicate (w - length ds) ("0"%byte) ++ ds.

(** ** popcnt64, the portable implementation *)

Definition popcnt_m1 : Z := 0x5555555555555555.
Definition popcnt_m2 : Z := 0x3333333333333333.
Definition popcnt_m4 : Z := 0x0f0f0f0f0f0f0f0f.
Definition popcnt_h01 : Z := 0x0101010101010101.

Definition popcnt64 (x : Z) : Z :=
  let x := u64 (x - Z.land (Z.shiftr x 1) popcnt_m1) in
  let x := u64 (Z.land x popcnt_m2 + Z.land (Z.shiftr x 2) popcnt_m2) in
  let x := Z.land (u64 (x + Z.shiftr x 4)) popcnt_m4 in
  u32 (Z.shiftr (u64 (x * popcnt_h01)) 56).

(** ** The terminal: [TermIO] and [setStdinEcho]

    The state is the [c_lflag] word of standard input; [tcflag_t] is an unsigned 32-bit
    integer and the flag values come from [<termios.h>]. *)
Section TermIO.
Variables ICANON ECHO ISIG : Z.

(** [tcflag_t(~F)] *)
Definition tcflag_not (f : Z) : Z := u32 (Z.lnot f).

Definition disableEcho (c_lflag : Z) : Z :=
  Z.land (Z.land c_lflag (tcflag_not ICANON)) (tcflag_not ECHO).
Definition enableEcho (c_lflag : Z) : Z :=
  Z.lor (Z.lor c_lflag ICANON) (tcflag_not ECHO).
Definition disableBreak (c_lflag : Z) : Z := Z.land c_lflag (tcflag_not ISIG).
Definition enableBreak (c_lflag : Z) : Z := Z.lor c_lflag ISIG.
Definition setStdinEcho (enable : bool) (c_lflag : Z) : Z :=
  if negb enable then Z.land c_lflag (tcflag_not ECHO) else Z.lor c_lflag ECHO.
End TermIO.

(** [TermIO::TermIO] saves the terminal state and [TermIO::~TermIO] writes it back. *)
Record TermIO := MkTermIO { old_t : Z }.
Definition TermIO_ctor (c_lflag : Z) : TermIO := MkTermIO c_lflag.
Definition TermIO_dtor (t : TermIO) (c_lflag : Z) : Z := old_t t.

(** ** string_format: the buffer-growing loop around [vsnprintf]

    [formatted] is the whole text of the call; [vsnprintf] reports its length and fills a
    buffer of [n] bytes with its first [n - 1] characters and a terminating NUL.  The result
    is read back as a C string. *)
Fixpoint c_str (l : list byte) : list byte :=
  match l with
  | [] => []
  | c :: l' => if decide (c = x00) then [] else c :: c_str l'
  end.

Fixpoint string_format_loop (fuel : nat) (n : Z) (formatted : list byte) : option (list byte) :=
  match fuel with
  | O => None
  | S fuel =>
      let final_n := Z.of_nat (length formatted) in
      if (final_n <? 0) || (n <=? final_n)
      then string_format_loop fuel (n + Z.abs (final_n - n + 1)) formatted
      else Some (c_str (take (Z.to_nat (n - 1)) formatted))
  end.

Definition string_format (fmt_size : Z) (formatted : list byte) : option (list byte) :=
  string_format_loop 2 (2 * fmt_size) formatted.

(** ** Reference functions *)

(** Hexadecimal text of a byte sequence, two digits per byte. *)
Definition hexEncode (uppercase : bool) (l : list byte) : list byte :=
  concat ((fun b => [hexDigit uppercase (byte.unsigned b / 16);
                     hexDigit uppercase (byte.unsigned b mod 16)]) <$> l).

(** The [w] low hexadecimal digits of [z], most significant first. *)
Fixpoint hexFixed (w : nat) (uppercase : bool) (z : Z) : list byte :=
  match w with
  | O => []
  | S w => hexFixed w uppercase (z / 16) ++ [hexDigit uppercase (z mod 16)]
  end.

(** Number of one bits among the [n] low bits of [z]. *)
Fixpoint popcount (n : nat) (z : Z) : Z :=
  match n with
  | O => 0
  | S n => z mod 2 + popcount n (z / 2)
  end.

(** Base-256 value of a list of digits, least significant first. *)
Definition digits_val (l : list Z) : Z := foldr (fun d v => d + 256 * v) 0 l.

(** ** Hexadecimal lemmas *)

Lemma decodeHex_range c : -1 <= decodeHex c <= 15.
Proof. destruct c; vm_compute; split; discriminate. Qed.

Lemma decodeHex_hexDigit u d : 0 <= d < 16 -> decodeHex (hexDigit u d) = d.
Proof.
  intros Hd. apply Z.eqb_eq.
  apply (Z_range_check (fun d => decodeHex (hexDigit u d) =? d) 16); [|done].
  by destruct u; vm_compute.
Qed.
#[export] Hint Rewrite decodeHex_hexDigit using lia : pwned_le.

Lemma length_hexFixed w u z : length (hexFixed w u z) = w.
Proof. revert z. induction w as [|w IH]; intros z; simpl; [done|]. rewrite length_app, IH. simpl. lia. Qed.

Lemma hexFixed_0 w u : hexFixed w u 0 = replicate w ("0"%byte).
Proof.
  induction w as [|w IH]; [done|]. cbn [hexFixed].
  rewrite Z.div_0_l, Z.mod_0_l, IH by lia.
  replace (hexDigit u 0) with "0"%byte by (by destruct u).
  by rewrite <- replicate_S_end.
Qed.

Lemma hexDigits_pad fuel w u z :
  (1 <= w <= fuel)%nat -> 0 <= z < 16 ^ Z.of_nat w ->
  replicate (w - length (hexDigits fuel u z)) ("0"%byte) ++ hexDigits fuel u z = hexFixed w u z.
Proof.
  revert w z. induction fuel as [|fuel IH]; intros w z Hw Hz; [lia|].
  destruct w as [|w]; [lia|]. simpl. destruct (Z.ltb_spec z 16).
  - simpl. rewrite Nat.sub_0_r, Z.div_small, Z.mod_small, hexFixed_0 by lia. done.
  - rewrite Nat2Z.inj_succ, Z.pow_succ_r in Hz by lia. destruct w as [|w]; [simpl in Hz; lia|].
    rewrite length_app. simpl length. rewrite app_assoc.
    replace (S (S w) - (length (hexDigits fuel u (z / 16)) + 1))%nat
      with (S w - length (hexDigits fuel u (z / 16)))%nat by lia.
    rewrite IH; [done|lia|]. split; [dlia|]. apply Z.div_lt_upper_bound; lia.
Qed.

(** [std::setw(16) << std::setfill('0') << std::hex] prints all sixteen digits of a 64-bit
    value. *)
Lemma hexOut_fixed w u z :
  (1 <= w <= 16)%nat -> 0 <= z < 16 ^ Z.of_nat w -> hexOut w u z = hexFixed w u z.
Proof. apply hexDigits_pad. Qed.

Lemma hexFixed_le_split n u z :
  0 <= z -> hexFixed (2 * n) u z = hexEncode u (rev (le_split n z)).
Proof.
  revert z. induction n as [|n IH]; intros z Hz; [done|].
  replace (2 * S n)%nat with (S (S (2 * n))) by lia. cbn [hexFixed].
  change (le_split (S n) z) with (byte.of_Z z :: le_split n (Z.shiftr z 8)).
  replace (z / 16 / 16) with (Z.shiftr z 8) by (rewrite Z.shiftr_div_pow2 by lia; dlia).
  rewrite IH by (rewrite Z.shiftr_div_pow2 by lia; dlia). unfold hexEncode.
  cbn [rev]. rewrite fmap_app, concat_app, <- app_assoc. csimpl.
  rewrite byte.unsigned_of_Z. unfold byte.wrap. change (2 ^ 8) with 256.
  replace (z mod 256 / 16) with (z / 16 mod 16) by dlia.
  by replace (z mod 256 mod 16) with (z mod 16) by dlia.
Qed.

Lemma hexToCharSeq_loop_encode u l acc :
  hexToCharSeq_loop (hexEncode u l) acc = (true, acc ++ l).
Proof.
  revert acc. induction l as [|b l IH]; intros acc; [by rewrite app_nil_r|].
  unfold hexEncode in *. csimpl. pose proof (byte.unsigned_range b).
  rewrite !decodeHex_hexDigit by dlia. bool_cases; try dlia. simpl.
  rewrite IH, <- app_assoc. simpl. do 3 f_equal.
  rewrite <- (byte.of_Z_unsigned b) at 3. f_equal. dlia.
Qed.

Lemma length_hexEncode u l : length (hexEncode u l) = (2 * length l)%nat.
Proof. apply length_concat_width. done. Qed.

Lemma hexEncode_even u l : Nat.even (length (hexEncode u l)) = true.
Proof. rewrite length_hexEncode. apply Nat.even_even. Qed.

(** ** Population count lemmas: the word is treated byte by byte *)

Section popcnt.
Implicit Types b hi m M : Z.

Lemma popcount_split k n b hi :
  0 <= b < 2 ^ Z.of_nat k ->
  popcount (k + n) (b + 2 ^ Z.of_nat k * hi) = popcount k b + popcount n hi.
Proof.
  revert b. induction k as [|k IH]; intros b Hb.
  - change (2 ^ Z.of_nat 0) with 1 in *. replace b with 0 by lia. simpl.
    by replace (0 + 1 * hi) with hi by lia.
  - rewrite Nat2Z.inj_succ, Z.pow_succ_r in * by lia. simpl.
    replace ((b + 2 * 2 ^ Z.of_nat k * hi) / 2) with (b / 2 + 2 ^ Z.of_nat k * hi)
      by (replace (2 * 2 ^ Z.of_nat k * hi) with (2 ^ Z.of_nat k * hi * 2) by lia;
          rewrite Z.div_add by lia; lia).
    rewrite IH by (split; [dlia|apply Z.div_lt_upper_bound; lia]).
    replace (2 * 2 ^ Z.of_nat k * hi) with (2 ^ Z.of_nat k * hi * 2) by lia.
    rewrite Z.mod_add by lia. lia.
Qed.

Lemma popcount_byte n b hi :
  0 <= b < 256 -> popcount (8 + n) (b + 256 * hi) = popcount 8 b + popcount n hi.
Proof. apply (popcount_split 8). Qed.

Lemma land_mod_pow2 k x y : 0 <= k -> Z.land x y mod 2 ^ k = Z.land (x mod 2 ^ k) (y mod 2 ^ k).
Proof.
  intros Hk. rewrite <- !Z.land_ones by done. apply Z.bits_inj. intros i.
  rewrite !Z.land_spec. by destruct (Z.testbit x i), (Z.testbit y i), (Z.testbit (Z.ones k) i).
Qed.

Lemma land_byte b hi m M :
  0 <= b < 256 -> 0 <= m < 256 ->
  Z.land (b + 256 * hi) (m + 256 * M) = Z.land b m + 256 * Z.land hi M.
Proof.
  intros Hb Hm. set (X := b + 256 * hi). set (Y := m + 256 * M).
  rewrite (Z.div_mod (Z.land X Y) (2 ^ 8)) by lia.
  rewrite land_mod_pow2 by lia. rewrite <- (Z.shiftr_div_pow2 (Z.land X Y)) by lia.
  rewrite Z.shiftr_land, !Z.shiftr_div_pow2 by lia. change (2 ^ 8) with 256. subst X Y.
  replace ((b + 256 * hi) mod 256) with b by dlia.
  replace ((m + 256 * M) mod 256) with m by dlia.
  replace ((b + 256 * hi) / 256) with hi by dlia.
  replace ((m + 256 * M) / 256) with M by dlia. lia.
Qed.

(** Masking and shifting act on each byte alone, as long as the mask hides the bits that
    move in from the next byte. *)
Lemma land_shiftr_byte k b hi m M :
  (k = 1 \/ k = 2 \/ k = 4) -> 0 <= b < 256 -> 0 <= m < 2 ^ (8 - k) ->
  Z.land (Z.shiftr (b + 256 * hi) k) (m + 256 * M) =
  Z.land (Z.shiftr b k) m + 256 * Z.land (Z.shiftr hi k) M.
Proof.
  intros Hk Hb Hm. rewrite !Z.shiftr_div_pow2 by lia.
  assert (Hshift : (b + 256 * hi) / 2 ^ k =
    (b / 2 ^ k + 2 ^ (8 - k) * (hi mod 2 ^ k)) + 256 * (hi / 2 ^ k)).
  { destruct Hk as [-> | [-> | ->]]; cbn -[Z.mul Z.div Z.modulo Z.add]; dlia. }
  assert (Hlow : Z.land (b / 2 ^ k + 2 ^ (8 - k) * (hi mod 2 ^ k)) m = Z.land (b / 2 ^ k) m).
  { rewrite <- (Z.mod_small m (2 ^ (8 - k))) by done.
    rewrite <- !(Z.land_ones m) by lia. rewrite !(Z.land_comm m), !Z.land_assoc.
    rewrite !Z.land_ones by lia. f_equal.
    destruct Hk as [-> | [-> | ->]]; cbn -[Z.mul Z.div Z.modulo Z.add]; dlia. }
  rewrite Hshift, land_byte, Hlow; [done| |].
  - destruct Hk as [-> | [-> | ->]]; cbn -[Z.mul Z.div Z.modulo Z.add]; dlia.
  - destruct Hk as [-> | [-> | ->]]; cbn -[Z.mul Z.div Z.modulo Z.add] in Hm; lia.
Qed.

(** What the three steps do to one byte. *)
Definition pop_f1 b : Z := b - Z.land (Z.shiftr b 1) 0x55.
Definition pop_f2 b : Z := Z.land b 0x33 + Z.land (Z.shiftr b 2) 0x33.
Definition pop_f3 b : Z := Z.land (b + Z.shiftr b 4) 0x0f.

Definition is_byte b : Prop := 0 <= b < 256.
Definition small_nibbles b : Prop := 0 <= b / 16 <= 4 /\ 0 <= b mod 16 <= 4.

Lemma pop_f1_byte b : is_byte b -> is_byte (pop_f1 b).
Proof.
  intros Hb. apply (Z_range_check (fun b => (0 <=? pop_f1 b) && (pop_f1 b <? 256)) 256) in Hb;
    [unfold is_byte; lia|by vm_compute].
Qed.

Lemma pop_f2_nibbles b : is_byte b -> small_nibbles (pop_f2 (pop_f1 b)).
Proof.
  intros Hb. apply (Z_range_check (fun b => let c := pop_f2 (pop_f1 b) in
    (0 <=? c / 16) && (c / 16 <=? 4) && (0 <=? c mod 16) && (c mod 16 <=? 4)) 256) in Hb;
    [cbv beta zeta in Hb; unfold small_nibbles; lia|by vm_compute].
Qed.

Lemma pop_f3_count b : is_byte b -> pop_f3 (pop_f2 (pop_f1 b)) = popcount 8 b.
Proof.
  intros Hb. apply (Z_range_check
    (fun b => pop_f3 (pop_f2 (pop_f1 b)) =? popcount 8 b) 256) in Hb; [lia|by vm_compute].
Qed.

Lemma popcount_8_bound b : 0 <= popcount 8 b <= 8.
Proof. cbn [popcount]. dlia. Qed.

Lemma digits_val_range ds : Forall is_byte ds -> 0 <= digits_val ds < 256 ^ Z.of_nat (length ds).
Proof.
  induction 1 as [|d ds Hd _ IH]; [done|]. cbn [length digits_val foldr].
  rewrite Nat2Z.inj_succ, Z.pow_succ_r by lia. unfold is_byte, digits_val in *. lia.
Qed.

Lemma digits_val_half ds :
  Forall small_nibbles ds -> 2 * digits_val ds <= 256 ^ Z.of_nat (length ds) - 1.
Proof.
  induction 1 as [|d ds Hd _ IH]; [done|]. cbn [length digits_val foldr].
  rewrite Nat2Z.inj_succ, Z.pow_succ_r by lia. unfold small_nibbles, digits_val in *. dlia.
Qed.

Lemma pop_step1 ds :
  Forall is_byte ds ->
  digits_val ds - Z.land (Z.shiftr (digits_val ds) 1) (digits_val (replicate (length ds) 0x55))
  = digits_val (pop_f1 <$> ds).
Proof.
  induction 1 as [|b ds Hb _ IH]; [done|]. csimpl.
  rewrite land_shiftr_byte by (unfold is_byte in *; lia). rewrite <- IH. unfold pop_f1. lia.
Qed.

Lemma pop_step2 ds :
  Forall is_byte ds ->
  Z.land (digits_val ds) (digits_val (replicate (length ds) 0x33)) +
  Z.land (Z.shiftr (digits_val ds) 2) (digits_val (replicate (length ds) 0x33))
  = digits_val (pop_f2 <$> ds).
Proof.
  induction 1 as [|b ds Hb _ IH]; [done|]. csimpl.
  rewrite land_shiftr_byte, land_byte by (unfold is_byte in *; lia).
  rewrite <- IH. unfold pop_f2. lia.
Qed.

Lemma pop_step3 ds :
  Forall small_nibbles ds ->
  Z.land (digits_val ds + Z.shiftr (digits_val ds) 4) (digits_val (replicate (length ds) 0x0f))
  = digits_val (pop_f3 <$> ds).
Proof.
  induction 1 as [|b ds Hb Hds IH]; [done|]. csimpl.
  set (W := digits_val ds) in *. rewrite !Z.shiftr_div_pow2 in * by lia.
  unfold pop_f3 at 1. rewrite Z.shiftr_div_pow2 by lia. change (2 ^ 4) with 16 in *.
  assert (0 <= W mod 16 <= 4).
  { subst W. destruct Hds as [|c ds Hc _]; [done|]. cbn [digits_val foldr].
    unfold small_nibbles in Hc. dlia. }
  unfold small_nibbles in Hb.
  replace (b + 256 * W + (b + 256 * W) / 16)
    with ((b + b / 16 + 16 * (W mod 16)) + 256 * (W + W / 16)) by dlia.
  rewrite land_byte by dlia. rewrite IH. f_equal.
  change 0x0f with (Z.ones 4). rewrite !Z.land_ones by lia. change (2 ^ 4) with 16. dlia.
Qed.

Lemma popcount_digits ds :
  Forall is_byte ds -> popcount (8 * length ds) (digits_val ds) = sum_Z (popcount 8 <$> ds).
Proof.
  induction 1 as [|b ds Hb _ IH]; [done|].
  replace (8 * length (b :: ds))%nat with (8 + 8 * length ds)%nat by (simpl; lia).
  cbn [digits_val foldr]. rewrite popcount_byte by done. unfold digits_val in IH. rewrite IH. done.
Qed.

Lemma digits_exist n x : 0 <= x < 256 ^ Z.of_nat n ->
  exists ds, Forall is_byte ds /\ length ds = n /\ x = digits_val ds.
Proof.
  revert x. induction n as [|n IH]; intros x Hx.
  { exists []. split; [constructor|]. split; [done|]. simpl in *. lia. }
  rewrite Nat2Z.inj_succ, Z.pow_succ_r in Hx by lia.
  destruct (IH (x / 256)) as (ds & Hds & Hl & Hv).
  { split; [dlia|]. apply Z.div_lt_upper_bound; lia. }
  exists (x mod 256 :: ds). split; [constructor; [unfold is_byte; dlia|done]|].
  split; [simpl; lia|]. cbn [digits_val foldr]. unfold digits_val in Hv. dlia.
Qed.

(** The multiplication by [h01] adds the eight byte counts in the top byte. *)
Lemma pop_step4 cs :
  length cs = 8%nat -> Forall (fun c => 0 <= c <= 8) cs ->
  u32 (Z.shiftr (u64 (digits_val cs * popcnt_h01)) 56) = sum_Z cs.
Proof.
  intros Hl Hcs. destruct cs as [|a [|b [|c [|d [|e [|f [|g [|h [|? ?]]]]]]]]]; try done.
  rewrite !Forall_cons in Hcs. destruct_and!. clear Hl.
  unfold digits_val, sum_Z. cbn [foldr].
  set (S := a + (b + (c + (d + (e + (f + (g + (h + 0)))))))).
  set (L := a + 256 * (a + b) + 256 ^ 2 * (a + b + c) + 256 ^ 3 * (a + b + c + d) +
    256 ^ 4 * (a + b + c + d + e) + 256 ^ 5 * (a + b + c + d + e + f) +
    256 ^ 6 * (a + b + c + d + e + f + g)).
  set (H := (b + c + d + e + f + g + h) + 256 * (c + d + e + f + g + h) +
    256 ^ 2 * (d + e + f + g + h) + 256 ^ 3 * (e + f + g + h) + 256 ^ 4 * (f + g + h) +
    256 ^ 5 * (g + h) + 256 ^ 6 * h).
  match goal with |- context [?x * popcnt_h01] =>
    replace (x * popcnt_h01) with ((2 ^ 56 * S + L) + H * 2 ^ 64)
      by (subst S L H; unfold popcnt_h01; ring) end.
  assert (0 <= S <= 64) by (subst S; lia). assert (0 <= L < 2 ^ 56) by (subst L; lia).
  clearbody S L H. unfold u64. rewrite Z.mod_add, Z.mod_small by lia.
  rewrite Z.shiftr_div_pow2 by lia. rewrite Z.mul_comm, Z.div_add_l, Z.div_small by lia.
  rewrite Z.add_0_r. apply u32_small. lia.
Qed.

Lemma popcnt64_digits ds :
  length ds = 8%nat -> Forall is_byte ds ->
  popcnt64 (digits_val ds) = sum_Z (popcount 8 <$> ds).
Proof.
  intros Hl Hds. unfold popcnt64. set (cnt := popcount 8 <$> ds).
  assert (Hf1 : Forall is_byte (pop_f1 <$> ds)) by
    (rewrite Forall_fmap; eapply Forall_impl; [done|]; apply pop_f1_byte).
  assert (Hf2 : Forall small_nibbles (pop_f2 <$> (pop_f1 <$> ds))) by
    (rewrite !Forall_fmap; eapply Forall_impl; [done|]; apply pop_f2_nibbles).
  assert (Hf2b : Forall is_byte (pop_f2 <$> (pop_f1 <$> ds))) by
    (eapply Forall_impl; [done|]; unfold small_nibbles, is_byte; intros; dlia).
  pose proof (digits_val_range _ Hf1) as Hr1. pose proof (digits_val_range _ Hf2b) as Hr2.
  rewrite !length_fmap, Hl in Hr1. rewrite !length_fmap in Hr2. rewrite Hl in Hr2.
  change popcnt_m1 with (digits_val (replicate 8 0x55)). rewrite <- Hl.
  rewrite pop_step1, (u64_small (digits_val (pop_f1 <$> ds))) by (done || lia).
  change popcnt_m2 with (digits_val (replicate 8 0x33)). rewrite <- Hl.
  rewrite <- (length_fmap pop_f1 ds), pop_step2 by done.
  rewrite (u64_small (digits_val (pop_f2 <$> _))) by lia.
  pose proof (digits_val_half _ Hf2) as Hh. rewrite !length_fmap, Hl in Hh.
  rewrite (u64_small (_ + _)) by (rewrite Z.shiftr_div_pow2 by lia; change (2 ^ 4) with 16; dlia).
  change popcnt_m4 with (digits_val (replicate 8 0x0f)). rewrite <- Hl.
  rewrite <- (length_fmap pop_f1 ds), <- (length_fmap pop_f2 (pop_f1 <$> ds)), pop_step3 by done.
  replace (pop_f3 <$> (pop_f2 <$> (pop_f1 <$> ds))) with cnt; subst cnt.
  - apply pop_step4; [by rewrite length_fmap|]. rewrite Forall_fmap.
    apply Forall_true. intros. apply popcount_8_bound.
  - rewrite <- !list_fmap_compose. apply list_fmap_ext. intros i b Hb.
    symmetry. apply pop_f3_count. rewrite Forall_forall in Hds. eapply Hds, list_elem_of_lookup_2, Hb.
Qed.
End popcnt.

(** A pair that is not hexadecimal stops the decoder with [false]; the bytes decoded before it
    stay in [result]. *)
Lemma hexToCharSeq_stops u l c1 c2 tl :
  decodeHex c1 = -1 \/ decodeHex c2 = -1 -> Nat.even (length tl) = true ->
  hexToCharSeq (hexEncode u l ++ c1 :: c2 :: tl) = (false, l).
Proof.
  intros Hbad Htl. unfold hexToCharSeq.
  assert (Nat.even (length (hexEncode u l ++ c1 :: c2 :: tl)) = true) as ->.
  { rewrite length_app, Nat.even_add, hexEncode_even. simpl. by rewrite Htl. }
  change l with ([] ++ l) at 2. generalize (@nil byte). induction l as [|b l IH]; intros acc.
  - simpl. pose proof (decodeHex_range c1). pose proof (decodeHex_range c2).
    rewrite app_nil_r. bool_cases; done.
  - unfold hexEncode in *. csimpl. pose proof (byte.unsigned_range b).
    rewrite !decodeHex_hexDigit by dlia. bool_cases; try dlia. simpl.
    replace (byte.of_Z (byte.unsigned b / 16 * 16 + byte.unsigned b mod 16)) with b
      by (rewrite <- (byte.of_Z_unsigned b) at 1; f_equal; dlia).
    rewrite IH, <- app_assoc. done.
Qed.

(** ** Properties *)

(** C37: the branch-free population count of [util.cpp] (the [NO_POPCNT] build) returns the
    number of one bits of every 64-bit word. *)
Theorem popcnt64_correct x : in_u64 x -> popcnt64 x = popcount 64 x.
Proof.
  intros Hx. destruct (digits_exist 8 x) as (ds & Hds & Hl & ->); [lia|].
  rewrite popcnt64_digits by done. symmetry.
  replace 64%nat with (8 * length ds)%nat by lia. by apply popcount_digits.
Qed.

Lemma popcnt64_correct_witness : popcnt64 0xffff0000ffff0000 = 32.
Proof. rewrite popcnt64_correct; [vm_compute; reflexivity | lia]. Defined.

(** decoding the hexadecimal text of any byte sequence, in either case, succeeds and
    gives the bytes back. *)
Theorem hexToCharSeq_roundtrip u l : hexToCharSeq (hexEncode u l) = (true, l).
Proof. unfold hexToCharSeq. rewrite hexEncode_even. apply hexToCharSeq_loop_encode. Qed.

(** the loop of [string_format] ends after at most one reallocation and returns the
    whole formatted text, when that text holds no NUL. *)
Theorem string_format_total fmt_size formatted :
  0 <= fmt_size -> x00 ∉ formatted -> string_format fmt_size formatted = Some formatted.
Proof.
  intros Hf Hnul. unfold string_format.
  assert (Hc : c_str formatted = formatted).
  { clear Hf. induction formatted as [|c l IH]; simpl; [done|].
    rewrite decide_False by set_solver. f_equal. set_solver. }
  cbn [string_format_loop]. set (L := Z.of_nat (length formatted)).
  destruct (Z.ltb_spec L 0); [lia|]. destruct (Z.leb_spec (2 * fmt_size) L); simpl.
  - destruct (Z.leb_spec (2 * fmt_size + Z.abs (L - 2 * fmt_size + 1)) L); [lia|].
    rewrite take_ge by lia. by rewrite Hc.
  - rewrite take_ge by lia. by rewrite Hc.
Qed.

Lemma string_format_total_witness : string_format 5 (bs "99.5 MB and more") = Some (bs "99.5 MB and more").
Proof. apply string_format_total; [lia | vm_compute; set_solver]. Defined.

Section TermIO_properties.
Context (ICANON ECHO ISIG : Z).
Context (HICANON : in_u32 ICANON) (HECHO : in_u32 ECHO) (HISIG : in_u32 ISIG).

Lemma land_tcflag_not f : in_u32 f -> Z.land (tcflag_not f) f = 0.
Proof.
  intros Hf. unfold tcflag_not, u32. rewrite <- Z.land_ones by lia.
  apply Z.bits_inj'. intros i Hi. rewrite Z.bits_0, !Z.land_spec, Z.lnot_spec by done.
  destruct (Z.testbit f i); [by rewrite andb_false_l|by rewrite andb_false_r].
Qed.

(** [TermIO::enableEcho] ors [~ECHO] into the flags instead of [ECHO]: on a terminal
    whose echo is off it stays off. *)
Theorem enableEcho_leaves_echo_off c_lflag :
  Z.land ICANON ECHO = 0 -> Z.land c_lflag ECHO = 0 ->
  Z.land (enableEcho ICANON ECHO c_lflag) ECHO = 0.
Proof using HECHO.
  intros Hd Hoff. unfold enableEcho.
  by rewrite !Z.land_lor_distr_l, Hd, Hoff, land_tcflag_not.
Qed.

(** [disableBreak] followed by [enableBreak] gives the flags back when signals were
    enabled, and [setStdinEcho(false)] followed by [setStdinEcho(true)] does the same for
    echo. *)
Theorem setStdinEcho_restores c_lflag :
  in_u32 c_lflag -> Z.land c_lflag ECHO = ECHO -> Z.land c_lflag ISIG = ISIG ->
  setStdinEcho ECHO true (setStdinEcho ECHO false c_lflag) = c_lflag /\
  enableBreak ISIG (disableBreak ISIG c_lflag) = c_lflag.
Proof using HECHO HISIG.
  intros Hr He Hi. assert (Hrest : forall f, in_u32 f -> Z.land c_lflag f = f ->
    Z.lor (Z.land c_lflag (tcflag_not f)) f = c_lflag).
  { intros f Hf Hon. rewrite <- Hon at 2. rewrite <- Z.land_lor_distr_r.
    rewrite <- (Z.mod_small c_lflag (2 ^ 32)) at 2 by done.
    rewrite <- Z.land_ones by lia. apply Z.bits_inj'. intros i Hi0.
    unfold tcflag_not, u32. rewrite <- Z.land_ones by lia.
    rewrite !Z.land_spec, Z.lor_spec, Z.land_spec, Z.lnot_spec by done.
    destruct (Z.testbit (Z.ones 32) i) eqn:Ho; [by destruct (Z.testbit c_lflag i), (Z.testbit f i)|].
    rewrite andb_false_r. simpl.
    rewrite <- (Z.mod_small f (2 ^ 32)), <- Z.land_ones, Z.land_spec, Ho by lia.
    by rewrite !andb_false_r. }
  split; [apply (Hrest ECHO); done|apply (Hrest ISIG); done].
Qed.
End TermIO_properties.

Lemma enableEcho_leaves_echo_off_witness :
  Z.land (enableEcho 2 8 (disableEcho 2 8 0x8a3b)) 8 = 0.
Proof. apply (enableEcho_leaves_echo_off 2 8); [lia | reflexivity | reflexivity]. Defined.

Lemma setStdinEcho_restores_witness :
  setStdinEcho 8 true (setStdinEcho 8 false 0x8a3b) = 0x8a3b /\
  enableBreak 1 (disableBreak 1 0x8a3b) = 0x8a3b.
Proof. apply (setStdinEcho_restores 8 1); [lia | lia | lia | reflexivity | reflexivity]. Defined.
