(* ===== verification/Hash.v ===== *)
(** * pwned-lib/hash.hpp, hash.cpp: the MD5 hash value

    A [Hash] is a union of sixteen bytes and two 64-bit words on a little-endian machine; the
    words are the state here and [data] is the view as bytes.  MD5 itself is OpenSSL's and a
    parameter of the definitions that need it. *)

From S2P Require Import Prelude Stream Util.
From stdpp Require Import options.

(** [Hash::size], i.e. [MD5_DIGEST_LENGTH]. *)
Definition Hash_size : nat := 16.

Record Hash := MkHash { upper : Z; lower : Z; isValid : bool }.

#[export] Instance Hash_eq_decision : EqDecision Hash.
Proof. solve_decision. Defined.

(** [Hash() = default] *)
Definition Hash_default : Hash := MkHash 0 0 false.

(** [Hash(uint64_t upper, uint64_t lower)] *)
Definition Hash_of_quads (up lo : Z) : Hash := MkHash up lo true.

(** [Hash(const Hash &)] and [operator=], member by member. *)
Definition Hash_copy (o : Hash) : Hash := MkHash (upper o) (lower o) (isValid o).
Definition Hash_assign (self rhs : Hash) : Hash := MkHash (upper rhs) (lower rhs) (isValid rhs).

(** The union's view as bytes, and a store of bytes through it (a short store keeps the
    bytes it does not reach). *)
Definition data (h : Hash) : list byte := le_split 8 (upper h) ++ le_split 8 (lower h).
Definition store (h : Hash) (l : list byte) : Hash :=
  let d := take Hash_size l ++ drop (length l) (data h) in
  MkHash (le_combine (take 8 d)) (le_combine (drop 8 d)) (isValid h).

(** [ntohll] is [be64toh]: a byte swap on a little-endian machine. *)
Definition ntohll (x : Z) : Z := le_combine (rev (le_split 8 x)).
Definition toHostByteOrder (h : Hash) : Hash :=
  MkHash (ntohll (upper h)) (ntohll (lower h)) (isValid h).

(** [Hash(const std::string &pwd)] *)
Definition Hash_of_string (MD5 : list byte -> list byte) (pwd : list byte) : Hash :=
  let h := toHostByteOrder (store Hash_default (MD5 pwd)) in
  MkHash (upper h) (lower h) true.

(** [bool Hash::read(std::istream &f)], with and without a position. *)
Definition Hash_read (h : Hash) (f : istream) : bool * Hash * istream :=
  let '(got, f) := read f Hash_size in
  ((length got =? Hash_size)%nat, store h got, f).
Definition Hash_read_at (h : Hash) (f : istream) (p : Z) : bool * Hash * istream :=
  Hash_read h (seekg f p).

(** [Hash::toString] *)
Definition toString (uppercase : bool) (h : Hash) : list byte :=
  hexOut 16 uppercase (upper h) ++ hexOut 16 uppercase (lower h).

(** [operator<<]: what is written to the stream. *)
Definition write_hash (h : Hash) : list byte := toString false h.

(** [Hash::fromHex]: the loop stores byte [j] as long as both digits decode; [j] counts the
    bytes stored. *)
Fixpoint fromHex_loop (seq : list byte) : list byte :=
  match seq with
  | c1 :: c2 :: seq' =>
      let hi := decodeHex c1 in
      let lo := decodeHex c2 in
      if (0 <=? hi) && (0 <=? lo)
      then byte.of_Z (u8 (Z.shiftl hi 4 + lo)) :: fromHex_loop seq'
      else []
  | _ => []
  end.

Definition fromHex (seq : list byte) : Hash :=
  let hash := Hash_default in
  let hash :=
    if (length seq =? 2 * Hash_size)%nat then
      let stored := fromHex_loop seq in
      let h := store hash stored in
      MkHash (upper h) (lower h) (length stored =? Hash_size)%nat
    else hash in
  toHostByteOrder hash.

(** The comparison operators. *)
Definition Hash_eqb (l r : Hash) : bool :=
  (upper l =? upper r) && (lower l =? lower r) && Bool.eqb (isValid l) (isValid r).
Definition Hash_neqb (l r : Hash) : bool :=
  negb (upper l =? upper r) || negb (lower l =? lower r) || Bool.eqb (isValid l) (isValid r).
Definition Hash_ltb (l r : Hash) : bool :=
  if upper l =? upper r then lower l <? lower r else upper l <? upper r.
Definition Hash_leb (l r : Hash) : bool := Hash_eqb l r || Hash_ltb l r.
Definition Hash_gtb (l r : Hash) : bool :=
  if upper l =? upper r then lower r <? lower l else upper r <? upper l.
Definition Hash_geb (l r : Hash) : bool := Hash_eqb l r || Hash_gtb l r.

(** [HashLess] *)
Definition HashLess (l r : Hash) : bool := Hash_ltb l r.

(** ** Abstraction: the 128-bit number a hash stands for *)

Definition Hash_wf (h : Hash) : Prop := in_u64 (upper h) /\ in_u64 (lower h).
Definition hval (h : Hash) : Z := upper h * 2 ^ 64 + lower h.
(** The number a digest spells in big-endian order. *)
Definition be_val (l : list byte) : Z := le_combine (rev l).

(** Lexicographic comparison of byte sequences, the order of a sorted listing of digests. *)
Fixpoint bytes_ltb (l k : list byte) : bool :=
  match l, k with
  | a :: l, b :: k =>
      (byte.unsigned a <? byte.unsigned b) ||
      ((byte.unsigned a =? byte.unsigned b) && bytes_ltb l k)
  | [], _ :: _ => true
  | _, [] => false
  end.

(** ** Lemmas *)

Lemma length_data h : length (data h) = Hash_size.
Proof. unfold data. by rewrite length_app, !length_le_split. Qed.

Lemma store_data h h' :
  Hash_wf h' -> store h (data h') = MkHash (upper h') (lower h') (isValid h).
Proof.
  intros [Hu Hl]. unfold store. rewrite length_data. rewrite (take_ge (data _)) by by rewrite length_data.
  rewrite (drop_ge (data h)) by by rewrite length_data.
  rewrite app_nil_r. unfold data. rewrite take_app_exact, drop_app_exact by apply length_le_split.
  rewrite !le_combine_split. change (2 ^ (Z.of_nat 8 * 8)) with (2 ^ 64).
  by rewrite !Z.mod_small by lia.
Qed.

Lemma le_combine_range n l : length l = n -> 0 <= le_combine l < 2 ^ (8 * Z.of_nat n).
Proof. intros <-. apply le_combine_bound. Qed.

Lemma store_wf h l : Hash_wf (store h l).
Proof.
  unfold store. set (d := take Hash_size l ++ drop (length l) (data h)).
  assert (length d = Hash_size) as Hd.
  { subst d. rewrite length_app, length_take, length_drop, length_data. unfold Hash_size. lia. }
  unfold Hash_size in Hd. split; simpl.
  - apply (le_combine_range 8). rewrite length_take. lia.
  - apply (le_combine_range 8). rewrite length_drop. lia.
Qed.

Lemma store_nil h : Hash_wf h -> store h [] = h.
Proof.
  intros Hh. unfold store. rewrite take_nil. change (length (@nil byte)) with 0%nat. rewrite drop_0, app_nil_l. destruct Hh.
  unfold data. rewrite take_app_exact, drop_app_exact by apply length_le_split.
  rewrite !le_combine_split. change (2 ^ (Z.of_nat 8 * 8)) with (2 ^ 64).
  rewrite !Z.mod_small by lia. by destruct h.
Qed.

Lemma ntohll_range x : in_u64 (ntohll x).
Proof.
  unfold ntohll. apply (le_combine_range 8). rewrite length_rev. apply length_le_split.
Qed.

Lemma toHostByteOrder_wf h : Hash_wf (toHostByteOrder h).
Proof. split; apply ntohll_range. Qed.

Lemma fromHex_wf s : Hash_wf (fromHex s).
Proof. apply toHostByteOrder_wf. Qed.

Lemma Hash_of_string_wf MD5 s : Hash_wf (Hash_of_string MD5 s).
Proof. apply toHostByteOrder_wf. Qed.

Lemma ntohll_involutive x : in_u64 x -> ntohll (ntohll x) = x.
Proof.
  intros Hx. unfold ntohll. rewrite split_le_combine' by (rewrite length_rev; apply length_le_split).
  rewrite rev_involutive, le_combine_split. by apply Z.mod_small.
Qed.

Lemma Hash_ltb_spec l r : Hash_wf l -> Hash_wf r -> Hash_ltb l r = (hval l <? hval r).
Proof. intros [] []. unfold Hash_ltb, hval. bool_cases; lia. Qed.
Lemma Hash_gtb_spec l r : Hash_wf l -> Hash_wf r -> Hash_gtb l r = (hval r <? hval l).
Proof. intros [] []. unfold Hash_gtb, hval. bool_cases; lia. Qed.
Lemma Hash_gtb_ltb l r : Hash_gtb l r = Hash_ltb r l.
Proof. unfold Hash_gtb, Hash_ltb. by rewrite (Z.eqb_sym (upper r)). Qed.

(** *** Hexadecimal text of a hash *)

Lemma toString_encode u h :
  Hash_wf h ->
  toString u h = hexEncode u (rev (le_split 8 (upper h)) ++ rev (le_split 8 (lower h))).
Proof.
  intros [Hu Hl]. unfold toString. rewrite !hexOut_fixed by (simpl; lia).
  change 16%nat with (2 * 8)%nat. rewrite !hexFixed_le_split by lia.
  unfold hexEncode. by rewrite <- concat_app, <- fmap_app.
Qed.

Lemma fromHex_loop_encode u l : fromHex_loop (hexEncode u l) = l.
Proof.
  induction l as [|b l IH]; [done|]. unfold hexEncode in *. csimpl.
  pose proof (byte.unsigned_range b). rewrite !decodeHex_hexDigit by dlia.
  bool_cases; try dlia. simpl. rewrite IH. f_equal.
  rewrite <- (byte.of_Z_unsigned b) at 3. f_equal. unfold u8.
  rewrite Z.shiftl_mul_pow2 by lia. change (2 ^ 4) with 16. change (2 ^ 8) with 256. dlia.
Qed.

Lemma fromHex_loop_length l n :
  length l = (2 * n)%nat ->
  (length (fromHex_loop l) <= n)%nat /\
  (length (fromHex_loop l) = n <-> Forall (fun c => 0 <= decodeHex c) l).
Proof.
  revert l. induction n as [|n IH]; intros l Hl.
  { destruct l; [|done]. split; [done|]. split; [constructor|done]. }
  destruct l as [|c1 [|c2 l]]; simpl in Hl; [lia|lia|].
  destruct (IH l) as [Hle Hiff]; [lia|]. simpl. rewrite !Forall_cons.
  bool_cases; simpl; (split; [lia|]); try (split; intros; lia).
  rewrite <- Hiff. split; intros; [repeat split|]; lia.
Qed.

Lemma store_default_digest l :
  length l = Hash_size ->
  store Hash_default l = MkHash (le_combine (take 8 l)) (le_combine (drop 8 l)) false.
Proof.
  intros Hl. unfold store. rewrite (take_ge l) by lia.
  rewrite (drop_ge (data _)) by (rewrite length_data; lia). by rewrite app_nil_r.
Qed.

(** *** Byte order *)

Lemma be_val_range l : 0 <= be_val l < 2 ^ (8 * Z.of_nat (length l)).
Proof. unfold be_val. rewrite <- length_rev. apply le_combine_bound. Qed.

Lemma be_val_app l k : be_val (l ++ k) = be_val l * 2 ^ (8 * Z.of_nat (length k)) + be_val k.
Proof. unfold be_val. rewrite rev_app_distr, le_combine_app_add, length_rev. lia. Qed.

Lemma be_val_cons a l :
  be_val (a :: l) = byte.unsigned a * 2 ^ (8 * Z.of_nat (length l)) + be_val l.
Proof.
  change (a :: l) with ([a] ++ l). rewrite be_val_app.
  by replace (be_val [a]) with (byte.unsigned a) by by rewrite <- le_combine_1.
Qed.

(** Equally long byte sequences compare lexicographically as the numbers they spell. *)
Lemma bytes_ltb_be_val l k : length l = length k -> bytes_ltb l k = (be_val l <? be_val k).
Proof.
  revert k. induction l as [|a l IH]; intros [|b k] Hlen; try done.
  injection Hlen as Hlen. cbn [bytes_ltb]. rewrite IH by done.
  rewrite !be_val_cons, Hlen. pose proof (be_val_range l) as Hl. rewrite Hlen in Hl.
  pose proof (be_val_range k) as Hk. set (P := 2 ^ (8 * Z.of_nat (length k))) in *.
  bool_cases; simpl; try done; nia.
Qed.

Lemma digest_hash l :
  length l = Hash_size ->
  toHostByteOrder (store Hash_default l) = MkHash (be_val (take 8 l)) (be_val (drop 8 l)) false.
Proof.
  intros Hl. rewrite store_default_digest by done. unfold toHostByteOrder, ntohll, be_val.
  cbn [upper lower isValid]. unfold Hash_size in Hl.
  rewrite !split_le_combine' by (rewrite ?length_take, ?length_drop; lia). done.
Qed.

Lemma digest_hval l b :
  length l = Hash_size -> hval (MkHash (be_val (take 8 l)) (be_val (drop 8 l)) b) = be_val l.
Proof.
  intros Hl. unfold hval, Hash_size in *. cbn [upper lower]. rewrite <- (take_drop 8 l) at 3.
  rewrite be_val_app, length_drop, Hl. done.
Qed.

Lemma digest_wf l b :
  length l = Hash_size -> Hash_wf (MkHash (be_val (take 8 l)) (be_val (drop 8 l)) b).
Proof.
  unfold Hash_size. intros Hl. split; cbn [upper lower].
  - pose proof (be_val_range (take 8 l)) as H. rewrite length_take, Hl in H. apply H.
  - pose proof (be_val_range (drop 8 l)) as H. rewrite length_drop, Hl in H. apply H.
Qed.

Lemma fromHex_encode u d :
  length d = Hash_size ->
  fromHex (hexEncode u d) = MkHash (be_val (take 8 d)) (be_val (drop 8 d)) true.
Proof.
  intros Hd. unfold fromHex. rewrite length_hexEncode, Hd, Nat.eqb_refl, fromHex_loop_encode.
  rewrite Hd, Nat.eqb_refl.
  transitivity (let y := toHostByteOrder (store Hash_default d) in MkHash (upper y) (lower y) true);
    [done|]. by rewrite digest_hash.
Qed.

Lemma fromHex_of_toString u h : Hash_wf h -> fromHex (toString u h) = MkHash (upper h) (lower h) true.
Proof.
  intros Hh. pose proof Hh as [Hu Hl]. rewrite toString_encode, fromHex_encode by
    (done || by rewrite length_app, !length_rev, !length_le_split).
  rewrite take_app_exact, drop_app_exact by (rewrite length_rev; apply length_le_split).
  unfold be_val. rewrite !rev_involutive. by rewrite !le_combine_split_small by (simpl; lia).
Qed.

(** A hexadecimal digit in the case asked for. *)
Definition hex_case (uppercase : bool) (c : byte) : byte :=
  let z := byte.unsigned c in
  if uppercase && (97 <=? z) && (z <=? 102) then byte.of_Z (z - 32)
  else if negb uppercase && (65 <=? z) && (z <=? 70) then byte.of_Z (z + 32)
  else c.

Lemma hexDigit_decodeHex u c : 0 <= decodeHex c -> hexDigit u (decodeHex c) = hex_case u c.
Proof.
  assert (forallb (fun z => let c := byte.of_Z z in
    if 0 <=? decodeHex c then bool_decide (hexDigit u (decodeHex c) = hex_case u c) else true) (seqZ 0 256) = true) as Hall
    by (destruct u; vm_compute; reflexivity).
  intros Hc. pose proof (Z_range_check _ 256 (byte.unsigned c) Hall (byte.unsigned_range c)) as H.
  cbv beta zeta in H. rewrite byte.of_Z_unsigned in H. rewrite (proj2 (Z.leb_le _ _)) in H by done.
  by apply bool_decide_eq_true in H.
Qed.

Lemma hexEncode_fromHex_loop u n s :
  length s = (2 * n)%nat -> Forall (fun c => 0 <= decodeHex c) s -> hexEncode u (fromHex_loop s) = hex_case u <$> s.
Proof.
  revert s. induction n as [|n IH]; intros s Hl Hd; [by destruct s|].
  destruct s as [|c1 [|c2 s]]; simpl in Hl; [lia|lia|]. apply Forall_cons in Hd as [H1 Hd]. apply Forall_cons in Hd as [H2 Hd].
  cbn [fromHex_loop]. rewrite !(proj2 (Z.leb_le _ _)) by done. cbn [andb]. unfold hexEncode. rewrite fmap_cons. cbn [concat].
  change (concat _) with (hexEncode u (fromHex_loop s)) at 1. rewrite IH by (done || lia).
  pose proof (decodeHex_range c1). pose proof (decodeHex_range c2).
  rewrite byte.unsigned_of_Z. unfold u8, byte.wrap. rewrite Z.shiftl_mul_pow2 by lia. change (2 ^ 4) with 16. change (2 ^ 8) with 256.
  assert (((decodeHex c1 * 16 + decodeHex c2) mod 256) mod 256 / 16 = decodeHex c1) as -> by dlia.
  assert ((((decodeHex c1 * 16 + decodeHex c2) mod 256) mod 256) mod 16 = decodeHex c2) as -> by dlia.
  by rewrite !hexDigit_decodeHex.
Qed.

(** ** Properties *)

(** C26: parsing the hexadecimal text that [toString] prints gives the hash back, valid, and
    printing what was parsed from 32 digits gives them back in the case asked for. *)
Theorem hash_text_roundtrip u h s :
  Hash_wf h -> length s = (2 * Hash_size)%nat -> Forall (fun c => 0 <= decodeHex c) s ->
  fromHex (toString u h) = MkHash (upper h) (lower h) true /\ toString u (fromHex s) = hex_case u <$> s.
Proof.
  intros Hh Hs Hd. split; [by apply fromHex_of_toString|].
  destruct (fromHex_loop_length s Hash_size Hs) as [_ [_ Hlen]]. specialize (Hlen Hd).
  rewrite <- (hexEncode_fromHex_loop u Hash_size) by done. set (d := fromHex_loop s) in *.
  assert (fromHex s = fromHex (hexEncode u d)) as ->.
  { unfold fromHex. rewrite length_hexEncode, Hlen, Hs, Nat.eqb_refl, fromHex_loop_encode. done. }
  rewrite fromHex_encode by done. rewrite toString_encode by by apply digest_wf. cbn [upper lower].
  unfold be_val. rewrite !split_le_combine', !rev_involutive by
    (rewrite ?length_rev, ?length_take, ?length_drop; unfold Hash_size in Hlen; lia). by rewrite take_drop.
Qed.

Lemma hash_text_roundtrip_witness :
  fromHex (toString true (MkHash 0xffeeddccbbaa9988 0x7766554433221100 false)) =
    MkHash 0xffeeddccbbaa9988 0x7766554433221100 true /\
  toString true (fromHex (bs "00112233445566778899aAbBcCdDeEfF")) =
    hex_case true <$> bs "00112233445566778899aAbBcCdDeEfF".
Proof.
  apply (hash_text_roundtrip true (MkHash 0xffeeddccbbaa9988 0x7766554433221100 false)
    (bs "00112233445566778899aAbBcCdDeEfF")).
  - split; simpl; lia.
  - reflexivity.
  - repeat constructor; vm_compute; congruence.
Defined.

(** [fromHex] reports a valid hash exactly for 32 hexadecimal digits. *)
Theorem fromHex_valid s :
  isValid (fromHex s) = true <-> length s = (2 * Hash_size)%nat /\ Forall (fun c => 0 <= decodeHex c) s.
Proof.
  unfold fromHex. cbn [toHostByteOrder isValid].
  destruct (Nat.eqb_spec (length s) (2 * Hash_size)) as [Hl|Hl]; simpl.
  - destruct (fromHex_loop_length s Hash_size Hl) as [_ Hiff]. rewrite Nat.eqb_eq, Hiff.
    split; [done|]. intros [_ ?]. done.
  - split; [done|]. intros [? _]. done.
Qed.

(** C27: the order of the hashes of two passwords is the lexicographic order of their MD5
    digests: a file sorted by [operator<] is sorted like its hexadecimal listing. *)
Theorem Hash_order_lexicographic (MD5 : list byte -> list byte) p q :
  length (MD5 p) = Hash_size -> length (MD5 q) = Hash_size ->
  Hash_ltb (Hash_of_string MD5 p) (Hash_of_string MD5 q) = bytes_ltb (MD5 p) (MD5 q).
Proof.
  intros Hp Hq. unfold Hash_of_string. rewrite !digest_hash by done. cbn [upper lower].
  rewrite Hash_ltb_spec, !digest_hval by auto using digest_wf.
  symmetry. apply bytes_ltb_be_val. by rewrite Hp.
Qed.

(** A stand-in digest for the witnesses: the first sixteen bytes of the zero-padded input. *)
Definition toy_digest (l : list byte) : list byte := take 16 (l ++ replicate 16 x00).

Lemma Hash_order_lexicographic_witness :
  Hash_ltb (Hash_of_string toy_digest (bs "admin")) (Hash_of_string toy_digest (bs "root")) = true.
Proof.
  rewrite (Hash_order_lexicographic toy_digest (bs "admin") (bs "root") eq_refl eq_refl).
  reflexivity.
Defined.

(** [operator<] is a strict total order on the two words of a hash, as [std::map],
    [std::sort] and the binary search require; it never looks at [isValid]. *)
Theorem Hash_order_total a b c :
  Hash_ltb a a = false /\
  (Hash_ltb a b = true -> Hash_ltb b c = true -> Hash_ltb a c = true) /\
  (Hash_ltb a b = false -> Hash_gtb a b = false -> upper a = upper b /\ lower a = lower b) /\
  (Hash_ltb a b = true -> Hash_gtb a b = false).
Proof. unfold Hash_ltb, Hash_gtb. repeat split; bool_cases; intros; bool_cases; try done; lia. Qed.

(** [operator!=] tests [isValid] the wrong way round: for hashes with equal words it
    agrees with [operator==] instead of being its negation, so equal hashes are also
    unequal. *)
Theorem Hash_neq_same_as_eq a b :
  upper a = upper b -> lower a = lower b -> Hash_neqb a b = Hash_eqb a b.
Proof. intros Hu Hl. unfold Hash_neqb, Hash_eqb. by rewrite Hu, Hl, !Z.eqb_refl. Qed.

Lemma Hash_neq_same_as_eq_witness :
  let h := Hash_of_quads 1 2 in Hash_eqb h h = true /\ Hash_neqb h h = true.
Proof. intros h. rewrite (Hash_neq_same_as_eq h h eq_refl eq_refl). split; reflexivity. Defined.
