(* ===== verification/Phc.v ===== *)
(** * pwned-lib/passwordhashandcount.hpp: a hash with its number of occurrences

    The record of every file the tools exchange: sixteen bytes of hash and a little-endian
    32-bit count, twenty bytes in all. *)

From S2P Require Import Prelude Stream Util Hash.
From stdpp Require Import options.

(** [PasswordHashAndCount::size] *)
Definition PHC_size : Z := 20.

Record PHC := MkPHC { hash : Hash; count : Z }.

#[export] Instance PHC_eq_decision : EqDecision PHC.
Proof. solve_decision. Defined.

Definition PHC_default : PHC := MkPHC Hash_default 0.
Definition PHC_ctor (h : Hash) (c : Z) : PHC := MkPHC (Hash_copy h) c.

(** [f.read(&count, sizeof(count))] overwrites the bytes of [count] it gets. *)
Definition store_count (c : Z) (got : list byte) : Z :=
  le_combine (got ++ drop (length got) (le_split 4 c)).

(** [bool read(std::istream &f)] *)
Definition PHC_read (p : PHC) (f : istream) : bool * PHC * istream :=
  let '(got, f) := read f Hash_size in
  let p := MkPHC (store (hash p) got) (count p) in
  if negb (length got =? Hash_size)%nat then (false, p, f)
  else
    let '(got, f) := read f 4 in
    ((length got =? 4)%nat, MkPHC (hash p) (store_count (count p) got), f).

(** [bool read(std::istream &f, std::streamoff pos)] *)
Definition PHC_read_at (p : PHC) (f : istream) (pos : Z) : bool * PHC * istream :=
  PHC_read p (seekg f pos).

(** [void dump(std::ofstream &f)]: the bytes written. *)
Definition dump (p : PHC) : list byte := data (hash p) ++ le_split 4 (count p).

Definition PHC_eqb (l r : PHC) : bool := Hash_eqb (hash l) (hash r).
(** [PasswordHashAndCountLess] *)
Definition PHCLess (l r : PHC) : bool := Hash_ltb (hash l) (hash r).

(** ** Files of records *)

Definition PHC_wf (p : PHC) : Prop := Hash_wf (hash p) /\ in_u32 (count p).

(** The bytes of a file that holds these records. *)
Definition phc_file (l : list PHC) : list byte := concat (dump <$> l).

(** What a record read into [q] becomes: the flag [isValid] is not part of the file. *)
Definition read_into (q p : PHC) : PHC :=
  MkPHC (MkHash (upper (hash p)) (lower (hash p)) (isValid (hash q))) (count p).

(** ** Lemmas *)

Lemma length_dump p : length (dump p) = 20%nat.
Proof. unfold dump. by rewrite length_app, length_data, length_le_split. Qed.

Lemma length_phc_file l : Z.of_nat (length (phc_file l)) = PHC_size * Z.of_nat (length l).
Proof. unfold phc_file. rewrite (length_concat_width _ 20) by apply length_dump. unfold PHC_size. lia. Qed.

Lemma phc_file_app l k : phc_file (l ++ k) = phc_file l ++ phc_file k.
Proof. unfold phc_file. by rewrite fmap_app, concat_app. Qed.

Lemma phc_file_drop l i : drop (Z.to_nat (PHC_size * Z.of_nat i)) (phc_file l) = phc_file (drop i l).
Proof.
  unfold PHC_size. replace (Z.to_nat (20 * Z.of_nat i)) with (20 * i)%nat by lia.
  apply drop_concat_width, length_dump.
Qed.

Lemma phc_file_take l i : take (Z.to_nat (PHC_size * Z.of_nat i)) (phc_file l) = phc_file (take i l).
Proof.
  apply (app_inv_tail (phc_file (drop i l))). rewrite <- phc_file_app, take_drop, <- phc_file_drop. by rewrite take_drop.
Qed.

Lemma phc_file_lookup l i p :
  l !! i = Some p ->
  drop (Z.to_nat (PHC_size * Z.of_nat i)) (phc_file l) =
  data (hash p) ++ le_split 4 (count p) ++ phc_file (drop (S i) l).
Proof.
  intros Hi. rewrite phc_file_drop, (drop_S _ _ _ Hi). unfold phc_file.
  rewrite fmap_cons. cbn [concat]. unfold dump at 1. by rewrite <- app_assoc.
Qed.

Lemma store_count_full c p : in_u32 c -> store_count p (le_split 4 c) = c.
Proof.
  intros Hc. unfold store_count. rewrite length_le_split, drop_ge, app_nil_r by by rewrite length_le_split.
  by apply le_combine_split_small.
Qed.

(** Reading where a record begins returns that record. *)
Lemma PHC_read_record bytes pos p rst q s :
  at_pos bytes pos s -> 0 <= pos -> drop (Z.to_nat pos) bytes = dump p ++ rst -> PHC_wf p ->
  PHC_read q s = (true, read_into q p, IStream true bytes (pos + PHC_size) false false false).
Proof.
  intros Hs Hpos Hd [Hh Hc]. unfold PHC_read, dump in *. rewrite <- app_assoc in Hd.
  erewrite read_full; [|done|done|exact Hd|apply length_data].
  rewrite length_data, Nat.eqb_refl. simpl negb. cbv iota.
  erewrite (read_full _ _ 4); [|done|lia| |apply (length_le_split 4 (count p))].
  - rewrite length_le_split, store_data, store_count_full by done. unfold read_into. simpl.
    do 2 f_equal. unfold PHC_size, Hash_size. lia.
  - rewrite Z2Nat.inj_add by lia.
    rewrite <- drop_drop, Hd. rewrite drop_app_exact by (rewrite length_data; unfold Hash_size; lia).
    done.
Qed.

Lemma PHC_read_ok l i p q s :
  at_pos (phc_file l) (PHC_size * Z.of_nat i) s -> l !! i = Some p -> PHC_wf p ->
  PHC_read q s = (true, read_into q p,
    IStream true (phc_file l) (PHC_size * Z.of_nat (S i)) false false false).
Proof.
  intros Hs Hi Hp. replace (PHC_size * Z.of_nat (S i)) with (PHC_size * Z.of_nat i + PHC_size) by lia.
  eapply PHC_read_record; [done|unfold PHC_size; lia| |done]. rewrite (phc_file_lookup l i p Hi). unfold dump. by rewrite <- app_assoc.
Qed.

(** Fewer bytes than a record has are not read as one. *)
Lemma PHC_read_short bytes pos q s : at_pos bytes pos s -> 0 <= pos -> (length (drop (Z.to_nat pos) bytes) < 20)%nat ->
  fst (fst (PHC_read q s)) = false.
Proof.
  intros -> Hpos Hl. unfold PHC_read. unfold read at 1, rest, good. cbn [sopen src spos eofbit failbit badbit negb orb andb].
  set (r := drop (Z.to_nat pos) bytes) in *. destruct (length (take Hash_size r) =? Hash_size)%nat eqn:E; cbn [negb]; [|done].
  apply Nat.eqb_eq in E. rewrite E, Nat.ltb_irrefl. unfold read, rest, good. cbn [sopen src spos eofbit failbit badbit negb orb andb].
  cbn [fst]. apply Nat.eqb_neq. rewrite Z2Nat.inj_add by lia. rewrite <- drop_drop. fold r.
  rewrite length_take, length_drop. rewrite length_take in E. unfold Hash_size in *. lia.
Qed.

(** Reading at or past the end leaves the record as it was and the stream failed. *)
Lemma PHC_read_eof l pos q s :
  at_pos (phc_file l) pos s -> PHC_size * Z.of_nat (length l) <= pos -> Hash_wf (hash q) ->
  PHC_read q s = (false, q, IStream true (phc_file l) pos true true false).
Proof.
  intros Hs Hp Hq. unfold PHC_read.
  rewrite (read_eof _ _ _ _ Hs) by (rewrite ?length_phc_file; unfold Hash_size; lia).
  simpl. rewrite store_nil by done. by destruct q.
Qed.

(** A failed stream is not read at all. *)
Lemma PHC_read_failed q s :
  failbit s = true -> Hash_wf (hash q) ->
  PHC_read q s = (false, q, IStream (sopen s) (src s) (spos s) (eofbit s) true (badbit s)).
Proof.
  intros Hf Hq. unfold PHC_read. rewrite read_failed by done. simpl.
  rewrite store_nil by done. by destruct q.
Qed.

(** Reads a whole file the way the tools do: records as long as [read] succeeds. *)
Fixpoint read_all (fuel : nat) (q : PHC) (f : istream) : list PHC :=
  match fuel with
  | O => []
  | S fuel =>
      let '(ok, q, f) := PHC_read q f in
      if ok then q :: read_all fuel q f else []
  end.

Lemma read_all_records fuel q s bytes pos recs rst :
  at_pos bytes pos s -> 0 <= pos -> drop (Z.to_nat pos) bytes = phc_file recs ++ rst -> (length rst < 20)%nat ->
  Forall PHC_wf recs -> (length recs < fuel)%nat ->
  read_all fuel q s = read_into q <$> recs.
Proof.
  revert q s pos recs. induction fuel as [|fuel IH]; intros q s pos recs Hs Hpos Hd Hr Hwf Hfuel; [lia|]. cbn [read_all].
  destruct recs as [|p recs].
  - pose proof (PHC_read_short bytes pos q s Hs Hpos) as Hsh. rewrite Hd in Hsh. specialize (Hsh Hr).
    destruct (PHC_read q s) as [[ok ?] ?]. cbn in Hsh. by rewrite Hsh.
  - apply Forall_cons in Hwf as [Hp Hwf]. change (phc_file (p :: recs)) with (dump p ++ phc_file recs) in Hd. rewrite <- app_assoc in Hd.
    rewrite (PHC_read_record bytes pos p _ q s Hs Hpos Hd Hp). rewrite fmap_cons. f_equal.
    rewrite (IH (read_into q p) _ (pos + PHC_size) recs); [done|done|unfold PHC_size; lia| |done|done|simpl in Hfuel; lia].
    unfold PHC_size. rewrite Z2Nat.inj_add by lia. rewrite <- drop_drop, Hd. by rewrite drop_app_exact by (by rewrite length_dump).
Qed.

Lemma read_all_from l i q s fuel :
  at_pos (phc_file l) (PHC_size * Z.of_nat i) s -> Forall PHC_wf l -> Hash_wf (hash q) ->
  (length l < i + fuel)%nat ->
  read_all fuel q s = read_into q <$> drop i l.
Proof.
  intros Hs Hl Hq Hfuel. destruct fuel as [|fuel]; [by rewrite drop_ge by lia|].
  apply (read_all_records _ q s (phc_file l) (PHC_size * Z.of_nat i) (drop i l) []);
    [exact Hs|unfold PHC_size; lia| |simpl; lia|by apply Forall_drop|rewrite length_drop; lia].
  by rewrite app_nil_r, phc_file_drop.
Qed.

(** Any twenty bytes are a record, and any bytes are records and a rest. *)
Lemma block_record b : length b = 20%nat -> exists p, PHC_wf p /\ dump p = b.
Proof.
  intros Hl. set (h := take 16 b).
  assert (length (take 8 h) = 8 /\ length (drop 8 h) = 8 /\ length (drop 16 b) = 4)%nat as (H1 & H2 & H3).
  { unfold h. rewrite !length_drop, !length_take. lia. }
  exists (MkPHC (MkHash (le_combine (take 8 h)) (le_combine (drop 8 h)) false) (le_combine (drop 16 b))). split.
  - split; [split|]; cbn; [apply (le_combine_range 8)|apply (le_combine_range 8)|apply (le_combine_range 4)]; lia.
  - unfold dump, data. cbn [hash count upper lower]. rewrite !split_le_combine' by done.
    unfold h. by rewrite !take_drop.
Qed.

Lemma records_of bytes : exists recs rst, bytes = phc_file recs ++ rst /\ (length rst < 20)%nat /\ Forall PHC_wf recs.
Proof.
  induction bytes as [bytes IH] using (induction_ltof1 _ length). unfold ltof in IH.
  destruct (decide (length bytes < 20)%nat) as [Hl|Hl]; [by exists [], bytes|].
  destruct (block_record (take 20 bytes)) as (p & Hp & Hd); [rewrite length_take; lia|].
  destruct (IH (drop 20 bytes)) as (recs & rst & Hb & Hr & Hwf); [rewrite length_drop; lia|].
  exists (p :: recs), rst. split; [|split; [done|by constructor]].
  change (phc_file (p :: recs)) with (dump p ++ phc_file recs). by rewrite <- app_assoc, Hd, <- Hb, take_drop.
Qed.

(** What is read has the bytes of what was written. *)
Lemma phc_file_read_into q l : phc_file (read_into q <$> l) = phc_file l.
Proof. unfold phc_file. f_equal. rewrite <- list_fmap_compose. by apply list_fmap_ext. Qed.

(** ** Properties *)

(** C29: whatever bytes a file holds, and whatever the record held before: as many records are
    read as the file has full blocks of twenty bytes, each has a hash of two 64-bit words and a
    count of 32 bits, together they have the bytes of these blocks in their order, and all have
    the flag [isValid] the record had before; the rest of the bytes is not taken for a record. *)
Theorem read_all_blocks bytes q :
  let l := read_all (S (length bytes)) q (open_stream bytes) in
  length l = (length bytes / 20)%nat /\ Forall PHC_wf l /\ phc_file l = take (20 * (length bytes / 20)) bytes /\
  Forall (fun p => isValid (hash p) = isValid (hash q)) l.
Proof.
  destruct (records_of bytes) as (recs & rst & Hb & Hr & Hwf). intros l.
  assert (length (phc_file recs) = 20 * length recs)%nat as Hlen by (pose proof (length_phc_file recs); unfold PHC_size in *; lia).
  assert (length bytes / 20 = length recs)%nat as Hdiv.
  { rewrite Hb, length_app, Hlen. symmetry. apply (Nat.div_unique _ _ _ (length rst)); lia. }
  assert (l = read_into q <$> recs) as Hl.
  { apply (read_all_records _ q (open_stream bytes) bytes 0 recs rst); try done. rewrite Hb, length_app. lia. }
  rewrite Hl, Hdiv, length_fmap, phc_file_read_into. split; [done|]. split.
  { apply Forall_fmap. eapply Forall_impl; [exact Hwf|]. intros p [[] ?]. by split. }
  split; [by rewrite Hb, take_app_exact|]. apply Forall_fmap, Forall_forall. by intros p _.
Qed.

(** C28: the records written with [dump] are read back one after the other, with their hashes and
    counts, and the reading loop ends at the end of the file.  The flag [isValid] is not in the
    file: all get the one the record had before, which is [false] for a new record; so records
    whose flag is this one are read back unchanged. *)
Theorem phc_file_roundtrip q l :
  Forall PHC_wf l -> Hash_wf (hash q) ->
  let r := read_all (S (length l)) q (open_stream (phc_file l)) in
  r = (fun p => MkPHC (MkHash (upper (hash p)) (lower (hash p)) (isValid (hash q))) (count p)) <$> l /\
  (Forall (fun p => isValid (hash p) = isValid (hash q)) l -> r = l).
Proof.
  intros Hl Hq r. assert (r = read_into q <$> l) as Hr by (unfold r; by rewrite (read_all_from l 0), drop_0 by (done || lia)).
  rewrite Hr. split; [done|]. intros Hv.
  rewrite <- (list_fmap_id l) at 2. apply list_fmap_ext. intros i p Hi.
  rewrite Forall_lookup in Hv. specialize (Hv i p Hi). unfold read_into. simpl.
  destruct p as [[] ?]; simpl in *. by rewrite Hv.
Qed.

(** Records as the converter writes them. *)
Lemma phc_file_roundtrip_witness :
  let l := [MkPHC (MkHash 0xffeeddccbbaa9988 0x7766554433221100 true) 0xdeadbeef; MkPHC (MkHash 1 2 true) 3] in
  read_all 3 PHC_default (open_stream (phc_file l)) =
    [MkPHC (MkHash 0xffeeddccbbaa9988 0x7766554433221100 false) 0xdeadbeef; MkPHC (MkHash 1 2 false) 3].
Proof.
  intros l. apply (phc_file_roundtrip PHC_default l).
  - repeat constructor; simpl; lia.
  - by split.
Defined.
