(* ===== verification/Inspector.v ===== *)
(** * pwned-lib/passwordinspector.cpp: looking a hash up in a sorted file

    A [PasswordInspector] owns the stream of an MD5:count file and, optionally, the stream of
    an index.  [binsearch] bisects byte offsets; [smart_binsearch] first gallops around an
    interpolated position and then calls [binsearch] all the same.  Both leave their streams
    in the state the last read put them in. *)

From Stdlib Require Import Floats.SpecFloat.
From S2P Require Import Prelude Stream Util Hash Phc.
From stdpp Require Import options.

Record Inspector := MkInspector {
  mInputOpen : bool;             (** [mInputFile.is_open()] *)
  mInputFile : istream;
  mIndexFile : option istream;   (** [None]: [mIndexFile.is_open()] is false *)
  mFileSize : Z;
  mShift : Z }.

(** [sizeof(index_key_t)] *)
Definition index_key_size : Z := 8.

(** [bool open(const std::string &filename)]: [fs::file_size] throws when there is no such
    file ([None]). *)
Definition open (file : option file_entry) (i : Inspector) : option (bool * Inspector) :=
  match file with
  | None => None
  | Some e =>
      let fsize := i64 (Z.of_nat (length (fbytes e))) in
      let '(ok, f) := fopen e in
      Some (ok, MkInspector ok f (mIndexFile i) fsize (mShift i))
  end.

(** [bool open(inputFilename, indexFilename)]; [indexFile] is [None] when the index file name
    is the empty string, else the file of that name. *)
Definition open_indexed (inputFile : option file_entry) (indexFile : option (option file_entry))
    (i : Inspector) : option (bool * Inspector) :=
  match open inputFile i with
  | None => None
  | Some (ok, i) =>
      match indexFile with
      | None => Some (ok, i)
      | Some None => None
      | Some (Some e) =>
          let nKeys := Z.of_nat (length (fbytes e)) / index_key_size in
          let shift := u32 (index_key_size * 8 - popcnt64 (u64 (nKeys - 1))) in
          let '(idx_ok, f) := fopen e in
          Some (ok && idx_ok,
            MkInspector (mInputOpen i) (mInputFile i) (if idx_ok then Some f else None)
              (mFileSize i) shift)
      end
  end.

(** A fresh object, and the two constructors, which ignore what [open] returns. *)
Definition Inspector_default : Inspector := MkInspector false unopened None 0 0.
Definition PasswordInspector (file : option file_entry) : option Inspector :=
  snd <$> open file Inspector_default.
Definition PasswordInspector_indexed (file : option file_entry)
    (indexFile : option (option file_entry)) : option Inspector :=
  snd <$> open_indexed file indexFile Inspector_default.

Definition isOpen (i : Inspector) : bool := mInputOpen i.

(** [std::size_t size() const] *)
Definition size (i : Inspector) : Z := u64 (mFileSize i) / PHC_size.

(** [mIndexFile.read(reinterpret_cast<char*>(&v), sizeof(index_key_t))] into a
    [std::streamoff]. *)
Definition store_off (v : Z) (got : list byte) : Z :=
  i64 (le_combine (got ++ drop (length got) (le_split 8 (u64 v)))).

(** One of the two [do ... while] loops over the index: read the key at [off], step by
    [step], until the key read is not the unused mark.  [None] when the fuel runs out. *)
Fixpoint index_loop (fuel : nat) (step : Z) (f : istream) (off v nReads : Z)
    : option (Z * Z * istream) :=
  match fuel with
  | O => None
  | S fuel =>
      let f := seekg f off in
      let '(got, f) := read f 8 in
      let v := store_off v got in
      let nReads := nReads + 1 in
      if v =? -1 then index_loop fuel step f (off + step) v nReads else Some (v, nReads, f)
  end.

(** The [while (lo <= hi)] loop. *)
Fixpoint bs_loop (fuel : nat) (h : Hash) (f : istream) (phc : PHC) (lo hi nReads : Z)
    : option (PHC * Z * istream) :=
  match fuel with
  | O => None
  | S fuel =>
      if lo <=? hi then
        let pos := i64 (u64 (u64 lo + u64 hi) / 2) in
        let pos := pos - Z.rem pos PHC_size in
        let pos := Z.max 0 pos in
        let '(_, phc, f) := PHC_read_at phc f pos in
        let nReads := nReads + 1 in
        if Hash_gtb h (hash phc) then bs_loop fuel h f phc (pos + PHC_size) hi nReads
        else if Hash_ltb h (hash phc) then bs_loop fuel h f phc lo (pos - PHC_size) nReads
        else Some (phc, nReads, f)
      else Some (MkPHC (hash phc) 0, nReads, f)
  end.

(** Iterations after which the interval is empty: it halves every time. *)
Definition bs_fuel (lo hi : Z) : nat := Z.to_nat (Z.log2_up (hi - lo + 1)) + 2.

(** [PasswordHashAndCount binsearch(const Hash &hash, int *readCount)]: the record, the
    number of reads, and the inspector with its streams moved.  [fuel] bounds the index
    loops only. *)
Definition binsearch (fuel : nat) (i : Inspector) (h : Hash) : option (PHC * Z * Inspector) :=
  match mIndexFile i with
  | Some idxf =>
      let hashMSB := Z.shiftr (upper h) (mShift i) in
      let idx := i64 (u64 (hashMSB * index_key_size)) in
      match index_loop fuel (- index_key_size) idxf idx 0 0 with
      | None => None
      | Some (lo, nReads, idxf) =>
          match index_loop fuel index_key_size idxf (idx + index_key_size) (mFileSize i) nReads with
          | None => None
          | Some (hi, nReads, idxf) =>
              match bs_loop (bs_fuel lo hi) h (mInputFile i) PHC_default lo hi nReads with
              | None => None
              | Some (phc, nReads, f) =>
                  Some (phc, nReads, MkInspector (mInputOpen i) f (Some idxf) (mFileSize i) (mShift i))
              end
          end
      end
  | None =>
      match bs_loop (bs_fuel 0 (mFileSize i)) h (mInputFile i) PHC_default 0 (mFileSize i) 0 with
      | None => None
      | Some (phc, nReads, f) =>
          Some (phc, nReads, MkInspector (mInputOpen i) f None (mFileSize i) (mShift i))
      end
  end.

(** *** [smart_binsearch]: IEEE binary32 arithmetic *)

(** Conversion of an integer to [float], to nearest even, and [*] and [/] on [float]. *)
Definition f32_of_Z (z : Z) : spec_float := binary_normalize 24 128 z 0 false.
Definition f32_mul : spec_float -> spec_float -> spec_float := SFmul 24 128.
Definition f32_div : spec_float -> spec_float -> spec_float := SFdiv 24 128.

(** [std::llround]: to the nearest integer, halves away from zero; what an infinity or a NaN
    gives is unspecified ([None]). *)
Definition llround (x : spec_float) : option Z :=
  match x with
  | S754_zero _ => Some 0
  | S754_finite s m e =>
      let r := if 0 <=? e then Z.shiftl (Zpos m) e
               else (2 * Zpos m + 2 ^ (- e)) / (2 * 2 ^ (- e)) in
      Some (if s then - r else r)
  | _ => None
  end.

(** [std::llround(float(mFileSize) * float(hash.quad.upper) / MaxUInt64)] *)
Definition MaxUInt64 : spec_float := f32_of_Z (2 ^ 64 - 1).
Definition interpolate (fileSize up : Z) : option Z :=
  llround (f32_div (f32_mul (f32_of_Z fileSize) (f32_of_Z up)) MaxUInt64).

Definition OffsetMultiplicator : Z := 2.

(** The two galloping loops; [None] when the fuel runs out. *)
Fixpoint gallop_lo (fuel : nat) (h : Hash) (f : istream) (h0 : Hash) (lo loOffset nReads : Z)
    : option (istream * Z) :=
  match fuel with
  | O => None
  | S fuel =>
      if Hash_ltb h h0 && (loOffset <=? lo) then
        let lo := lo - loOffset in
        let '(_, h0, f) := Hash_read_at h0 f lo in
        gallop_lo fuel h f h0 lo (loOffset * OffsetMultiplicator) (nReads + 1)
      else Some (f, nReads)
  end.

Fixpoint gallop_hi (fuel : nat) (fileSize : Z) (h : Hash) (f : istream) (h1 : Hash)
    (hi hiOffset nReads : Z) : option (istream * Z) :=
  match fuel with
  | O => None
  | S fuel =>
      if Hash_gtb h h1 && (hi <=? fileSize - hiOffset - PHC_size) then
        let hi := hi + hiOffset in
        let '(_, h1, f) := Hash_read_at h1 f hi in
        gallop_hi fuel fileSize h f h1 hi (hiOffset * OffsetMultiplicator) (nReads + 1)
      else Some (f, nReads)
  end.

(** A gallop moves by at least one record a step. *)
Definition gallop_fuel (fileSize : Z) : nat := S (Z.to_nat (fileSize / PHC_size)).

(** [PasswordHashAndCount smart_binsearch(const Hash &hash, int *readCount)]; what the two
    gallops find only moves the stream. *)
Definition smart_binsearch (fuel : nat) (i : Inspector) (h : Hash)
    : option (PHC * Z * Inspector) :=
  match interpolate (mFileSize i) (upper h) with
  | None => None
  | Some potentialHitIdx =>
      let potentialHitIdx := potentialHitIdx - Z.rem potentialHitIdx PHC_size in
      let offset := Z.max (Z.shiftr (mFileSize i) 12) PHC_size in
      let offset := offset - Z.rem offset PHC_size in
      let lo := Z.max 0 (potentialHitIdx - offset) in
      let hi := Z.min (mFileSize i - PHC_size) (potentialHitIdx + offset) in
      let '(_, h0, f) := Hash_read_at Hash_default (mInputFile i) lo in
      match gallop_lo (gallop_fuel (mFileSize i)) h f h0 lo offset 1 with
      | None => None
      | Some (f, nReads) =>
          let '(_, h1, f) := Hash_read_at Hash_default f hi in
          match gallop_hi (gallop_fuel (mFileSize i)) (mFileSize i) h f h1 hi offset (nReads + 1) with
          | None => None
          | Some (f, nReads) =>
              let i := MkInspector (mInputOpen i) f (mIndexFile i) (mFileSize i) (mShift i) in
              match binsearch fuel i h with
              | None => None
              | Some (phc, nBinSearchReads, i) => Some (phc, nReads + nBinSearchReads, i)
              end
          end
      end
  end.

(** [PasswordHashAndCount lookup(const std::string &pwd)] *)
Definition lookup_pwd (MD5 : list byte -> list byte) (fuel : nat) (i : Inspector)
    (pwd : list byte) : option (PHC * Z * Inspector) :=
  binsearch fuel i (Hash_of_string MD5 pwd).

(** ** What a lookup means *)

(** Occurrences a file records for the hash with number [v]. *)
Definition count_of (recs : list PHC) (v : Z) : Z :=
  sum_Z (count <$> filter (fun p => hval (hash p) = v) recs).

(** A file the tools produce: well-formed records, strictly increasing by hash, of a size
    that fits a [std::streamoff]. *)
Definition hash_lt (p q : PHC) : Prop := hval (hash p) < hval (hash q).
Record lookup_file (recs : list PHC) : Prop := {
  lf_wf : Forall PHC_wf recs;
  lf_sorted : StronglySorted hash_lt recs;
  lf_size : PHC_size * Z.of_nat (length recs) < 2 ^ 62 }.

(** A stream over the file of [recs] with no state bit set. *)
Definition readable (recs : list PHC) (s : istream) : Prop :=
  exists p, 0 <= p /\ at_pos (phc_file recs) p s.

(** ** Lemmas: the probe position *)

Lemma probe_pos a b :
  0 <= a -> 0 <= b -> PHC_size * a < 2 ^ 62 -> PHC_size * b < 2 ^ 62 ->
  let pos := i64 (u64 (u64 (PHC_size * a) + u64 (PHC_size * b)) / 2) in
  Z.max 0 (pos - Z.rem pos PHC_size) = PHC_size * ((a + b) / 2).
Proof.
  unfold PHC_size. intros Ha Hb Ha' Hb'. cbv zeta.
  rewrite (u64_small (20 * a)), (u64_small (20 * b)), (u64_small (_ + _)) by lia.
  rewrite i64_small by dlia. rewrite Z.rem_mod_nonneg by dlia. dlia.
Qed.

(** For any offsets: the probe lies in the record just before the middle. *)
Lemma probe_bound lo hi :
  0 <= lo <= hi -> hi < 2 ^ 62 ->
  let pos := i64 (u64 (u64 lo + u64 hi) / 2) in
  let pos' := Z.max 0 (pos - Z.rem pos PHC_size) in
  0 <= pos' /\ pos' <= (lo + hi) / 2 < pos' + PHC_size.
Proof.
  intros Hlo Hhi. unfold PHC_size. cbv zeta.
  rewrite (u64_small lo), (u64_small hi), (u64_small (_ + _)) by lia.
  rewrite i64_small by dlia. rewrite Z.rem_mod_nonneg by dlia. dlia.
Qed.

(** ** Lemmas: the loop halves its interval *)

Lemma interval_right lo hi pos k :
  hi - lo < 2 ^ (k + 1) -> 0 <= k -> (lo + hi) / 2 < pos + PHC_size -> hi - (pos + PHC_size) < 2 ^ k.
Proof. intros Hw Hk. rewrite Z.pow_add_r in Hw by lia. unfold PHC_size. dlia. Qed.

Lemma interval_left lo hi pos k :
  hi - lo < 2 ^ (k + 1) -> 0 <= k -> pos <= (lo + hi) / 2 -> pos - PHC_size - lo < 2 ^ k.
Proof. intros Hw Hk. rewrite Z.pow_add_r in Hw by lia. unfold PHC_size. dlia. Qed.

(** Whatever the file holds, the loop ends: an interval shorter than [2^k] takes at most
    [k + 1] reads. *)
Lemma bs_loop_total k fuel h f phc lo hi nReads :
  0 <= lo -> hi < 2 ^ 62 -> hi - lo < 2 ^ Z.of_nat k -> (k + 2 <= fuel)%nat ->
  exists p n f', bs_loop fuel h f phc lo hi nReads = Some (p, n, f') /\
    nReads <= n <= nReads + Z.of_nat k + 1.
Proof.
  revert fuel f phc lo hi nReads.
  induction k as [|k IH]; intros fuel f phc lo hi nReads Hlo Hhi Hw Hfuel;
    (destruct fuel as [|fuel]; [lia|]); cbn [bs_loop];
    destruct (Z.leb_spec lo hi); try (do 3 eexists; split; [done|lia]);
    pose proof (probe_bound lo hi ltac:(lia) Hhi) as [Hp0 Hp]; cbv zeta in Hp0, Hp;
    set (pos := Z.max 0 _) in *; destruct (PHC_read_at phc f pos) as [[ok q] f1].
  - destruct fuel as [|fuel]; [lia|]. cbn [bs_loop]. change (2 ^ Z.of_nat 0) with 1 in Hw.
    replace hi with lo in * by lia. replace ((lo + lo) / 2) with lo in Hp by dlia.
    rewrite !(proj2 (Z.leb_gt _ _)) by (unfold PHC_size in *; lia).
    destruct (Hash_gtb h (hash q)), (Hash_ltb h (hash q)); do 3 eexists; (split; [done|lia]).
  - rewrite Nat2Z.inj_succ in Hw.
    destruct (Hash_gtb h (hash q)); [|destruct (Hash_ltb h (hash q))].
    + destruct (IH fuel f1 q (pos + PHC_size) hi (nReads + 1)) as (p & n & f' & -> & ?);
        [unfold PHC_size; lia|lia|by eapply interval_right; [apply Hw|lia|lia]|lia|].
      do 3 eexists. split; [done|lia].
    + destruct (IH fuel f1 q lo (pos - PHC_size) (nReads + 1)) as (p & n & f' & -> & ?);
        [lia|unfold PHC_size; dlia|by eapply interval_left; [apply Hw|lia|lia]|lia|].
      do 3 eexists. split; [done|lia].
    + do 3 eexists. split; [done|lia].
Qed.

Lemma log2_up_above x : 0 <= x -> x < 2 ^ Z.of_nat (Z.to_nat (Z.log2_up (x + 1))).
Proof.
  intros Hx. rewrite Z2Nat.id by apply Z.log2_up_nonneg.
  destruct (decide (x = 0)) as [->|]; [done|].
  pose proof (Z.log2_up_spec (x + 1)). lia.
Qed.

(** The fuel of [binsearch] is enough. *)
Lemma bs_fuel_total h f lo hi nReads :
  0 <= lo -> hi < 2 ^ 62 ->
  exists p n f', bs_loop (bs_fuel lo hi) h f PHC_default lo hi nReads = Some (p, n, f') /\
    nReads <= n <= nReads + Z.log2_up (hi - lo + 1) + 1.
Proof.
  intros Hlo Hhi. unfold bs_fuel. destruct (Z.le_gt_cases lo hi) as [Hle|Hgt].
  - destruct (bs_loop_total (Z.to_nat (Z.log2_up (hi - lo + 1))) (Z.to_nat (Z.log2_up (hi - lo + 1)) + 2)
      h f PHC_default lo hi nReads) as (p & n & f' & He & Hn);
      [done|done|by apply log2_up_above; lia|lia|].
    exists p, n, f'. split; [done|]. rewrite Z2Nat.id in Hn by apply Z.log2_up_nonneg. lia.
  - pose proof (Z.log2_up_nonneg (hi - lo + 1)).
    rewrite Nat.add_comm. cbn [bs_loop Nat.add]. rewrite (proj2 (Z.leb_gt _ _)) by lia.
    do 3 eexists. split; [done|lia].
Qed.

(** ** Lemmas: what the loop finds *)

Lemma sorted_count_found recs i p :
  StronglySorted hash_lt recs -> recs !! i = Some p -> count_of recs (hval (hash p)) = count p.
Proof.
  intros Hs. revert i. induction Hs as [|q l Hs IH Hq]; intros i Hi; [done|].
  unfold count_of in *. rewrite filter_cons. destruct i as [|i]; simpl in Hi.
  - simplify_eq. rewrite decide_True by done. simpl.
    enough (filter (fun p0 => hval (hash p0) = hval (hash p)) l = []) as -> by (simpl; lia).
    apply filter_none. eapply Forall_impl; [done|]. unfold hash_lt. simpl. lia.
  - rewrite decide_False; [by eapply IH|].
    rewrite Forall_lookup in Hq. specialize (Hq i p Hi). unfold hash_lt in Hq. lia.
Qed.

Lemma count_of_absent recs v :
  Forall (fun p => hval (hash p) <> v) recs -> count_of recs v = 0.
Proof. intros Hf. unfold count_of. by rewrite filter_none. Qed.

(** What the records left of [a] and right of [b] have to be. *)
Definition left_below (recs : list PHC) (v a : Z) : Prop :=
  forall i p, recs !! i = Some p -> Z.of_nat i < a -> hval (hash p) < v.
Definition right_above (recs : list PHC) (v b : Z) : Prop :=
  forall i p, recs !! i = Some p -> b < Z.of_nat i -> v < hval (hash p).

(** The answer of a lookup: the count of the hash, and its record when there is one. *)
Definition answers (recs : list PHC) (v : Z) (q : PHC) : Prop :=
  count q = count_of recs v /\ (v ∈ hval ∘ hash <$> recs -> hval (hash q) = v).

Lemma lf_index recs i p :
  lookup_file recs -> recs !! i = Some p -> PHC_size * Z.of_nat i < 2 ^ 62.
Proof. intros Hf Hi%lookup_lt_Some. pose proof (lf_size _ Hf). unfold PHC_size in *. lia. Qed.

Section search.
Context (recs : list PHC) (Hf : lookup_file recs) (h : Hash) (Hh : Hash_wf h).
Let v := hval h.

Lemma answers_found i p q :
  recs !! i = Some p -> hval (hash p) = v -> count q = count p -> hval (hash q) = v ->
  answers recs v q.
Proof using Hf.
  intros Hi Hp Hc Hq. split; [|done].
  by rewrite Hc, <- Hp, (sorted_count_found recs i) by (done || apply Hf).
Qed.

Lemma answers_absent a b q :
  left_below recs v a -> right_above recs v b -> b < a -> count q = 0 -> answers recs v q.
Proof using Type.
  intros Hl Hr Hab Hc.
  assert (Forall (fun p => hval (hash p) <> v) recs) as Hno.
  { apply Forall_lookup. intros i p Hi. destruct (Z.lt_ge_cases (Z.of_nat i) a) as [Hia|Hia].
    - specialize (Hl i p Hi Hia). lia.
    - assert (b < Z.of_nat i) as Hbi by lia. specialize (Hr i p Hi Hbi). lia. }
  split; [by rewrite Hc, count_of_absent|].
  intros Hin. apply list_elem_of_fmap in Hin as (p & Hv & Hp).
  rewrite Forall_forall in Hno. by destruct (Hno p Hp).
Qed.

Lemma left_below_step i p :
  recs !! i = Some p -> hval (hash p) < v -> left_below recs v (Z.of_nat i + 1).
Proof using Hf.
  intros Hi Hp j q Hj Hji. destruct (decide (j = i)) as [->|]; [by simplify_eq|].
  pose proof (StronglySorted_lookup _ recs j i q p (lf_sorted _ Hf) Hj Hi ltac:(lia)) as Hlt.
  unfold hash_lt in Hlt. lia.
Qed.

Lemma right_above_step i p :
  recs !! i = Some p -> v < hval (hash p) -> right_above recs v (Z.of_nat i - 1).
Proof using Hf.
  intros Hi Hp j q Hj Hji. destruct (decide (j = i)) as [->|]; [by simplify_eq|].
  pose proof (StronglySorted_lookup _ recs i j p q (lf_sorted _ Hf) Hi Hj ltac:(lia)) as Hlt.
  unfold hash_lt in Hlt. lia.
Qed.

(** One probe inside the file: the record read, and a stream that is still good. *)
Lemma probe_ok a b q f :
  readable recs f -> 0 <= a -> 0 <= b -> a + b < 2 * Z.of_nat (length recs) ->
  exists p f', recs !! Z.to_nat ((a + b) / 2) = Some p /\ PHC_wf p /\ readable recs f' /\
    PHC_read_at q f (PHC_size * ((a + b) / 2)) = (true, read_into q p, f').
Proof using All.
  intros (pos & Hpos & Hat) Ha Hb Hn.
  destruct (lookup_lt_is_Some_2 recs (Z.to_nat ((a + b) / 2))) as [p Hp]; [dlia|].
  pose proof (lf_wf _ Hf) as Hwf. rewrite Forall_lookup in Hwf. specialize (Hwf _ _ Hp).
  exists p. eexists. split; [done|]. split; [done|]. unfold PHC_read_at.
  rewrite (PHC_read_ok recs (Z.to_nat ((a + b) / 2)) p); [|rewrite Z2Nat.id by dlia|done|done].
  - split; [|done]. eexists. split; [|done]. unfold PHC_size. lia.
  - eapply seekg_good; [done|]. unfold PHC_size. dlia.
Qed.

(** One record behind the last one: nothing is read, and the loop ends with the hash it has. *)
Lemma bs_loop_past_end fuel f phc nReads (n := Z.of_nat (length recs)) :
  readable recs f -> Hash_wf (hash phc) -> left_below recs v n ->
  (if decide (n = 0) then recs = [] -> phc = PHC_default else hval (hash phc) < v) ->
  exists q f', bs_loop (S (S fuel)) h f phc (PHC_size * n) (PHC_size * n) nReads = Some (q, nReads + 1, f') /\
    answers recs v q.
Proof using All.
  intros (pos & Hpos & Hat) Hq Hl Hcarry. pose proof (lf_size _ Hf) as Hsz. unfold PHC_size in Hsz. fold n in Hsz.
  cbn [bs_loop]. rewrite Z.leb_refl, probe_pos by (unfold PHC_size; lia). replace ((n + n) / 2) with n by dlia.
  unfold PHC_read_at. erewrite PHC_read_eof; [|by eapply seekg_good; [|unfold PHC_size; lia]|done|done].
  set (f1 := IStream _ _ _ _ _ _).
  assert (answers recs v (MkPHC (hash phc) 0)) as Habs.
  { eapply (answers_absent n (n - 1)); try done; [|lia]. intros i p Hi%lookup_lt_Some ?. lia. }
  destruct (Hash_gtb h (hash phc)) eqn:Hgt.
  - rewrite (proj2 (Z.leb_gt _ _)) by (unfold PHC_size; lia). by do 2 eexists.
  - rewrite Hash_gtb_spec in Hgt by done. fold v in Hgt. apply Z.ltb_ge in Hgt.
    destruct (decide (n = 0)) as [Hn|]; [|lia]. assert (recs = []) as Hnil by (by destruct recs).
    rewrite Hcarry in * by done. rewrite Hash_ltb_spec by done. change (hval (hash PHC_default)) with 0.
    assert (0 <= v) by (subst v; destruct Hh; unfold hval; lia).
    rewrite (proj2 (Z.ltb_ge _ _)) by (fold v; lia). by do 2 eexists.
Qed.

(** The loop over the records [a] to [b]: at most [k] reads for fewer than [2 ^ k] records. *)
Lemma bs_loop_spec k fuel f phc a b nReads :
  readable recs f -> Hash_wf (hash phc) ->
  0 <= a <= b + 1 -> b <= Z.of_nat (length recs) -> b - a + 1 < 2 ^ Z.of_nat k ->
  (k < fuel)%nat -> left_below recs v a -> right_above recs v b ->
  (b = Z.of_nat (length recs) -> if decide (a = 0) then recs = [] -> phc = PHC_default
                                 else hval (hash phc) < v) ->
  exists q n f',
    bs_loop fuel h f phc (PHC_size * a) (PHC_size * b) nReads = Some (q, n, f') /\
    answers recs v q /\ n <= nReads + Z.of_nat k /\
    (~ left_below recs v (Z.of_nat (length recs)) -> readable recs f').
Proof using All.
  revert fuel f phc a b nReads. pose proof (lf_size _ Hf) as Hsz. unfold PHC_size in Hsz.
  induction k as [|k IH]; intros fuel f phc a b nReads Hr Hq Hab Hb Hw Hfuel Hl Hra Hcarry;
    (destruct fuel as [|fuel]; [lia|]); [cbn [bs_loop]|].
  { change (2 ^ Z.of_nat 0) with 1 in Hw. rewrite (proj2 (Z.leb_gt _ _)) by (unfold PHC_size; lia).
    do 3 eexists. split; [done|]. split; [by eapply answers_absent; eauto; lia|]. split; [lia|done]. }
  destruct (decide (a = Z.of_nat (length recs) /\ b = a)) as [[-> ->]|Hin].
  { destruct fuel as [|fuel]; [lia|]. specialize (Hcarry eq_refl).
    destruct (bs_loop_past_end fuel f phc nReads Hr Hq Hl Hcarry) as (q & f' & -> & Ha).
    do 3 eexists. split; [done|]. split; [done|]. split; [lia|done]. }
  cbn [bs_loop]. destruct (Z.leb_spec (PHC_size * a) (PHC_size * b)) as [Hle|Hgt]; unfold PHC_size in Hb, Hsz.
  2: { do 3 eexists. split; [done|]. split; [|split; [lia|done]].
       eapply answers_absent; eauto. unfold PHC_size in Hgt. lia. }
  unfold PHC_size in Hle. rewrite Nat2Z.inj_succ, Z.pow_succ_r in Hw by lia.
  rewrite !probe_pos by (unfold PHC_size; lia).
  destruct (probe_ok a b phc f) as (p & f1 & Hp & [Hpw Hpc] & Hr1 & ->); [done|lia|lia|lia|].
  set (m := (a + b) / 2) in *. assert (a <= m <= b /\ a + b < 2 * (m + 1) /\ 2 * m <= a + b) by (subst m; dlia).
  pose proof (lookup_lt_Some _ _ _ Hp).
  change (hash (read_into phc p)) with (MkHash (upper (hash p)) (lower (hash p)) (isValid (hash phc))).
  rewrite Hash_gtb_spec, Hash_ltb_spec by done. fold v.
  change (hval (MkHash _ _ _)) with (hval (hash p)).
  destruct (Z.ltb_spec (hval (hash p)) v) as [Hlt|Hge].
  + replace (PHC_size * m + PHC_size) with (PHC_size * (m + 1)) by lia.
    destruct (IH fuel f1 (read_into phc p) (m + 1) b (nReads + 1))
      as (q & n & f' & -> & Ha & Hn & Hrd); try done; try lia.
    * pose proof (left_below_step _ p Hp Hlt) as Hs. by rewrite Z2Nat.id in Hs by lia.
    * intros _. by rewrite decide_False by lia.
    * do 3 eexists. split; [done|]. split; [done|]. split; [lia|done].
  + destruct (Z.ltb_spec v (hval (hash p))) as [Hlt|Hge'].
    * replace (PHC_size * m - PHC_size) with (PHC_size * (m - 1)) by lia.
      destruct (IH fuel f1 (read_into phc p) a (m - 1) (nReads + 1))
        as (q & n & f' & -> & Ha & Hn & Hrd); try done; try lia.
      -- pose proof (right_above_step _ p Hp Hlt) as Hs. by rewrite Z2Nat.id in Hs by lia.
      -- do 3 eexists. split; [done|]. split; [done|]. split; [lia|done].
    * do 3 eexists. split; [done|]. split; [|split; [lia|done]].
      eapply (answers_found _ p); try done; [lia|]. simpl.
      change (hval (MkHash _ _ _)) with (hval (hash p)). lia.
Qed.
End search.

(** ** Lemmas: whole lookups *)

Lemma left_below_all recs v :
  left_below recs v (Z.of_nat (length recs)) <-> Forall (fun p => hval (hash p) < v) recs.
Proof.
  rewrite Forall_lookup. split; intros H i p Hi; [apply (H i p Hi)|intros _; by eapply H].
  apply lookup_lt_Some in Hi. lia.
Qed.

Lemma log2_above x : 0 <= x -> x < 2 ^ Z.of_nat (Z.to_nat (Z.log2 x) + 1).
Proof.
  intros Hx. rewrite Nat2Z.inj_add, Z2Nat.id by apply Z.log2_nonneg.
  destruct (decide (x = 0)) as [->|]; [done|]. pose proof (Z.log2_spec x). change (Z.of_nat 1) with 1. lia.
Qed.

(** [bs_loop_spec] with the fuel [binsearch] gives the loop. *)
Lemma bs_search recs h f a b nReads :
  lookup_file recs -> Hash_wf h -> readable recs f ->
  0 <= a <= b -> b <= Z.of_nat (length recs) ->
  left_below recs (hval h) a -> right_above recs (hval h) b ->
  (b = Z.of_nat (length recs) -> a = 0) ->
  exists q n f',
    bs_loop (bs_fuel (PHC_size * a) (PHC_size * b)) h f PHC_default (PHC_size * a) (PHC_size * b)
      nReads = Some (q, n, f') /\
    answers recs (hval h) q /\ n <= nReads + Z.log2 (b - a + 1) + 1 /\
    (~ Forall (fun p => hval (hash p) < hval h) recs -> readable recs f').
Proof.
  intros Hf Hh Hr Hab Hb Hl Hra Hcarry.
  assert (0 <= Z.log2 (b - a + 1) <= Z.log2_up (PHC_size * b - PHC_size * a + 1)) as Hlog.
  { split; [apply Z.log2_nonneg|]. etransitivity; [apply Z.le_log2_log2_up|].
    apply Z.log2_up_le_mono. unfold PHC_size. lia. }
  destruct (bs_loop_spec recs Hf h Hh (Z.to_nat (Z.log2 (b - a + 1)) + 1)
    (bs_fuel (PHC_size * a) (PHC_size * b)) f PHC_default a b nReads)
    as (q & n & f' & -> & Ha & Hn & Hrd); try done; try lia.
  - apply log2_above. lia.
  - unfold bs_fuel. lia.
  - intros Hbn. rewrite decide_True by auto. done.
  - do 3 eexists. split; [done|]. split; [done|]. split; [lia|]. by rewrite <- left_below_all.
Qed.

(** An inspector without index over the file of [recs], none of whose reads has failed. *)
Record opened (recs : list PHC) (i : Inspector) : Prop := {
  op_open : mInputOpen i = true;
  op_index : mIndexFile i = None;
  op_size : mFileSize i = PHC_size * Z.of_nat (length recs);
  op_stream : readable recs (mInputFile i) }.

Lemma open_opened recs :
  lookup_file recs ->
  exists i, PasswordInspector (Some (FileEntry (phc_file recs) true)) = Some i /\ opened recs i.
Proof.
  intros Hf. eexists. split; [done|]. pose proof (lf_size _ Hf). split; simpl; try done.
  - rewrite length_phc_file. apply i64_small. unfold PHC_size in *. lia.
  - by exists 0.
Qed.

Lemma binsearch_plain fuel i h :
  mIndexFile i = None ->
  binsearch fuel i h =
  (fun '(phc, n, f) => (phc, n, MkInspector (mInputOpen i) f None (mFileSize i) (mShift i))) <$>
  bs_loop (bs_fuel 0 (mFileSize i)) h (mInputFile i) PHC_default 0 (mFileSize i) 0.
Proof. intros Hi. unfold binsearch. rewrite Hi. by destruct (bs_loop _ _ _ _ _ _ _) as [[[] ?]|]. Qed.

Lemma binsearch_opened recs fuel i h :
  lookup_file recs -> opened recs i -> Hash_wf h ->
  exists q n i', binsearch fuel i h = Some (q, n, i') /\ answers recs (hval h) q /\
    n <= Z.log2 (Z.of_nat (length recs) + 1) + 1 /\
    (~ Forall (fun p => hval (hash p) < hval h) recs -> opened recs i').
Proof.
  intros Hf Hi Hh. rewrite binsearch_plain by apply Hi. rewrite (op_size _ _ Hi).
  destruct (bs_search recs h (mInputFile i) 0 (Z.of_nat (length recs)) 0) as (q & n & f' & Hs & Ha & Hn & Hr);
    try done; try lia; try apply Hi.
  - intros j p _ Hj. lia.
  - intros j p Hj%lookup_lt_Some ?. lia.
  - rewrite Z.mul_0_r in Hs. rewrite Hs. do 3 eexists. split; [done|]. split; [done|].
    split; [by rewrite Z.sub_0_r in Hn|].
    intros Hb. split; simpl; [apply Hi|done|done|auto].
Qed.

(** A hash of sixteen bytes read inside the file leaves the stream good. *)
Lemma Hash_read_at_ok recs h f pos :
  readable recs f -> 0 <= pos -> pos + PHC_size <= PHC_size * Z.of_nat (length recs) ->
  exists h' f', Hash_read_at h f pos = (true, h', f') /\ readable recs f'.
Proof.
  intros (q & Hq & Hat) Hpos Hn. unfold Hash_read_at, Hash_read.
  rewrite <- length_phc_file in Hn. unfold PHC_size, Hash_size in *.
  erewrite (read_full _ pos 16 (take 16 (drop (Z.to_nat pos) (phc_file recs)))
    (drop 16 (drop (Z.to_nat pos) (phc_file recs)))).
  - assert (length (take 16 (drop (Z.to_nat pos) (phc_file recs))) = 16%nat) as ->
      by (rewrite length_take, length_drop; lia).
    do 2 eexists. split; [done|]. eexists. split; [|done]. lia.
  - by eapply seekg_good.
  - done.
  - by rewrite take_drop.
  - rewrite length_take, length_drop. lia.
Qed.

Lemma gallop_lo_ok recs h fuel f h0 lo off n :
  readable recs f -> 0 <= lo -> lo + PHC_size <= PHC_size * Z.of_nat (length recs) ->
  PHC_size <= off -> lo / PHC_size < Z.of_nat fuel ->
  exists f' n', gallop_lo fuel h f h0 lo off n = Some (f', n') /\ readable recs f'.
Proof.
  revert f h0 lo off n. induction fuel as [|fuel IH]; intros f h0 lo off n Hr Hlo Hn Hoff Hfuel.
  { unfold PHC_size in *. exfalso. dlia. }
  cbn [gallop_lo]. destruct (Hash_ltb h h0); simpl; [|eauto].
  destruct (Z.leb_spec off lo) as [Hle|]; [|eauto].
  destruct (Hash_read_at_ok recs h0 f (lo - off)) as (h' & f' & -> & Hr'); [done|lia|unfold PHC_size in *; lia|].
  apply IH; [done|..]; unfold PHC_size, OffsetMultiplicator in *; [lia|lia|lia|dlia].
Qed.

Lemma gallop_hi_ok recs h fuel f h1 hi off n :
  let fs := PHC_size * Z.of_nat (length recs) in
  readable recs f -> 0 <= hi -> hi + PHC_size <= fs -> PHC_size <= off ->
  (fs - hi) / PHC_size <= Z.of_nat fuel ->
  exists f' n', gallop_hi fuel fs h f h1 hi off n = Some (f', n') /\ readable recs f'.
Proof.
  intros fs. revert f h1 hi off n.
  induction fuel as [|fuel IH]; intros f h1 hi off n Hr Hhi Hn Hoff Hfuel.
  { unfold PHC_size in *. exfalso. dlia. }
  cbn [gallop_hi]. destruct (Hash_gtb h h1); simpl; [|eauto].
  destruct (Z.leb_spec hi (fs - off - PHC_size)) as [Hle|]; [|eauto].
  destruct (Hash_read_at_ok recs h1 f (hi + off)) as (h' & f' & -> & Hr'); [done|unfold PHC_size in *; lia|subst fs; lia|].
  apply IH; [done|..]; unfold PHC_size, OffsetMultiplicator in *; [lia|lia|lia|dlia].
Qed.

(** A failed stream: every read leaves the record as it was, zero. *)
Lemma bs_loop_failed fuel h f lo hi n q n' f' :
  failbit f = true -> bs_loop fuel h f PHC_default lo hi n = Some (q, n', f') ->
  count q = 0 /\ failbit f' = true.
Proof.
  revert f lo hi n. induction fuel as [|fuel IH]; intros f lo hi n Hf; cbn [bs_loop]; [done|].
  destruct (lo <=? hi); [|intros; by simplify_eq].
  unfold PHC_read_at. rewrite seekg_failed by done. rewrite PHC_read_failed by done.
  destruct (Hash_gtb h _); [by apply IH|]. destruct (Hash_ltb h _); [by apply IH|].
  intros. by simplify_eq.
Qed.

(** A search for a hash above all records ends by reading past the end. *)
Lemma bs_loop_beyond recs fuel h f phc a n q n' f' :
  let N := Z.of_nat (length recs) in
  lookup_file recs -> Hash_wf h -> Hash_wf (hash phc) ->
  Forall (fun p => hval (hash p) < hval h) recs ->
  readable recs f -> 0 <= a <= N ->
  bs_loop fuel h f phc (PHC_size * a) (PHC_size * N) n = Some (q, n', f') -> failbit f' = true.
Proof.
  intros N Hf Hh Hq Hall. revert f phc a n Hq. pose proof (lf_size _ Hf).
  induction fuel as [|fuel IH]; intros f phc a n Hq Hr Ha; cbn [bs_loop]; [done|].
  rewrite (proj2 (Z.leb_le _ _)) by (unfold PHC_size; lia).
  rewrite !probe_pos by (unfold PHC_size in *; lia).
  destruct (Z.lt_ge_cases (a + N) (2 * N)) as [Hin|Hout].
  - destruct (probe_ok recs Hf h Hh a N phc f) as (p & f1 & Hp & [Hpw Hpc] & Hr1 & ->); [done|lia|lia|done|].
    change (hash (read_into phc p)) with (MkHash (upper (hash p)) (lower (hash p)) (isValid (hash phc))).
    rewrite Forall_lookup in Hall. pose proof (Hall _ _ Hp) as Hlt.
    rewrite Hash_gtb_spec by done. change (hval (MkHash _ _ _)) with (hval (hash p)).
    rewrite (proj2 (Z.ltb_lt _ _)) by done.
    replace (PHC_size * ((a + N) / 2) + PHC_size) with (PHC_size * ((a + N) / 2 + 1)) by lia.
    apply IH; [done|done|dlia].
  - replace a with N in * by lia. replace ((N + N) / 2) with N by dlia.
    destruct Hr as (pos & Hpos & Hat). unfold PHC_read_at.
    erewrite PHC_read_eof; [|eapply seekg_good; [done|unfold PHC_size; lia]|done|done].
    destruct (Hash_gtb h _); [|destruct (Hash_ltb h _)]; [| |intros; by simplify_eq];
      (destruct fuel; [done|]); cbn [bs_loop];
      rewrite (proj2 (Z.leb_gt _ _)) by (unfold PHC_size; lia); intros; by simplify_eq.
Qed.

(** The lookups a client makes one after the other with the same object. *)
Fixpoint lookups (fuel : nat) (i : Inspector) (hs : list Hash) : option (list PHC * Inspector) :=
  match hs with
  | [] => Some ([], i)
  | h :: hs =>
      match binsearch fuel i h with
      | None => None
      | Some (phc, _, i) =>
          match lookups fuel i hs with
          | None => None
          | Some (l, i) => Some (phc :: l, i)
          end
      end
  end.

(** ** Properties *)

(** A two-record file for the witnesses. *)
Definition demo_recs : list PHC :=
  [MkPHC (MkHash 1 0xaaaa false) 7; MkPHC (MkHash 2 0x5555 false) 3000000000].

Lemma demo_lookup_file : lookup_file demo_recs.
Proof.
  split; [repeat constructor; simpl; lia| |done].
  repeat constructor; unfold hash_lt, hval; simpl; lia.
Qed.

Lemma lookups_opened recs hs fuel i :
  lookup_file recs -> Forall Hash_wf hs ->
  Forall (fun h => exists p, p ∈ recs /\ hval h <= hval (hash p)) hs -> opened recs i ->
  exists l i', lookups fuel i hs = Some (l, i') /\
    Forall2 (fun h q => answers recs (hval h) q) hs l /\ opened recs i'.
Proof.
  intros Hf Hhs Hbelow Hi. revert i Hi. induction Hhs as [|h hs Hh Hhs IH]; intros i Hi; cbn [lookups]; [eauto|].
  apply Forall_cons in Hbelow as [(p & Hp & Hle) Hbelow].
  destruct (binsearch_opened recs fuel i h Hf Hi Hh) as (q & n & i' & -> & Ha & _ & Hnext).
  destruct (IH Hbelow i') as (l & i'' & -> & ? & ?); [|eauto 6].
  apply Hnext. rewrite Forall_forall. intros Hall. specialize (Hall p Hp). lia.
Qed.

(** C1: looking hashes up one after the other in a sorted file, with the object the
    constructor returns, gives for each the number of its occurrences in the file, zero for
    the hashes it does not hold, and its record when there is one, provided no hash is above
    the last record. *)
Theorem lookups_correct recs hs fuel :
  lookup_file recs -> Forall Hash_wf hs ->
  Forall (fun h => exists p, p ∈ recs /\ hval h <= hval (hash p)) hs ->
  exists i l i',
    PasswordInspector (Some (FileEntry (phc_file recs) true)) = Some i /\
    lookups fuel i hs = Some (l, i') /\
    Forall2 (fun h q => answers recs (hval h) q) hs l.
Proof.
  intros Hf Hhs Hbelow. destruct (open_opened recs Hf) as (i & Ho & Hi).
  destruct (lookups_opened recs hs fuel i Hf Hhs Hbelow Hi) as (l & i' & ? & ? & _). eauto 6.
Qed.

Lemma lookups_correct_witness :
  exists i l i',
    PasswordInspector (Some (FileEntry (phc_file demo_recs) true)) = Some i /\
    lookups 0 i [MkHash 2 0x5555 true; MkHash 1 0 true] = Some (l, i') /\
    Forall2 (fun h q => answers demo_recs (hval h) q) [MkHash 2 0x5555 true; MkHash 1 0 true] l.
Proof.
  apply (lookups_correct demo_recs [MkHash 2 0x5555 true; MkHash 1 0 true] 0).
  - apply demo_lookup_file.
  - repeat constructor; simpl; lia.
  - rewrite !Forall_cons, Forall_nil. split_and!; [| |done]; exists (MkPHC (MkHash 2 0x5555 false) 3000000000);
      (split; [apply list_elem_of_In; simpl; auto|unfold hval; simpl; lia]).
Defined.

(** The search that interpolates. *)
Lemma smart_binsearch_opened recs fuel i h P :
  lookup_file recs -> recs <> [] -> opened recs i -> Hash_wf h ->
  interpolate (mFileSize i) (upper h) = Some P -> 0 <= P < mFileSize i + PHC_size ->
  exists q n i', smart_binsearch fuel i h = Some (q, n, i') /\ answers recs (hval h) q /\
    (~ Forall (fun p => hval (hash p) < hval h) recs -> opened recs i').
Proof.
  intros Hf Hne Hi Hh HP HPr. pose proof (lf_size _ Hf) as Hsz. unfold smart_binsearch. rewrite HP.
  assert (0 < Z.of_nat (length recs)) as Hlen by (destruct recs; simpl; [done|lia]).
  rewrite (op_size _ _ Hi) in *. rewrite !Z.rem_mod_nonneg by (unfold PHC_size in *; lia).
  set (N := Z.of_nat (length recs)) in *.
  set (P' := P - P mod PHC_size). set (off0 := Z.max (Z.shiftr (PHC_size * N) 12) PHC_size).
  set (off := off0 - off0 mod PHC_size).
  assert (0 <= P' <= PHC_size * N) by (subst P'; unfold PHC_size in *; dlia).
  assert (PHC_size <= off) by (subst off off0; unfold PHC_size in *; dlia).
  destruct (Hash_read_at_ok recs Hash_default (mInputFile i) (Z.max 0 (P' - off)))
    as (h0 & f0 & -> & Hr0); [apply Hi|lia|unfold PHC_size in *; fold N; lia|].
  destruct (gallop_lo_ok recs h (gallop_fuel (PHC_size * N)) f0 h0 (Z.max 0 (P' - off)) off 1)
    as (f1 & n1 & -> & Hr1); [done|lia|unfold PHC_size in *; fold N; lia|done|
    unfold gallop_fuel, PHC_size in *; dlia|].
  destruct (Hash_read_at_ok recs Hash_default f1 (Z.min (PHC_size * N - PHC_size) (P' + off)))
    as (h1 & f2 & -> & Hr2); [done|unfold PHC_size in *; lia|unfold PHC_size in *; fold N; lia|].
  destruct (gallop_hi_ok recs h (gallop_fuel (PHC_size * N)) f2 h1
    (Z.min (PHC_size * N - PHC_size) (P' + off)) off (n1 + 1))
    as (f3 & n3 & Hg & Hr3); [done|unfold PHC_size in *; lia|unfold PHC_size in *; fold N; lia|done|
    unfold gallop_fuel, PHC_size in *; fold N; dlia|].
  fold N in Hg. rewrite Hg. cbv zeta.
  destruct (binsearch_opened recs fuel (MkInspector (mInputOpen i) f3 (mIndexFile i) (PHC_size * N) (mShift i)) h)
    as (q & n & i' & -> & Ha & _ & Ho); [done| |done|eauto 10].
  split; simpl; [apply Hi|apply Hi|done|done].
Qed.

(** C32: one lookup without an index ends whatever bytes the file holds and whatever state the
    stream is in, after a number of reads logarithmic in the size of the file. *)
Theorem binsearch_total fuel i h :
  mIndexFile i = None -> 0 <= mFileSize i < 2 ^ 62 ->
  exists q n i', binsearch fuel i h = Some (q, n, i') /\ n <= Z.log2_up (mFileSize i + 1) + 1.
Proof.
  intros Hi Hs. rewrite binsearch_plain by done.
  destruct (bs_fuel_total h (mInputFile i) 0 (mFileSize i) 0) as (p & n & f' & -> & Hn); [lia|lia|].
  do 3 eexists. split; [done|]. rewrite Z.sub_0_r in Hn. lia.
Qed.

Lemma binsearch_total_witness :
  exists q n i',
    binsearch 0 (MkInspector true (open_stream (bs "not a file of records")) None 21 0)
      (MkHash 5 5 true) = Some (q, n, i') /\ n <= Z.log2_up 22 + 1.
Proof.
  apply (binsearch_total 0 (MkInspector true (open_stream (bs "not a file of records")) None 21 0));
    [reflexivity|simpl; lia].
Defined.

(** C39: one lookup of a hash above every record breaks the object: the read past the end
    leaves [failbit] set, [seekg] does not clear it, and every later lookup, of any hash,
    finds nothing. *)
Theorem lookup_beyond_poisons recs fuel i h q n i' hs l i'' :
  lookup_file recs -> opened recs i -> Hash_wf h ->
  Forall (fun p => hval (hash p) < hval h) recs ->
  binsearch fuel i h = Some (q, n, i') -> lookups fuel i' hs = Some (l, i'') ->
  Forall (fun q => count q = 0) l.
Proof.
  intros Hf Hi Hh Hall Hb. rewrite binsearch_plain in Hb by apply Hi.
  destruct (bs_loop _ _ _ _ _ _ _) as [[[q' n'] f']|] eqn:Hs; [|done].
  rewrite (op_size _ _ Hi) in Hs. change 0 with (PHC_size * 0) in Hs at 2.
  apply bs_loop_beyond in Hs; try done; [|apply Hi|lia].
  assert (mIndexFile i' = None /\ failbit (mInputFile i') = true) as Hbad.
  { csimpl in Hb. by simplify_eq. }
  clear Hb Hs. revert i' l Hbad. induction hs as [|h' hs IH]; intros j l [Hx Hfail];
    intros Hl; cbn [lookups] in Hl; [by simplify_eq|].
  rewrite binsearch_plain in Hl by done. destruct (bs_loop _ _ _ _ _ _ _) as [[[q1 n1] f1]|] eqn:Hs1; [|done].
  apply bs_loop_failed in Hs1 as [Hc Hf1]; [|done]. csimpl in Hl.
  destruct (lookups _ _ _) as [[l1 ?]|] eqn:Hl1; [|done]. simplify_eq.
  constructor; [done|]. by eapply IH, Hl1.
Qed.

Lemma lookup_beyond_poisons_witness :
  let i := MkInspector true (open_stream (phc_file demo_recs)) None 40 0 in
  exists q n i' q' i'',
    binsearch 0 i (MkHash 3 0 true) = Some (q, n, i') /\
    lookups 0 i' [MkHash 1 0xaaaa true] = Some ([q'], i'') /\ Forall (fun q => count q = 0) [q'].
Proof.
  intros i. do 5 eexists. split; [vm_compute; reflexivity|]. split; [vm_compute; reflexivity|].
  eapply (lookup_beyond_poisons demo_recs 0 i (MkHash 3 0 true) _ _ _ [MkHash 1 0xaaaa true]).
  - apply demo_lookup_file.
  - split; [reflexivity|reflexivity|reflexivity|exists 0; split; [lia|reflexivity]].
  - split; simpl; lia.
  - repeat constructor; unfold hval; simpl; lia.
  - vm_compute. reflexivity.
  - vm_compute. reflexivity.
Defined.

(** C31: [smart_binsearch] gives the same answers as [binsearch] on a sorted file, whenever
    the interpolated position does not exceed the file size by a record or more; its
    galloping reads stay inside the file and never disturb the stream. *)
Theorem smart_binsearch_correct recs fuel i h P :
  lookup_file recs -> recs <> [] -> opened recs i -> Hash_wf h ->
  interpolate (mFileSize i) (upper h) = Some P -> 0 <= P < mFileSize i + PHC_size ->
  exists q n i', smart_binsearch fuel i h = Some (q, n, i') /\ answers recs (hval h) q /\
    (~ Forall (fun p => hval (hash p) < hval h) recs -> opened recs i').
Proof. apply smart_binsearch_opened. Qed.

Lemma smart_binsearch_correct_witness :
  let i := MkInspector true (open_stream (phc_file demo_recs)) None 40 0 in
  let h := MkHash 2 0x5555 true in
  exists q n i', smart_binsearch 0 i h = Some (q, n, i') /\ answers demo_recs (hval h) q /\
    (~ Forall (fun p => hval (hash p) < hval h) demo_recs -> opened demo_recs i').
Proof.
  intros i h. eapply (smart_binsearch_correct demo_recs 0 i h 0).
  - apply demo_lookup_file.
  - discriminate.
  - split; [reflexivity|reflexivity|reflexivity|exists 0; split; [lia|reflexivity]].
  - split; simpl; lia.
  - vm_compute. reflexivity.
  - simpl. unfold PHC_size. lia.
Defined.
