(* ===== verification/Index.v ===== *)
(** * pwned-index/index.cpp: building the index of a sorted file

    The index is a table of [2 ^ bits] offsets; slot [k] holds the offset of the first record
    whose hash begins with the [bits] bits [k], or all ones when there is none.  The second
    half of the file is the contract between the tool and [PasswordInspector::binsearch]. *)

From S2P Require Import Prelude Stream Util Hash Phc Inspector.
From stdpp Require Import options.

(** [std::numeric_limits<index_key_t>::max()], the mark of an unused slot. *)
Definition index_key_max : Z := 2 ^ 64 - 1.

Definition DefaultBits : Z := 24.

(** [*(indexes + idx) = pos]: undefined outside of the array. *)
Definition set_slot (indexes : list Z) (idx pos : Z) : outcome (list Z) :=
  defined_if (idx <? Z.of_nat (length indexes)) (Ok (<[Z.to_nat idx := pos]> indexes)).

(** The [while (!input.eof())] loop. *)
Fixpoint scan_loop (fuel : nat) (shift : Z) (input : istream) (phc : PHC) (indexes : list Z)
    (lastIdx idx pos : Z) : outcome (list Z * Z * Z) :=
  match fuel with
  | O => OutOfFuel
  | S fuel =>
      if eof input then Ok (indexes, idx, pos)
      else
        let '(_, phc, input) := PHC_read phc input in
        let idx := Z.shiftr (upper (hash phc)) shift in
        if lastIdx <? idx then
          let '(at_, input) := tellg input in
          let pos := u64 (u64 at_ - PHC_size) in
          indexes ← set_slot indexes idx pos;
          scan_loop fuel shift input phc indexes idx idx pos
        else scan_loop fuel shift input phc indexes lastIdx idx pos
  end.

(** No object has more bytes than this, [PTRDIFF_MAX]: [new] throws [bad_array_new_length] or
    another [bad_alloc] when it is asked for more.  That there is memory for less is assumed. *)
Definition max_array_bytes : Z := 2 ^ 63 - 1.

(** The part of [main] after the options: what is written to the output file.  A shift by 64
    or more is undefined. *)
Definition index_main (fuel : nat) (bits : Z) (input : istream) : outcome (list byte) :=
  let shift := u32 (index_key_size * 8 - bits) in
  defined_if (shift <? 64) (
    let maxIdx := u64 (1 + Z.shiftr index_key_max shift) in
    if max_array_bytes <? maxIdx * index_key_size then Throws (bs "bad_alloc") else
    let indexes := replicate (Z.to_nat maxIdx) index_key_max in
    let '(_, phc, input) := PHC_read PHC_default input in
    let lastIdx := Z.shiftr (upper (hash phc)) shift in
    indexes ← set_slot indexes lastIdx 0;
    '(indexes, idx, pos) ← scan_loop fuel shift input phc indexes lastIdx 0 0;
    indexes ← set_slot indexes idx pos;
    Ok (concat (le_split 8 <$> indexes))).

(** ** What the table holds *)

Definition hkey (bits : Z) (h : Hash) : Z := Z.shiftr (upper h) (64 - bits).
Definition key (bits : Z) (p : PHC) : Z := hkey bits (hash p).

(** The offset of the first record of a key. *)
Definition first_off (bits : Z) (recs : list PHC) (k : Z) : Z :=
  match list_find (fun p => key bits p = k) recs with
  | Some (i, _) => PHC_size * Z.of_nat i
  | None => index_key_max
  end.

Definition table (bits : Z) (recs : list PHC) : list Z :=
  (fun j => first_off bits recs (Z.of_nat j)) <$> seq 0 (Z.to_nat (2 ^ bits)).

(** ** Lemmas: keys *)

Section keys.
Context (bits : Z) (Hbits : 1 <= bits <= 63).

Lemma key_range p : PHC_wf p -> 0 <= key bits p < 2 ^ bits.
Proof using Hbits.
  intros [[Hu _] _]. unfold key, hkey. rewrite Z.shiftr_div_pow2 by lia.
  assert (2 ^ 64 = 2 ^ bits * 2 ^ (64 - bits)) as H64 by (rewrite <- Z.pow_add_r by lia; f_equal; lia).
  split; [apply Z.div_pos; lia|]. apply Z.div_lt_upper_bound; [lia|]. rewrite Z.mul_comm, <- H64. lia.
Qed.

Lemma key_mono p q : PHC_wf p -> PHC_wf q -> hash_lt p q -> key bits p <= key bits q.
Proof using Hbits.
  intros [[Hu Hl] _] [[Hu' Hl'] _]. unfold hash_lt, hval, key, hkey. intros Hlt.
  rewrite !Z.shiftr_div_pow2 by lia. apply Z.div_le_mono; lia.
Qed.

Lemma key_lt_hval p q : PHC_wf p -> PHC_wf q -> key bits p < key bits q -> hash_lt p q.
Proof using Hbits.
  intros [[Hu Hl] _] [[Hu' Hl'] _]. unfold hash_lt, hval, key, hkey. intros Hlt.
  rewrite !Z.shiftr_div_pow2 in Hlt by lia.
  destruct (Z.lt_ge_cases (upper (hash p)) (upper (hash q))); [lia|].
  assert (upper (hash q) / 2 ^ (64 - bits) <= upper (hash p) / 2 ^ (64 - bits)); [|lia].
  apply Z.div_le_mono; lia.
Qed.

Lemma key_read_into q p : key bits (read_into q p) = key bits p.
Proof using Type. done. Qed.
End keys.

Lemma length_table bits recs : length (table bits recs) = Z.to_nat (2 ^ bits).
Proof. unfold table. by rewrite length_fmap, length_seq. Qed.

Lemma table_lookup bits recs j :
  0 <= j < 2 ^ bits -> table bits recs !! Z.to_nat j = Some (first_off bits recs j).
Proof.
  intros Hj. unfold table. rewrite list_lookup_fmap, lookup_seq_lt by lia. simpl. by rewrite Z2Nat.id by lia.
Qed.

Lemma first_off_found bits recs k i p :
  list_find (fun p => key bits p = k) recs = Some (i, p) -> first_off bits recs k = PHC_size * Z.of_nat i.
Proof. intros Hf. unfold first_off. by rewrite Hf. Qed.

Lemma first_off_snoc bits l p k :
  first_off bits (l ++ [p]) k =
  if list_find (fun q => key bits q = k) l then first_off bits l k
  else if decide (key bits p = k) then PHC_size * Z.of_nat (length l) else index_key_max.
Proof.
  unfold first_off. destruct (list_find _ l) as [[i q]|] eqn:Hl.
  - by erewrite list_find_app_l.
  - rewrite list_find_app_r by done. simpl. case_decide; simpl; [f_equal; lia|done].
Qed.

(** Adding a record of a new key fills its slot; of the last key, changes nothing. *)
Lemma table_snoc_new bits l p :
  1 <= bits <= 63 -> PHC_wf p -> Forall (fun q => key bits q <> key bits p) l ->
  table bits (l ++ [p]) = <[Z.to_nat (key bits p) := PHC_size * Z.of_nat (length l)]> (table bits l).
Proof.
  intros Hbits Hp Hl. pose proof (key_range bits Hbits p Hp) as Hk. apply list_eq. intros i.
  destruct (decide (i < Z.to_nat (2 ^ bits))%nat) as [Hi|Hi].
  2: { rewrite !lookup_ge_None_2; [done| |]; rewrite ?length_insert, length_table; lia. }
  replace i with (Z.to_nat (Z.of_nat i)) by lia. rewrite table_lookup, first_off_snoc by lia.
  destruct (decide (Z.of_nat i = key bits p)) as [->|Hne].
  - rewrite list_lookup_insert_eq by (rewrite length_table; lia). rewrite decide_True by done.
    destruct (list_find _ l) as [[j q]|] eqn:E; [|done].
    apply list_find_Some in E as (Hj & Hq & _). rewrite Forall_lookup in Hl. by destruct (Hl j q Hj).
  - rewrite list_lookup_insert_ne by lia. rewrite table_lookup, decide_False by lia. f_equal.
    destruct (list_find _ l) eqn:E; [done|]. unfold first_off. by rewrite E.
Qed.

Lemma table_snoc_old bits l p q :
  q ∈ l -> key bits q = key bits p -> table bits (l ++ [p]) = table bits l.
Proof.
  intros Hq Hk. unfold table. apply list_fmap_ext. intros _ j _. rewrite first_off_snoc.
  destruct (list_find _ l) eqn:E; [done|]. rewrite decide_False.
  - unfold first_off. by rewrite E.
  - intros Hj. apply list_find_None in E. rewrite Forall_forall in E. apply (E q Hq). lia.
Qed.

(** ** Lemmas: the scan *)

Section scan.
Context (bits : Z) (Hbits : 1 <= bits <= 63) (recs : list PHC) (Hf : lookup_file recs).
#[local] Set Default Proof Using "All".

Lemma lf_lookup_wf i p : recs !! i = Some p -> PHC_wf p.
Proof. intros Hp. pose proof (lf_wf _ Hf) as Hwf. rewrite Forall_lookup in Hwf. eauto. Qed.

Lemma lf_key_mono i j p q :
  recs !! i = Some p -> recs !! j = Some q -> (i <= j)%nat -> key bits p <= key bits q.
Proof.
  intros Hp Hq Hij. destruct (decide (i = j)) as [->|]; [by simplify_eq|].
  apply key_mono; [done|by eapply lf_lookup_wf..|].
  eapply StronglySorted_lookup; [apply Hf|done|done|lia].
Qed.

Lemma set_slot_ok l k v : length l = Z.to_nat (2 ^ bits) -> 0 <= k < 2 ^ bits ->
  set_slot l k v = Ok (<[Z.to_nat k := v]> l).
Proof. intros Hl Hk. unfold set_slot. rewrite Hl, (proj2 (Z.ltb_lt _ _)) by lia. done. Qed.

(** One record more: of a new key, or of the last one. *)
Lemma table_step_new i p p' : recs !! (i - 1)%nat = Some p -> recs !! i = Some p' -> key bits p < key bits p' ->
  table bits (take (S i) recs) = <[Z.to_nat (key bits p') := PHC_size * Z.of_nat i]> (table bits (take i recs)) /\
  first_off bits (take (S i) recs) (key bits p') = PHC_size * Z.of_nat i.
Proof.
  intros Hp Hp' Hnew. pose proof (lookup_lt_Some _ _ _ Hp') as Hlt.
  assert (length (take i recs) = i) as Hlen by (rewrite length_take; lia).
  assert (Forall (fun q => key bits q <> key bits p') (take i recs)) as Hnone.
  { apply Forall_lookup. intros j r [Hr ?]%lookup_take_Some. pose proof (lf_key_mono j (i - 1) r p Hr Hp ltac:(lia)). lia. }
  rewrite (take_S_r _ _ _ Hp'). split.
  - rewrite table_snoc_new by (done || by eapply lf_lookup_wf). by rewrite Hlen.
  - rewrite first_off_snoc, Hlen, decide_True by done. destruct (list_find _ _) as [[j r]|] eqn:E; [|done].
    apply list_find_Some in E as (Hr & Hk & _). rewrite Forall_lookup in Hnone. by destruct (Hnone j r Hr).
Qed.

Lemma table_step_old i p p' : (0 < i)%nat -> recs !! (i - 1)%nat = Some p -> recs !! i = Some p' -> key bits p' = key bits p ->
  table bits (take (S i) recs) = table bits (take i recs) /\
  first_off bits (take (S i) recs) (key bits p') = first_off bits (take i recs) (key bits p).
Proof.
  intros Hi Hp Hp' Hk. assert (p ∈ take i recs) as Hin.
  { apply list_elem_of_lookup. exists (i - 1)%nat. by rewrite lookup_take_lt by lia. }
  rewrite (take_S_r _ _ _ Hp'). split; [by rewrite (table_snoc_old _ _ _ p)|].
  rewrite first_off_snoc, Hk. destruct (list_find _ _) eqn:E; [done|]. apply list_find_None in E.
  rewrite Forall_forall in E. by destruct (E p Hin).
Qed.

(** After [i] records: the table of these records, the key of the last one, its slot. *)
Lemma scan_loop_spec fuel i p q input idx :
  (0 < i)%nat -> recs !! (i - 1)%nat = Some p ->
  upper (hash q) = upper (hash p) -> Hash_wf (hash q) ->
  input = IStream true (phc_file recs) (PHC_size * Z.of_nat i) false false false ->
  (length recs - i + 1 < fuel)%nat ->
  exists r, recs !! (length recs - 1)%nat = Some r /\
  scan_loop fuel (64 - bits) input q (table bits (take i recs)) (key bits p) idx
    (first_off bits (take i recs) (key bits p)) =
  Ok (table bits recs, key bits r, first_off bits recs (key bits r)).
Proof.
  revert i p q input idx. induction fuel as [|fuel IH]; intros i p q input idx Hi Hp Hqp Hq -> Hfuel; [lia|].
  pose proof (lf_size _ Hf) as Hsz. cbn [scan_loop eof eofbit].
  destruct (recs !! i) as [p'|] eqn:Hp'.
  - pose proof (lookup_lt_Some _ _ _ Hp') as Hlt. pose proof (lf_lookup_wf _ _ Hp') as Hwf.
    erewrite PHC_read_ok by done. cbv zeta. change (Z.shiftr (upper (hash (read_into q p'))) (64 - bits)) with (key bits p').
    assert (recs !! (S i - 1)%nat = Some p') as Hlast by (by replace (S i - 1)%nat with i by lia).
    destruct (Z.ltb_spec (key bits p) (key bits p')) as [Hnew|Hold].
    + destruct (table_step_new i p p' Hp Hp' Hnew) as [Htab Hoff]. unfold tellg, good. cbn [eofbit failbit badbit spos orb negb].
      rewrite set_slot_ok by (rewrite ?length_table; auto using key_range).
      change (mbind ?f (Ok ?a)) with (f a). cbv beta.
      replace (u64 (u64 _ - PHC_size)) with (PHC_size * Z.of_nat i).
      2: { unfold PHC_size in *. rewrite (u64_small (20 * _)), u64_small by lia. lia. }
      rewrite <- Htab, <- Hoff. apply IH; try done; try lia. by destruct Hwf.
    + assert (key bits p' = key bits p) as Hk.
      { pose proof (lf_key_mono (i - 1) i p p' Hp Hp' ltac:(lia)). lia. }
      destruct (table_step_old i p p' Hi Hp Hp' Hk) as [<- <-]. rewrite <- Hk.
      apply IH; try done; try lia. by destruct Hwf.
  - apply lookup_ge_None in Hp'. pose proof (lookup_lt_Some _ _ _ Hp).
    assert (i = length recs) as -> by lia. exists p. split; [done|].
    erewrite PHC_read_eof by (done || lia).
    destruct fuel as [|fuel]; [lia|]. cbv zeta. rewrite Hqp.
    change (Z.shiftr (upper (hash p)) (64 - bits)) with (key bits p).
    rewrite Z.ltb_irrefl. cbn [scan_loop eof eofbit]. by rewrite !take_ge by lia.
Qed.
End scan.

Lemma table_nil bits : 0 <= bits -> table bits [] = replicate (Z.to_nat (2 ^ bits)) index_key_max.
Proof.
  intros Hb. unfold table. rewrite (const_fmap _ _ index_key_max) by done. by rewrite length_seq.
Qed.

Lemma table_size bits :
  1 <= bits <= 63 -> u32 (index_key_size * 8 - bits) = 64 - bits /\
  u64 (1 + Z.shiftr index_key_max (64 - bits)) = 2 ^ bits.
Proof.
  intros Hb. split; [unfold index_key_size; rewrite u32_small; lia|].
  apply Z.eqb_eq.
  apply (Z_range_check (fun b => u64 (1 + Z.shiftr index_key_max (64 - b)) =? 2 ^ b) 64); [|lia].
  vm_compute. reflexivity.
Qed.

(** The bytes of the index of a file. *)
Definition index_file (bits : Z) (recs : list PHC) : list byte := concat (le_split 8 <$> table bits recs).

(** A table of up to [2 ^ 59] slots can be made. *)
Lemma table_fits bits : 1 <= bits <= 59 -> (max_array_bytes <? 2 ^ bits * index_key_size) = false.
Proof.
  intros Hb. apply Z.ltb_ge. assert (2 ^ bits <= 2 ^ 59) by (apply Z.pow_le_mono_r; lia).
  unfold max_array_bytes, index_key_size. lia.
Qed.

(** A larger one cannot. *)
Lemma index_main_too_large bits input fuel : 60 <= bits <= 63 -> index_main fuel bits input = Throws (bs "bad_alloc").
Proof.
  intros Hb. unfold index_main. destruct (table_size bits ltac:(lia)) as [-> ->].
  rewrite (proj2 (Z.ltb_lt _ _)) by lia. unfold defined_if. rewrite (proj2 (Z.ltb_lt max_array_bytes _)); [done|].
  assert (2 ^ 60 <= 2 ^ bits) by (apply Z.pow_le_mono_r; lia). unfold max_array_bytes, index_key_size. lia.
Qed.

Lemma index_main_table bits recs fuel :
  1 <= bits <= 59 -> lookup_file recs -> recs <> [] -> (length recs < fuel)%nat ->
  index_main fuel bits (open_stream (phc_file recs)) = Ok (index_file bits recs).
Proof.
  intros Hb59 Hf Hne Hfuel. destruct recs as [|p0 l] eqn:Hrecs; [done|]. rewrite <- Hrecs in *.
  assert (1 <= bits <= 63) as Hb by lia.
  assert (recs !! 0%nat = Some p0) as H0 by by rewrite Hrecs.
  pose proof (lf_lookup_wf bits Hb recs Hf _ _ H0) as Hwf. pose proof (lookup_lt_Some _ _ _ H0).
  unfold index_main. destruct (table_size bits Hb) as [-> ->].
  rewrite (proj2 (Z.ltb_lt _ _)) by lia. unfold defined_if. rewrite table_fits by done.
  rewrite (PHC_read_ok recs 0 p0) by (done || apply open_stream_at).
  change (Z.shiftr (upper (hash (read_into PHC_default p0))) (64 - bits)) with (key bits p0).
  rewrite <- table_nil by lia.
  rewrite (set_slot_ok bits Hb recs Hf) by (rewrite ?length_table; auto using key_range).
  change (mbind ?f (Ok ?a)) with (f a). cbv beta.
  assert (take 1 recs = [] ++ [p0]) as Htake by by rewrite Hrecs.
  replace (<[_ := 0]> (table bits [])) with (table bits (take 1 recs)).
  2: { by rewrite Htake, table_snoc_new. }
  destruct (scan_loop_spec bits Hb recs Hf fuel 1 p0 (read_into PHC_default p0)
    (IStream true (phc_file recs) (PHC_size * Z.of_nat 1) false false false) 0) as (r & Hr & Hscan);
    try done; try lia; try by destruct Hwf.
  replace (first_off bits (take 1 recs) (key bits p0)) with 0 in Hscan.
  2: { rewrite Htake. unfold first_off. simpl. by rewrite decide_True. }
  rewrite Hscan. change (mbind ?f (Ok ?a)) with (f a). cbv beta iota.
  pose proof (lf_lookup_wf bits Hb recs Hf _ _ Hr) as Hrwf.
  rewrite (set_slot_ok bits Hb recs Hf) by (rewrite ?length_table; auto using key_range).
  change (mbind ?f (Ok ?a)) with (f a). cbv beta. unfold index_file.
  rewrite list_insert_id; [done|]. by apply table_lookup, key_range.
Qed.

(** ** Lemmas: the contract with the inspector *)

(** An inspector with the index of the file it reads. *)
Record indexed (bits : Z) (recs : list PHC) (i : Inspector) : Prop := {
  ix_stream : readable recs (mInputFile i);
  ix_index : exists f p, mIndexFile i = Some f /\ 0 <= p /\ at_pos (index_file bits recs) p f;
  ix_shift : mShift i = 64 - bits }.

Lemma length_index_file bits recs :
  0 <= bits -> Z.of_nat (length (index_file bits recs)) = 8 * 2 ^ bits.
Proof.
  intros Hb. unfold index_file. rewrite (length_concat_width _ 8) by apply length_le_split.
  rewrite length_table. lia.
Qed.

(** What the tool has written if it has written anything. *)
Lemma index_main_written bits recs fuel out :
  1 <= bits <= 60 -> lookup_file recs -> recs <> [] -> (length recs < fuel)%nat ->
  index_main fuel bits (open_stream (phc_file recs)) = Ok out -> out = index_file bits recs.
Proof.
  intros Hb Hf Hne Hfuel Hout. destruct (decide (bits <= 59)).
  - rewrite index_main_table in Hout by (done || lia). by injection Hout.
  - by rewrite index_main_too_large in Hout by lia.
Qed.

Lemma popcnt64_ones bits : 1 <= bits <= 63 -> popcnt64 (2 ^ bits - 1) = bits.
Proof.
  intros Hb. assert ((bits =? 0) || (popcnt64 (2 ^ bits - 1) =? bits) = true) as Hc.
  { apply (Z_range_check (fun b => (b =? 0) || (popcnt64 (2 ^ b - 1) =? b)) 64); [|lia].
    vm_compute. reflexivity. }
  apply orb_true_iff in Hc as [?%Z.eqb_eq|?%Z.eqb_eq]; lia.
Qed.

Lemma open_indexed_ok bits recs :
  1 <= bits <= 60 -> lookup_file recs ->
  exists i, PasswordInspector_indexed (Some (FileEntry (phc_file recs) true))
    (Some (Some (FileEntry (index_file bits recs) true))) = Some i /\ indexed bits recs i.
Proof.
  intros Hb Hf. eexists. split; [done|]. split; simpl.
  - by exists 0.
  - exists (open_stream (index_file bits recs)), 0. by rewrite open_stream_at.
  - rewrite length_index_file by lia. unfold index_key_size.
    replace (8 * 2 ^ bits / 8) with (2 ^ bits) by dlia.
    assert (2 ^ bits <= 2 ^ 60) by (apply Z.pow_le_mono_r; lia).
    rewrite u64_small, popcnt64_ones, u32_small by lia. lia.
Qed.

(** One read of a slot. *)
Lemma slot_read bits recs j p f :
  0 <= p -> at_pos (index_file bits recs) p f -> 0 <= j < 2 ^ bits ->
  read (seekg f (index_key_size * j)) 8 =
  (le_split 8 (first_off bits recs j), IStream true (index_file bits recs) (8 * j + 8) false false false).
Proof.
  intros Hp Hat Hj. unfold index_key_size.
  erewrite (read_full _ (8 * j) 8 (le_split 8 (first_off bits recs j))); [done| |lia| |apply length_le_split].
  - by eapply seekg_good; [|lia].
  - unfold index_file. replace (Z.to_nat (8 * j)) with (8 * Z.to_nat j)%nat by lia.
    rewrite drop_concat_width by apply length_le_split.
    erewrite drop_S by by apply table_lookup. done.
Qed.

Lemma store_off_slot v x : in_u64 x -> store_off v (le_split 8 x) = i64 x.
Proof.
  intros Hx. unfold store_off. rewrite length_le_split, drop_ge, app_nil_r by by rewrite length_le_split.
  by rewrite le_combine_split_small by (simpl; lia).
Qed.

(** A loop over the index stops at the first used slot. *)
Lemma index_loop_finds bits recs d m fuel j v n p f :
  lookup_file recs -> 0 <= p -> at_pos (index_file bits recs) p f ->
  (forall k, 0 <= k <= Z.of_nat m -> 0 <= j + d * k < 2 ^ bits) ->
  is_Some (list_find (fun r => key bits r = j + d * Z.of_nat m) recs) -> (m < fuel)%nat ->
  exists k a r n' p' f',
    index_loop fuel (index_key_size * d) f (index_key_size * j) v n = Some (PHC_size * Z.of_nat a, n', f') /\
    0 <= k <= Z.of_nat m /\ list_find (fun r => key bits r = j + d * k) recs = Some (a, r) /\
    0 <= p' /\ at_pos (index_file bits recs) p' f' /\ n' <= n + Z.of_nat m + 1.
Proof.
  intros Hf. pose proof (lf_size _ Hf) as Hsz. revert fuel j v n p f.
  induction m as [|m IH]; intros fuel j v n p f Hp Hat Hrange Hsome Hfuel;
    (destruct fuel as [|fuel]; [lia|]); cbn [index_loop];
    pose proof (Hrange 0 ltac:(lia)) as Hj; rewrite Z.mul_0_r, Z.add_0_r in Hj;
    rewrite (slot_read bits recs j p) by done;
    (destruct (list_find (fun r => key bits r = j) recs) as [[a r]|] eqn:E;
     [assert (PHC_size * Z.of_nat a < 2 ^ 62) by
        (apply list_find_Some in E as (Ha & _); by eapply lf_index);
      rewrite (first_off_found _ _ _ _ _ E), store_off_slot, i64_small by (unfold PHC_size in *; lia);
      rewrite (proj2 (Z.eqb_neq _ _)) by (unfold PHC_size; lia);
      exists 0, a, r; rewrite Z.mul_0_r, Z.add_0_r;
      do 3 eexists; split; [done|]; split; [lia|]; split; [done|]; split; [|split; [done|lia]]; lia|]).
  - rewrite Z.mul_0_r, Z.add_0_r in Hsome. destruct Hsome as [? Hs]. congruence.
  - unfold first_off. rewrite E, store_off_slot by (unfold index_key_max; lia).
    change (i64 index_key_max =? -1) with true. cbv iota.
    replace (index_key_size * j + index_key_size * d) with (index_key_size * (j + d)) by lia.
    destruct (IH fuel (j + d) (i64 index_key_max) (n + 1) (8 * j + 8)
      (IStream true (index_file bits recs) (8 * j + 8) false false false))
      as (k & a & r & n' & p' & f' & -> & Hk & Hr & Hp' & Hat' & Hn'); [lia|done| | |lia|].
    + intros k Hk. specialize (Hrange (k + 1) ltac:(lia)). by replace (j + d + d * k) with (j + d * (k + 1)) by lia.
    + by replace (j + d + d * Z.of_nat m) with (j + d * Z.of_nat (S m)) by lia.
    + exists (k + 1), a, r. do 3 eexists. split; [done|]. split; [lia|].
      split; [by replace (j + d * (k + 1)) with (j + d + d * k) by lia|]. split; [done|]. split; [done|lia].
Qed.

(** The slots around a key bracket the hash. *)
Lemma slot_left bits recs h k a r :
  1 <= bits <= 63 -> lookup_file recs -> Hash_wf h -> k <= hkey bits h ->
  list_find (fun r => key bits r = k) recs = Some (a, r) -> left_below recs (hval h) (Z.of_nat a).
Proof.
  intros Hb Hf Hh Hk E i p Hp Hi. apply list_find_Some in E as (Ha & Hr & Hfirst).
  pose proof (lf_key_mono bits Hb recs Hf i a p r Hp Ha ltac:(lia)).
  specialize (Hfirst i p Hp ltac:(lia)).
  apply (key_lt_hval bits Hb p (MkPHC h 0)); [by eapply lf_lookup_wf|by split|].
  change (key bits (MkPHC h 0)) with (hkey bits h). lia.
Qed.

Lemma slot_right bits recs h k b r :
  1 <= bits <= 63 -> lookup_file recs -> Hash_wf h -> hkey bits h < k ->
  list_find (fun r => key bits r = k) recs = Some (b, r) ->
  hval h < hval (hash r) /\ right_above recs (hval h) (Z.of_nat b).
Proof.
  intros Hb Hf Hh Hk E. apply list_find_Some in E as (Hr & Hkr & _).
  assert (hval h < hval (hash r)) as Hlt.
  { apply (key_lt_hval bits Hb (MkPHC h 0) r); [by split|by eapply lf_lookup_wf|].
    change (key bits (MkPHC h 0)) with (hkey bits h). lia. }
  split; [done|]. intros i p Hp Hi.
  pose proof (StronglySorted_lookup _ recs b i r p (lf_sorted _ Hf) Hr Hp ltac:(lia)) as Hlt'.
  unfold hash_lt in Hlt'. lia.
Qed.

(** The hashes an index can serve: a record of the same or a smaller key, one of a greater. *)
Definition bracketed (bits : Z) (recs : list PHC) (h : Hash) : Prop :=
  (exists p, p ∈ recs /\ key bits p <= hkey bits h) /\
  (exists p, p ∈ recs /\ hkey bits h < key bits p).

Lemma indexed_binsearch bits recs i h fuel :
  1 <= bits <= 60 -> lookup_file recs -> Hash_wf h -> indexed bits recs i ->
  bracketed bits recs h -> 2 ^ bits <= Z.of_nat fuel ->
  exists q n i', binsearch fuel i h = Some (q, n, i') /\ answers recs (hval h) q /\ indexed bits recs i'.
Proof.
  intros Hb Hf Hh [Hst (idxf & ip & Hix & Hip & Hat) Hsh] [(pl & Hpl & Hkl) (pr & Hpr & Hkr)] Hfuel.
  assert (forall p, p ∈ recs -> 0 <= key bits p < 2 ^ bits) as Hkey.
  { intros p Hp. apply key_range; [lia|]. pose proof (lf_wf _ Hf) as Hwf. rewrite Forall_forall in Hwf. auto. }
  pose proof (Hkey _ Hpl). pose proof (Hkey _ Hpr). set (j := hkey bits h) in *.
  assert (2 ^ bits <= 2 ^ 60) by (apply Z.pow_le_mono_r; lia).
  assert (forall p k, p ∈ recs -> key bits p = k -> is_Some (list_find (fun r => key bits r = k) recs)) as Hsome.
  { intros p k Hp Hk. by apply (list_find_elem_of _ _ p). }
  unfold binsearch. rewrite Hix, Hsh. change (Z.shiftr (upper h) (64 - bits)) with j. cbv zeta.
  replace (i64 (u64 (j * index_key_size))) with (index_key_size * j).
  2: { unfold index_key_size. rewrite u64_small, i64_small by lia. lia. }
  destruct (index_loop_finds bits recs (-1) (Z.to_nat (j - key bits pl)) fuel j 0 0 ip idxf)
    as (kl & a & rl & n1 & p1 & f1 & El & Hkl' & Ha & Hp1 & Hat1 & Hn1); try done; [lia| |lia|].
  { apply (Hsome pl); [done|]. lia. }
  change (index_key_size * -1) with (- index_key_size) in El. rewrite El.
  replace (index_key_size * j + index_key_size) with (index_key_size * (j + 1)) by lia.
  destruct (index_loop_finds bits recs 1 (Z.to_nat (key bits pr - (j + 1))) fuel (j + 1) (mFileSize i) n1 p1 f1)
    as (kr & b & rr & n2 & p2 & f2 & Er & Hkr' & Hbr & Hp2 & Hat2 & Hn2); try done; [lia| |lia|].
  { apply (Hsome pr); [done|]. lia. }
  change (index_key_size * 1) with index_key_size in Er. rewrite Er.
  assert (left_below recs (hval h) (Z.of_nat a)) as Hleft.
  { eapply (slot_left bits recs h (j + -1 * kl)); [lia|done|done|fold j; lia|done]. }
  destruct (slot_right bits recs h (j + 1 + 1 * kr) b rr) as [Hlt Hright]; [lia|done|done|fold j; lia|done|].
  apply list_find_Some in Hbr as (Hbr & _ & _). pose proof (lookup_lt_Some _ _ _ Hbr).
  destruct (bs_search recs h (mInputFile i) (Z.of_nat a) (Z.of_nat b) n2) as (q & n & f' & -> & Hans & _ & Hrd);
    try done; try lia.
  - split; [lia|]. destruct (decide (b < a)%nat); [|lia].
    specialize (Hleft b rr Hbr ltac:(lia)). lia.
  - do 3 eexists. split; [done|]. split; [done|]. split; simpl; [|by eauto|done].
    apply Hrd. rewrite Forall_lookup. intros Hall. specialize (Hall b rr Hbr). simpl in Hall. lia.
Qed.

(** ** Properties *)


(** A file in which every key of two bits occurs, and one in which only key 1 does. *)
Definition quad_recs : list PHC :=
  [MkPHC (MkHash 5 0 false) 1; MkPHC (MkHash (2 ^ 62) 3 false) 2; MkPHC (MkHash (2 ^ 62) 4 false) 9;
   MkPHC (MkHash (2 ^ 63 + 1) 0 false) 3; MkPHC (MkHash (2 ^ 63 + 2 ^ 62) 0 false) 4].

Lemma quad_lookup_file : lookup_file quad_recs.
Proof.
  split; [repeat constructor; simpl; lia| |done].
  repeat constructor; unfold hash_lt, hval; simpl; lia.
Qed.


(** C10: with the index the tool wrote, the lookups of a client answer like the file says, for
    every sequence of hashes that have a record of the same or a smaller key and a record of
    a greater key. *)
Theorem indexed_lookups_correct bits recs hs fuel out :
  1 <= bits <= 60 -> lookup_file recs -> recs <> [] -> 2 ^ bits <= Z.of_nat fuel ->
  (length recs < fuel)%nat ->
  index_main fuel bits (open_stream (phc_file recs)) = Ok out ->
  Forall Hash_wf hs -> Forall (bracketed bits recs) hs ->
  exists i l i',
    PasswordInspector_indexed (Some (FileEntry (phc_file recs) true))
      (Some (Some (FileEntry out true))) = Some i /\
    lookups fuel i hs = Some (l, i') /\ Forall2 (fun h q => answers recs (hval h) q) hs l.
Proof.
  intros Hb Hf Hne Hfuel Hlen Hout Hhs Hbr. apply index_main_written in Hout as ->; [|done..].
  destruct (open_indexed_ok bits recs Hb Hf) as (i & Ho & Hi). exists i.
  enough (exists l i', lookups fuel i hs = Some (l, i') /\
    Forall2 (fun h q => answers recs (hval h) q) hs l) as (l & i' & ? & ?) by eauto.
  clear Ho. revert i Hi. induction Hhs as [|h hs Hh Hhs IH]; intros i Hi; cbn [lookups]; [eauto|].
  apply Forall_cons in Hbr as [Hbh Hbr].
  destruct (indexed_binsearch bits recs i h fuel Hb Hf Hh Hi Hbh Hfuel) as (q & n & i' & -> & Ha & Hi').
  destruct (IH Hbr i' Hi') as (l & i'' & -> & ?). eauto.
Qed.

Lemma indexed_lookups_correct_witness :
  exists i l i',
    PasswordInspector_indexed (Some (FileEntry (phc_file quad_recs) true))
      (Some (Some (FileEntry (index_file 2 quad_recs) true))) = Some i /\
    lookups 6 i [MkHash (2 ^ 62) 4 true; MkHash (2 ^ 62) 7 true] = Some (l, i') /\
    Forall2 (fun h q => answers quad_recs (hval h) q) [MkHash (2 ^ 62) 4 true; MkHash (2 ^ 62) 7 true] l.
Proof.
  apply (indexed_lookups_correct 2 quad_recs [MkHash (2 ^ 62) 4 true; MkHash (2 ^ 62) 7 true] 6).
  - lia.
  - apply quad_lookup_file.
  - discriminate.
  - lia.
  - simpl. lia.
  - vm_compute. reflexivity.
  - repeat constructor; simpl; lia.
  - assert (forall lo, bracketed 2 quad_recs (MkHash (2 ^ 62) lo true)) as Hbr.
    { intros lo. split.
      - exists (MkPHC (MkHash 5 0 false) 1). split; [apply list_elem_of_In; simpl; auto|done].
      - exists (MkPHC (MkHash (2 ^ 63 + 1) 0 false) 3). split; [apply list_elem_of_In; simpl; auto|done]. }
    rewrite !Forall_cons, Forall_nil. split_and!; [apply Hbr|apply Hbr|done].
Defined.

(** C40: a hash whose key is below the first key that occurs sends the first index loop below
    the start of the index: the stream fails, the mark read last stays, and the lookup never
    returns. *)
Theorem indexed_lookup_diverges bits recs i h fuel :
  1 <= bits <= 60 -> indexed bits recs i -> Hash_wf h ->
  Forall (fun p => hkey bits h < key bits p) recs ->
  binsearch fuel i h = None.
Proof.
  intros Hb [Hst (f & p & Hix & Hp & Hat) Hsh] Hh Hall.
  assert (0 <= hkey bits h < 2 ^ bits) as Hj.
  { apply (key_range bits ltac:(lia) (MkPHC h 0)). by split. }
  assert (2 ^ bits <= 2 ^ 60) by (apply Z.pow_le_mono_r; lia).
  unfold binsearch. rewrite Hix, Hsh. change (Z.shiftr (upper h) (64 - bits)) with (hkey bits h).
  replace (i64 (u64 (hkey bits h * index_key_size))) with (index_key_size * hkey bits h).
  2: { unfold index_key_size. rewrite u64_small, i64_small by lia. lia. }
  assert (forall fuel off g n, failbit g = true ->
    index_loop fuel (- index_key_size) g off (-1) n = None) as Hstuck.
  { clear. induction fuel as [|fuel IH]; intros off g n Hg; [done|]. cbn [index_loop].
    rewrite seekg_failed, read_failed by done.
    change (store_off (-1) []) with (-1). cbn [Z.eqb Pos.eqb]. by apply IH. }
  assert (forall fuel j g q n v, 0 <= q -> at_pos (index_file bits recs) q g ->
    -1 <= j < 2 ^ bits -> j <= hkey bits h -> (j = -1 -> v = -1) ->
    index_loop fuel (- index_key_size) g (index_key_size * j) v n = None) as Hloop.
  { clear - Hb Hall Hstuck. induction fuel as [|fuel IH]; intros j g q n v Hq Hat Hj Hle Hv; [done|].
    cbn [index_loop]. destruct (decide (j = -1)) as [->|Hne].
    - rewrite Hv by done. unfold seekg. rewrite Hat. unfold fail. cbn [failbit badbit orb].
      change (index_key_size * -1 <? 0) with true. cbv iota. rewrite read_failed by done.
      change (store_off (-1) []) with (-1). cbn [Z.eqb Pos.eqb]. by apply Hstuck.
    - rewrite (slot_read bits recs j q) by (done || lia).
      assert (first_off bits recs j = index_key_max) as ->.
      { unfold first_off. destruct (list_find _ _) as [[a r]|] eqn:E; [|done].
        apply list_find_Some in E as (Hr & Hk & _). rewrite Forall_lookup in Hall.
        specialize (Hall a r Hr). simpl in Hall. lia. }
      rewrite store_off_slot by (unfold index_key_max; lia). change (i64 index_key_max) with (-1).
      cbn [Z.eqb Pos.eqb].
      replace (index_key_size * j + - index_key_size) with (index_key_size * (j - 1)) by lia.
      apply (IH _ _ (8 * j + 8)); [lia|done|lia|lia|done]. }
  by rewrite (Hloop fuel (hkey bits h) f p 0 0) by (done || lia).
Qed.

Lemma indexed_lookup_diverges_witness :
  let recs := [MkPHC (MkHash (2 ^ 62) 3 false) 2] in
  let i := MkInspector true (open_stream (phc_file recs)) (Some (open_stream (index_file 2 recs))) 20 62 in
  binsearch 1000 i (MkHash 5 0 true) = None.
Proof.
  intros recs i. apply (indexed_lookup_diverges 2 recs i (MkHash 5 0 true) 1000).
  - lia.
  - split; [exists 0; split; [lia|reflexivity]| |reflexivity].
    eexists _, 0. split; [reflexivity|]. split; [lia|reflexivity].
  - split; simpl; lia.
  - repeat constructor.
Defined.

(** when the input file cannot be opened, the tool loops for ever: the stream is failed
    but never at end of file. *)
Theorem index_main_unopened_diverges fuel bits :
  1 <= bits <= 59 -> index_main fuel bits unopened = OutOfFuel.
Proof.
  intros Hb. unfold index_main. destruct (table_size bits ltac:(lia)) as [-> ->].
  rewrite (proj2 (Z.ltb_lt _ _)) by lia. unfold defined_if. rewrite table_fits by done.
  rewrite PHC_read_failed by done. change (hash PHC_default) with Hash_default. cbn [upper].
  change (upper Hash_default) with 0. rewrite Z.shiftr_0_l. unfold set_slot.
  rewrite length_replicate, (proj2 (Z.ltb_lt _ _)) by lia. cbn [defined_if].
  change (mbind ?f (Ok ?a)) with (f a). cbv beta. set (t := <[_ := _]> _).
  enough (forall g idx, failbit g = true -> eofbit g = false ->
    scan_loop fuel (64 - bits) g PHC_default t 0 idx 0 = OutOfFuel) as -> by done.
  induction fuel as [|fuel IH]; intros g idx Hg He; [done|]. cbn [scan_loop]. unfold eof. rewrite He.
  rewrite PHC_read_failed by done. change (upper (hash PHC_default)) with 0. rewrite Z.shiftr_0_l.
  rewrite Z.ltb_irrefl. by apply IH.
Qed.

Lemma index_main_unopened_diverges_witness : index_main 500 24 unopened = OutOfFuel.
Proof. apply (index_main_unopened_diverges 500 24). lia. Defined.
