(* ===== verification/Regex.v ===== *)
(** * std::regex: the part the program uses

    ECMAScript regular expressions with character classes, sequences, alternatives, greedy and
    lazy repetition and capture groups.  The matcher backtracks like the standard describes:
    it lists the ways to match in order of priority, and [regex_match] and [regex_search] take
    the first one that fits.  [lang] is the reference: the language of an expression. *)

From S2P Require Import Prelude.
From stdpp Require Import options.

Inductive regex : Type :=
  | Eps                               (** nothing *)
  | Class (p : byte -> bool)          (** one character of a class *)
  | Seq (r1 r2 : regex)
  | Alt (r1 r2 : regex)
  | Star (greedy : bool) (r : regex)  (** [r*] and [r*?] *)
  | Group (n : nat) (r : regex).      (** the capture group number [n] *)

(** Derived forms. *)
Definition Chr (c : byte) : regex := Class (fun d => bool_decide (d = c)).
Definition Plus (greedy : bool) (r : regex) : regex := Seq r (Star greedy r).
Definition Opt (r : regex) : regex := Alt r Eps.
Fixpoint Times (n : nat) (r : regex) : regex :=
  match n with O => Eps | S n => Seq r (Times n r) end.
Fixpoint Str (l : list byte) : regex :=
  match l with [] => Eps | c :: l => Seq (Chr c) (Str l) end.

(** The text of a group: set by the last time the group matched. *)
Abbreviation captures := (gmap nat (list byte)).

(** The part of [s] before its suffix [s']. *)
Definition consumed (s s' : list byte) : list byte := take (length s - length s') s.

(** Repetition of one matching step; an iteration that consumes nothing is not tried. *)
Section iter.
Context (greedy : bool) (step : list byte -> captures -> list (list byte * captures)).

Fixpoint iter (fuel : nat) (s : list byte) (c : captures) : list (list byte * captures) :=
  match fuel with
  | O => [(s, c)]
  | S fuel =>
      let more := step s c ≫= (fun '(s', c') =>
        if (length s' <? length s)%nat then iter fuel s' c' else []) in
      if greedy then more ++ [(s, c)] else (s, c) :: more
  end.
End iter.

(** What is left and what was captured, for every way to match a prefix of [s], best first. *)
Fixpoint matches (r : regex) (s : list byte) (c : captures) : list (list byte * captures) :=
  match r with
  | Eps => [(s, c)]
  | Class p => match s with [] => [] | a :: s' => if p a then [(s', c)] else [] end
  | Seq r1 r2 => matches r1 s c ≫= (fun '(s', c') => matches r2 s' c')
  | Alt r1 r2 => matches r1 s c ++ matches r2 s c
  | Group n r => (fun '(s', c') => (s', <[n := consumed s s']> c')) <$> matches r s c
  | Star greedy r => iter greedy (matches r) (length s) s c
  end.

(** [std::regex_match(s, match, r)]: the groups of the best match of the whole of [s]. *)
Definition regex_match (r : regex) (s : list byte) : option captures :=
  snd <$> head (filter (fun '(s', _) => s' = []) (matches r s ∅)).

(** [std::regex_search(s, r)] *)
Fixpoint regex_search (r : regex) (s : list byte) : bool :=
  match matches r s ∅ with
  | _ :: _ => true
  | [] => match s with [] => false | _ :: s' => regex_search r s' end
  end.

(** [match[n]]: the empty string when the group took no part. *)
Definition sub_match (m : captures) (n : nat) : list byte := default [] (m !! n).

(** ** The language of an expression *)

Inductive lang : regex -> list byte -> Prop :=
  | lang_eps : lang Eps []
  | lang_class p a : p a = true -> lang (Class p) [a]
  | lang_seq r1 r2 s1 s2 : lang r1 s1 -> lang r2 s2 -> lang (Seq r1 r2) (s1 ++ s2)
  | lang_alt_l r1 r2 s : lang r1 s -> lang (Alt r1 r2) s
  | lang_alt_r r1 r2 s : lang r2 s -> lang (Alt r1 r2) s
  | lang_star_nil g r : lang (Star g r) []
  | lang_star_app g r s1 s2 : lang r s1 -> lang (Star g r) s2 -> lang (Star g r) (s1 ++ s2)
  | lang_group n r s : lang r s -> lang (Group n r) s.

#[export] Hint Constructors lang : pwned.

(** ** Lemmas *)

Lemma iter_S g r fuel s c x :
  x ∈ iter g (matches r) (S fuel) s c <->
  x = (s, c) \/ exists s' c', (s', c') ∈ matches r s c /\ (length s' < length s)%nat /\
    x ∈ iter g (matches r) fuel s' c'.
Proof.
  cbn [iter]. set (more := mbind _ _).
  assert (x ∈ more <-> exists s' c', (s', c') ∈ matches r s c /\ (length s' < length s)%nat /\
    x ∈ iter g (matches r) fuel s' c') as Hmore.
  { unfold more. rewrite list_elem_of_bind. split.
    - intros ([s' c'] & Hx & Hin). exists s', c'. destruct (Nat.ltb_spec (length s') (length s)); [done|].
      by apply not_elem_of_nil in Hx.
    - intros (s' & c' & Hin & Hlt & Hx). exists (s', c'). by rewrite (proj2 (Nat.ltb_lt _ _) Hlt). }
  rewrite <- Hmore. destruct g; [rewrite elem_of_app, list_elem_of_singleton|rewrite elem_of_cons]; tauto.
Qed.

Lemma matches_sound r s c s' c' :
  (s', c') ∈ matches r s c -> exists l, s = l ++ s' /\ lang r l.
Proof.
  revert s c s' c'. induction r as [|p|r1 IH1 r2 IH2|r1 IH1 r2 IH2|g r IH|n r IH]; intros s c s' c' Hin.
  - apply list_elem_of_singleton in Hin. simplify_eq. exists []. auto with pwned.
  - destruct s as [|a s]; cbn [matches] in Hin; [by apply not_elem_of_nil in Hin|].
    destruct (p a) eqn:Hp; [|by apply not_elem_of_nil in Hin].
    apply list_elem_of_singleton in Hin. simplify_eq. exists [a]. auto with pwned.
  - cbn [matches] in Hin. apply list_elem_of_bind in Hin as ([s1 c1] & H2 & H1).
    apply IH1 in H1 as (l1 & -> & ?). apply IH2 in H2 as (l2 & -> & ?).
    exists (l1 ++ l2). rewrite <- app_assoc. auto with pwned.
  - cbn [matches] in Hin. apply elem_of_app in Hin as [Hin|Hin];
      [apply IH1 in Hin as (l & -> & ?)|apply IH2 in Hin as (l & -> & ?)]; exists l; auto with pwned.
  - cbn [matches] in Hin. revert Hin. generalize (length s) as fuel. intros fuel. revert s c.
    induction fuel as [|fuel IHf]; intros s c Hin.
    + apply list_elem_of_singleton in Hin. simplify_eq. exists []. auto with pwned.
    + apply iter_S in Hin as [?|(s1 & c1 & H1 & _ & H2)]; [simplify_eq; exists []; auto with pwned|].
      apply IH in H1 as (l1 & -> & ?). apply IHf in H2 as (l2 & -> & ?).
      exists (l1 ++ l2). rewrite <- app_assoc. auto with pwned.
  - cbn [matches] in Hin. apply list_elem_of_fmap in Hin as ([s1 c1] & ? & Hin). simplify_eq.
    apply IH in Hin as (l & -> & ?). exists l. auto with pwned.
Qed.

Lemma iter_self g r fuel s c : (s, c) ∈ iter g (matches r) fuel s c.
Proof. destruct fuel as [|fuel]; [by apply list_elem_of_singleton|]. apply iter_S. by left. Qed.

Lemma matches_complete r l s c : lang r l -> exists c', (s, c') ∈ matches r (l ++ s) c.
Proof.
  intros Hl. revert s c. induction Hl as [|p a Hp|r1 r2 s1 s2 H1 IH1 H2 IH2|r1 r2 s1 H1 IH1|r1 r2 s1 H1 IH1|
    g r|g r s1 s2 H1 IH1 H2 IH2|n r s1 H1 IH1]; intros s c.
  - exists c. by apply list_elem_of_singleton.
  - exists c. cbn. rewrite Hp. by apply list_elem_of_singleton.
  - rewrite <- app_assoc. destruct (IH1 (s2 ++ s) c) as (c1 & Hc1). destruct (IH2 s c1) as (c2 & Hc2).
    exists c2. cbn [matches]. apply list_elem_of_bind. by exists (s2 ++ s, c1).
  - destruct (IH1 s c) as (c' & ?). exists c'. cbn [matches]. apply elem_of_app. by left.
  - destruct (IH1 s c) as (c' & ?). exists c'. cbn [matches]. apply elem_of_app. by right.
  - exists c. cbn [matches]. apply iter_self.
  - rewrite <- app_assoc. destruct (decide (s1 = [])) as [->|Hne]; [apply IH2|].
    destruct (IH1 (s2 ++ s) c) as (c1 & Hc1). destruct (IH2 s c1) as (c2 & Hc2).
    exists c2. cbn [matches] in *.
    assert (0 < length s1)%nat by (destruct s1; simpl; [done|lia]).
    assert (forall n m s c x, (n <= m)%nat -> (length s <= n)%nat -> x ∈ iter g (matches r) n s c -> x ∈ iter g (matches r) m s c) as Hmono.
    { clear. induction n as [|n IHn]; intros m s c x Hnm Hs Hx.
      - apply list_elem_of_singleton in Hx as ->. apply iter_self.
      - destruct m as [|m]; [lia|]. apply iter_S in Hx as [->|(s' & c' & Hm & Hlt & Hx)]; [apply iter_self|].
        apply iter_S. right. exists s', c'. split; [done|]. split; [done|]. apply IHn; [lia|lia|done]. }
    rewrite (length_app s1). destruct (length s1 + length (s2 ++ s))%nat as [|k] eqn:Hk; [lia|].
    apply iter_S. right. exists (s2 ++ s), c1. split; [done|]. split; [rewrite (length_app s1); lia|].
    eapply Hmono; [|done|done]. lia.
  - destruct (IH1 s c) as (c' & ?). eexists. cbn [matches]. apply list_elem_of_fmap. by exists (s, c').
Qed.

Lemma lang_Seq r1 r2 l : lang (Seq r1 r2) l <-> exists s1 s2, l = s1 ++ s2 /\ lang r1 s1 /\ lang r2 s2.
Proof.
  split; [|by intros (s1 & s2 & -> & ? & ?); constructor].
  inversion 1 as [| |r3 r4 s1 s2 H1 H2| | | | |]; subst. eauto.
Qed.

Lemma lang_Class p l : lang (Class p) l <-> exists a, l = [a] /\ p a = true.
Proof. split; [inversion 1; subst; eauto|]. intros (a & -> & ?). by constructor. Qed.

Lemma lang_Group n r l : lang (Group n r) l <-> lang r l.
Proof. split; [by inversion 1|]. by constructor. Qed.

Lemma lang_Chr c l : lang (Chr c) l <-> l = [c].
Proof.
  split.
  - inversion 1 as [|p a Hp| | | | | |]; subst. by apply bool_decide_eq_true in Hp as ->.
  - intros ->. constructor. by apply bool_decide_eq_true.
Qed.

Lemma lang_Times n p l : lang (Times n (Class p)) l <-> length l = n /\ forallb p l = true.
Proof.
  revert l. induction n as [|n IH]; intros l; cbn [Times].
  - split; [by inversion 1|]. intros [Hl _]. destruct l; [constructor|done].
  - split.
    + inversion 1 as [| |r1 r2 s1 s2 H1 H2| | | | |]; subst. inversion H1; subst.
      apply IH in H2 as [<- ?]. simpl. by rewrite H3.
    + destruct l as [|a l]; [by intros []|]. simpl. intros [[= Hl] [Ha Hp]%andb_true_iff].
      change (a :: l) with ([a] ++ l). constructor; [by constructor|]. by apply IH.
Qed.

Lemma lang_Str k l : lang (Str k) l <-> l = k.
Proof.
  revert l. induction k as [|a k IH]; intros l; cbn [Str].
  - split; [by inversion 1|]. intros ->. constructor.
  - split.
    + inversion 1 as [| |r1 r2 s1 s2 H1 H2| | | | |]; subst. apply lang_Chr in H1 as ->.
      by apply IH in H2 as ->.
    + intros ->. change (a :: k) with ([a] ++ k). constructor; [by apply lang_Chr|by apply IH].
Qed.

Lemma regex_match_lang r s : is_Some (regex_match r s) <-> lang r s.
Proof.
  unfold regex_match. rewrite fmap_is_Some, head_is_Some. split.
  - intros Hne. destruct (filter _ _) as [|[s' c'] l] eqn:E; [done|].
    assert ((s', c') ∈ filter (fun '(s', _) => s' = []) (matches r s ∅)) as Hin by (rewrite E; set_solver).
    apply list_elem_of_filter in Hin as [-> Hin]. apply matches_sound in Hin as (l' & -> & ?).
    by rewrite app_nil_r.
  - intros Hl Hnil. destruct (matches_complete r s [] ∅ Hl) as (c' & Hin). rewrite app_nil_r in Hin.
    assert (([], c') ∈ filter (fun '(s', _) => s' = []) (matches r s ∅)) as Hf by by apply list_elem_of_filter.
    rewrite Hnil in Hf. by apply not_elem_of_nil in Hf.
Qed.

Lemma regex_search_lang r s :
  regex_search r s = true <-> exists a l b, s = a ++ l ++ b /\ lang r l.
Proof.
  assert (forall s, matches r s ∅ = [] -> ~ exists l b, s = l ++ b /\ lang r l) as Hnone.
  { intros s' Hnil (l & b & -> & Hl). destruct (matches_complete r l b ∅ Hl) as (c' & Hin).
    rewrite Hnil in Hin. by apply not_elem_of_nil in Hin. }
  induction s as [|x s IH]; cbn [regex_search]; destruct (matches r _ ∅) as [|[s' c'] ms] eqn:E.
  - split; [done|]. intros (a & l & b & Hs & Hl). exfalso. apply (Hnone [] E).
    symmetry in Hs. apply app_eq_nil in Hs as [_ Hs]. by exists l, b.
  - split; [|done]. intros _. destruct (matches_sound r [] ∅ s' c') as (l & Hl & ?); [rewrite E; set_solver|].
    by exists [], l, s'.
  - rewrite IH. split.
    + intros (a & l & b & -> & ?). by exists (x :: a), l, b.
    + intros ([|y a] & l & b & Hs & Hl); simplify_eq/=; [|by exists a, l, b].
      exfalso. apply (Hnone _ E). rewrite Hs. by exists l, b.
  - split; [|done]. intros _. destruct (matches_sound r (x :: s) ∅ s' c') as (l & Hl & ?); [rewrite E; set_solver|].
    by exists [], l, s'.
Qed.

(** ** What a match captures *)

Fixpoint groups (r : regex) : list nat :=
  match r with
  | Eps | Class _ => []
  | Seq r1 r2 | Alt r1 r2 => groups r1 ++ groups r2
  | Star _ r => groups r
  | Group n r => n :: groups r
  end.

Ltac no_group := apply (bool_decide_unpack _); vm_compute; exact I.

Lemma matches_keeps n r s c s' c' : n ∉ groups r -> (s', c') ∈ matches r s c -> c' !! n = c !! n.
Proof.
  revert s c s' c'. induction r as [|p|r1 IH1 r2 IH2|r1 IH1 r2 IH2|g r IH|k r IH]; intros s c s' c' Hn Hin; cbn in Hn.
  - apply list_elem_of_singleton in Hin. by simplify_eq.
  - destruct s as [|a s]; cbn in Hin; [by apply not_elem_of_nil in Hin|].
    destruct (p a); [|by apply not_elem_of_nil in Hin]. apply list_elem_of_singleton in Hin. by simplify_eq.
  - rewrite elem_of_app in Hn. cbn [matches] in Hin. apply list_elem_of_bind in Hin as ([s1 c1] & H2 & H1).
    rewrite (IH2 s1 c1 s' c') by tauto. apply (IH1 s c s1 c1); tauto.
  - rewrite elem_of_app in Hn. cbn [matches] in Hin. apply elem_of_app in Hin as [Hin|Hin];
      [apply (IH1 s c s' c')|apply (IH2 s c s' c')]; tauto.
  - cbn [matches] in Hin. revert Hin. generalize (length s) as fuel. intros fuel. revert s c.
    induction fuel as [|fuel IHf]; intros s c Hin; [apply list_elem_of_singleton in Hin; by simplify_eq|].
    apply iter_S in Hin as [?|(s1 & c1 & H1 & _ & H2)]; [by simplify_eq|].
    rewrite (IHf s1 c1 H2). by apply (IH s c s1 c1).
  - rewrite elem_of_cons in Hn. cbn [matches] in Hin. apply list_elem_of_fmap in Hin as ([s1 c1] & ? & Hin). simplify_eq.
    rewrite lookup_insert_ne by (intros ->; tauto). apply (IH s c s1 c1); tauto.
Qed.

(** Two texts that begin with a run of a class and go on outside it agree on the run. *)
Lemma run_unique (p : byte -> bool) l1 l2 s1 s2 :
  forallb p l1 = true -> forallb p l2 = true -> (forall a, head s1 = Some a -> p a = false) ->
  (forall a, head s2 = Some a -> p a = false) -> l1 ++ s1 = l2 ++ s2 -> l1 = l2 /\ s1 = s2.
Proof.
  revert l2. induction l1 as [|a l1 IH]; intros [|b l2] H1 H2 Hs1 Hs2 Heq; simplify_eq/=; [done|..].
  - apply andb_true_iff in H2 as [Hb _]. by rewrite (Hs1 b) in Hb.
  - apply andb_true_iff in H1 as [Ha _]. by rewrite (Hs2 a) in Ha.
  - apply andb_true_iff in H1 as [_ H1], H2 as [_ H2].
    destruct (IH l2) as [-> ->]; done.
Qed.

Lemma lang_Star_Class g p l : lang (Star g (Class p)) l <-> forallb p l = true.
Proof.
  split.
  - intros Hl. remember (Star g (Class p)) as r eqn:Hr. revert Hr. induction Hl; intros Hr; simplify_eq; [done|].
    apply lang_Class in Hl1 as (a & -> & Ha). simpl. rewrite Ha. by apply IHHl2.
  - induction l as [|a l IH]; simpl; [constructor|]. intros [Ha Hl]%andb_true_iff.
    change (a :: l) with ([a] ++ l). constructor; [by constructor|by apply IH].
Qed.

Lemma lang_Plus_Class g p l : lang (Plus g (Class p)) l <-> l <> [] /\ forallb p l = true.
Proof.
  unfold Plus. rewrite lang_Seq. split.
  - intros (l1 & l2 & -> & (a & -> & Ha)%lang_Class & Hl2%lang_Star_Class). simpl. by rewrite Ha.
  - destruct l as [|a l]; [by intros []|]. simpl. intros [_ [Ha Hl]%andb_true_iff].
    exists [a], l. split; [done|]. split; [by apply lang_Class; eauto|by apply lang_Star_Class].
Qed.

(** The ways to match the parts of an expression. *)
Lemma matches_Seq r1 r2 s c x : x ∈ matches (Seq r1 r2) s c ->
  exists s1 c1, (s1, c1) ∈ matches r1 s c /\ x ∈ matches r2 s1 c1.
Proof. cbn [matches]. intros ([s1 c1] & Hx & H1)%list_elem_of_bind. eauto. Qed.

Lemma matches_Group n r s c s' c' : (s', c') ∈ matches (Group n r) s c ->
  exists c1 l, (s', c1) ∈ matches r s c /\ s = l ++ s' /\ lang r l /\ c' = <[n := l]> c1.
Proof.
  cbn [matches]. intros ([s1 c1] & ? & Hin)%list_elem_of_fmap. simplify_eq.
  destruct (matches_sound _ _ _ _ _ Hin) as (l & -> & Hl). exists c1, l. split_and!; [done..|].
  unfold consumed. rewrite length_app. by replace (length l + length s1 - length s1)%nat with (length l) by lia;
    rewrite take_app_length.
Qed.

(** The best match of a whole text is one of the ways to match it. *)
Lemma regex_match_in r s m : regex_match r s = Some m -> ([], m) ∈ matches r s ∅.
Proof.
  unfold regex_match. destruct (filter _ _) as [|[s' c'] l] eqn:E; [done|]. intros [= <-].
  assert ((s', c') ∈ filter (fun '(s', _) => s' = []) (matches r s ∅)) as Hin by (rewrite E; set_solver).
  by apply list_elem_of_filter in Hin as [-> Hin].
Qed.
