(* ===== verification/UserPasswordReader.v ===== *)
(** * pwned-lib/userpasswordreader.hpp, userpasswordreader.cpp: password lists as text

    The reader looks at the first lines of its input to guess the separator between user and
    password and, with the automatic options, whether passwords are given as MD5 hashes or in
    [$HEX[...]] notation; it then rewinds and hands the passwords out line by line. *)

From S2P Require Import Prelude Stream Util Hash Regex.
From stdpp Require Import options.

Inductive UserPasswordReaderOptions :=
  | forceEvaluateMD5Hashes
  | forceEvaluateHexEncodedPasswords
  | autoEvaluateMD5Hashes
  | autoEvaluateHexEncodedPasswords.

#[export] Instance options_eq_decision : EqDecision UserPasswordReaderOptions.
Proof. solve_decision. Defined.

(** [nTries] and the limit on the length of a line. *)
Definition nTries : nat := 500.
Definition maxLine : nat := 200.

(** The class [[a-zA-Z0-9]]. *)
Definition alnum (c : byte) : bool :=
  let z := byte.unsigned c in
  ((0x61 <=? z) && (z <=? 0x7a)) || ((0x41 <=? z) && (z <=? 0x5a)) || ((0x30 <=? z) && (z <=? 0x39)).

(** The pattern [\$HEX\[((?:[a-zA-Z0-9][a-zA-Z0-9])+?)\]] *)
Definition HexRegex : regex :=
  Seq (Str (bs "$HEX[")) (Seq (Group 1 (Plus false (Seq (Class alnum) (Class alnum)))) (Chr x5d)).

(** The pattern [[a-zA-Z0-9]{32}] *)
Definition MD5Regex : regex := Times 32 (Class alnum).

Record UserPasswordReader := MkReader {
  validEntries : Z;
  lineNo : Z;
  guessedSeparator : byte;
  forceHex : bool;   (** [forceEvaluateHexEncodedPasswords] *)
  forceMD5 : bool;   (** [forceEvaluateMD5Hashes] *)
  autoHex : bool;    (** [autoEvaluateHexEncodedPasswords] *)
  autoMD5 : bool;    (** [autoEvaluateMD5Hashes] *)
  input : istream;
  currentLine : list byte }.

(** [eof()] and [bad()] *)
Definition reader_eof (r : UserPasswordReader) : bool := eof (input r).
Definition reader_bad (r : UserPasswordReader) : bool := bad (input r).

(** [line.erase(std::remove(line.begin(), line.end(), '\r'), line.end())] *)
Definition remove_cr (line : list byte) : list byte := filter (fun c => c <> x0d) line.

(** [line.find(c) != std::string::npos] *)
Definition contains (c : byte) (line : list byte) : bool := bool_decide (c ∈ line).

(** A [std::map<char, int>]: its entries in key order. *)
Fixpoint map_incr (k : byte) (m : list (byte * Z)) : list (byte * Z) :=
  match m with
  | [] => [(k, 1)]
  | (k', v) :: m' =>
      if decide (k' = k) then (k', v + 1) :: m'
      else if schar k <? schar k' then (k, 1) :: m
      else (k', v) :: map_incr k m'
  end.

(** [std::max_element] by the second component: the first of the largest. *)
Fixpoint max_element (best : byte * Z) (m : list (byte * Z)) : byte * Z :=
  match m with
  | [] => best
  | e :: m' => max_element (if snd best <? snd e then e else best) m'
  end.

Definition possibleSeparators : list byte := [x3a; x3b; x09; x20].

(** The loop of [guessSeparator]. *)
Fixpoint guess_loop (n : nat) (f : istream) (line : list byte) (splits : list (byte * Z))
    : istream * list (byte * Z) :=
  match n with
  | O => (f, splits)
  | S n =>
      if eof f then (f, splits)
      else
        let '(line, f) := getline f line in
        let line := remove_cr line in
        let splits := foldl (fun m sep => if contains sep line then map_incr sep m else m)
          splits possibleSeparators in
        guess_loop n f line splits
  end.

(** [input.clear(); input.seekg(0, std::ios::beg)] *)
Definition rewind (f : istream) : istream := seekg (clear f) 0.

Definition guessSeparator (r : UserPasswordReader) : UserPasswordReader :=
  let '(f, successfulSplits) := guess_loop nTries (input r) [] [] in
  let sep :=
    match successfulSplits with
    | [] => guessedSeparator r
    | e :: m =>
        let maxSep := max_element e m in
        if 0 <? snd maxSep then fst maxSep else guessedSeparator r
    end in
  MkReader (validEntries r) (lineNo r) sep (forceHex r) (forceMD5 r) (autoHex r) (autoMD5 r)
    (rewind f) (currentLine r).

(** The loops of the two checks: is there a line with a separator that [re] occurs in? *)
Fixpoint check_loop (n : nat) (clean : list byte -> list byte) (sep : byte) (re : regex)
    (f : istream) (line : list byte) : istream * bool :=
  match n with
  | O => (f, false)
  | S n =>
      if eof f then (f, false)
      else
        let '(line, f) := getline f line in
        let line := clean line in
        if contains sep line && regex_search re line then (f, true)
        else check_loop n clean sep re f line
  end.

Definition checkForMD5Hashes (r : UserPasswordReader) : UserPasswordReader :=
  let '(f, found) :=
    if negb (forceMD5 r) && autoMD5 r
    then check_loop nTries remove_cr (guessedSeparator r) MD5Regex (input r) []
    else (input r, false) in
  MkReader (validEntries r) (lineNo r) (guessedSeparator r) (forceHex r) (forceMD5 r || found)
    (autoHex r) (autoMD5 r) (rewind f) (currentLine r).

Definition checkForHexEncodedPasswords (r : UserPasswordReader) : UserPasswordReader :=
  if forceHex r then r
  else
    let '(f, found) :=
      if autoHex r then check_loop nTries id (guessedSeparator r) HexRegex (input r) []
      else (input r, false) in
    MkReader (validEntries r) (lineNo r) (guessedSeparator r) found (forceMD5 r)
      (autoHex r) (autoMD5 r) (rewind f) (currentLine r).

Definition evaluateContents (r : UserPasswordReader) : UserPasswordReader :=
  checkForMD5Hashes (checkForHexEncodedPasswords (guessSeparator r)).

(** The constructor. *)
Definition new_reader (f : istream) (options : list UserPasswordReaderOptions) : UserPasswordReader :=
  evaluateContents (MkReader 0 0 x00
    (bool_decide (forceEvaluateHexEncodedPasswords ∈ options))
    (bool_decide (forceEvaluateMD5Hashes ∈ options))
    (bool_decide (autoEvaluateHexEncodedPasswords ∈ options))
    (bool_decide (autoEvaluateMD5Hashes ∈ options)) f []).

(** What follows the first occurrence of [c], when there is one. *)
Fixpoint after (c : byte) (line : list byte) : option (list byte) :=
  match line with
  | [] => None
  | d :: line' => if decide (d = c) then Some line' else after c line'
  end.

Definition extractPassword (r : UserPasswordReader) (line : list byte) : list byte :=
  let line := remove_cr line in
  if decide (guessedSeparator r <> x00) then default line (after (guessedSeparator r) line) else line.

Definition nextPassword (r : UserPasswordReader) : list byte * UserPasswordReader :=
  if reader_eof r || reader_bad r then ([], r)
  else
    let '(line, f) := getline (input r) (currentLine r) in
    let r := MkReader (validEntries r) (u64 (lineNo r + 1)) (guessedSeparator r) (forceHex r)
      (forceMD5 r) (autoHex r) (autoMD5 r) f line in
    if (maxLine <? length line)%nat || (length line <? 1)%nat then ([], r)
    else (extractPassword r line, r).

(** The body of [nextPasswordHash] after a password was read. *)
Definition hash_password (MD5 : list byte -> list byte) (useMD5 useHex : bool) (pwd : list byte) : Hash :=
  let hash :=
    match (if useMD5 then regex_match MD5Regex pwd else None) with
    | Some _ => Hash_assign Hash_default (fromHex pwd)
    | None => Hash_default
    end in
  if isValid hash then hash
  else
    let hash :=
      match (if useHex then regex_match HexRegex pwd else None) with
      | Some m => let '(_, dehexed) := hexToCharSeq (sub_match m 1) in
          Hash_assign hash (Hash_of_string MD5 dehexed)
      | None => hash
      end in
    if isValid hash then hash else Hash_assign hash (Hash_of_string MD5 pwd).

Definition nextPasswordHash (MD5 : list byte -> list byte) (r : UserPasswordReader)
    : Hash * UserPasswordReader :=
  let '(pwd, r) := nextPassword r in
  if decide (pwd = []) then (Hash_default, r)
  else
    let hash := hash_password MD5 (forceMD5 r) (forceHex r) pwd in
    (hash, MkReader (if isValid hash then u64 (validEntries r + 1) else validEntries r) (lineNo r)
      (guessedSeparator r) (forceHex r) (forceMD5 r) (autoHex r) (autoMD5 r) (input r) (currentLine r)).

(** ** Lemmas: the constructor reads and rewinds *)

(** The file behind a stream does not change. *)
Definition same_file (f f' : istream) : Prop := sopen f' = sopen f /\ src f' = src f.

Lemma rewind_open f g : same_file f g -> sopen f = true -> rewind g = open_stream (src f).
Proof. intros [Ho Hs] Hf. unfold rewind, seekg, fail. simpl. by rewrite Ho, Hs, Hf. Qed.

Lemma getline_file f line : same_file f (snd (getline f line)).
Proof. unfold getline. destruct (good f); [|done]. by destruct (line_of (rest f)) as [[]]. Qed.

Lemma guess_loop_file n f line m : same_file f (fst (guess_loop n f line m)).
Proof.
  revert f line m. induction n as [|n IH]; intros f line m; [done|]. cbn [guess_loop].
  destruct (eof f); [done|]. destruct (getline f line) as [l f'] eqn:Hg.
  pose proof (getline_file f line) as Hs. rewrite Hg in Hs. cbv zeta. destruct Hs as [Hs1 Hs2].
  destruct (IH f' (remove_cr l) (foldl (fun m sep => if contains sep (remove_cr l) then map_incr sep m else m)
    m possibleSeparators)) as [H1 H2]. simpl in Hs1, Hs2. split; congruence.
Qed.

Lemma check_loop_file n clean sep re f line : same_file f (fst (check_loop n clean sep re f line)).
Proof.
  revert f line. induction n as [|n IH]; intros f line; [done|]. cbn [check_loop].
  destruct (eof f); [done|]. destruct (getline f line) as [l f'] eqn:Hg.
  pose proof (getline_file f line) as Hs. rewrite Hg in Hs.
  destruct (_ && _); [done|]. destruct (IH f' (clean l)), Hs as [Hs1 Hs2]. simpl in Hs1, Hs2. split; congruence.
Qed.

(** Runs a check loop of the goal and rewinds. *)
Ltac run_check :=
  match goal with |- context [check_loop ?n ?c ?s ?re ?g ?l] =>
    let Hs := fresh "Hs" in
    pose proof (check_loop_file n c s re g l) as Hs; destruct (check_loop n c s re g l) as [? ?];
    simpl in Hs; cbn [input]; by rewrite (rewind_open _ _ Hs) end.

Lemma new_reader_input f opts : sopen f = true -> input (new_reader f opts) = open_stream (src f).
Proof.
  intros Hf. unfold new_reader, evaluateContents. set (r0 := MkReader _ _ _ _ _ _ _ _ _).
  assert (input (guessSeparator r0) = open_stream (src f)) as H1.
  { unfold guessSeparator. pose proof (guess_loop_file nTries (input r0) [] []) as Hs.
    destruct (guess_loop _ _ _ _) as [f' m]. simpl in Hs. cbn [input]. by rewrite (rewind_open _ _ Hs). }
  assert (input (checkForHexEncodedPasswords (guessSeparator r0)) = open_stream (src f)) as H2.
  { unfold checkForHexEncodedPasswords. destruct (forceHex _); [done|]. rewrite H1.
    destruct (autoHex _); [run_check|done]. }
  revert H2. generalize (checkForHexEncodedPasswords (guessSeparator r0)) as r. intros r H2.
  unfold checkForMD5Hashes. rewrite H2. destruct (negb _ && _); [run_check|done].
Qed.

Lemma new_reader_separator f opts :
  guessedSeparator (new_reader f opts) = guessedSeparator (guessSeparator (MkReader 0 0 x00 false false false false f [])).
Proof.
  unfold new_reader, evaluateContents, checkForMD5Hashes, checkForHexEncodedPasswords, guessSeparator.
  cbn [input guessedSeparator validEntries]. destruct (guess_loop _ _ _ _) as [f' m].
  cbn [guessedSeparator forceHex forceMD5 autoHex autoMD5 input].
  destruct (bool_decide (forceEvaluateHexEncodedPasswords ∈ opts));
    repeat match goal with
    | |- context [let '(_, _) := ?x in _] => destruct x as [? ?]
    end; done.
Qed.

(** ** Lemmas: the counters of the separators *)

Fixpoint map_get (k : byte) (m : list (byte * Z)) : Z :=
  match m with [] => 0 | (k', v) :: m => if decide (k' = k) then v else map_get k m end.

Definition key_lt (a b : byte * Z) : Prop := schar (fst a) < schar (fst b).
Definition counters (m : list (byte * Z)) : Prop := StronglySorted key_lt m /\ Forall (fun e => 0 < snd e) m.

Lemma map_get_above k m : Forall (fun e => schar k < schar (fst e)) m -> map_get k m = 0.
Proof.
  induction 1 as [|[k' v] m Hk _ IH]; [done|]. simpl in *. rewrite decide_False; [done|]. intros ->. lia.
Qed.

Lemma map_incr_get k k' m : StronglySorted key_lt m ->
  map_get k' (map_incr k m) = map_get k' m + if decide (k = k') then 1 else 0.
Proof.
  induction 1 as [|[q v] m Hs IH Hq]; simpl; [repeat case_decide; done|].
  destruct (decide (q = k)) as [->|Hqk]; [simpl; repeat case_decide; lia|].
  destruct (Z.ltb_spec (schar k) (schar q)) as [Hlt|Hge]; simpl; [|repeat case_decide; subst; try done; lia].
  destruct (decide (k = k')) as [->|]; [|repeat case_decide; lia]. rewrite decide_False by done.
  rewrite map_get_above; [done|]. eapply Forall_impl; [done|]. unfold key_lt. simpl. lia.
Qed.

Lemma map_incr_Forall (P : byte * Z -> Prop) k m :
  (forall v, P (k, v)) -> Forall P m -> Forall P (map_incr k m).
Proof.
  intros Hk. induction 1 as [|[q v] m Hq Hm IH]; simpl; [by repeat constructor|].
  case_decide; [subst q; by constructor|]. destruct (_ <? _); by repeat constructor.
Qed.

Lemma schar_inj a b : schar a = schar b -> a = b.
Proof.
  pose proof (byte.unsigned_range a). pose proof (byte.unsigned_range b). unfold schar. intros Hab.
  apply byte.unsigned_inj. bool_cases; lia.
Qed.

Lemma map_incr_counters k m : counters m -> counters (map_incr k m).
Proof.
  intros [Hs Hp]. induction Hs as [|[q v] m Hs IH Hq]; simpl; [by repeat constructor|].
  apply Forall_cons in Hp as [Hv Hp]. destruct (IH Hp) as [Hs' Hp']. simpl in Hv.
  case_decide as Hqk; [subst q; split; constructor; simpl; try done; lia|].
  destruct (Z.ltb_spec (schar k) (schar q)) as [Hlt|Hge].
  - split; repeat constructor; try done. eapply Forall_impl; [exact Hq|]. unfold key_lt. simpl. lia.
  - assert (schar q < schar k).
    { destruct (Z.eq_dec (schar q) (schar k)) as [He|]; [by apply schar_inj in He|lia]. }
    split; constructor; try done. by apply map_incr_Forall.
Qed.

Lemma max_element_spec e m :
  max_element e m ∈ e :: m /\ Forall (fun x => snd x <= snd (max_element e m)) (e :: m).
Proof.
  revert e. induction m as [|x m IH]; intros e; cbn [max_element].
  - split; [by apply list_elem_of_singleton|]. repeat constructor. lia.
  - destruct (IH (if snd e <? snd x then x else e)) as [Hin Hall]. apply Forall_cons in Hall as [Hb Hall].
    split.
    + apply elem_of_cons in Hin as [Hin|Hin]; [|by do 2 right].
      rewrite Hin. destruct (_ <? _); [right; left|left].
    + rewrite !Forall_cons. destruct (Z.ltb_spec (snd e) (snd x)); split_and!; try done; lia.
Qed.

(** Lines with a separator among the first [nTries] lines. *)
Definition sep_count (ls : list (list byte)) (c : byte) : Z :=
  Z.of_nat (length (filter (fun l => c ∈ remove_cr l) ls)).

Lemma count_line_get (m : list (byte * Z)) l c :
  counters m ->
  let m' := foldl (fun m sep => if contains sep l then map_incr sep m else m) m possibleSeparators in
  counters m' /\ (c ∈ possibleSeparators -> map_get c m' = map_get c m + if decide (c ∈ l) then 1 else 0) /\
  (c ∉ possibleSeparators -> map_get c m' = map_get c m).
Proof.
  assert (forall seps m, NoDup seps -> counters m ->
    let m' := foldl (fun m sep => if contains sep l then map_incr sep m else m) m seps in
    counters m' /\ (c ∈ seps -> map_get c m' = map_get c m + if decide (c ∈ l) then 1 else 0) /\
    (c ∉ seps -> map_get c m' = map_get c m)) as Hgen.
  { clear m. intros seps. induction seps as [|sep seps IH]; intros m Hnd Hm; cbn [foldl].
    - split; [done|]. split; [|done]. by intros ?%not_elem_of_nil.
    - apply NoDup_cons in Hnd as [Hni Hnd]. set (m1 := if contains sep l then map_incr sep m else m).
      assert (counters m1) as Hm1 by (unfold m1; destruct (contains sep l); auto using map_incr_counters).
      destruct (IH m1 Hnd Hm1) as (Hc & Hin & Hout). split; [done|].
      assert (map_get c m1 = map_get c m + if decide (sep = c) then (if decide (c ∈ l) then 1 else 0) else 0) as Hget.
      { unfold m1, contains. destruct (bool_decide_reflect (sep ∈ l)); [rewrite map_incr_get by apply Hm|];
          repeat case_decide; subst; try done; lia. }
      rewrite not_elem_of_cons, elem_of_cons. split.
      + intros [->|Hcs]; [rewrite Hout, Hget by done; by rewrite decide_True by done|].
        rewrite Hin, Hget by done. rewrite decide_False; [lia|]. by intros ->.
      + intros [Hne Hcs]. rewrite Hout, Hget by done. rewrite decide_False by done. lia. }
  apply Hgen. unfold possibleSeparators. repeat constructor; set_solver.
Qed.

Lemma guess_loop_spec n f ls line m c :
  has_lines f ls -> counters m ->
  let m' := snd (guess_loop n f line m) in
  counters m' /\ (c ∈ possibleSeparators -> map_get c m' = map_get c m + sep_count (take n ls) c) /\
  (c ∉ possibleSeparators -> map_get c m' = map_get c m).
Proof.
  revert f ls line m. induction n as [|n IH]; intros f ls line m Hf Hm; cbn [guess_loop].
  { unfold sep_count. simpl. split; [done|]. split; [lia|done]. }
  rewrite (has_lines_eof _ _ Hf). destruct ls as [|l ls]; cbn [bool_decide].
  { unfold sep_count. simpl. split; [done|]. split; [lia|done]. }
  change (bool_decide (l :: ls = [])) with false. cbv iota.
  destruct (getline_lines f l ls line Hf) as (f' & -> & Hf' & _).
  destruct (count_line_get m (remove_cr l) c Hm) as (Hm' & Hin & Hout).
  destruct (IH f' ls (remove_cr l) _ Hf' Hm') as (Hc & Hin' & Hout').
  split; [done|]. split.
  - intros Hcs. rewrite Hin', Hin by done. unfold sep_count. cbn [take firstn]. rewrite filter_cons.
    case_decide; simpl; lia.
  - intros Hcs. by rewrite Hout', Hout.
Qed.

Lemma map_get_elem m k v : StronglySorted key_lt m -> (k, v) ∈ m -> map_get k m = v.
Proof.
  induction 1 as [|[q w] m Hs IH Hq]; [by intros ?%not_elem_of_nil|].
  intros [Heq|Hin]%elem_of_cons; simpl; [simplify_eq; by rewrite decide_True|].
  rewrite decide_False; [auto|]. intros ->. rewrite Forall_forall in Hq. specialize (Hq _ Hin).
  unfold key_lt in Hq. simpl in Hq. lia.
Qed.

Lemma map_get_zero m k : counters m -> map_get k m <= 0 -> forall v, (k, v) ∉ m.
Proof.
  intros [Hs Hp] Hz v Hin. rewrite (map_get_elem _ _ _ Hs Hin) in Hz. rewrite Forall_forall in Hp.
  specialize (Hp _ Hin). simpl in Hp. lia.
Qed.

Lemma map_get_in m k : map_get k m <> 0 -> (k, map_get k m) ∈ m.
Proof. induction m as [|[q w] m IH]; simpl; [done|]. case_decide; [subst; by left|]. right. auto. Qed.

(** ** Lemmas: what the patterns match *)

Lemma HexRegex_lang s :
  lang HexRegex s <-> exists k, s = bs "$HEX[" ++ k ++ [x5d] /\ k <> [] /\
    Nat.even (length k) = true /\ forallb alnum k = true.
Proof.
  assert (forall l, lang (Seq (Class alnum) (Class alnum)) l <-> exists a b, l = [a; b] /\ alnum a = true /\ alnum b = true) as Hpair.
  { intros l. split.
    - inversion 1 as [| |r1 r2 s1 s2 H1 H2| | | | |]; subst. inversion H1; subst. inversion H2; subst. eauto.
    - intros (a & b & -> & ? & ?). change [a; b] with ([a] ++ [b]). auto with pwned. }
  assert (forall l, lang (Star false (Seq (Class alnum) (Class alnum))) l <-> Nat.even (length l) = true /\ forallb alnum l = true) as Hstar.
  { intros l. split.
    - remember (Star _ _) as r eqn:Hr. induction 1 as [| | | | | |g r s1 s2 H1 IH1 H2 IH2|]; simplify_eq; [done|].
      apply Hpair in H1 as (a & b & -> & Ha & Hb). destruct IH2 as [He Hall]; [done|].
      simpl. by rewrite Ha, Hb.
    - remember (length l) as n eqn:Hn. revert l Hn. induction n as [n IH] using lt_wf_ind. intros l Hn [He Hall].
      destruct l as [|a [|b l]]; [constructor|by subst|].
      simpl in Hall. rewrite !andb_true_iff in Hall. destruct Hall as (Ha & Hb & Hall).
      change (a :: b :: l) with ([a; b] ++ l). constructor; [apply Hpair; eauto|].
      apply (IH (length l)); [simpl in Hn; lia|done|]. subst. by split. }
  unfold HexRegex, Plus. split.
  - intros (s1 & s2 & -> & ->%lang_Str & (s3 & s4 & -> & H3%lang_Group & ->%lang_Chr)%lang_Seq)%lang_Seq.
    apply lang_Seq in H3 as (s5 & s6 & -> & (a & b & -> & Ha & Hb)%Hpair & [He Hall]%Hstar).
    exists ([a; b] ++ s6). split; [done|]. split; [done|]. simpl. by rewrite Ha, Hb.
  - intros (k & -> & Hne & He & Hall). constructor; [by apply lang_Str|]. constructor; [|by apply lang_Chr].
    constructor. destruct k as [|a [|b k]]; [done|done|].
    simpl in Hall. rewrite !andb_true_iff in Hall. destruct Hall as (Ha & Hb & Hall).
    change (a :: b :: k) with ([a; b] ++ k). constructor; [apply Hpair; eauto|]. by apply Hstar.
Qed.

Lemma HexRegex_capture k :
  k <> [] -> Nat.even (length k) = true -> forallb alnum k = true ->
  exists m, regex_match HexRegex (bs "$HEX[" ++ k ++ [x5d]) = Some m /\ sub_match m 1 = k.
Proof.
  intros Hne He Hall. set (s := bs "$HEX[" ++ k ++ [x5d]).
  destruct (proj2 (regex_match_lang HexRegex s)) as [m Hm]; [apply HexRegex_lang; eauto|].
  exists m. split; [done|]. unfold regex_match in Hm.
  destruct (filter _ _) as [|[s' c'] l] eqn:E; [done|]. simpl in Hm. simplify_eq.
  assert ((s', m) ∈ filter (fun '(s', _) => s' = []) (matches HexRegex s ∅)) as Hin by (rewrite E; set_solver).
  apply list_elem_of_filter in Hin as [-> Hin]. unfold HexRegex in Hin.
  remember (Str (bs "$HEX[")) as r1 eqn:Hr1. remember (Plus false (Seq (Class alnum) (Class alnum))) as r2 eqn:Hr2.
  cbn [matches] in Hin.
  apply list_elem_of_bind in Hin as ([s1 c1] & Hin & H1). apply matches_sound in H1 as (l1 & Hs1 & Hl1).
  rewrite Hr1 in Hl1. apply lang_Str in Hl1 as ->. unfold s in Hs1. apply app_inv_head in Hs1 as <-.
  apply list_elem_of_bind in Hin as ([s2 c2] & Hin & H2). apply list_elem_of_fmap in H2 as ([s3 c3] & Heq & H2).
  simplify_eq. cbn [matches Chr] in Hin. destruct s3 as [|x s3]; [by apply not_elem_of_nil in Hin|].
  destruct (bool_decide_reflect (x = x5d)) as [->|]; [|by apply not_elem_of_nil in Hin].
  apply list_elem_of_singleton in Hin. simplify_eq. unfold sub_match.
  rewrite lookup_insert_eq. simpl. unfold consumed. rewrite length_app. simpl.
  replace (length k + 1 - 1)%nat with (length k) by lia. apply take_app_length.
Qed.

Lemma hexDigit_alnum u d : 0 <= d < 16 -> alnum (hexDigit u d) = true.
Proof. intros Hd. destruct u; apply (Z_range_check (fun d => alnum (hexDigit _ d)) 16); (vm_compute; done) || lia. Qed.

Lemma hexEncode_alnum u l : forallb alnum (hexEncode u l) = true.
Proof.
  unfold hexEncode. induction l as [|b l IH]; [done|]. csimpl.
  pose proof (byte.unsigned_range b). by rewrite !hexDigit_alnum by dlia.
Qed.

(** ** Lemmas: one line *)

(** What the reader makes of one line: the password, and its hash. *)
Definition line_password (sep : byte) (line : list byte) : list byte :=
  if (maxLine <? length line)%nat || (length line <? 1)%nat then []
  else
    let line := remove_cr line in
    if decide (sep <> x00) then default line (after sep line) else line.

Definition line_hash (MD5 : list byte -> list byte) (sep : byte) (useMD5 useHex : bool)
    (line : list byte) : Hash :=
  let pwd := line_password sep line in
  if decide (pwd = []) then Hash_default else hash_password MD5 useMD5 useHex pwd.

(** What the methods that read a line keep. *)
Definition same_config (r r' : UserPasswordReader) : Prop :=
  guessedSeparator r' = guessedSeparator r /\ forceHex r' = forceHex r /\ forceMD5 r' = forceMD5 r.

Lemma nextPassword_line r l ls :
  has_lines (input r) (l :: ls) ->
  exists r', nextPassword r = (line_password (guessedSeparator r) l, r') /\
    has_lines (input r') ls /\ same_config r r' /\ validEntries r' = validEntries r.
Proof.
  intros Hl. destruct (getline_lines _ _ _ (currentLine r) Hl) as (f' & Hg & Hf' & _).
  destruct Hl as (Hb & (He & _ & _)%good_bits & _). unfold nextPassword, reader_eof, reader_bad, eof, bad.
  rewrite He, Hb, Hg. cbn [orb]. unfold line_password, extractPassword. cbn [guessedSeparator].
  eexists. split; [destruct (_ || _); done|]. done.
Qed.

Lemma hash_password_valid MD5 um uh pwd : isValid (hash_password MD5 um uh pwd) = true.
Proof.
  unfold hash_password. set (h := match _ with Some _ => _ | None => _ end).
  destruct (isValid h) eqn:Hh; [done|]. destruct (if uh then _ else _) as [m|].
  - destruct (hexToCharSeq (sub_match m 1)) as [ok d]. done.
  - by rewrite Hh.
Qed.

Lemma nextPasswordHash_line MD5 r l ls :
  has_lines (input r) (l :: ls) ->
  let h := line_hash MD5 (guessedSeparator r) (forceMD5 r) (forceHex r) l in
  exists r', nextPasswordHash MD5 r = (h, r') /\ has_lines (input r') ls /\ same_config r r' /\
    validEntries r' = if isValid h then u64 (validEntries r + 1) else validEntries r.
Proof.
  intros Hl. destruct (nextPassword_line r l ls Hl) as (r' & Hn & Hl' & (Hs & Hh & Hm) & Hv).
  unfold nextPasswordHash, line_hash. rewrite Hn. case_decide; cbn [isValid Hash_default].
  - eexists. done.
  - rewrite Hh, Hm. eexists. split; [done|]. split; [done|]. split; [done|]. cbn [validEntries].
    by rewrite Hv.
Qed.

(** The clients' loop: [while (!reader.eof()) { hash = reader.nextPasswordHash(); ... }]. *)
Fixpoint read_hashes (fuel : nat) (MD5 : list byte -> list byte) (r : UserPasswordReader)
    : option (list Hash * UserPasswordReader) :=
  match fuel with
  | O => None
  | S fuel =>
      if reader_eof r then Some ([], r)
      else
        let '(h, r) := nextPasswordHash MD5 r in
        match read_hashes fuel MD5 r with
        | None => None
        | Some (hs, r) => Some (h :: hs, r)
        end
  end.

Lemma read_hashes_lines fuel MD5 r ls :
  has_lines (input r) ls -> (length ls < fuel)%nat -> in_u64 (validEntries r) ->
  let hs := line_hash MD5 (guessedSeparator r) (forceMD5 r) (forceHex r) <$> ls in
  exists r', read_hashes fuel MD5 r = Some (hs, r') /\
    validEntries r' = u64 (validEntries r + Z.of_nat (length (filter (fun h => isValid h = true) hs))).
Proof.
  revert r ls. induction fuel as [|fuel IH]; intros r ls Hl Hfuel Hv; [lia|]. cbn [read_hashes].
  unfold reader_eof. rewrite (has_lines_eof _ _ Hl). destruct ls as [|l ls].
  - eexists. split; [done|]. cbn. by rewrite Z.add_0_r, u64_small.
  - change (bool_decide (l :: ls = [])) with false. cbv iota.
    destruct (nextPasswordHash_line MD5 r l ls Hl) as (r1 & -> & Hl1 & (Hs & Hh & Hm) & Hv1).
    destruct (IH r1 ls Hl1) as (r2 & -> & Hv2); [simpl in Hfuel; lia| |].
    { rewrite Hv1. destruct (isValid _); [apply u64_range|done]. }
    rewrite Hs, Hh, Hm in *. eexists. split; [done|]. rewrite Hv2, Hv1. rewrite fmap_cons, filter_cons.
    destruct (isValid _) eqn:Hval.
    + rewrite decide_True by done. cbn [length]. unfold u64. rewrite Zplus_mod_idemp_l. f_equal. lia.
    + by rewrite decide_False by done.
Qed.

(** ** Properties *)

(** C36: the separator the constructor settles on is the one found in the most of the first
    500 lines; when no candidate occurs there is none. *)
Theorem guessSeparator_correct t opts :
  let sep := guessedSeparator (new_reader (open_stream t) opts) in
  let n c := sep_count (take nTries (lines t)) c in
  (forall c, c ∈ possibleSeparators -> n c <= n sep) /\
  ((sep ∈ possibleSeparators /\ 0 < n sep) \/
   (sep = x00 /\ forall c, c ∈ possibleSeparators -> n c = 0)).
Proof.
  cbv zeta. rewrite new_reader_separator. unfold guessSeparator. cbn [input guessedSeparator].
  assert (counters []) as Hnil by (split; constructor).
  pose proof (fun c => guess_loop_spec nTries _ _ [] [] c (open_stream_lines t) Hnil) as Hspec. cbv zeta in Hspec.
  destruct (guess_loop _ _ _ _) as [f' m]. cbn [snd] in Hspec. cbn [guessedSeparator].
  assert (forall c, c ∈ possibleSeparators -> map_get c m = sep_count (take nTries (lines t)) c) as Hcount.
  { intros c Hc. destruct (Hspec c) as (_ & H & _). rewrite H by done. simpl. lia. }
  assert (forall c, 0 <= sep_count (take nTries (lines t)) c) as Hpos by (intros; unfold sep_count; lia).
  destruct m as [|e m].
  { assert (forall c, c ∈ possibleSeparators -> sep_count (take nTries (lines t)) c = 0) as H0
      by (intros c Hc; by rewrite <- Hcount). split; [intros c Hc; rewrite H0; done|]. by right. }
  destruct (max_element_spec e m) as [Hin Hmax]. set (best := max_element e m) in *.
  destruct (Hspec (fst best)) as ((Hs & Hp) & _ & Hout).
  assert (0 < snd best) as Hbp by (rewrite Forall_forall in Hp; by apply Hp).
  rewrite (proj2 (Z.ltb_lt _ _)) by done.
  pose proof (map_get_elem (e :: m) (fst best) (snd best) Hs) as Hb.
  rewrite <- surjective_pairing in Hb. specialize (Hb Hin).
  destruct (decide (fst best ∈ possibleSeparators)) as [Hbs|Hbs].
  2: { rewrite (Hout Hbs) in Hb. simpl in Hb. lia. }
  rewrite (Hcount _ Hbs) in Hb. split; [|left; split; [done|lia]].
  intros c Hc. rewrite <- Hcount by done.
  destruct (decide (map_get c (e :: m) = 0)) as [Hz|Hnz]; [rewrite Hz; lia|].
  apply map_get_in in Hnz. rewrite Forall_forall in Hmax. apply Hmax in Hnz. cbn [snd] in Hnz. lia.
Qed.

(** C18: reading until end of file hands out one hash per line of the whole input, the first
    lines included although the constructor has already read them: the hash of what follows
    the separator, no hash for an empty line or one longer than 200 characters; the counter
    of valid entries counts them, and the loop ends. *)
Theorem reader_reads_all_lines MD5 t opts :
  let r := new_reader (open_stream t) opts in
  let hs := line_hash MD5 (guessedSeparator r) (forceMD5 r) (forceHex r) <$> lines t in
  exists r', read_hashes (S (length (lines t))) MD5 r = Some (hs, r') /\
    validEntries r' = u64 (Z.of_nat (length (filter (fun h => isValid h = true) hs))).
Proof.
  intros r. assert (has_lines (input r) (lines t)) as Hl.
  { unfold r. rewrite new_reader_input by done. apply open_stream_lines. }
  assert (validEntries r = 0) as Hv.
  { unfold r, new_reader, evaluateContents, checkForMD5Hashes, checkForHexEncodedPasswords, guessSeparator.
    repeat (cbn [validEntries forceHex forceMD5 autoHex autoMD5 input guessedSeparator];
      match goal with
      | |- context [let '(_, _) := ?x in _] => destruct x as [? ?]
      | |- context [if bool_decide ?P then _ else _] => destruct (bool_decide P)
      end); done. }
  destruct (read_hashes_lines (S (length (lines t))) MD5 r (lines t) Hl) as (r' & -> & Hv');
    [apply Nat.lt_succ_diag_r|rewrite Hv; lia|].
  eexists. split; [done|]. by rewrite Hv' , Hv.
Qed.

(** with MD5 evaluation on, the hexadecimal MD5 of a password gives the hash of the
    password: a list of hashes converts to the same records as the list of passwords. *)
Theorem md5_line_same_hash MD5 u uh pwd :
  length (MD5 pwd) = Hash_size ->
  hash_password MD5 true uh (hexEncode u (MD5 pwd)) = Hash_of_string MD5 pwd.
Proof.
  intros Hl. unfold hash_password.
  assert (is_Some (regex_match MD5Regex (hexEncode u (MD5 pwd)))) as [m ->].
  { apply regex_match_lang, lang_Times. rewrite length_hexEncode, Hl. split; [done|].
    apply hexEncode_alnum. }
  rewrite fromHex_encode by done. cbn [isValid Hash_assign]. unfold Hash_of_string. by rewrite digest_hash.
Qed.

Lemma md5_line_same_hash_witness :
  hash_password toy_digest true false (hexEncode true (toy_digest (bs "admin"))) =
  Hash_of_string toy_digest (bs "admin").
Proof. apply (md5_line_same_hash toy_digest true false (bs "admin")). reflexivity. Defined.

(** with the evaluation of hexadecimal passwords on, [$HEX[...]] gives the hash of the
    password it spells. *)
Theorem hex_line_same_hash MD5 u um pwd :
  pwd <> [] -> hash_password MD5 um true (bs "$HEX[" ++ hexEncode u pwd ++ [x5d]) = Hash_of_string MD5 pwd.
Proof.
  intros Hne. unfold hash_password. set (x := bs "$HEX[" ++ _).
  assert (regex_match MD5Regex x = None) as Hno.
  { apply eq_None_not_Some. rewrite regex_match_lang. unfold MD5Regex. rewrite lang_Times. by intros [_ ?]. }
  assert ((if um then regex_match MD5Regex x else None) = None) as -> by (destruct um; done).
  destruct (HexRegex_capture (hexEncode u pwd)) as (m & Hm & Hsub).
  - destruct pwd; [done|]. done.
  - apply hexEncode_even.
  - apply hexEncode_alnum.
  - fold x in Hm. cbn [isValid Hash_default]. rewrite Hm, Hsub. unfold hexToCharSeq. rewrite hexEncode_even.
    by rewrite hexToCharSeq_loop_encode.
Qed.

Lemma hex_line_same_hash_witness :
  hash_password toy_digest false true (bs "$HEX[61646d696e]") = Hash_of_string toy_digest (bs "admin").
Proof. apply (hex_line_same_hash toy_digest false false (bs "admin")). discriminate. Defined.

(** the pattern admits any letter as a hexadecimal digit and the failure of the decoder
    is ignored: such a line counts as the bytes before the first bad pair. *)
Theorem hex_line_truncated MD5 u um p c1 c2 tl :
  decodeHex c1 = -1 \/ decodeHex c2 = -1 -> forallb alnum (c1 :: c2 :: tl) = true ->
  Nat.even (length tl) = true ->
  hash_password MD5 um true (bs "$HEX[" ++ (hexEncode u p ++ c1 :: c2 :: tl) ++ [x5d]) = Hash_of_string MD5 p.
Proof.
  intros Hbad Hal Htl. unfold hash_password. set (x := bs "$HEX[" ++ _).
  assert (regex_match MD5Regex x = None) as Hno.
  { apply eq_None_not_Some. rewrite regex_match_lang. unfold MD5Regex. rewrite lang_Times. by intros [_ ?]. }
  assert ((if um then regex_match MD5Regex x else None) = None) as -> by (destruct um; done).
  destruct (HexRegex_capture (hexEncode u p ++ c1 :: c2 :: tl)) as (m & Hm & Hsub).
  - by destruct (hexEncode u p).
  - rewrite length_app, Nat.even_add, hexEncode_even. simpl. by rewrite Htl.
  - by rewrite forallb_app, Hal, hexEncode_alnum.
  - fold x in Hm. cbn [isValid Hash_default]. rewrite Hm, Hsub. by rewrite hexToCharSeq_stops.
Qed.

Lemma hex_line_truncated_witness :
  hash_password toy_digest false true (bs "$HEX[6162zz63]") = Hash_of_string toy_digest (bs "ab").
Proof.
  exact (hex_line_truncated toy_digest false false (bs "ab") "z"%byte "z"%byte (bs "63")
    (or_introl eq_refl) eq_refl eq_refl).
Defined.
