(* ===== verification/Convert.v ===== *)
(** * pwned-converter-cli/convertoperation.cpp: from password lists to MD5:count files

    [ConvertOperation::execute] reads passwords until the memory it may use is spent, counts
    the hashes in a [std::map], writes the map as a sorted file of records and starts over
    with the rest of the input.  Paths are boost's and parameters here; the flag [isCancelled]
    is set by another thread, so every read of it takes its value from a schedule. *)

From S2P Require Import Prelude Stream Util Hash Phc Inspector Regex UserPasswordReader.
From stdpp Require Import options.

(** [sizeof(Hash) + sizeof(uint32_t) + sizeof(PasswordHashAndCount) + sizeof(uintptr_t)] on
    a 64-bit machine: the flag of [Hash] makes it 24 bytes, the count makes the pair 32. *)
Definition memUsagePerEntry : Z := 24 + 4 + 32 + 8.

(** [std::map<Hash, uint32_t, HashLess>]: its entries in key order; [passwordCountSet[hash] += 1] *)
Abbreviation count_set := (list (Hash * Z)).
Fixpoint set_incr (h : Hash) (m : count_set) : count_set :=
  match m with
  | [] => [(h, 1)]
  | (h', c) :: m' =>
      if HashLess h h' then (h, 1) :: m
      else if HashLess h' h then (h', c) :: set_incr h m'
      else (h', u32 (c + 1)) :: m'
  end.

(** The members of [ConvertOperationPrivate] that do not change. *)
Record ConvertOperationPrivate := MkConvert {
  srcFilePath : list byte;
  dstPath : list byte;
  outputExt : list byte;
  maxMem : Z;
  options : list UserPasswordReaderOptions }.

(** The inner loop: [while (!reader.eof() && !reader.bad() && memUsage < d->maxMem)]. *)
Fixpoint fill_loop (fuel : nat) (MD5 : list byte -> list byte) (maxMem : Z) (reader : UserPasswordReader)
    (passwordCountSet : count_set) (memUsage : Z) : outcome (UserPasswordReader * count_set) :=
  match fuel with
  | O => OutOfFuel
  | S fuel =>
      if negb (reader_eof reader) && negb (reader_bad reader) && (memUsage <? maxMem) then
        let '(hash, reader) := nextPasswordHash MD5 reader in
        let passwordCountSet := if isValid hash then set_incr hash passwordCountSet else passwordCountSet in
        fill_loop fuel MD5 maxMem reader passwordCountSet (u64 (memUsage + memUsagePerEntry))
      else Ok (reader, passwordCountSet)
  end.

Section execute.
(** boost's [path / name] and [path.stem()], and which files can be created. *)
Context (path_append : list byte -> list byte -> list byte) (path_stem : list byte -> list byte).
Context (writable : list byte -> bool) (MD5 : list byte -> list byte).
(** What the reads of [isCancelled] return. *)
Context (cancelled : nat -> bool).

(** The files: names and contents. *)
Abbreviation fs := (gmap (list byte) (list byte)).

Definition generatedOutputFilename (d : ConvertOperationPrivate) (splitFileNum : Z) : list byte :=
  path_append (dstPath d) (path_stem (srcFilePath d) ++ bs "-" ++ hexOut 4 false splitFileNum).

(** The loop that looks for a name that is not taken. *)
Fixpoint name_loop (fuel : nat) (files : fs) (base ext dstFilePath : list byte) (n : Z)
    : outcome (list byte) :=
  match fuel with
  | O => OutOfFuel
  | S fuel =>
      if bool_decide (is_Some (files !! dstFilePath)) && (n <? 10000)
      then name_loop fuel files base ext (base ++ bs "-" ++ hexOut 4 false n ++ ext) (n + 1)
      else Ok dstFilePath
  end.

Definition output_name (files : fs) (d : ConvertOperationPrivate) (splitFileNum : Z) : outcome (list byte) :=
  let base := generatedOutputFilename d splitFileNum in
  name_loop (S (Z.to_nat (10000 - splitFileNum))) files base (outputExt d) (base ++ outputExt d) splitFileNum.

(** The part of the outer loop after the map is filled: the vector of records, sorted. *)
Definition passwordList (passwordCountSet : count_set) : list PHC :=
  std_sort PHCLess ((fun i => PHC_ctor (fst i) (snd i)) <$> passwordCountSet).

(** The outer loop, with the files written so far and their order of writing. *)
Fixpoint execute_loop (fuel : nat) (d : ConvertOperationPrivate) (reader : UserPasswordReader)
    (splitFileNum : Z) (checks : nat) (files : fs) (log : list (list byte * list byte))
    : outcome (fs * list (list byte * list byte)) :=
  match fuel with
  | O => OutOfFuel
  | S fuel' =>
      if reader_eof reader then Ok (files, log)
      else
        let splitFileNum := splitFileNum + 1 in
        '(reader, passwordCountSet) ← fill_loop fuel MD5 (maxMem d) reader [] 0;
        if cancelled checks then Ok (files, log)
        else if decide (passwordCountSet = []) then
          execute_loop fuel' d reader splitFileNum (checks + 1) files log
        else if cancelled (checks + 1)%nat then Ok (files, log)
        else
          let passwordList := passwordList passwordCountSet in
          if cancelled (checks + 2)%nat then Ok (files, log)
          else
            dstFilePath ← output_name files d splitFileNum;
            let '(files, log) :=
              if writable dstFilePath
              then (<[dstFilePath := phc_file passwordList]> files,
                    log ++ [(dstFilePath, phc_file passwordList)])
              else (files, log) in
            execute_loop fuel' d reader splitFileNum (checks + 3) files log
  end.

(** [ConvertOperation::execute] on the stream the constructor opened. *)
Definition execute (fuel : nat) (d : ConvertOperationPrivate) (inputFile : istream) (files : fs)
    : outcome (fs * list (list byte * list byte)) :=
  if cancelled 0 then Ok (files, [])
  else execute_loop fuel d (new_reader inputFile (options d)) 0 1 files [].
End execute.

(** ** What a conversion means *)

(** How often the hash with number [v] occurs. *)
Definition occurrences (hs : list Hash) (v : Z) : Z := Z.of_nat (length (filter (fun h => hval h = v) hs)).

(** The hashes a reader gets out of some lines. *)
Definition valid_hashes (MD5 : list byte -> list byte) (r : UserPasswordReader) (ls : list (list byte)) : list Hash :=
  filter (fun h => isValid h = true) (line_hash MD5 (guessedSeparator r) (forceMD5 r) (forceHex r) <$> ls).

(** ** Lemmas: the map of counts *)

Definition entry_lt (a b : Hash * Z) : Prop := hval (fst a) < hval (fst b).
Definition set_ok (m : count_set) : Prop := StronglySorted entry_lt m /\ Forall (fun e => Hash_wf (fst e)) m.
Definition set_get (v : Z) (m : count_set) : Z := sum_Z (snd <$> filter (fun e => hval (fst e) = v) m).

Lemma set_get_cons v e m :
  set_get v (e :: m) = (if decide (hval (fst e) = v) then snd e else 0) + set_get v m.
Proof. unfold set_get. rewrite filter_cons. case_decide; csimpl; lia. Qed.

Lemma set_get_above v m : Forall (fun e => v < hval (fst e)) m -> set_get v m = 0.
Proof.
  intros Hm. unfold set_get. rewrite filter_none; [done|]. eapply Forall_impl; [exact Hm|]. simpl. lia.
Qed.

Lemma set_incr_Forall (P : Hash * Z -> Prop) h m :
  (forall c, P (h, c)) -> (forall h' c c', P (h', c) -> P (h', c')) -> Forall P m -> Forall P (set_incr h m).
Proof.
  intros Hh Hc. induction 1 as [|[h' c] m Hq Hm IH]; simpl; [by repeat constructor|].
  destruct (HashLess h h'); [by repeat constructor|]. destruct (HashLess h' h); constructor; eauto.
Qed.

Lemma set_incr_ok h m : Hash_wf h -> set_ok m -> set_ok (set_incr h m).
Proof.
  intros Hh [Hs Hw]. split; [|by apply set_incr_Forall].
  induction Hs as [|[h' c] m Hs IH Hq]; simpl; [by repeat constructor|].
  apply Forall_cons in Hw as [Hh' Hw]. simpl in Hh'. specialize (IH Hw). unfold HashLess.
  rewrite !Hash_ltb_spec by done.
  destruct (Z.ltb_spec (hval h) (hval h')); [|destruct (Z.ltb_spec (hval h') (hval h))].
  - repeat constructor; try done. eapply Forall_impl; [exact Hq|]. unfold entry_lt. simpl. lia.
  - constructor; [done|]. apply set_incr_Forall; [done|done|done].
  - by constructor.
Qed.

Lemma set_incr_get h m v : Hash_wf h -> set_ok m -> set_get (hval h) m + 1 < 2 ^ 32 -> 0 <= set_get (hval h) m ->
  set_get v (set_incr h m) = set_get v m + if decide (hval h = v) then 1 else 0.
Proof.
  intros Hh [Hs Hw]. induction Hs as [|[h' c] m Hs IH Hq]; intros Hc Hc'; simpl.
  { rewrite set_get_cons. simpl. unfold set_get. simpl. case_decide; lia. }
  apply Forall_cons in Hw as [Hh' Hw]. simpl in Hh'. specialize (IH Hw). unfold HashLess.
  rewrite !Hash_ltb_spec by done. rewrite set_get_cons in Hc, Hc'. simpl in Hc, Hc'.
  destruct (Z.ltb_spec (hval h) (hval h')); [|destruct (Z.ltb_spec (hval h') (hval h))].
  - rewrite !set_get_cons. simpl. lia.
  - rewrite !set_get_cons, IH by (rewrite decide_False in Hc, Hc' by lia; lia). simpl. lia.
  - assert (hval h' = hval h) as Heq by lia. rewrite decide_True in Hc, Hc' by done.
    rewrite (set_get_above (hval h) m) in Hc, Hc'
      by (eapply Forall_impl; [exact Hq|]; unfold entry_lt; simpl; lia).
    rewrite !set_get_cons. simpl. rewrite Heq, u32_small by lia. case_decide; lia.
Qed.

Lemma occurrences_cons h hs v : occurrences (h :: hs) v = (if decide (hval h = v) then 1 else 0) + occurrences hs v.
Proof. unfold occurrences. rewrite filter_cons. case_decide; simpl; lia. Qed.

Lemma occurrences_app l k v : occurrences (l ++ k) v = occurrences l v + occurrences k v.
Proof. unfold occurrences. rewrite filter_app, length_app. lia. Qed.

Lemma occurrences_length hs v : 0 <= occurrences hs v <= Z.of_nat (length hs).
Proof. unfold occurrences. pose proof (length_filter (fun h => hval h = v) hs). lia. Qed.

Definition set_of (m : count_set) (hs : list Hash) : count_set := foldl (fun m h => set_incr h m) m hs.

Lemma set_of_spec m hs :
  Forall Hash_wf hs -> set_ok m -> (forall v, 0 <= set_get v m /\ set_get v m + Z.of_nat (length hs) < 2 ^ 32) ->
  set_ok (set_of m hs) /\ forall v, set_get v (set_of m hs) = set_get v m + occurrences hs v.
Proof.
  intros Hw. revert m. induction Hw as [|h hs Hh Hw IH]; intros m Hm Hb; cbn [set_of foldl].
  - split; [done|]. intros v. unfold occurrences. simpl. lia.
  - assert (forall v, set_get v (set_incr h m) = set_get v m + if decide (hval h = v) then 1 else 0) as Hg.
    { intros v. destruct (Hb (hval h)). apply set_incr_get; try done. simpl length in *. lia. }
    destruct (IH (set_incr h m)) as [Hok Hget]; [by apply set_incr_ok| |].
    { intros v. rewrite Hg. destruct (Hb v). simpl length in *. case_decide; lia. }
    split; [done|]. intros v. fold (set_of (set_incr h m) hs). rewrite Hget, Hg, occurrences_cons. lia.
Qed.

Lemma set_of_length m hs : (length (set_of m hs) <= length m + length hs)%nat.
Proof.
  revert m. induction hs as [|h hs IH]; intros m; cbn [set_of foldl length]; [lia|].
  enough (length (set_incr h m) <= S (length m))%nat by (fold (set_of (set_incr h m) hs); specialize (IH (set_incr h m)); lia).
  induction m as [|[h' c] m IHm]; simpl; [lia|]. destruct (HashLess h h'); [simpl; lia|].
  destruct (HashLess h' h); simpl; lia.
Qed.

(** The records of a chunk of hashes. *)
Definition chunk_records (hs : list Hash) : list PHC := passwordList (set_of [] hs).

Lemma passwordList_sorted m :
  set_ok m -> passwordList m = (fun i => PHC_ctor (fst i) (snd i)) <$> m.
Proof.
  intros [Hs Hw]. unfold passwordList. apply std_sort_sorted.
  - intros x y. unfold PHCLess, Hash_ltb. bool_cases; intros; bool_cases; done || lia.
  - induction Hs as [|e m Hs IH He]; csimpl; [constructor|]. apply Forall_cons in Hw as [Hhe Hw].
    constructor; [by apply IH|]. apply Forall_fmap. rewrite Forall_forall in He, Hw |- *. intros e' He'.
    unfold PHCLess, PHC_ctor, compose. cbn [hash]. change (Hash_ltb (fst e) (fst e') = true).
    rewrite Hash_ltb_spec by auto. apply Z.ltb_lt. by apply He.
Qed.

Lemma count_of_set m v :
  count_of ((fun i => PHC_ctor (fst i) (snd i)) <$> m) v = set_get v m.
Proof.
  unfold count_of, set_get. induction m as [|e m IH]; [done|]. rewrite fmap_cons, !filter_cons.
  change (hval (hash (PHC_ctor (fst e) (snd e)))) with (hval (fst e)).
  case_decide; simpl; [|done]. f_equal. apply IH.
Qed.

Lemma set_counts_range m :
  set_ok m -> (forall v, 0 <= set_get v m < 2 ^ 32) -> Forall (fun e => in_u32 (snd e)) m.
Proof.
  intros [Hs _] Hb. rewrite Forall_forall. intros e He. specialize (Hb (hval (fst e))).
  enough (set_get (hval (fst e)) m = snd e) by lia. clear Hb.
  induction Hs as [|e' m Hs IH Hq]; [by apply not_elem_of_nil in He|]. rewrite set_get_cons.
  apply elem_of_cons in He as [->|He].
  - rewrite decide_True by done. rewrite set_get_above; [lia|]. exact Hq.
  - rewrite decide_False; [by rewrite IH|]. rewrite Forall_forall in Hq. specialize (Hq _ He).
    unfold entry_lt in Hq. lia.
Qed.

Lemma chunk_records_ok hs :
  Forall Hash_wf hs -> Z.of_nat (length hs) < 2 ^ 32 ->
  lookup_file (chunk_records hs) /\ forall v, count_of (chunk_records hs) v = occurrences hs v.
Proof.
  intros Hw Hl. destruct (set_of_spec [] hs Hw) as [Hok Hget].
  { by repeat constructor. }
  { intros v. unfold set_get. simpl. lia. }
  assert (forall v, count_of (chunk_records hs) v = occurrences hs v) as Hcount.
  { intros v. unfold chunk_records. rewrite passwordList_sorted, count_of_set, Hget by done.
    unfold set_get. simpl. lia. }
  split; [|done]. unfold chunk_records. rewrite passwordList_sorted by done.
  assert (Forall (fun e => in_u32 (snd e)) (set_of [] hs)) as Hr.
  { apply set_counts_range; [done|]. intros v. rewrite Hget. pose proof (occurrences_length hs v).
    unfold set_get. simpl. lia. }
  destruct Hok as [Hs Hwf]. split.
  - apply Forall_fmap. rewrite Forall_forall in Hwf, Hr |- *. intros e He. split; [by apply Hwf|by apply Hr].
  - clear Hr Hwf Hget Hcount. induction Hs as [|e m Hs IH He]; csimpl; [constructor|]. constructor; [done|].
    apply Forall_fmap. exact He.
  - rewrite length_fmap. pose proof (set_of_length [] hs). simpl in *. unfold PHC_size. lia.
Qed.

(** ** Lemmas: names *)

Definition hex_value (l : list byte) : Z := foldl (fun a c => a * 16 + decodeHex c) 0 l.

Lemma hex_value_app l k : hex_value (l ++ k) = foldl (fun a c => a * 16 + decodeHex c) (hex_value l) k.
Proof. apply foldl_app. Qed.

Lemma hexDigits_value fuel u z : 0 <= z < 16 ^ Z.of_nat fuel -> hex_value (hexDigits fuel u z) = z.
Proof.
  revert z. induction fuel as [|fuel IH]; intros z Hz; [change (0 = z); change (16 ^ Z.of_nat 0) with 1 in Hz; lia|]. cbn [hexDigits].
  rewrite Nat2Z.inj_succ, Z.pow_succ_r in Hz by lia. destruct (Z.ltb_spec z 16).
  - cbn. rewrite decodeHex_hexDigit by lia. lia.
  - rewrite hex_value_app, IH by (split; [apply Z.div_pos; lia|apply Z.div_lt_upper_bound; lia]). cbn.
    rewrite decodeHex_hexDigit by (apply Z.mod_pos_bound; lia). pose proof (Z.div_mod z 16). lia.
Qed.

Lemma hexOut_value w u z : in_u64 z -> hex_value (hexOut w u z) = z.
Proof.
  intros Hz. unfold hexOut. cbv zeta. rewrite hex_value_app.
  assert (hex_value (replicate (w - length (hexDigits 16 u z)) "0"%byte) = 0) as ->.
  { generalize (w - length (hexDigits 16 u z))%nat as n. unfold hex_value. induction n as [|n IH]; [done|]. exact IH. }
  apply (hexDigits_value 16). exact Hz.
Qed.

Lemma hexOut_without (c : byte) w u z : (forall d, 0 <= d < 16 -> c <> hexDigit u d) -> in_u64 z -> c ∉ hexOut w u z.
Proof.
  intros Hd Hz. unfold hexOut. cbv zeta. rewrite elem_of_app. intros [Hin|Hin].
  { apply elem_of_replicate in Hin as [E _]. by apply (Hd 0); [lia|destruct u]. }
  assert (0 <= z) as Hp by (simpl in Hz; lia). revert Hin. clear Hz.
  generalize 16%nat as fuel. intros fuel. revert z Hp.
  induction fuel as [|fuel IH]; intros z Hp; cbn [hexDigits]; [by intros ?%elem_of_nil|].
  destruct (Z.ltb_spec z 16); [intros E%list_elem_of_singleton; by apply (Hd z)|].
  rewrite elem_of_app. intros [Hin|E%list_elem_of_singleton]; [by apply (IH (z / 16)); [apply Z.div_pos; lia|]|].
  by apply (Hd (z mod 16)); [apply Z.mod_pos_bound; lia|].
Qed.

(** Neither ["-"] nor ["/"] is a hexadecimal digit. *)
Lemma not_hexDigit (c : byte) u d : decodeHex c < 0 \/ 16 <= decodeHex c -> 0 <= d < 16 -> c <> hexDigit u d.
Proof. intros Hc Hd ->. rewrite decodeHex_hexDigit in Hc by done. lia. Qed.

Lemma last_separator (x : byte) a b a' b' :
  x ∉ b -> x ∉ b' -> a ++ x :: b = a' ++ x :: b' -> a = a' /\ b = b'.
Proof.
  intros Hb Hb' Heq. apply (f_equal (@rev byte)) in Heq. rewrite !rev_app_distr in Heq. cbn [rev] in Heq.
  rewrite <- !app_assoc in Heq. cbn [app] in Heq.
  assert (forall l k r s : list byte, x ∉ l -> x ∉ k -> l ++ x :: r = k ++ x :: s -> l = k /\ r = s) as Hsplit.
  { clear. induction l as [|c l IH]; intros [|d k] r s Hl Hk Hls; cbn in Hls; simplify_eq; [done|set_solver..|].
    destruct (IH k r s) as [-> ->]; [set_solver..|done|done]. }
  assert (forall l, x ∉ l -> x ∉ rev l) as Hrev by (intros l Hl; by rewrite list_elem_of_In, <- in_rev, <- list_elem_of_In).
  destruct (Hsplit _ _ _ _ (Hrev _ Hb) (Hrev _ Hb') Heq) as [H1 H2].
  split; [rewrite <- (rev_involutive a), <- (rev_involutive a'); by f_equal|rewrite <- (rev_involutive b), <- (rev_involutive b'); by f_equal].
Qed.

(** The name of the [k]th output of a conversion, when it is not taken. *)
Definition out_name (path_append : list byte -> list byte -> list byte) (path_stem : list byte -> list byte)
    (d : ConvertOperationPrivate) (k : Z) : list byte :=
  generatedOutputFilename path_append path_stem d k ++ outputExt d.

(** boost's [/]: a name of one component below a directory is determined by its path. *)
Definition append_law (path_append : list byte -> list byte -> list byte) : Prop :=
  forall dir a b, "/"%byte ∉ a -> "/"%byte ∉ b -> path_append dir a = path_append dir b -> a = b.

(** Names of conversions into the same directory. *)
Lemma out_name_inj path_append path_stem d d' k k' :
  append_law path_append -> "/"%byte ∉ path_stem (srcFilePath d) -> "/"%byte ∉ path_stem (srcFilePath d') ->
  dstPath d = dstPath d' -> outputExt d = outputExt d' -> in_u64 k -> in_u64 k' ->
  out_name path_append path_stem d k = out_name path_append path_stem d' k' ->
  path_stem (srcFilePath d) = path_stem (srcFilePath d') /\ k = k'.
Proof.
  intros Hlaw Hp Hp' Hdst Hext Hk Hk' Heq. unfold out_name, generatedOutputFilename in Heq. rewrite Hdst, Hext in Heq.
  assert (forall x k, "/"%byte ∉ x -> in_u64 k -> "/"%byte ∉ x ++ bs "-" ++ hexOut 4 false k) as Hplain.
  { clear. intros x k Hx Hk. change (bs "-") with ["-"%byte]. rewrite !elem_of_app, list_elem_of_singleton. intros [?|[?|Hin]]; [done..|].
    revert Hin. apply hexOut_without; [|done]. intros d. apply not_hexDigit. by vm_compute; left. }
  apply app_inv_tail, Hlaw in Heq; [|by apply Hplain..]. change (bs "-") with ["-"%byte] in Heq. cbn [app] in Heq.
  apply last_separator in Heq as [Hs Hh];
    [|apply hexOut_without; [|done]; intros z; apply not_hexDigit; by vm_compute; left..]. split; [done|].
  rewrite <- (hexOut_value 4 false k), <- (hexOut_value 4 false k') by done. by f_equal.
Qed.

(** ** Lemmas: the loops *)

(** The lines one map takes: those read while the memory is not used up. *)
Definition room (maxMem memUsage : Z) : nat := Z.to_nat ((maxMem - memUsage + 67) / 68).

Lemma room_zero maxMem memUsage : maxMem <= memUsage -> room maxMem memUsage = 0%nat.
Proof. intros. unfold room. dlia. Qed.

Lemma room_step maxMem memUsage : memUsage < maxMem -> room maxMem memUsage = S (room maxMem (memUsage + 68)).
Proof.
  intros. unfold room. replace (maxMem - memUsage + 67) with (maxMem - (memUsage + 68) + 67 + 1 * 68) by lia.
  rewrite Z.div_add by lia. dlia.
Qed.

Lemma line_hash_wf MD5 sep um uh l : Hash_wf (line_hash MD5 sep um uh l).
Proof.
  unfold line_hash. case_decide; [done|]. unfold hash_password. set (h := match _ with Some _ => _ | None => _ end).
  assert (Hash_wf h) as Hh by (unfold h; destruct (if um then _ else None); [apply fromHex_wf|done]).
  destruct (isValid h); [done|]. destruct (if uh then _ else None) as [m|].
  - destruct (hexToCharSeq (sub_match m 1)) as [ok d]. apply Hash_of_string_wf.
  - destruct (isValid h); [done|]. apply Hash_of_string_wf.
Qed.

Lemma valid_hashes_wf MD5 r ls : Forall Hash_wf (valid_hashes MD5 r ls).
Proof.
  apply Forall_forall. intros h [_ Hh]%list_elem_of_filter. apply list_elem_of_fmap in Hh as (l & -> & _).
  apply line_hash_wf.
Qed.

Lemma valid_hashes_app MD5 r l k : valid_hashes MD5 r (l ++ k) = valid_hashes MD5 r l ++ valid_hashes MD5 r k.
Proof. unfold valid_hashes. by rewrite fmap_app, filter_app. Qed.

Lemma valid_hashes_length MD5 r ls : (length (valid_hashes MD5 r ls) <= length ls)%nat.
Proof. unfold valid_hashes. rewrite length_filter, length_fmap. lia. Qed.

Lemma valid_hashes_config MD5 r r' ls : same_config r r' -> valid_hashes MD5 r' ls = valid_hashes MD5 r ls.
Proof. intros (Hs & Hh & Hm). unfold valid_hashes. by rewrite Hs, Hh, Hm. Qed.

Lemma fill_loop_spec fuel MD5 maxMem r ls m mem :
  has_lines (input r) ls -> (length ls < fuel)%nat -> 0 <= mem -> maxMem < 2 ^ 63 -> mem <= Z.max 0 maxMem + 68 ->
  exists r', fill_loop fuel MD5 maxMem r m mem =
    Ok (r', set_of m (valid_hashes MD5 r (take (room maxMem mem) ls))) /\
    has_lines (input r') (drop (room maxMem mem) ls) /\ same_config r r'.
Proof.
  revert r ls m mem. induction fuel as [|fuel IH]; intros r ls m mem Hl Hfuel Hmem Hmax Hmem'; [lia|].
  cbn [fill_loop]. unfold reader_eof, reader_bad, bad. rewrite (has_lines_eof _ _ Hl), (proj1 Hl).
  destruct ls as [|l ls].
  { rewrite take_nil, drop_nil. eexists. split; [done|]. done. }
  change (bool_decide (l :: ls = [])) with false. cbn [negb andb].
  destruct (Z.ltb_spec mem maxMem) as [Hlt|Hge].
  2: { rewrite room_zero by lia. rewrite take_0, drop_0. eexists. split; [done|]. done. }
  destruct (nextPasswordHash_line MD5 r l ls Hl) as (r1 & -> & Hl1 & Hc1 & _).
  set (h := line_hash _ _ _ _ l). change memUsagePerEntry with 68. rewrite u64_small by lia.
  destruct (IH r1 ls (if isValid h then set_incr h m else m) (mem + 68)) as (r2 & -> & Hl2 & Hc2);
    [done|simpl in Hfuel; lia|lia|lia|lia|].
  rewrite (room_step _ _ Hlt). cbn [take drop firstn skipn]. exists r2. split; [|split; [done|]].
  - do 2 f_equal. rewrite (valid_hashes_config MD5 r r1) by done.
    unfold valid_hashes. rewrite fmap_cons, filter_cons. fold h. destruct (isValid h) eqn:Hv.
    + rewrite decide_True by done. done.
    + rewrite decide_False by done. done.
  - destruct Hc1 as (? & ? & ?), Hc2 as (? & ? & ?). unfold same_config. split_and!; congruence.
Qed.

Lemma set_of_nil hs : set_of [] hs = [] -> hs = [].
Proof.
  destruct hs as [|h hs]; [done|]. cbn [set_of foldl set_incr].
  assert (forall m, m <> [] -> set_of m hs <> []) as Hne; [|by intros ?%Hne].
  induction hs as [|h' hs IH]; intros m Hm; [done|]. cbn [set_of foldl]. apply IH.
  destruct m as [|[h1 c] m]; [done|]. simpl. by destruct (HashLess h' h1), (HashLess h1 h').
Qed.

Section loops.
Context (path_append : list byte -> list byte -> list byte) (path_stem : list byte -> list byte).
Context (MD5 : list byte -> list byte).
#[local] Set Default Proof Using "Type".

Lemma name_loop_total (fuel : nat) (files : gmap (list byte) (list byte)) base ext cand n :
  10000 - n < Z.of_nat fuel -> (0 < fuel)%nat ->
  exists p, name_loop fuel files base ext cand n = Ok p /\
    (files !! p = None \/
     is_Some (files !! cand) /\
     forall k, n <= k < 10000 -> is_Some (files !! (base ++ bs "-" ++ hexOut 4 false k ++ ext))).
Proof.
  revert cand n. induction fuel as [|fuel IH]; intros cand n Hfuel Hpos; [lia|]. cbn [name_loop].
  destruct (bool_decide_reflect (is_Some (files !! cand))) as [Hc|Hc]; cbn [andb].
  2: { exists cand. split; [done|]. left. by apply eq_None_not_Some. }
  destruct (Z.ltb_spec n 10000).
  - destruct (IH (base ++ bs "-" ++ hexOut 4 false n ++ ext) (n + 1)) as (p & -> & Hp); [lia|lia|].
    exists p. split; [done|]. destruct Hp as [Hp|[Hn Hp]]; [by left|]. right. split; [done|].
    intros k Hk. destruct (decide (k = n)) as [->|]; [done|]. apply Hp. lia.
  - exists cand. split; [done|]. right. split; [done|]. intros. lia.
Qed.

(** What a run writes: sorted files whose counts add up to the occurrences. *)
Definition writes (log : list (list byte * list byte)) (hs : list Hash) : Prop :=
  exists out : list (list byte * list PHC),
    log = (fun e => (fst e, phc_file (snd e))) <$> out /\
    Forall (fun e => lookup_file (snd e)) out /\
    forall v, sum_Z ((fun e => count_of (snd e) v) <$> out) = occurrences hs v.

Lemma writes_nil : writes [] [].
Proof. exists []. split; [done|]. split; [constructor|done]. Qed.

Lemma writes_cons p recs log hs hs' :
  lookup_file recs -> (forall v, count_of recs v = occurrences hs v) -> writes log hs' ->
  writes ((p, phc_file recs) :: log) (hs ++ hs').
Proof.
  intros Hf Hc (out & -> & Hall & Hsum). exists ((p, recs) :: out). split; [done|].
  split; [by constructor|]. intros v. csimpl. by rewrite Hc, Hsum, occurrences_app.
Qed.

Lemma execute_loop_spec fuel d r ls n checks files log :
  has_lines (input r) ls -> (length ls < fuel)%nat -> 0 < maxMem d < 2 ^ 38 ->
  exists files' log', execute_loop path_append path_stem (fun _ => true) MD5 (fun _ => false)
    fuel d r n checks files log = Ok (files', log ++ log') /\ writes log' (valid_hashes MD5 r ls).
Proof.
  revert r ls n checks files log.
  induction fuel as [|fuel IH]; intros r ls n checks files log Hl Hfuel Hmax; [lia|].
  cbn [execute_loop]. unfold reader_eof. rewrite (has_lines_eof _ _ Hl).
  destruct ls as [|l ls].
  { exists files, []. rewrite app_nil_r. split; [done|apply writes_nil]. }
  change (bool_decide (l :: ls = [])) with false. cbv iota zeta.
  destruct (fill_loop_spec (S fuel) MD5 (maxMem d) r (l :: ls) [] 0) as (r' & -> & Hl' & Hc);
    [done|lia|lia|lia|lia|].
  change (mbind ?f (Ok ?a)) with (f a). cbv beta iota.
  set (k := room (maxMem d) 0) in *.
  assert (0 < k)%nat as Hk by (unfold k; rewrite room_step by lia; lia).
  set (hs := valid_hashes MD5 r (take k (l :: ls))).
  assert (valid_hashes MD5 r (l :: ls) = hs ++ valid_hashes MD5 r (drop k (l :: ls))) as ->.
  { by rewrite <- (take_drop k (l :: ls)) at 1; rewrite valid_hashes_app. }
  assert (length (drop k (l :: ls)) < fuel)%nat as Hd by (rewrite length_drop; simpl in *; lia).
  case_decide as Hnil.
  - apply set_of_nil in Hnil as ->.
    destruct (IH r' (drop k (l :: ls)) (n + 1) (checks + 1)%nat files log Hl' Hd Hmax) as (f' & log' & -> & Hw).
    rewrite (valid_hashes_config MD5 r r') in Hw by done. by exists f', log'.
  - destruct (name_loop_total (S (Z.to_nat (10000 - (n + 1)))) files
      (generatedOutputFilename path_append path_stem d (n + 1)) (outputExt d)
      (generatedOutputFilename path_append path_stem d (n + 1) ++ outputExt d) (n + 1))
      as (p & Hp & _); [lia|lia|].
    unfold output_name. rewrite Hp. change (mbind ?f (Ok ?a)) with (f a). cbv beta iota.
    destruct (IH r' (drop k (l :: ls)) (n + 1) (checks + 3)%nat
      (<[p := phc_file (passwordList (set_of [] hs))]> files)
      (log ++ [(p, phc_file (passwordList (set_of [] hs)))]) Hl' Hd Hmax) as (f' & log' & -> & Hw).
    rewrite (valid_hashes_config MD5 r r') in Hw by done.
    eexists f', _. rewrite <- app_assoc. split; [done|]. simpl.
    destruct (chunk_records_ok hs) as [Hf Hcount]; [apply valid_hashes_wf| |].
    { unfold hs. pose proof (valid_hashes_length MD5 r (take k (l :: ls))) as Hlen.
      rewrite length_take in Hlen.
      assert ((maxMem d - 0 + 67) / 68 < 2 ^ 32) by (apply Z.div_lt_upper_bound; lia).
      assert (Z.of_nat k < 2 ^ 32) by (unfold k, room; lia). lia. }
    by apply writes_cons.
Qed.
End loops.

(** A run only adds to the log. *)
Lemma execute_loop_log path_append path_stem MD5 writable cancelled fuel d r n checks files log f' l' :
  execute_loop path_append path_stem writable MD5 cancelled fuel d r n checks files log = Ok (f', l') ->
  exists later, l' = log ++ later.
Proof.
  revert r n checks files log. induction fuel as [|fuel IH]; intros r n checks files log H; [done|].
  assert (Ok (files, log) = Ok (f', l') -> exists later, l' = log ++ later) as Hstop.
  { intros. simplify_eq. exists []. by rewrite app_nil_r. }
  cbn [execute_loop] in H. destruct (reader_eof r); [auto|].
  destruct (fill_loop _ _ _ _ _ _) as [[r' m]| | |]; try done.
  change (mbind ?f (Ok ?a)) with (f a) in H. cbv beta iota zeta in H.
  destruct (cancelled checks); [auto|]. case_decide; [by eapply IH|].
  destruct (cancelled (checks + 1)%nat); [auto|]. destruct (cancelled (checks + 2)%nat); [auto|].
  destruct (output_name _ _ _ _ _) as [p| | |]; try done.
  change (mbind ?f (Ok ?a)) with (f a) in H. cbv beta in H.
  destruct (writable p); [|by eapply IH]. apply IH in H as (later & ->).
  eexists. by rewrite <- app_assoc.
Qed.

(** What the files are after a run, and where its outputs are: under the numbered names, when
    these are free. *)
Definition write_all (files : gmap (list byte) (list byte)) (log : list (list byte * list byte)) : gmap (list byte) (list byte) :=
  foldl (fun fs e => <[fst e := snd e]> fs) files log.

Lemma write_all_other files log p : p ∉ log.*1 -> write_all files log !! p = files !! p.
Proof.
  revert files. induction log as [|e log IH]; intros files Hp; [done|]. csimpl in *. apply not_elem_of_cons in Hp as [Hne Hp].
  cbn [write_all foldl]. fold (write_all (<[fst e := snd e]> files) log). rewrite IH by done. by rewrite lookup_insert_ne.
Qed.

Lemma write_all_in files log e : NoDup log.*1 -> e ∈ log -> write_all files log !! fst e = Some (snd e).
Proof.
  revert files. induction log as [|e' log IH]; intros files Hnd He; [by apply elem_of_nil in He|].
  csimpl in *. apply NoDup_cons in Hnd as [Hni Hnd]. cbn [write_all foldl]. fold (write_all (<[fst e' := snd e']> files) log).
  apply elem_of_cons in He as [->|He]; [|by apply IH]. rewrite write_all_other by done. apply lookup_insert_eq.
Qed.

Lemma execute_loop_files path_append path_stem MD5 writable cancelled fuel d r n checks files log f' later :
  execute_loop path_append path_stem writable MD5 cancelled fuel d r n checks files log = Ok (f', log ++ later) ->
  f' = write_all files later.
Proof.
  revert r n checks files log later. induction fuel as [|fuel IH]; intros r n checks files log later H; [done|].
  assert (Ok (files, log) = Ok (f', log ++ later) -> f' = write_all files later) as Hstop.
  { intros [= <- E]. rewrite <- (app_nil_r log) in E at 1. apply app_inv_head in E as <-. done. }
  cbn [execute_loop] in H. destruct (reader_eof r); [auto|].
  destruct (fill_loop _ _ _ _ _ _) as [[r' m]| | |]; try done.
  change (mbind ?f (Ok ?a)) with (f a) in H. cbv beta iota zeta in H.
  destruct (cancelled checks); [auto|]. case_decide; [by eapply IH|].
  destruct (cancelled (checks + 1)%nat); [auto|]. destruct (cancelled (checks + 2)%nat); [auto|].
  destruct (output_name _ _ _ _ _) as [p| | |]; try done.
  change (mbind ?f (Ok ?a)) with (f a) in H. cbv beta in H.
  destruct (writable p); [|by eapply IH].
  destruct (execute_loop_log _ _ _ _ _ _ _ _ _ _ _ _ _ _ H) as [l' E]. rewrite E in H. rewrite <- app_assoc in E.
  apply app_inv_head in E as ->. apply IH in H as ->. done.
Qed.

Lemma output_name_free path_append path_stem files d n :
  files !! out_name path_append path_stem d n = None ->
  output_name path_append path_stem files d n = Ok (out_name path_append path_stem d n).
Proof.
  intros Hf. unfold output_name. cbn [name_loop]. fold (out_name path_append path_stem d n). by rewrite Hf.
Qed.

Lemma execute_loop_names path_append path_stem MD5 cancelled fuel d r n checks files log f' later :
  append_law path_append -> "/"%byte ∉ path_stem (srcFilePath d) -> 0 <= n -> n + Z.of_nat fuel <= 2 ^ 31 ->
  (forall k, n < k < 2 ^ 31 -> files !! out_name path_append path_stem d k = None) ->
  execute_loop path_append path_stem (fun _ => true) MD5 cancelled fuel d r n checks files log = Ok (f', log ++ later) ->
  NoDup later.*1 /\ Forall (fun p => exists k, n < k < 2 ^ 31 /\ p = out_name path_append path_stem d k) later.*1.
Proof.
  intros Hlaw Hplain. revert r n checks files log later.
  induction fuel as [|fuel IH]; intros r n checks files log later Hn Hb Hfree H; [done|].
  assert (Ok (files, log) = Ok (f', log ++ later) ->
    NoDup later.*1 /\ Forall (fun p => exists k, n < k < 2 ^ 31 /\ p = out_name path_append path_stem d k) later.*1) as Hstop.
  { intros [= _ E]. rewrite <- (app_nil_r log) in E at 1. apply app_inv_head in E as <-. by repeat constructor. }
  cbn [execute_loop] in H. destruct (reader_eof r); [auto|].
  destruct (fill_loop _ _ _ _ _ _) as [[r' m]| | |]; try done.
  change (mbind ?f (Ok ?a)) with (f a) in H. cbv beta iota zeta in H.
  destruct (cancelled checks); [auto|]. case_decide.
  { apply IH in H as [? Hall]; [|lia|lia|intros; apply Hfree; lia]. split; [done|]. eapply Forall_impl; [exact Hall|].
    intros p (k & ? & ?). exists k. split; [lia|done]. }
  destruct (cancelled (checks + 1)%nat); [auto|]. destruct (cancelled (checks + 2)%nat); [auto|].
  destruct (decide (fuel = 0%nat)) as [->|Hfuel]; [by destruct (output_name _ _ _ _ _)|].
  rewrite output_name_free in H by (apply Hfree; lia).
  change (mbind ?f (Ok ?a)) with (f a) in H. cbv beta iota in H.
  destruct (execute_loop_log _ _ _ _ _ _ _ _ _ _ _ _ _ _ H) as [l' E]. rewrite E in H. rewrite <- app_assoc in E.
  apply app_inv_head in E as ->.
  assert (forall k, n + 1 < k < 2 ^ 31 -> out_name path_append path_stem d (n + 1) <> out_name path_append path_stem d k) as Hne.
  { intros k Hk (_ & E)%out_name_inj; try done; lia. }
  apply IH in H as [Hnd Hall]; [|lia|lia|intros k Hk; rewrite lookup_insert_ne by auto; apply Hfree; lia].
  csimpl. rewrite Forall_forall in Hall. split.
  - constructor; [|done]. intros Hin. destruct (Hall _ Hin) as (k & Hk & E). by apply (Hne k).
  - constructor; [exists (n + 1); split; [lia|done]|]. apply Forall_forall. intros p Hp. destruct (Hall p Hp) as (k & ? & ?).
    exists k. split; [lia|done].
Qed.

(** ** Properties *)

Section properties.
Context (path_append : list byte -> list byte -> list byte) (path_stem : list byte -> list byte).
Context (MD5 : list byte -> list byte).
#[local] Set Default Proof Using "Type".

(** C9: a conversion of a readable list that is not cancelled and has memory for at least one
    password (and less than 256 GB of it), whose outputs can be opened, ends, and writes files of strictly increasing
    records whose counts add up, for every hash, to its number of occurrences among the lines
    of the input, however that limit splits the input.  It touches no other file.  When the
    numbered names of its outputs are free (and there are less than 2^31 lines, so that the
    number does not overflow), no two outputs have the same name, each is a new file, and all
    of them are there in the end. *)
Theorem convert_correct d t files :
  0 < maxMem d < 2 ^ 38 ->
  exists files' out,
    execute path_append path_stem (fun _ => true) MD5 (fun _ => false) (S (length (lines t))) d
      (open_stream t) files = Ok (files', (fun e => (fst e, phc_file (snd e))) <$> out) /\
    Forall (fun e => lookup_file (snd e)) out /\
    (forall v, sum_Z ((fun e => count_of (snd e) v) <$> out) =
      occurrences (valid_hashes MD5 (new_reader (open_stream t) (options d)) (lines t)) v) /\
    (forall p, p ∉ out.*1 -> files' !! p = files !! p) /\
    (append_law path_append -> "/"%byte ∉ path_stem (srcFilePath d) -> Z.of_nat (length (lines t)) < 2 ^ 31 ->
     (forall k, 1 <= k < 2 ^ 31 -> files !! out_name path_append path_stem d k = None) ->
     NoDup out.*1 /\ Forall (fun e => files !! fst e = None /\ files' !! fst e = Some (phc_file (snd e))) out).
Proof.
  intros Hmax. unfold execute.
  destruct (execute_loop_spec path_append path_stem MD5 (S (length (lines t))) d
    (new_reader (open_stream t) (options d)) (lines t) 0 1 files []) as (files' & log & He & out & -> & H1 & H2).
  - rewrite new_reader_input by done. apply open_stream_lines.
  - apply Nat.lt_succ_diag_r.
  - done.
  - exists files', out. split; [exact He|]. pose proof (execute_loop_files _ _ _ _ _ _ _ _ _ _ _ _ _ _ He) as ->.
    assert (((fun e => (fst e, phc_file (snd e))) <$> out).*1 = out.*1) as Hfst.
    { clear. induction out as [|e out IH]; [done|]. csimpl. by rewrite IH. }
    split_and!; [done|done|intros p Hp; apply write_all_other; by rewrite Hfst|]. intros Hlaw Hplain Hshort Hfree.
    apply execute_loop_names in He as [Hnd Hall]; [|done|done|done|lia|intros; apply Hfree; lia].
    rewrite Hfst in Hall. rewrite Forall_forall in Hall. split; [by rewrite Hfst in Hnd|].
    apply Forall_forall. intros e Hin. split.
    + destruct (Hall (fst e)) as (k & Hk & ->); [by apply list_elem_of_fmap_2|]. apply Hfree. lia.
    + apply (write_all_in files _ (fst e, phc_file (snd e)) Hnd). apply list_elem_of_fmap. by exists e.
Qed.

(** the search for an output name ends, and the name is new unless the plain name and
    every numbered name up to 9999 are taken. *)
Theorem output_name_fresh files d n :
  exists p, output_name path_append path_stem files d n = Ok p /\
    (files !! p = None \/
     forall k, n <= k < 10000 -> is_Some (files !!
       (generatedOutputFilename path_append path_stem d n ++ bs "-" ++ hexOut 4 false k ++ outputExt d))).
Proof.
  unfold output_name.
  destruct (name_loop_total (S (Z.to_nat (10000 - n))) files
    (generatedOutputFilename path_append path_stem d n) (outputExt d)
    (generatedOutputFilename path_append path_stem d n ++ outputExt d) n) as (p & -> & Hp); [lia|lia|].
  exists p. split; [done|]. destruct Hp as [|[_ Hp]]; [by left|by right].
Qed.

(** with no memory to use (option [--ram 0]) the outer loop reads nothing and never
    ends. *)
Theorem convert_no_memory_diverges fuel d t files :
  maxMem d = 0 ->
  execute path_append path_stem (fun _ => true) MD5 (fun _ => false) fuel d (open_stream t) files = OutOfFuel.
Proof.
  intros Hmax. unfold execute. set (r := new_reader _ _).
  assert (reader_eof r = false) as He by (unfold r, reader_eof; by rewrite new_reader_input).
  generalize 0 as n, 1%nat as checks.
  induction fuel as [|fuel IH]; intros n checks; [done|]. cbn [execute_loop]. rewrite He.
  cbn [fill_loop]. rewrite Hmax. rewrite andb_false_r. apply IH.
Qed.

(** a file that cannot be opened is never at end of file after the reader has cleared
    its stream, so the conversion never ends, whatever memory it has. *)
Theorem convert_unreadable_diverges fuel d files :
  execute path_append path_stem (fun _ => true) MD5 (fun _ => false) fuel d unopened files = OutOfFuel.
Proof.
  set (stuck := fun r : UserPasswordReader =>
    input r = unopened /\ currentLine r = []).
  assert (forall fuel r mem, stuck r ->
    fill_loop fuel MD5 (maxMem d) r [] mem = OutOfFuel \/
    exists r', stuck r' /\ fill_loop fuel MD5 (maxMem d) r [] mem = Ok (r', [])) as Hfill.
  { clear. induction fuel as [|fuel IH]; intros r mem [Hi Hl]; [by left|]. cbn [fill_loop].
    destruct (_ && _); [|right; by exists r].
    unfold nextPasswordHash, nextPassword, reader_eof, reader_bad. rewrite Hi, Hl. cbn. by apply IH. }
  unfold execute. assert (stuck (new_reader unopened (options d))) as Hs.
  { unfold new_reader. destruct (bool_decide (forceEvaluateHexEncodedPasswords ∈ options d)),
      (bool_decide (forceEvaluateMD5Hashes ∈ options d)),
      (bool_decide (autoEvaluateHexEncodedPasswords ∈ options d)),
      (bool_decide (autoEvaluateMD5Hashes ∈ options d)); split; vm_compute; reflexivity. }
  revert Hs. generalize (new_reader unopened (options d)) as r, 0 as n, 1%nat as checks.
  induction fuel as [|fuel IH]; intros r n checks Hs; [done|]. cbn [execute_loop].
  unfold reader_eof. rewrite (proj1 Hs). cbn [eof eofbit unopened].
  destruct (Hfill (S fuel) r 0 Hs) as [->|(r' & Hs' & ->)]; [done|].
  change (mbind ?f (Ok ?a)) with (f a). cbv beta iota. by apply IH.
Qed.

(** a conversion that ends also ends when it is cancelled, at any moment, and leaves whole
    files only: what was written is an initial part of what the undisturbed conversion
    writes. *)
Theorem convert_cancel_prefix fuel d f files writable cancelled f2 l2 :
  execute path_append path_stem writable MD5 (fun _ => false) fuel d f files = Ok (f2, l2) ->
  exists f1 l1 later,
    execute path_append path_stem writable MD5 cancelled fuel d f files = Ok (f1, l1) /\ l2 = l1 ++ later.
Proof.
  unfold execute. destruct (cancelled 0%nat); [intros; by exists files, [], l2|].
  generalize (new_reader f (options d)) as r, 0 as n, 1%nat as checks, (@nil (list byte * list byte)) as log.
  revert files. induction fuel as [|fuel IH]; intros files r n checks log H2; [done|].
  destruct (execute_loop_log path_append path_stem MD5 writable (fun _ => false) _ _ _ _ _ _ _ _ _ H2) as [later Hext].
  cbn [execute_loop] in H2 |- *.
  destruct (reader_eof r); [injection H2 as <- <-; exists files, log, []; by rewrite app_nil_r|].
  destruct (fill_loop _ _ _ _ _ _) as [[r' m]| | |]; try done.
  change (mbind ?f (Ok ?a)) with (f a) in H2 |- *. cbv beta iota zeta in H2 |- *.
  destruct (cancelled checks); [by exists files, log, later|]. case_decide; [by apply IH|].
  destruct (cancelled (checks + 1)%nat); [by exists files, log, later|].
  destruct (cancelled (checks + 2)%nat); [by exists files, log, later|].
  destruct (output_name _ _ _ _ _) as [p| | |]; try done.
  change (mbind ?f (Ok ?a)) with (f a) in H2 |- *. cbv beta in H2 |- *.
  destruct (writable p); by apply IH.
Qed.
End properties.

(** ** Witnesses: a small conversion *)

Definition demo_append (p name : list byte) : list byte := p ++ bs "/" ++ name.
Definition demo_stem (p : list byte) : list byte := p.
Definition demo_text : list byte := bs "a:x" ++ [x0a] ++ bs "b:y" ++ [x0a] ++ bs "c:x".
Definition demo_convert (mem : Z) : ConvertOperationPrivate :=
  MkConvert (bs "list") (bs "out") (bs ".md5") mem [].

Lemma demo_append_law : append_law demo_append.
Proof. intros dir a b _ _ Heq. unfold demo_append in Heq. by apply app_inv_head, app_inv_head in Heq. Qed.

Lemma convert_correct_witness :
  exists files' out,
    execute demo_append demo_stem (fun _ => true) toy_digest (fun _ => false) 4 (demo_convert 136)
      (open_stream demo_text) ∅ = Ok (files', (fun e => (fst e, phc_file (snd e))) <$> out) /\
    (forall v, sum_Z ((fun e => count_of (snd e) v) <$> out) =
      occurrences (valid_hashes toy_digest (new_reader (open_stream demo_text) []) (lines demo_text)) v) /\
    NoDup out.*1 /\ Forall (fun e => (∅ : gmap (list byte) (list byte)) !! fst e = None /\ files' !! fst e = Some (phc_file (snd e))) out.
Proof.
  destruct (convert_correct demo_append demo_stem toy_digest (demo_convert 136) demo_text ∅) as (files' & out & H1 & _ & H3 & _ & H5).
  { simpl. lia. }
  exists files', out. split; [exact H1|]. split; [exact H3|]. apply H5; [exact demo_append_law| |vm_compute; reflexivity|intros; apply lookup_empty].
  apply (bool_decide_unpack _). vm_compute. exact I.
Defined.

Lemma convert_no_memory_diverges_witness :
  execute demo_append demo_stem (fun _ => true) toy_digest (fun _ => false) 1000 (demo_convert 0)
    (open_stream demo_text) ∅ = OutOfFuel.
Proof. apply (convert_no_memory_diverges demo_append demo_stem toy_digest 1000). reflexivity. Defined.

Definition demo_run (cancelled : nat -> bool) : outcome (list (list byte * list byte)) :=
  snd <$> execute demo_append demo_stem (fun _ => true) toy_digest cancelled 4
    (demo_convert 68) (open_stream demo_text) ∅.

Lemma convert_cancel_prefix_witness :
  exists f1 l1 later l2, execute demo_append demo_stem (fun _ => true) toy_digest (fun n => 4 <=? n)%nat 4
      (demo_convert 68) (open_stream demo_text) ∅ = Ok (f1, l1) /\ demo_run (fun _ => false) = Ok l2 /\ l2 = l1 ++ later.
Proof.
  assert (exists l2, demo_run (fun _ => false) = Ok l2) as (l2 & R2) by (eexists; vm_compute; reflexivity).
  destruct (fmap_snd_Ok _ _ R2) as (f2 & E2).
  destruct (convert_cancel_prefix demo_append demo_stem toy_digest 4 (demo_convert 68) (open_stream demo_text) ∅
    (fun _ => true) (fun n => 4 <=? n)%nat f2 l2 E2) as (f1 & l1 & later & H1 & Hl).
  exists f1, l1, later, l2. split; [exact H1|]. split; [exact R2|exact Hl].
Defined.

(** One file is written before the cancellation in this run, and three without it. *)
Example demo_cancelled : length <$> demo_run (fun n => 4 <=? n)%nat = Ok 1%nat.
Proof. vm_compute. reflexivity. Qed.
Example demo_not_cancelled : length <$> demo_run (fun _ => false) = Ok 3%nat.
Proof. vm_compute. reflexivity. Qed.

(** ** pwned-converter-cli.cpp: [main] after the options are parsed *)

Record ConverterOptions := MkConverterOptions {
  cv_src : list byte;
  cv_dst : list byte;
  cv_ext : list byte;
  cv_ram : Z;          (** MB *)
  cv_threads : Z;
  cv_forceMD5 : bool;
  cv_autoMD5 : bool;
  cv_forceHex : bool;
  cv_autoHex : bool }.

Definition DefaultOutputExt : list byte := bs ".md5".
Definition DefaultNumThreads : Z := 4.

(** [ba::ends_with(filePath, ".txt")] *)
Definition ends_with (s suffix : list byte) : bool :=
  (length suffix <=? length s)%nat && bool_decide (drop (length s - length suffix) s = suffix).

Definition reader_options (o : ConverterOptions) : list UserPasswordReaderOptions :=
  (if cv_forceMD5 o then [forceEvaluateMD5Hashes]
   else if cv_autoMD5 o then [autoEvaluateMD5Hashes] else []) ++
  (if cv_forceHex o then [forceEvaluateHexEncodedPasswords]
   else if cv_autoHex o then [autoEvaluateHexEncodedPasswords] else []).

(** The operations put in the queue, [None] when [main] gives up first; [tree] lists the files
    below the source directory and whether they are regular. *)
Definition converter_main (tree : list byte -> list (list byte * bool)) (o : ConverterOptions)
    : option (list ConvertOperationPrivate) :=
  let numThreads := if cv_threads o =? 0 then DefaultNumThreads else cv_threads o in
  let filenames :=
    if (0 <? length (cv_src o))%nat
    then fst <$> filter (fun f => snd f && ends_with (fst f) (bs ".txt") = true) (tree (cv_src o))
    else [] in
  if decide (filenames = []) then None
  else if decide (cv_dst o = []) then None
  else Some ((fun filename => MkConvert filename (cv_dst o) (cv_ext o)
    (u64 (u64 (cv_ram o * 1024) * 1024) / numThreads) (reader_options o)) <$> filenames).

(** [main] queues one conversion for every regular [.txt] file of the source directory and
    splits the memory among [--threads] many of them: that many never use more than [--ram]. *)
Theorem converter_main_budget tree o ops d :
  converter_main tree o = Some ops -> d ∈ ops -> 0 <= cv_threads o ->
  (srcFilePath d, true) ∈ tree (cv_src o) /\ ends_with (srcFilePath d) (bs ".txt") = true /\
  maxMem d * (if cv_threads o =? 0 then 4 else cv_threads o) <= u64 (u64 (cv_ram o * 1024) * 1024).
Proof.
  unfold converter_main. intros Hops Hd Ht. repeat case_decide; simplify_eq.
  apply list_elem_of_fmap in Hd as (f & -> & Hf). cbn [srcFilePath maxMem].
  destruct (0 <? _)%nat; [|by apply not_elem_of_nil in Hf].
  apply list_elem_of_fmap in Hf as ([f' reg] & -> & Hf). apply list_elem_of_filter in Hf as [Hc Hf].
  apply andb_true_iff in Hc as [Hr He]. simpl in Hr. subst reg. split; [done|]. split; [done|].
  unfold DefaultNumThreads. pose proof (u64_range (u64 (cv_ram o * 1024) * 1024)).
  rewrite Z.mul_comm. apply Z.mul_div_le. destruct (Z.eqb_spec (cv_threads o) 0); lia.
Qed.

Lemma converter_main_budget_witness :
  let o := MkConverterOptions (bs "in") (bs "out") DefaultOutputExt 1000 3 false false true false in
  let tree := fun _ : list byte => [(bs "in/a.txt", true); (bs "in/b.csv", true)] in
  (bs "in/a.txt", true) ∈ tree (bs "in") /\ ends_with (bs "in/a.txt") (bs ".txt") = true /\
  349525333 * 3 <= 1048576000.
Proof.
  intros o tree.
  exact (converter_main_budget tree o
    [MkConvert (bs "in/a.txt") (bs "out") DefaultOutputExt 349525333 [forceEvaluateHexEncodedPasswords]]
    (MkConvert (bs "in/a.txt") (bs "out") DefaultOutputExt 349525333 [forceEvaluateHexEncodedPasswords])
    ltac:(vm_compute; reflexivity) ltac:(apply list_elem_of_singleton; reflexivity) ltac:(simpl; lia)).
Defined.
