(* ===== verification/Pipeline.v ===== *)
(** * From a password list to the answer of a lookup

    The converter and the inspector are never in one process: what joins them is the files the
    one writes and the other reads. *)

From S2P Require Import Prelude Stream Util Hash Phc Inspector Regex UserPasswordReader Convert.
From stdpp Require Import options.

(** What a lookup of [h] in a file of these bytes gives, with an object of its own. *)
Definition lookup_in (bytes : list byte) (h : Hash) : option PHC :=
  i ← PasswordInspector (Some (FileEntry bytes true));
  '(q, _, _) ← binsearch 0 i h;
  Some q.

Lemma lookup_in_answers recs h : lookup_file recs -> Hash_wf h ->
  exists q, lookup_in (phc_file recs) h = Some q /\ answers recs (hval h) q.
Proof.
  intros Hf Hh. destruct (open_opened recs Hf) as (i & Ho & Hi). unfold lookup_in. rewrite Ho. cbn [mbind option_bind].
  destruct (binsearch_opened recs 0 i h Hf Hi Hh) as (q & n & i' & -> & Ha & _). by exists q.
Qed.

Section pipeline.
Context (path_append : list byte -> list byte -> list byte) (path_stem : list byte -> list byte).
Context (MD5 : list byte -> list byte).

(** when a password list has been converted, with whatever memory, looking a hash up in
    every file written and adding the counts gives the number of lines of the list with a
    password of that hash. *)
Theorem convert_lookup d t files h :
  0 < maxMem d < 2 ^ 38 -> Hash_wf h ->
  exists files' written qs,
    execute path_append path_stem (fun _ => true) MD5 (fun _ => false) (S (length (lines t))) d
      (open_stream t) files = Ok (files', written) /\
    Forall2 (fun e q => lookup_in (snd e) h = Some q) written qs /\
    sum_Z (count <$> qs) =
      occurrences (valid_hashes MD5 (new_reader (open_stream t) (options d)) (lines t)) (hval h).
Proof.
  intros Hmax Hh. unfold execute.
  destruct (execute_loop_spec path_append path_stem MD5 (S (length (lines t))) d
    (new_reader (open_stream t) (options d)) (lines t) 0 1 files []) as (files' & log & -> & out & -> & Hf & Hsum).
  - rewrite new_reader_input by done. apply open_stream_lines.
  - apply Nat.lt_succ_diag_r.
  - done.
  - rewrite <- Hsum. clear Hsum.
    assert (exists qs, Forall2 (fun e q => lookup_in (phc_file (snd e)) h = Some q /\ answers (snd e) (hval h) q) out qs) as [qs Hqs].
    { induction Hf as [|e out He _ [qs IH]]; [by exists []|]. destruct (lookup_in_answers (snd e) h He Hh) as (q & ? & ?).
      exists (q :: qs). by constructor. }
    exists files', ((fun e => (fst e, phc_file (snd e))) <$> out), qs. split; [done|]. split.
    + apply Forall2_fmap_l. eapply Forall2_impl; [exact Hqs|]. by intros e q [? _].
    + clear Hf. induction Hqs as [|e q out qs [_ [Hc _]] _ IH]; [done|]. rewrite !fmap_cons. unfold sum_Z in *. cbn [foldr]. by rewrite Hc, IH.
Qed.
End pipeline.

(** Room for two entries at a time; two lines have the password [x]. *)
Lemma convert_lookup_witness :
  exists files' written qs,
    execute demo_append demo_stem (fun _ => true) toy_digest (fun _ => false) 4 (demo_convert 136)
      (open_stream Convert.demo_text) ∅ = Ok (files', written) /\
    Forall2 (fun e q => lookup_in (snd e) (Hash_of_string toy_digest (bs "x")) = Some q) written qs /\
    sum_Z (count <$> qs) =
      occurrences (valid_hashes toy_digest (new_reader (open_stream Convert.demo_text) []) (lines Convert.demo_text))
        (hval (Hash_of_string toy_digest (bs "x"))).
Proof.
  apply (convert_lookup demo_append demo_stem toy_digest (demo_convert 136) Convert.demo_text ∅).
  - simpl. lia.
  - apply Hash_of_string_wf.
Defined.

Example demo_occurrences :
  occurrences (valid_hashes toy_digest (new_reader (open_stream Convert.demo_text) []) (lines Convert.demo_text))
    (hval (Hash_of_string toy_digest (bs "x"))) = 2.
Proof. vm_compute. reflexivity. Qed.
