(* ===== verification/PriorityQueue.v ===== *)
(** * std::priority_queue: the interface the clients are proved against

    [MergeOperation] keeps its inputs and [OperationQueue] its operations in a
    [std::priority_queue].  The class states what the container promises; the clients'
    theorems hold for every instance, and a list in order of priority is one. *)

From S2P Require Import Prelude.
From stdpp Require Import options.

(** ** The interface of the priority queue

    [less x y] is the comparison the queue is built with: [top] is an element no other one of
    the queue is above.  [set_top] is the mutation through the pointer [top] returns: the
    queue does not notice, so nothing is promised about the order until [pop]. *)

Class PriorityQueue (A : Type) (less : A -> A -> bool) (Q : Type) := {
  pq_empty : Q;
  pq_push : A -> Q -> Q;
  pq_top : Q -> option A;
  pq_pop : Q -> Q;
  pq_set_top : A -> Q -> Q;
  pq_elems : Q -> list A;   (** the elements, for specifications *)
  pq_heap : Q -> Prop;      (** the queue is in order *)
  pq_elems_empty : pq_elems pq_empty = [];
  pq_heap_empty : pq_heap pq_empty;
  pq_push_elems : forall x q, pq_heap q -> pq_elems (pq_push x q) ≡ₚ x :: pq_elems q;
  pq_push_heap : forall x q, pq_heap q -> pq_heap (pq_push x q);
  pq_top_none : forall q, pq_top q = None <-> pq_elems q = [];
  pq_top_elem : forall q x, pq_heap q -> pq_top q = Some x ->
    Forall (fun y => less x y = false) (pq_elems q);
  pq_pop_elems : forall q x, pq_heap q -> pq_top q = Some x -> pq_elems q ≡ₚ x :: pq_elems (pq_pop q);
  pq_pop_heap : forall q, pq_heap q -> pq_heap (pq_pop q);
  pq_set_top_top : forall q x y, pq_top q = Some x -> pq_top (pq_set_top y q) = Some y;
  pq_set_top_pop : forall q x y, pq_top q = Some x -> pq_pop (pq_set_top y q) = pq_pop q;
  (** an element of the same priority does not disturb the order *)
  pq_set_top_heap : forall q x y, pq_heap q -> pq_top q = Some x ->
    (forall z, less z y = less z x /\ less y z = less x z) ->
    pq_heap (pq_set_top y q) /\ pq_elems (pq_set_top y q) ≡ₚ y :: pq_elems (pq_pop q) }.

(** [pq.empty()] *)
Definition pq_is_empty `{PriorityQueue A less Q} (q : Q) : bool :=
  match pq_top q with None => true | Some _ => false end.

(** ** An implementation of the queue: a list in order of priority *)

Section list_queue.
Context {A : Type} (less : A -> A -> bool).
Context (less_irrefl : forall x, less x x = false).
Context (less_asym : forall x y, less x y = true -> less y x = false).
Context (less_trans : forall x y z, less x y = false -> less y z = false -> less x z = false).
#[local] Set Default Proof Using "All".

Fixpoint lq_push (x : A) (q : list A) : list A :=
  match q with
  | [] => [x]
  | y :: q' => if less x y then y :: lq_push x q' else x :: q
  end.
Definition lq_set_top (y : A) (q : list A) : list A := match q with [] => [] | _ :: q' => y :: q' end.
Definition lq_order (x y : A) : Prop := less x y = false.

Lemma lq_push_elems x q : lq_push x q ≡ₚ x :: q.
Proof.
  clear less_irrefl less_asym less_trans.
  induction q as [|y q IH]; simpl; [done|]. destruct (less x y); [|done].
  etransitivity; [apply perm_skip, IH|apply perm_swap].
Qed.

Lemma lq_push_heap x q : StronglySorted lq_order q -> StronglySorted lq_order (lq_push x q).
Proof.
  induction 1 as [|y q Hs IH Hy]; simpl; [by repeat constructor|].
  destruct (less x y) eqn:Hxy.
  - constructor; [done|]. rewrite lq_push_elems. constructor; [by apply less_asym|done].
  - constructor; [by constructor|]. constructor; [done|].
    eapply Forall_impl; [exact Hy|]. intros z Hz. by eapply less_trans.
Qed.

Program Definition list_queue : PriorityQueue A less (list A) := {|
  pq_empty := [];
  pq_push := lq_push;
  pq_top := head;
  pq_pop := tail;
  pq_set_top := lq_set_top;
  pq_elems := id;
  pq_heap := StronglySorted lq_order |}.
Next Obligation. done. Qed.
Next Obligation. constructor. Qed.
Next Obligation. intros x q _. apply lq_push_elems. Qed.
Next Obligation. apply lq_push_heap. Qed.
Next Obligation. intros [|x q]; done. Qed.
Next Obligation.
  intros [|y q] x Hs Ht; simplify_eq/=. apply StronglySorted_inv in Hs as [_ Hs]. by constructor.
Qed.
Next Obligation. intros [|y q] x _ Ht; by simplify_eq/=. Qed.
Next Obligation. intros [|y q] Hs; [done|]. by apply StronglySorted_inv in Hs as [Hs _]. Qed.
Next Obligation. intros [|z q] x y Ht; by simplify_eq/=. Qed.
Next Obligation. intros [|z q] x y Ht; by simplify_eq/=. Qed.
Next Obligation.
  intros [|w q] x y Hs Ht Hp; simplify_eq/=. split; [|done].
  apply StronglySorted_inv in Hs as [Hs Hx]. constructor; [done|].
  eapply Forall_impl; [exact Hx|]. intros z Hz. unfold lq_order. by rewrite (proj2 (Hp z)).
Qed.
End list_queue.
