(* ===== verification/Merge.v ===== *)
(** * pwned-merger-cli: merging sorted MD5:count files

    [mergerinput.hpp], [inputfile.hpp] and [mergeoperation.cpp].  A [MergeOperation] keeps its
    inputs in a [std::priority_queue] of pointers, smallest current hash first, and changes
    the input at the top through the pointer while it is in the queue.  The queue is an
    interface here ([PriorityQueue]); the theorems about merging hold for every
    implementation, and a list-based one shows the laws can be met. *)

From S2P Require Import Prelude Stream Util Hash Phc Inspector PriorityQueue.
From stdpp Require Import options.

(** ** The inputs *)

(** [MergerInput]: the part of the object [MergeOperation] works with. *)
Record MergerInput := MkInput {
  in_path : list byte;
  phc : PHC;
  in_valid : bool;   (** [isValid] *)
  in_f : istream }.

(** [bool read()] *)
Definition input_read (mi : MergerInput) : MergerInput :=
  let '(ok, p, f) := PHC_read (phc mi) (in_f mi) in
  MkInput (in_path mi) p ok f.

(** [MergerInput(inputFile)] followed by [open()]. *)
Definition input_open (path : list byte) (file : file_entry) : MergerInput :=
  let '(ok, f) := fopen file in
  let mi := MkInput path PHC_default false f in
  if ok then input_read mi else mi.

(** [SmallestHashFirst] *)
Definition SmallestHashFirst (lhs rhs : MergerInput) : bool := Hash_gtb (hash (phc lhs)) (hash (phc rhs)).

(** [MergerError] *)
Inductive MergerError := noData | cannotWriteToFile | cancelled_error.

Section merge.
Context {Q : Type} `{PQ : PriorityQueue MergerInput SmallestHashFirst Q}.

(** [MergeOperationPrivate]: the queue, the bytes written, the counters and the files
    removed after they were merged; and the objects deleted, by their paths. *)
Record MergeState := MkMerge {
  ms_pq : Q;
  ms_out : list byte;
  ms_entriesProcessed : Z;
  ms_removed : list (list byte);
  ms_deleted : list (list byte) }.

(** The constructor: opens the inputs in order and sums their sizes. *)
Definition merge_init (srcFiles : list (list byte * file_entry)) : MergeState * Z :=
  let '(q, sum) := foldl (fun '(q, sum) '(path, file) =>
      (pq_push (input_open path file) q, u64 (sum + Z.of_nat (length (fbytes file)))))
    (pq_empty, 0) srcFiles in
  (MkMerge q [] 0 [] [], sum / PHC_size).

(** [PasswordHashAndCount next()] *)
Definition merge_next (removeInputFiles : bool) (s : MergeState) : PHC * MergeState :=
  match pq_top (ms_pq s) with
  | None => (PHC_default, s)
  | Some mergerInput =>
      let result := phc mergerInput in
      if in_valid mergerInput then
        let mergerInput := input_read mergerInput in
        let q := pq_set_top mergerInput (ms_pq s) in
        let q := if in_valid mergerInput then pq_push mergerInput (pq_pop q) else q in
        (result, MkMerge q (ms_out s) (ms_entriesProcessed s) (ms_removed s) (ms_deleted s))
      else
        let q := pq_pop (ms_pq s) in
        let removed := if removeInputFiles then ms_removed s ++ [in_path mergerInput] else ms_removed s in
        let s := MkMerge q (ms_out s) (ms_entriesProcessed s) removed (ms_deleted s ++ [in_path mergerInput]) in
        if pq_is_empty q then (PHC_default, s) else (result, s)
  end.

(** [current.dump(d->dstFile)] *)
Definition merge_dump (p : PHC) (s : MergeState) : MergeState :=
  MkMerge (ms_pq s) (ms_out s ++ dump p) (ms_entriesProcessed s) (ms_removed s) (ms_deleted s).

(** The call of the progress callback. *)
Definition progress (progressed : option (Z -> outcome unit)) (n : Z) : outcome unit :=
  match progressed with None => Ok tt | Some update => update n end.

(** The loop of [execute]; [cancelled k] is what the [k]th read of [isCancelled] returns. *)
Fixpoint merge_loop (fuel : nat) (removeInputFiles : bool) (progressed : option (Z -> outcome unit))
    (cancelled : nat -> bool) (updateAfterEntries : Z) (checks : nat) (current : PHC) (s : MergeState)
    : outcome MergeState :=
  match fuel with
  | O => OutOfFuel
  | S fuel =>
      if cancelled checks then Ok s
      else
        let '(p, s) := merge_next removeInputFiles s in
        if negb (pq_is_empty (ms_pq s)) then
          _ ← (if ms_entriesProcessed s mod updateAfterEntries =? 0
               then progress progressed (ms_entriesProcessed s) else Ok tt);
          let s := MkMerge (ms_pq s) (ms_out s) (u64 (ms_entriesProcessed s + 1)) (ms_removed s) (ms_deleted s) in
          if Hash_eqb (hash current) (hash p)
          then merge_loop fuel removeInputFiles progressed cancelled updateAfterEntries (S checks)
            (MkPHC (hash current) (u32 (count current + count p))) s
          else merge_loop fuel removeInputFiles progressed cancelled updateAfterEntries (S checks) p
            (merge_dump current s)
        else Ok (merge_dump current s)
  end.

(** [MergeOperation::execute]: [None] when nothing is written at all. *)
Definition merge_execute (fuel : nat) (removeInputFiles : bool) (progressed : option (Z -> outcome unit))
    (cancelled : nat -> bool) (writable : bool) (srcFiles : list (list byte * file_entry))
    : outcome (option MergeState) :=
  let '(s, totalEntries) := merge_init srcFiles in
  if cancelled 0%nat then Ok None
  else
    match pq_top (ms_pq s) with
    | None => Ok None
    | Some top =>
        if negb writable then Throws (bs "Cannot write to file: ")
        else
          let updateAfterEntries := Z.max (totalEntries / 1000) 1 in
          s ← merge_loop fuel removeInputFiles progressed cancelled updateAfterEntries 1 (phc top) s;
          _ ← progress progressed (ms_entriesProcessed s);
          Ok (Some s)
    end.
End merge.

Arguments MergeState Q : clear implicits.

(** ** Specification

    What the queue hands out for one file: its records, and the last one once more.  An empty
    file hands out the zero record of the default constructor. *)

Definition norm (p : PHC) : PHC := read_into PHC_default p.

Definition emission (recs : list PHC) : list PHC :=
  match last recs with None => [PHC_default] | Some z => (norm <$> recs) ++ [norm z] end.

(** Runs of equal hashes added up, modulo [2 ^ 32]. *)
Fixpoint collapse (current : PHC) (l : list PHC) : list PHC :=
  match l with
  | [] => [current]
  | p :: l =>
      if Hash_eqb (hash current) (hash p)
      then collapse (MkPHC (hash current) (u32 (count current + count p))) l
      else current :: collapse p l
  end.

Definition hash_le (p q : PHC) : Prop := hval (hash p) <= hval (hash q).
(** A record as files hold it: words in range, flag not set. *)
Definition rec_ok (p : PHC) : Prop := PHC_wf p /\ isValid (hash p) = false.

(** Sum of the counts of one hash. *)
Definition total (v : Z) (l : list PHC) : Z := count_of l v.

(** ** Lemmas: collapsing *)

Lemma rec_ok_eqb p q : rec_ok p -> rec_ok q -> Hash_eqb (hash p) (hash q) = (hval (hash p) =? hval (hash q)).
Proof.
  intros [[[Hu Hl] _] Hv] [[[Hu' Hl'] _] Hv']. unfold Hash_eqb, hval. rewrite Hv, Hv'. bool_cases; simpl; done || lia.
Qed.

Lemma total_cons v p l : total v (p :: l) = (if decide (hval (hash p) = v) then count p else 0) + total v l.
Proof. unfold total, count_of. rewrite filter_cons. case_decide; csimpl; lia. Qed.

Lemma total_perm v l k : l ≡ₚ k -> total v l = total v k.
Proof. intros Hp. unfold total, count_of. apply sum_Z_perm. by rewrite Hp. Qed.

Lemma total_app v l k : total v (l ++ k) = total v l + total v k.
Proof. unfold total, count_of. by rewrite filter_app, fmap_app, sum_Z_app. Qed.

Lemma total_absent v l : Forall (fun p => hval (hash p) <> v) l -> total v l = 0.
Proof. intros. by apply count_of_absent. Qed.

Lemma rec_ok_add c p : rec_ok c -> rec_ok (MkPHC (hash c) (u32 (count c + count p))).
Proof. intros [[Hh _] Hv]. split; [split; [done|apply u32_range]|done]. Qed.

Lemma collapse_spec l c :
  Forall rec_ok (c :: l) -> StronglySorted hash_le (c :: l) ->
  Forall rec_ok (collapse c l) /\ StronglySorted hash_lt (collapse c l) /\
  Forall (fun p => hval (hash c) <= hval (hash p)) (collapse c l) /\
  (forall v, v ∈ hval ∘ hash <$> collapse c l <-> v ∈ hval ∘ hash <$> c :: l) /\
  (forall v, total v (collapse c l) = u32 (total v (c :: l))).
Proof.
  revert c. induction l as [|p l IH]; intros c Hok Hs; cbn [collapse].
  { split; [done|]. split; [by repeat constructor|]. split; [repeat constructor; lia|]. split; [done|].
    intros v. rewrite total_cons. apply Forall_cons in Hok as [[[_ Hc] _] _].
    unfold total, count_of. simpl. case_decide; [rewrite u32_small; lia|done]. }
  apply Forall_cons in Hok as [Hc Hok]. pose proof Hok as [Hp Hok']%Forall_cons.
  apply StronglySorted_inv in Hs as [Hs Hcl]. pose proof Hcl as [Hcp Hcl']%Forall_cons.
  rewrite rec_ok_eqb by done. destruct (Z.eqb_spec (hval (hash c)) (hval (hash p))) as [Heq|Hne].
  - set (c' := MkPHC (hash c) (u32 (count c + count p))).
    destruct (IH c') as (H1 & H2 & H3 & H4 & H5).
    + constructor; [by apply rec_ok_add|done].
    + apply StronglySorted_inv in Hs as [Hs _]. by constructor.
    + split; [done|]. split; [done|]. split; [done|]. split.
      * intros v. rewrite H4. rewrite !fmap_cons, !elem_of_cons. unfold compose. cbn [hash c'].
        rewrite Heq. tauto.
      * intros v. rewrite H5, !total_cons. cbn [hash count c']. rewrite <- Heq.
        case_decide; [|done]. rewrite u32_add_l. f_equal. lia.
  - destruct (IH p) as (H1 & H2 & H3 & H4 & H5); [done|done|].
    unfold hash_le in Hcp. assert (Forall (fun q => hval (hash c) < hval (hash q)) (collapse p l)) as Hlt.
    { eapply Forall_impl; [exact H3|]. simpl. lia. }
    split; [by constructor|]. split; [by constructor|].
    split. { constructor; [lia|]. eapply Forall_impl; [exact Hlt|]. simpl. lia. }
    split.
    + intros v. rewrite fmap_cons, elem_of_cons, H4. rewrite (fmap_cons _ c), elem_of_cons. tauto.
    + intros v. rewrite total_cons, H5, (total_cons v c). destruct Hc as [[_ Hcr] _].
      case_decide as Hcv; [|done].
      rewrite (total_absent v (p :: l)), Z.add_0_r by
        (subst v; constructor; [lia|]; apply StronglySorted_inv in Hs as [_ Hpl];
         eapply Forall_impl; [exact Hpl|]; unfold hash_le; simpl; lia).
      rewrite u32_small; lia.
Qed.

(** ** Lemmas: one input *)

(** [mi] still has to hand out the records [l]. *)
Inductive emits (mi : MergerInput) : list PHC -> Prop :=
  | emits_more recs k z :
      in_valid mi = true -> Forall PHC_wf recs ->
      recs !! k = Some z -> phc mi = norm z ->
      at_pos (phc_file recs) (PHC_size * Z.of_nat (S k)) (in_f mi) ->
      forall y, last recs = Some y -> emits mi ((norm <$> drop k recs) ++ [norm y])
  | emits_last : in_valid mi = false -> emits mi [phc mi].

Lemma emits_head mi l : emits mi l -> exists l', l = phc mi :: l'.
Proof.
  intros [recs k z Hv Hwf Hk Hp Hat y Hy|Hv]; [|eauto]. rewrite (drop_S _ _ _ Hk). csimpl. rewrite Hp. eauto.
Qed.

Lemma norm_hash_wf z : PHC_wf z -> Hash_wf (hash (norm z)).
Proof. by intros [[? ?] _]. Qed.

Lemma read_into_norm q z : read_into (norm q) z = norm z.
Proof. done. Qed.

(** Reading on moves an input one record ahead; at the end of the file it keeps its record. *)
Lemma emits_read mi l :
  in_valid mi = true -> emits mi l ->
  exists l', l = phc mi :: l' /\ l' <> [] /\ emits (input_read mi) l' /\
    (in_valid (input_read mi) = false -> phc (input_read mi) = phc mi).
Proof.
  intros Hv [recs k z _ Hwf Hk Hp Hat y Hy|Hv']; [|congruence].
  pose proof Hwf as Hwf'. rewrite Forall_lookup in Hwf'. pose proof (Hwf' _ _ Hk) as Hz.
  rewrite (drop_S _ _ _ Hk). csimpl. rewrite Hp. eexists. split; [done|].
  split; [by destruct (norm <$> _)|]. unfold input_read. rewrite Hp.
  destruct (recs !! S k) as [z'|] eqn:Hk'.
  - rewrite (PHC_read_ok recs (S k) z') by eauto. rewrite read_into_norm. split; [|done].
    eapply (emits_more _ recs (S k) z'); done.
  - pose proof Hk' as Hge%lookup_ge_None. pose proof (lookup_lt_Some _ _ _ Hk).
    rewrite (PHC_read_eof recs (PHC_size * Z.of_nat (S k))) by
      (try done; try (unfold PHC_size; lia); by apply norm_hash_wf).
    rewrite (drop_ge recs) by lia. csimpl. split; [|done].
    assert (y = z) as ->.
    { rewrite last_lookup in Hy. replace (pred (length recs)) with k in Hy by lia. congruence. }
    apply (emits_last (MkInput (in_path mi) (norm z) false _)). done.
Qed.

Lemma input_open_emits path recs :
  Forall PHC_wf recs -> emits (input_open path (FileEntry (phc_file recs) true)) (emission recs).
Proof.
  intros Hwf. unfold input_open, fopen, emission. cbn [freadable fbytes]. unfold input_read. cbn [phc in_f].
  destruct recs as [|z recs].
  - rewrite (PHC_read_eof [] 0) by (done || apply open_stream_at). simpl.
    by apply (emits_last (MkInput path PHC_default false _)).
  - rewrite (PHC_read_ok (z :: recs) 0 z) by (done || (by apply open_stream_at) || (by apply Forall_cons in Hwf as [])).
    destruct (last (z :: recs)) as [y|] eqn:Hy; [|by apply last_None in Hy].
    by eapply (emits_more _ (z :: recs) 0 z).
Qed.

Lemma input_unreadable_emits path bytes :
  emits (input_open path (FileEntry bytes false)) (emission []).
Proof. by apply (emits_last (input_open path (FileEntry bytes false))). Qed.

(** ** Lemmas: the queue *)

Section queue.
Context {Q : Type} `{PQ : PriorityQueue MergerInput SmallestHashFirst Q}.
#[local] Set Default Proof Using "Type*".

(** A queue in order whose elements still have to hand out these records, each of them in
    order. *)
Record pending (q : Q) (ls : list (list PHC)) : Prop := {
  pd_heap : pq_heap q;
  pd_emits : exists mis, pq_elems q ≡ₚ mis /\ Forall2 emits mis ls;
  pd_ok : Forall (Forall rec_ok) ls;
  pd_sorted : Forall (StronglySorted hash_le) ls }.

Lemma pending_nil q ls : pending q ls -> pq_is_empty q = bool_decide (ls = []).
Proof.
  intros [_ (mis & Hperm & Hem) _ _]. unfold pq_is_empty. destruct (pq_top q) as [mi|] eqn:Ht.
  - destruct ls as [|l ls]; [|done]. inversion Hem; subst. symmetry in Hperm. apply Permutation_nil in Hperm.
    apply pq_top_none in Hperm. congruence.
  - apply pq_top_none in Ht. rewrite Ht in Hperm. apply Permutation_nil in Hperm. subst. by inversion Hem.
Qed.

Lemma emits_same_priority mi mi' :
  phc mi' = phc mi -> forall z, SmallestHashFirst z mi' = SmallestHashFirst z mi /\
    SmallestHashFirst mi' z = SmallestHashFirst mi z.
Proof. intros Hp z. unfold SmallestHashFirst. by rewrite Hp. Qed.

(** The list at the top: its head is minimal. *)
Lemma pending_top q ls mi :
  pending q ls -> pq_top q = Some mi ->
  exists l ls' mis', ls ≡ₚ (phc mi :: l) :: ls' /\ emits mi (phc mi :: l) /\
    pq_elems (pq_pop q) ≡ₚ mis' /\ Forall2 emits mis' ls' /\
    Forall (fun p => hash_le (phc mi) p) (concat ls).
Proof.
  intros [Hh (mis & Hperm & Hem) Hok Hs] Ht.
  pose proof (pq_pop_elems q mi Hh Ht) as Hpop. pose proof (pq_top_elem q mi Hh Ht) as Hmin.
  rewrite Hpop in Hperm.
  symmetry in Hperm. destruct (Permutation_Forall2 Hperm Hem) as (ls2 & Hls & Hem2).
  apply Forall2_cons_inv_l in Hem2 as (l0 & ls' & Hmi & Hrest & ->).
  destruct (emits_head _ _ Hmi) as (l & ->). exists l, ls', (pq_elems (pq_pop q)).
  split; [done|]. split; [done|]. split; [done|]. split; [done|].
  rewrite Hls in Hok, Hs |- *.
  assert (forall l1 mi1, emits mi1 l1 -> SmallestHashFirst mi mi1 = false -> Forall rec_ok l1 ->
    StronglySorted hash_le l1 -> rec_ok (phc mi) -> Forall (fun p => hash_le (phc mi) p) l1) as Hone.
  { clear. intros l1 mi1 (l' & ->)%emits_head Hf Hok Hs Hmi. apply Forall_cons in Hok as [Hok1 Hok].
    unfold SmallestHashFirst in Hf. rewrite Hash_gtb_spec in Hf by (apply Hmi || apply Hok1).
    apply Z.ltb_ge in Hf. apply StronglySorted_inv in Hs as [_ Hs]. constructor; [exact Hf|].
    eapply Forall_impl; [exact Hs|]. unfold hash_le. simpl. lia. }
  assert (rec_ok (phc mi)) as Hmiok by (apply Forall_cons in Hok as [[? _]%Forall_cons _]; done).
  rewrite Hpop in Hmin. apply Forall_cons in Hmin as [Hmm Hmin].
  apply Forall_concat. apply Forall_cons in Hok as [Hok1 Hok], Hs as [Hs1 Hs].
  constructor; [by eapply Hone|].
  clear Hmi Hls Hpop Hperm Hem Hok1 Hs1. revert Hmin Hok Hs. induction Hrest as [|mi1 l1 mis1 ls1 H1 Hr IH];
    intros Hmin Hok Hs; [constructor|].
  apply Forall_cons in Hok as [Hok1 Hok], Hs as [Hs1 Hs], Hmin as [Hm1 Hmin].
  constructor; [by eapply Hone|]. by apply IH.
Qed.

(** One call of [next]. *)
Lemma merge_next_spec rm s ls :
  pending (ms_pq s) ls -> ls <> [] ->
  exists p l ls' s', ls ≡ₚ (p :: l) :: ls' /\ Forall (fun x => hash_le p x) (concat ls) /\
    pending (ms_pq s') (if decide (l = []) then ls' else l :: ls') /\
    ms_out s' = ms_out s /\ ms_entriesProcessed s' = ms_entriesProcessed s /\
    merge_next rm s = (if decide (l = [] /\ ls' = []) then PHC_default else p, s').
Proof.
  intros Hp Hne. unfold merge_next. destruct (pq_top (ms_pq s)) as [mi|] eqn:Ht.
  2: { pose proof (pending_nil _ _ Hp) as Hn. unfold pq_is_empty in Hn. rewrite Ht in Hn.
       by rewrite bool_decide_false in Hn. }
  destruct (pending_top _ _ _ Hp Ht) as (l & ls' & mis' & Hls & Hem & Hpop & Hrest & Hmin).
  pose proof Hp as [Hh _ Hok Hs]. rewrite Hls in Hok, Hs.
  pose proof Hok as [Hok1 Hok']%Forall_cons. apply Forall_cons in Hok1 as [_ Hok1].
  pose proof Hs as [Hs1 Hs']%Forall_cons. apply StronglySorted_inv in Hs1 as [Hs1 _].
  exists (phc mi), l, ls'. destruct (in_valid mi) eqn:Hv.
  - destruct (emits_read mi _ Hv Hem) as (l' & Heq & Hne' & Hem' & Hsame). injection Heq as <-.
    eexists. split; [done|]. split; [done|]. rewrite !decide_False by naive_solver.
    refine (conj _ (conj _ (conj _ eq_refl))); [|done|done]. cbn [ms_pq].
    destruct (in_valid (input_read mi)) eqn:Hv'.
    + rewrite (pq_set_top_pop _ mi) by done. split; try by constructor.
      * apply pq_push_heap, pq_pop_heap, Hh.
      * exists (input_read mi :: mis'). split; [|by constructor].
        rewrite pq_push_elems by by apply pq_pop_heap. by rewrite Hpop.
    + destruct (pq_set_top_heap (ms_pq s) mi (input_read mi) Hh Ht) as [Hh' Hel].
      { by apply emits_same_priority, Hsame. }
      split; [done| |by constructor|by constructor]. exists (input_read mi :: mis').
      split; [by rewrite Hel, Hpop|by constructor].
  - inversion Hem as [recs k z Hvalid|]; subst; [congruence|].
    eexists. split; [done|]. split; [done|]. rewrite decide_True by done.
    assert (pending (pq_pop (ms_pq s)) ls') as Hp'.
    { split; [by apply pq_pop_heap|by exists mis'|done|done]. }
    rewrite (pending_nil _ _ Hp'). destruct ls' as [|l1 ls'].
    + rewrite decide_True by done. by refine (conj _ (conj _ (conj _ eq_refl))).
    + rewrite decide_False by naive_solver. by refine (conj _ (conj _ (conj _ eq_refl))).
Qed.

(** The lists one record further on. *)
Definition advance (l : list PHC) (ls' : list (list PHC)) : list (list PHC) :=
  if decide (l = []) then ls' else l :: ls'.

Lemma concat_advance l ls' : concat (advance l ls') = l ++ concat ls'.
Proof. unfold advance. case_decide; [by subst|done]. Qed.

Lemma concat_perm (ls ks : list (list PHC)) : ls ≡ₚ ks -> concat ls ≡ₚ concat ks.
Proof.
  induction 1 as [|l ls ks _ IH|l k ls|ls ks js _ IH1 _ IH2]; simpl; [done| | |by rewrite IH1].
  - by apply Permutation_app_head.
  - rewrite !app_assoc. apply Permutation_app_tail, Permutation_app_comm.
Qed.

Lemma pending_nonempty q ls : pending q ls -> Forall (fun l => l <> []) ls.
Proof.
  intros [_ (mis & _ & Hem) _ _]. induction Hem as [|mi l mis ls H _ IH]; constructor; [|done].
  destruct (emits_head _ _ H) as (l' & ->). done.
Qed.

(** One record in front of the others: [seq] are the records in order, [z] the one left out. *)
Definition in_order (ls : list (list PHC)) (seq : list PHC) (z : PHC) : Prop :=
  seq ++ [z] ≡ₚ concat ls /\ StronglySorted hash_le seq /\ exists l, l ∈ ls /\ last l = Some z.

Lemma in_order_cons p l ls' ls seq z : ls ≡ₚ (p :: l) :: ls' -> Forall (fun x => hash_le p x) (concat ls) ->
  in_order (advance l ls') seq z -> in_order ls (p :: seq) z.
Proof.
  intros Hls Hmin (Hseq & Hs & l1 & Hl1 & Hz). pose proof (concat_perm _ _ Hls) as Hcp. simpl in Hcp.
  rewrite <- concat_advance, <- Hseq in Hcp. split; [by rewrite Hcp|]. split.
  - constructor; [done|]. rewrite Hcp in Hmin. apply Forall_cons in Hmin as [_ Hmin]. by apply Forall_app in Hmin as [? _].
  - setoid_rewrite Hls. unfold advance in Hl1. case_decide as Hl; [exists l1; split; [by right|done]|].
    apply elem_of_cons in Hl1 as [->|Hl1]; [|exists l1; split; [by right|done]].
    exists (p :: l). split; [left|]. by destruct l.
Qed.

(** The loop: it collapses the records in order, all of them but one: the record the queue
    hands out when it becomes empty, the last one of some input. *)
Lemma merge_loop_spec fuel rm progressed k upd ls current s :
  (forall n, progress progressed n = Ok tt) ->
  pending (ms_pq s) ls -> ls <> [] -> (length (concat ls) <= fuel)%nat ->
  exists seq z s',
    merge_loop fuel rm progressed (fun _ => false) upd k current s = Ok s' /\
    ms_out s' = ms_out s ++ phc_file (collapse current seq) /\ in_order ls seq z.
Proof.
  intros Hprog. revert k ls current s.
  induction fuel as [|fuel IH]; intros k ls current s Hp Hne Hfuel.
  { pose proof (pending_nonempty _ _ Hp) as Hnn. destruct ls as [|[|] ls]; [done| |simpl in Hfuel; lia].
    by apply Forall_cons in Hnn as []. }
  cbn [merge_loop]. destruct (merge_next_spec rm s ls Hp Hne) as (p & l & ls' & s1 & Hls & Hmin & Hp1 & Ho & _ & ->).
  fold (advance l ls') in Hp1. rewrite (pending_nil _ _ Hp1).
  pose proof (concat_perm _ _ Hls) as Hcp. simpl in Hcp. rewrite <- concat_advance in Hcp.
  destruct (decide (advance l ls' = [])) as [Hend|Hmore].
  - rewrite Hend, bool_decide_true by done. cbn [negb].
    assert (l = [] /\ ls' = []) as [-> ->] by (unfold advance in Hend; case_decide; [done|discriminate]).
    exists [], p. eexists. split; [done|]. cbn [ms_out merge_dump]. rewrite Ho. split; [|split; [|split; [constructor|]]].
    + change (phc_file (collapse current [])) with (dump current ++ []). by rewrite app_nil_r.
    + rewrite Hcp. done.
    + exists [p]. split; [|done]. rewrite Hls. left.
  - rewrite bool_decide_false by done. cbn [negb].
    assert ((if ms_entriesProcessed s1 mod upd =? 0 then progress progressed (ms_entriesProcessed s1) else Ok tt) = Ok tt) as ->
      by (destruct (_ =? _); auto).
    change (mbind ?f (Ok ?a)) with (f a). cbv beta.
    assert (~ (l = [] /\ ls' = [])) as Hnot by (intros [-> ->]; done).
    rewrite decide_False by done.
    set (s2 := MkMerge (ms_pq s1) (ms_out s1) (u64 (ms_entriesProcessed s1 + 1)) (ms_removed s1) (ms_deleted s1)).
    assert (length (concat (advance l ls')) <= fuel)%nat as Hf.
    { apply Permutation_length in Hcp. simpl in Hcp. lia. }
    destruct (Hash_eqb (hash current) (hash p)) eqn:Heq.
    + destruct (IH (S k) _ (MkPHC (hash current) (u32 (count current + count p))) s2 Hp1 Hmore Hf)
        as (seq & z & s' & -> & Hout & Hz).
      exists (p :: seq), z, s'. split; [done|]. split; [|by eapply in_order_cons].
      rewrite Hout. cbn [collapse s2 ms_out]. by rewrite Heq, Ho.
    + destruct (IH (S k) _ p (merge_dump current s2) Hp1 Hmore Hf) as (seq & z & s' & -> & Hout & Hz).
      exists (p :: seq), z, s'. split; [done|]. split; [|by eapply in_order_cons]. rewrite Hout. cbn [collapse s2 ms_out merge_dump]. rewrite Heq, Ho.
      unfold phc_file. csimpl. by rewrite <- app_assoc.
Qed.

Lemma merge_next_out rm s p s' : merge_next rm s = (p, s') -> ms_out s = ms_out s'.
Proof.
  unfold merge_next. intros Hn. destruct (pq_top _) as [mi|]; [|by simplify_eq].
  destruct (in_valid mi); [by simplify_eq|]. by destruct (pq_is_empty _); simplify_eq.
Qed.

(** The loop only appends whole records. *)
Lemma merge_loop_appends cancelled fuel rm progressed upd k current s s' :
  merge_loop fuel rm progressed cancelled upd k current s = Ok s' -> exists d, ms_out s' = ms_out s ++ phc_file d.
Proof.
  revert k current s. induction fuel as [|fuel IH]; intros k current s Hr; [done|]. cbn [merge_loop] in Hr.
  destruct (cancelled k); [injection Hr as <-; exists []; by rewrite app_nil_r|].
  destruct (merge_next rm s) as [p s2] eqn:Hn. apply merge_next_out in Hn as ->.
  destruct (negb _); [|injection Hr as <-; exists [current]; cbn; by rewrite app_nil_r].
  apply bind_Ok in Hr as (_ & _ & Hr). destruct (Hash_eqb _ _).
  - by apply IH in Hr as (d & ->); exists d.
  - apply IH in Hr as (d & ->). exists (current :: d). cbn. by rewrite <- app_assoc.
Qed.

(** A loop that is cancelled has written the first records of what it writes otherwise. *)
Lemma merge_loop_cancel cancelled fuel rm progressed upd k current s s' :
  merge_loop fuel rm progressed (fun _ => false) upd k current s = Ok s' ->
  exists s1 d d', merge_loop fuel rm progressed cancelled upd k current s = Ok s1 /\
    ms_out s1 = ms_out s ++ phc_file d /\ ms_out s' = ms_out s1 ++ phc_file d'.
Proof.
  revert k current s. induction fuel as [|fuel IH]; intros k current s Hr; [done|].
  pose proof (merge_loop_appends _ _ _ _ _ _ _ _ _ Hr) as (d0 & Hd0). cbn [merge_loop] in *.
  destruct (cancelled k); [exists s, [], d0; by rewrite app_nil_r|].
  destruct (merge_next rm s) as [p s2] eqn:Hn. apply merge_next_out in Hn as ->.
  destruct (negb _); [|injection Hr as <-; exists (merge_dump current s2), [current], []; cbn; by rewrite !app_nil_r].
  apply bind_Ok in Hr as ([] & -> & Hr). change (mbind ?f (Ok ?a)) with (f a). cbv beta. destruct (Hash_eqb _ _).
  - by apply IH in Hr as (s1 & d & d' & ? & ? & ?); exists s1, d, d'.
  - apply IH in Hr as (s1 & d & d' & ? & Ho & ?). exists s1, (current :: d), d'. cbn in *. by rewrite <- app_assoc in Ho.
Qed.
End queue.

#[export] Instance merger_queue : PriorityQueue MergerInput SmallestHashFirst (list MergerInput).
Proof.
  apply list_queue; unfold SmallestHashFirst, Hash_gtb; intros; bool_cases; done || lia.
Defined.

(** ** Lemmas: from the inputs to the queue *)

Definition src_of (e : list byte * list PHC) : list byte * file_entry :=
  (fst e, FileEntry (phc_file (snd e)) true).

Lemma norm_ok p : PHC_wf p -> rec_ok (norm p).
Proof. by intros [[? ?] ?]. Qed.

Lemma emission_ok recs : Forall PHC_wf recs -> Forall rec_ok (emission recs).
Proof.
  intros Hwf. unfold emission. destruct (last recs) as [z|] eqn:Hz; [|by repeat constructor].
  assert (PHC_wf z) as Hzw by (rewrite Forall_forall in Hwf; by apply Hwf, last_Some_elem_of).
  apply Forall_app. split; [|constructor; [by apply norm_ok|constructor]].
  apply Forall_fmap. eapply Forall_impl; [exact Hwf|]. apply norm_ok.
Qed.

Lemma emission_sorted recs : StronglySorted hash_lt recs -> StronglySorted hash_le (emission recs).
Proof.
  intros Hs. unfold emission. destruct (last recs) as [z|] eqn:Hz; [|by repeat constructor].
  apply last_Some in Hz as (l & ->). rewrite fmap_app, <- app_assoc. simpl.
  induction l as [|x l IH]; simpl in Hs |- *.
  - repeat constructor; unfold hash_le; lia.
  - apply StronglySorted_inv in Hs as [Hs Hx]. csimpl. constructor; [by apply IH|].
    apply Forall_app in Hx as [Hx [Hxz _]%Forall_cons].
    assert (hash_le (norm x) (norm z)) by (unfold hash_lt, hash_le in *; change (hval (hash (norm ?p))) with (hval (hash p)); lia).
    apply Forall_app. split; [|by repeat constructor].
    apply Forall_fmap. eapply Forall_impl; [exact Hx|]. unfold hash_lt, hash_le, compose.
    intros y Hy. change (hval (hash (norm ?p))) with (hval (hash p)). lia.
Qed.

Section inputs.
Context {Q : Type} `{PQ : PriorityQueue MergerInput SmallestHashFirst Q}.
#[local] Set Default Proof Using "Type*".

Lemma merge_init_pending inputs :
  Forall (fun e => Forall PHC_wf (snd e) /\ StronglySorted hash_lt (snd e)) inputs ->
  exists ls, pending (ms_pq (fst (merge_init (Q := Q) (src_of <$> inputs)))) ls /\
    ls ≡ₚ (fun e => emission (snd e)) <$> inputs.
Proof.
  intros Hin. unfold merge_init.
  assert (forall inputs q sum ls,
    Forall (fun e => Forall PHC_wf (snd e) /\ StronglySorted hash_lt (snd e)) inputs -> pending q ls ->
    exists ls' sum', pending (fst (foldl (fun '(q, sum) '(path, file) =>
      (pq_push (input_open path file) q, u64 (sum + Z.of_nat (length (fbytes file))))) (q, sum) (src_of <$> inputs))) ls' /\
    ls' ≡ₚ ((fun e => emission (snd e)) <$> inputs) ++ ls /\
    snd (foldl (fun '(q, sum) '(path, file) =>
      (pq_push (input_open path file) q, u64 (sum + Z.of_nat (length (fbytes file))))) (q, sum) (src_of <$> inputs)) = sum') as Hgen.
  { clear. induction inputs as [|[path recs] inputs IH]; intros q sum ls Hin Hp; csimpl; [by exists ls, sum|].
    apply Forall_cons in Hin as [[Hwf Hs] Hin]. simpl in Hwf, Hs.
    destruct (IH (pq_push (input_open path (FileEntry (phc_file recs) true)) q)
      (u64 (sum + Z.of_nat (length (phc_file recs)))) (emission recs :: ls)) as (ls' & sum' & H1 & H2 & H3); [done| |].
    - destruct Hp as [Hh (mis & Hperm & Hem) Hok Hso]. split.
      + by apply pq_push_heap.
      + exists (input_open path (FileEntry (phc_file recs) true) :: mis). split; [|constructor; [by apply input_open_emits|done]].
        rewrite pq_push_elems by done. by rewrite Hperm.
      + constructor; [by apply emission_ok|done].
      + constructor; [by apply emission_sorted|done].
    - exists ls', sum'. split; [exact H1|]. split; [|exact H3]. rewrite H2. by rewrite Permutation_middle. }
  destruct (Hgen inputs pq_empty 0 [] Hin) as (ls' & sum' & H1 & H2 & _).
  { split; [apply pq_heap_empty| |constructor|constructor]. exists []. by rewrite pq_elems_empty. }
  exists ls'. destruct (foldl _ _ _) as [q sum]. split; [exact H1|]. by rewrite app_nil_r in H2.
Qed.
End inputs.

(** ** Lemmas: a whole merge *)

(** The records of all inputs, and the records handed out twice: the last of every input. *)
Definition all_records (inputs : list (list byte * list PHC)) : list PHC := concat (snd <$> inputs).
Definition last_records (inputs : list (list byte * list PHC)) : list PHC := omap (fun e => last (snd e)) inputs.

Definition good_input (e : list byte * list PHC) : Prop :=
  Forall PHC_wf (snd e) /\ StronglySorted hash_lt (snd e) /\ snd e <> [].

(** Reads of the queue a merge takes: one per record and one more per input. *)
Definition merge_fuel (inputs : list (list byte * list PHC)) : nat :=
  length (all_records inputs) + length inputs.

Lemma emission_nonempty recs z :
  last recs = Some z -> emission recs = (norm <$> recs) ++ [norm z].
Proof. intros Hz. unfold emission. by rewrite Hz. Qed.

Lemma emissions_perm inputs :
  Forall good_input inputs ->
  concat ((fun e => emission (snd e)) <$> inputs) ≡ₚ norm <$> all_records inputs ++ last_records inputs.
Proof.
  induction 1 as [|e inputs (_ & _ & Hne) _ IH]; [done|]. unfold all_records, last_records in *. csimpl.
  destruct (last (snd e)) as [z|] eqn:Hz; [|by apply last_None in Hz].
  rewrite (emission_nonempty _ _ Hz), IH. rewrite !fmap_app. csimpl.
  rewrite <- !app_assoc. apply Permutation_app_head. simpl. by rewrite Permutation_middle.
Qed.

Lemma total_norm v l : total v (norm <$> l) = total v l.
Proof.
  induction l as [|p l IH]; [done|]. csimpl. rewrite !total_cons, IH. done.
Qed.

Lemma last_records_in inputs x : x ∈ last_records inputs -> x ∈ all_records inputs.
Proof.
  unfold last_records, all_records. rewrite list_elem_of_omap. intros (e & He & Hx).
  apply list_elem_of_In, in_concat. exists (snd e). split; apply list_elem_of_In.
  - apply list_elem_of_fmap. by exists e.
  - by apply last_Some_elem_of.
Qed.

Lemma last_records_length inputs : (length (last_records inputs) <= length inputs)%nat.
Proof. unfold last_records. induction inputs as [|e inputs IH]; csimpl; [done|]. destruct (last _); simpl; lia. Qed.

(** Whatever is handed out is a record of the inputs. *)
Lemma emissions_in inputs p : Forall good_input inputs ->
  p ∈ concat ((fun e => emission (snd e)) <$> inputs) -> p ∈ norm <$> all_records inputs.
Proof.
  intros Hin. rewrite (emissions_perm _ Hin). intros (x & -> & Hx)%list_elem_of_fmap. apply list_elem_of_fmap.
  exists x. split; [done|]. apply elem_of_app in Hx as [|Hx%last_records_in]; done.
Qed.

Section whole.
Context {Q : Type} `{PQ : PriorityQueue MergerInput SmallestHashFirst Q}.
#[local] Set Default Proof Using "Type*".

Lemma merge_execute_spec fuel rm progressed inputs :
  (merge_fuel inputs <= fuel)%nat ->
  (forall n, progress progressed n = Ok tt) -> inputs <> [] -> Forall good_input inputs ->
  exists s' first seq again z,
    merge_execute (Q := Q) fuel rm progressed (fun _ => false) true (src_of <$> inputs) = Ok (Some s') /\
    ms_out s' = phc_file (collapse first seq) /\
    Forall rec_ok (first :: seq) /\ StronglySorted hash_le (first :: seq) /\
    first ∈ norm <$> all_records inputs /\ again ++ [z] ≡ₚ last_records inputs /\
    seq ≡ₚ norm <$> all_records inputs ++ again.
Proof.
  intros Hfuel Hprog Hne Hin.
  destruct (merge_init_pending (Q := Q) inputs) as (ls & Hp & Hls).
  { eapply Forall_impl; [exact Hin|]. by intros e (? & ? & _). }
  pose proof (emissions_perm _ Hin) as Hem. rewrite <- (concat_perm _ _ Hls) in Hem.
  assert (ls <> []) as Hlsne.
  { intros ->. apply Permutation_nil in Hls. by apply fmap_nil_inv in Hls. }
  assert (ms_out (fst (merge_init (Q := Q) (src_of <$> inputs))) = []) as Hempty.
  { unfold merge_init. by destruct (foldl _ _ _). }
  unfold merge_execute. destruct (merge_init (src_of <$> inputs)) as [s tot]. cbn [fst] in Hp, Hempty.
  destruct (pq_top (ms_pq s)) as [mi|] eqn:Ht.
  2: { pose proof (pending_nil _ _ Hp) as Hn. unfold pq_is_empty in Hn. rewrite Ht in Hn.
       by rewrite bool_decide_false in Hn. }
  cbn [negb].
  destruct (pending_top _ _ _ Hp Ht) as (l & ls' & _ & Hl & _ & _ & _ & Hmin).
  assert (Forall rec_ok (concat ls)) as Hok by (apply Forall_concat, Hp).
  assert (rec_ok (phc mi)) as Hfirst.
  { destruct Hp as [_ _ Hpo _]. rewrite Hl in Hpo. by apply Forall_cons in Hpo as [[? _]%Forall_cons _]. }
  destruct (merge_loop_spec fuel rm progressed 1 (Z.max (tot / 1000) 1) ls (phc mi) s Hprog Hp Hlsne)
    as (seq & z & s' & -> & Hout & Hseq & Hs & l1 & Hl1 & Hz).
  { apply Permutation_length in Hem. rewrite Hem, length_fmap, length_app. unfold merge_fuel in Hfuel.
    pose proof (last_records_length inputs). lia. }
  change (mbind ?f (Ok ?a)) with (f a). cbv beta. rewrite Hprog.
  change (mbind ?f (Ok ?a)) with (f a). cbv beta.
  rewrite Hls in Hl1. apply list_elem_of_fmap in Hl1 as (e & -> & He).
  pose proof Hin as Hin'. rewrite Forall_forall in Hin'. destruct (Hin' e He) as (_ & _ & Hne').
  destruct (last (snd e)) as [y|] eqn:Hy; [|by apply last_None in Hy].
  rewrite (emission_nonempty _ _ Hy), last_snoc in Hz. injection Hz as <-.
  assert (y ∈ last_records inputs) as Hylast by (apply list_elem_of_omap; by exists e).
  apply elem_of_Permutation in Hylast as (again & Hagain).
  exists s', (phc mi), seq, again, y. split; [done|].
  split; [by rewrite Hout, Hempty|].
  assert (Forall rec_ok seq) as Hoks.
  { rewrite <- Hseq in Hok. by apply Forall_app in Hok as [? _]. }
  split; [by constructor|]. split.
  { constructor; [done|]. rewrite <- Hseq in Hmin. by apply Forall_app in Hmin as [? _]. }
  split; [|split].
  2: { rewrite Hagain. by rewrite Permutation_app_comm. }
  2: { apply (Permutation_app_inv_r [norm y]). rewrite Hseq, Hem, Hagain.
       rewrite !fmap_app, <- app_assoc, fmap_cons. apply Permutation_app_head.
       by rewrite Permutation_app_comm. }
  apply emissions_in; [done|]. rewrite <- (concat_perm _ _ Hls), (concat_perm _ _ Hl). left.
Qed.
(** The records merged: every hash of the inputs once, with the counts of all its records, of
    the first record of all and of the last records of all inputs but one. *)
Definition merged (inputs : list (list byte * list PHC)) (out : list PHC) : Prop :=
  StronglySorted hash_lt out /\ Forall PHC_wf out /\
  (forall v, v ∈ hval ∘ hash <$> out <-> v ∈ hval ∘ hash <$> all_records inputs) /\
  exists first again z, first ∈ all_records inputs /\
    Forall (fun p => hval (hash first) <= hval (hash p)) (all_records inputs) /\
    again ++ [z] ≡ₚ last_records inputs /\
    forall v, count_of out v = u32 (count_of (all_records inputs) v + count_of (first :: again) v).

Lemma merge_merged fuel rm progressed inputs :
  (merge_fuel inputs <= fuel)%nat ->
  (forall n, progress progressed n = Ok tt) -> inputs <> [] -> Forall good_input inputs ->
  exists s' out,
    merge_execute (Q := Q) fuel rm progressed (fun _ => false) true (src_of <$> inputs) = Ok (Some s') /\
    ms_out s' = phc_file out /\ merged inputs out.
Proof.
  intros Hfuel Hprog Hne Hin.
  destruct (merge_execute_spec fuel rm progressed inputs Hfuel Hprog Hne Hin)
    as (s' & first & seq & again & z & Hex & Hout & Hok & Hs & Hfirst & Hagain & Hperm).
  destruct (collapse_spec seq first Hok Hs) as (H1 & H2 & _ & H4 & H5).
  exists s', (collapse first seq). split; [done|]. split; [done|]. split; [done|].
  split; [eapply Forall_impl; [exact H1|]; by intros p [? _]|]. split.
  - intros v. rewrite H4. rewrite (list_elem_of_fmap _ (all_records inputs)), list_elem_of_fmap. split.
    + intros (p & -> & Hp). assert (p ∈ norm <$> all_records inputs) as Hp'.
      { apply elem_of_cons in Hp as [->|Hp]; [done|]. rewrite Hperm in Hp.
        apply list_elem_of_fmap in Hp as (x & -> & Hx). apply list_elem_of_fmap. exists x. split; [done|].
        apply elem_of_app in Hx as [|Hx]; [done|]. apply last_records_in. rewrite <- Hagain.
        apply elem_of_app. by left. }
      apply list_elem_of_fmap in Hp' as (x & -> & Hx). by exists x.
    + intros (x & -> & Hx). exists (norm x). split; [done|]. right. rewrite Hperm.
      apply list_elem_of_fmap. exists x. split; [done|]. apply elem_of_app. by left.
  - apply list_elem_of_fmap in Hfirst as (x & -> & Hx). exists x, again, z. split; [done|]. split; [|split; [done|]].
    + apply StronglySorted_inv in Hs as [_ Hs]. rewrite Hperm in Hs.
      apply Forall_fmap, Forall_app in Hs as [Hs _]. eapply Forall_impl; [exact Hs|]. done.
    + intros v. change (count_of ?l v) with (total v l). rewrite H5, total_cons, (total_perm v _ _ Hperm), total_norm.
      rewrite total_app, total_cons. f_equal. change (hval (hash (norm x))) with (hval (hash x)).
      change (count (norm x)) with (count x). lia.
Qed.

Lemma total_nonneg v l : Forall PHC_wf l -> 0 <= total v l.
Proof.
  induction 1 as [|p l [_ Hp] _ IH]; [done|]. rewrite total_cons. case_decide; lia.
Qed.

Lemma last_records_total v inputs : Forall good_input inputs -> 0 <= total v (last_records inputs) <= total v (all_records inputs).
Proof.
  unfold last_records, all_records. induction 1 as [|e inputs (Hwf & _ & Hne) _ IH]; [done|]. csimpl. rewrite total_app.
  destruct (last (snd e)) as [z|] eqn:Hz; [|by apply last_None in Hz].
  rewrite total_cons. apply last_Some in Hz as [l Hl]. rewrite Hl in Hwf |- *. rewrite total_app, total_cons.
  change (total v []) with 0. apply Forall_app in Hwf as [Hwf [[_ Hc] _]%Forall_cons]. pose proof (total_nonneg v l Hwf).
  case_decide; lia.
Qed.

(** Counts only grow, at most threefold, and not at all for a hash that is neither the
    smallest of all nor the last one of an input. *)
Lemma merged_counts inputs out v : Forall good_input inputs -> merged inputs out ->
  3 * count_of (all_records inputs) v < 2 ^ 32 ->
  count_of (all_records inputs) v <= count_of out v <= 3 * count_of (all_records inputs) v /\
  (v ∉ hval ∘ hash <$> last_records inputs -> Exists (fun p => hval (hash p) < v) (all_records inputs) ->
    count_of out v = count_of (all_records inputs) v).
Proof.
  change (count_of ?l v) with (total v l). intros Hin (_ & _ & _ & first & again & z & Hf & Hmin & Hagain & Hc) Hb.
  specialize (Hc v). change (count_of ?l v) with (total v l) in Hc. rewrite Hc. clear Hc.
  pose proof (last_records_total v inputs Hin) as Hl. rewrite <- (total_perm v _ _ Hagain), total_app in Hl.
  assert (Forall PHC_wf (all_records inputs)) as Hwf.
  { unfold all_records. clear - Hin. induction Hin as [|e inputs (Hwf & _) _ IH]; [constructor|]. csimpl. by apply Forall_app. }
  assert (Forall PHC_wf (again ++ [z])) as Hwa.
  { rewrite Hagain. rewrite Forall_forall in Hwf |- *. intros p Hp. by apply Hwf, last_records_in. }
  apply Forall_app in Hwa as [Hwa Hwz]. pose proof (total_nonneg v again Hwa). pose proof (total_nonneg v [z] Hwz).
  assert (0 <= total v [first] <= total v (all_records inputs)) as H1.
  { apply list_elem_of_split in Hf as (l1 & l2 & Hs). rewrite Hs in Hwf |- *. rewrite Forall_app, Forall_cons in Hwf. destruct Hwf as (Hw1 & [_ Hf] & Hw2).
    pose proof (total_nonneg v l1 Hw1). pose proof (total_nonneg v l2 Hw2).
    rewrite total_app, !total_cons. change (total v []) with 0. case_decide; lia. }
  change (first :: again) with ([first] ++ again). rewrite total_app. rewrite u32_small by lia. split; [lia|].
  intros Hlast Hex. apply Exists_exists in Hex as (p & Hp & Hlt). rewrite Forall_forall in Hmin. specialize (Hmin p Hp).
  assert (total v [first] = 0) as -> by (apply total_absent; constructor; [lia|constructor]).
  assert (total v again = 0) as ->; [|lia]. apply total_absent, Forall_forall. intros q Hq Heq. apply Hlast.
  apply list_elem_of_fmap. exists q. split; [by rewrite <- Heq|]. rewrite <- Hagain. apply elem_of_app. by left.
Qed.

(** A merge of sorted files, empty ones too, writes a sorted file. *)
Lemma merge_loop_sorted fuel rm k inputs upd :
  (merge_fuel inputs <= fuel)%nat -> inputs <> [] ->
  Forall (fun e => Forall PHC_wf (snd e) /\ StronglySorted hash_lt (snd e)) inputs ->
  let s := fst (merge_init (Q := Q) (src_of <$> inputs)) in
  exists top s' out, pq_top (ms_pq s) = Some top /\ ms_out s = [] /\
    merge_loop fuel rm None (fun _ => false) upd k (phc top) s = Ok s' /\
    ms_out s' = phc_file out /\ StronglySorted hash_lt out /\ Forall PHC_wf out.
Proof.
  intros Hfuel Hne Hin. cbv zeta. destruct (merge_init_pending (Q := Q) inputs Hin) as (ls & Hp & Hls).
  assert (ls <> []) as Hlsne by (intros ->; apply Permutation_nil in Hls; by apply fmap_nil_inv in Hls).
  assert (ms_out (fst (merge_init (Q := Q) (src_of <$> inputs))) = []) as Hempty by (unfold merge_init; by destruct (foldl _ _ _)).
  destruct (merge_init (src_of <$> inputs)) as [s tot]. cbn [fst] in *.
  destruct (pq_top (ms_pq s)) as [top|] eqn:Ht.
  2: { pose proof (pending_nil _ _ Hp) as Hn. unfold pq_is_empty in Hn. rewrite Ht in Hn. by rewrite bool_decide_false in Hn. }
  destruct (pending_top _ _ _ Hp Ht) as (l & ls' & _ & Hl & _ & _ & _ & Hmin).
  assert (Forall rec_ok (concat ls)) as Hok by (apply Forall_concat, Hp).
  assert (rec_ok (phc top)) as Hfirst.
  { destruct Hp as [_ _ Hpo _]. rewrite Hl in Hpo. by apply Forall_cons in Hpo as [[? _]%Forall_cons _]. }
  assert (length (concat ls) <= fuel)%nat as Hf.
  { etransitivity; [|exact Hfuel]. rewrite (Permutation_length (concat_perm _ _ Hls)). unfold merge_fuel, all_records. clear.
    induction inputs as [|e inputs IH]; [done|]. csimpl. rewrite !length_app. unfold emission at 1.
    destruct (last (snd e)); [rewrite length_app, length_fmap|]; cbn [length] in *; lia. }
  destruct (merge_loop_spec fuel rm None k upd ls (phc top) s (fun _ => eq_refl) Hp Hlsne Hf) as (seq & z & s' & Hr & Ho & Hseq & Hs & _).
  exists top, s', (collapse (phc top) seq). rewrite Hempty in Ho. cbn [app] in Ho. do 4 (split; [done|]).
  rewrite <- Hseq in Hok, Hmin. apply Forall_app in Hok as [Hok _]. apply Forall_app in Hmin as [Hmin _].
  destruct (collapse_spec seq (phc top)) as (H1 & H2 & _); [by constructor|by constructor|]. split; [done|].
  eapply Forall_impl; [exact H1|]. by intros p [? _].
Qed.

(** A merge that is cancelled, when it has not begun or later. *)
Lemma merge_cancelled cancelled fuel rm progressed srcs s' out :
  (forall n, progress progressed n = Ok tt) ->
  merge_execute (Q := Q) fuel rm progressed (fun _ => false) true srcs = Ok (Some s') -> ms_out s' = phc_file out ->
  merge_execute (Q := Q) fuel rm progressed cancelled true srcs = Ok None \/
  exists s1 m, merge_execute (Q := Q) fuel rm progressed cancelled true srcs = Ok (Some s1) /\
    ms_out s1 = phc_file (take m out).
Proof.
  intros Hprog Hr Hout. unfold merge_execute in *.
  assert (ms_out (fst (merge_init (Q := Q) srcs)) = []) as Hempty by (unfold merge_init; by destruct (foldl _ _ _)).
  destruct (merge_init srcs) as [s tot]. cbn [fst] in Hempty. destruct (cancelled 0%nat); [by left|right].
  destruct (pq_top (ms_pq s)) as [top|]; [|done]. cbn [negb] in *. apply bind_Ok in Hr as (s2 & Hr & Hs2).
  rewrite Hprog in Hs2. injection Hs2 as ->.
  destruct (merge_loop_cancel cancelled _ _ _ _ _ _ _ _ Hr) as (s1 & d & d' & -> & Hd & Hd').
  exists s1, (length d). change (mbind ?f (Ok ?a)) with (f a). cbv beta. rewrite Hprog. split; [done|].
  rewrite Hempty in Hd. cbn [app] in Hd. rewrite Hd, Hout in Hd'. rewrite <- phc_file_take, Hd'.
  rewrite take_app_le, take_ge by (pose proof (length_phc_file d); lia). done.
Qed.
End whole.

(** ** Properties *)

Section properties.
Context {Q : Type} `{PQ : PriorityQueue MergerInput SmallestHashFirst Q}.
#[local] Set Default Proof Using "Type*".


(** C30: the counts of the output: for every hash the sum over the inputs, plus the count of
    the very first record once more, plus the count of the last record of every input but
    one once more, modulo [2 ^ 32]. *)
Theorem merge_counts rm progressed inputs :
  (forall n, progress progressed n = Ok tt) -> inputs <> [] -> Forall good_input inputs ->
  exists s' out first again z,
    merge_execute (Q := Q) (merge_fuel inputs) rm progressed (fun _ => false) true (src_of <$> inputs) = Ok (Some s') /\
    ms_out s' = phc_file out /\
    first ∈ all_records inputs /\ Forall (fun p => hval (hash first) <= hval (hash p)) (all_records inputs) /\
    again ++ [z] ≡ₚ last_records inputs /\
    forall v, count_of out v = u32 (count_of (all_records inputs) v + count_of (first :: again) v).
Proof.
  intros Hp Hne Hin. destruct (merge_merged (merge_fuel inputs) rm progressed inputs (le_n _) Hp Hne Hin)
    as (s' & out & ? & ? & _ & _ & _ & first & again & z & ?). by exists s', out, first, again, z.
Qed.
End properties.

(** ** Witnesses: two small files *)

Definition demo_inputs : list (list byte * list PHC) :=
  [(bs "a.md5", demo_recs); (bs "b.md5", [MkPHC (MkHash 1 0xaaaa false) 5; MkPHC (MkHash 4 4 false) 1])].

Lemma demo_inputs_good : Forall good_input demo_inputs.
Proof.
  apply Forall_cons. split; [|apply Forall_cons; split; [|constructor]].
  - split; [|split; [|discriminate]]; apply demo_lookup_file.
  - split; [|split; [|discriminate]].
    + repeat constructor; simpl; lia.
    + repeat constructor.
Qed.


(** Here the hash both files begin with is counted 7 + 5, and 7 once more. *)
Lemma merge_counts_witness :
  exists s' out first again z,
    merge_execute (Q := list MergerInput) 6 false None (fun _ => false) true (src_of <$> demo_inputs) = Ok (Some s') /\
    ms_out s' = phc_file out /\
    first ∈ all_records demo_inputs /\
    Forall (fun p => hval (hash first) <= hval (hash p)) (all_records demo_inputs) /\
    again ++ [z] ≡ₚ last_records demo_inputs /\
    forall v, count_of out v = u32 (count_of (all_records demo_inputs) v + count_of (first :: again) v).
Proof.
  apply (merge_counts (Q := list MergerInput) false None demo_inputs);
    [reflexivity|discriminate|apply demo_inputs_good].
Defined.
