(* ===== verification/MergeObjects.v ===== *)
(** * pwned-merger-cli: the objects of a merge

    A [MergeOperation] owns its inputs: the constructor makes a [MergerInput] for every file,
    [next] deletes the ones that are used up, and the destructor of [MergeOperationPrivate] the
    rest.  Here is the whole life of an operation as the queue runs it, and that every input is
    deleted once, however the merge ends. *)

From S2P Require Import Prelude Stream Util Hash Phc Inspector PriorityQueue Merge.
From stdpp Require Import options.

Section life.
Context {Q : Type} `{PQ : PriorityQueue MergerInput SmallestHashFirst Q}.

(** [~MergeOperationPrivate()]: the paths of the objects deleted. *)
Fixpoint destroy (fuel : nat) (q : Q) : outcome (list (list byte)) :=
  match pq_top q with
  | None => Ok []
  | Some mi =>
      match fuel with
      | O => OutOfFuel
      | S fuel => deleted ← destroy fuel (pq_pop q); Ok (in_path mi :: deleted)
      end
  end.

(** From the constructor to the destructor: all objects deleted, in order.  An operation that
    is cancelled before it begins, has nothing to do, or cannot write leaves its queue as the
    constructor made it (for a callback that does not throw). *)
Definition life (fuel : nat) (removeInputFiles : bool) (progressed : option (Z -> outcome unit))
    (cancelled : nat -> bool) (writable : bool) (srcFiles : list (list byte * file_entry)) : outcome (list (list byte)) :=
  match merge_execute (Q := Q) fuel removeInputFiles progressed cancelled writable srcFiles with
  | Ok (Some s) =>
      deleted ← destroy (length srcFiles) (ms_pq s);
      Ok (ms_deleted s ++ deleted)
  | Ok None | Throws _ => destroy (length srcFiles) (ms_pq (fst (merge_init (Q := Q) srcFiles)))
  | OutOfFuel => OutOfFuel
  | Undefined => Undefined
  end.

(** ** Lemmas *)
#[local] Set Default Proof Using "Type*".

(** The objects there are and those deleted. *)
Definition objects (s : MergeState Q) : list (list byte) := (in_path <$> pq_elems (ms_pq s)) ++ ms_deleted s.

Lemma destroy_all fuel q : pq_heap q -> (length (pq_elems q) <= fuel)%nat ->
  exists deleted, destroy fuel q = Ok deleted /\ deleted ≡ₚ in_path <$> pq_elems q.
Proof.
  revert q. induction fuel as [|fuel IH]; intros q Hh Hf; cbn [destroy]; destruct (pq_top q) as [mi|] eqn:Ht.
  2,4: apply pq_top_none in Ht; rewrite Ht; by exists [].
  all: pose proof (pq_pop_elems q mi Hh Ht) as Hel; rewrite Hel in Hf; simpl in Hf; [lia || idtac].
  destruct (IH (pq_pop q)) as (deleted & -> & Hd); [by apply pq_pop_heap|lia|].
  eexists. split; [done|]. rewrite Hel. csimpl. by rewrite Hd.
Qed.

Lemma input_read_path mi : in_path (input_read mi) = in_path mi.
Proof. unfold input_read. by destruct (PHC_read _ _) as [[? ?] ?]. Qed.

Lemma input_open_path p file : in_path (input_open p file) = p.
Proof. unfold input_open. destruct (fopen file) as [[] f]; [by rewrite input_read_path|done]. Qed.

(** [next] neither loses an object nor deletes one twice. *)
Lemma merge_next_objects rm s ls p s' : pending (ms_pq s) ls -> merge_next rm s = (p, s') -> objects s' ≡ₚ objects s.
Proof.
  intros Hp Hn. unfold merge_next in Hn. destruct (pq_top (ms_pq s)) as [mi|] eqn:Ht; [|by injection Hn as _ <-].
  destruct (pending_top _ _ _ Hp Ht) as (l & ls' & _ & _ & Hem & _). pose proof (pd_heap _ _ Hp) as Hh.
  pose proof (pq_pop_elems _ _ Hh Ht) as Hel. unfold objects. rewrite Hel. csimpl. destruct (in_valid mi) eqn:Hv.
  - destruct (emits_read mi _ Hv Hem) as (_ & _ & _ & _ & Hsame). injection Hn as _ <-. cbn [ms_pq ms_deleted].
    rewrite <- (input_read_path mi). destruct (in_valid (input_read mi)) eqn:Hv'.
    + rewrite (pq_set_top_pop _ mi), pq_push_elems by (done || by apply pq_pop_heap). done.
    + destruct (pq_set_top_heap (ms_pq s) mi (input_read mi) Hh Ht) as [_ ->]; [by apply emits_same_priority, Hsame|done].
  - assert (s' = MkMerge (pq_pop (ms_pq s)) (ms_out s) (ms_entriesProcessed s)
      (if rm then ms_removed s ++ [in_path mi] else ms_removed s) (ms_deleted s ++ [in_path mi])) as ->.
    { by destruct (pq_is_empty _); injection Hn as _ <-. }
    cbn [ms_pq ms_deleted]. by rewrite app_assoc, Permutation_app_comm.
Qed.

Lemma merge_loop_objects cancelled fuel rm progressed upd k current s s' ls :
  pending (ms_pq s) ls -> ls <> [] ->
  merge_loop fuel rm progressed cancelled upd k current s = Ok s' -> objects s' ≡ₚ objects s /\ pq_heap (ms_pq s').
Proof.
  revert k current s ls. induction fuel as [|fuel IH]; intros k current s ls Hp Hne Hr; [done|]. cbn [merge_loop] in Hr.
  destruct (cancelled k); [injection Hr as <-; split; [done|apply Hp]|].
  destruct (merge_next_spec rm s ls Hp Hne) as (p & l & ls' & s1 & _ & _ & Hp1 & _ & _ & Hn). rewrite Hn in Hr.
  rewrite <- (merge_next_objects _ _ _ _ _ Hp Hn). fold (advance l ls') in Hp1. rewrite (pending_nil _ _ Hp1) in Hr.
  case_bool_decide as Hend; cbn [negb] in Hr; [injection Hr as <-; split; [done|apply Hp1]|].
  apply bind_Ok in Hr as (_ & _ & Hr). destruct (Hash_eqb _ _); (eapply IH in Hr; [exact Hr|exact Hp1|exact Hend]).
Qed.

Lemma merge_init_objects inputs : Forall good_input inputs ->
  exists ls, pending (ms_pq (fst (merge_init (Q := Q) (src_of <$> inputs)))) ls /\ (inputs <> [] -> ls <> []) /\
    objects (fst (merge_init (src_of <$> inputs))) ≡ₚ fst <$> inputs /\
    ms_deleted (fst (merge_init (Q := Q) (src_of <$> inputs))) = [].
Proof.
  intros Hin. destruct (merge_init_pending (Q := Q) inputs) as (ls & Hp & Hls).
  { eapply Forall_impl; [exact Hin|]. by intros e (? & ? & _). }
  exists ls. split; [exact Hp|]. split.
  { intros Hne ->. apply Permutation_nil in Hls. by apply fmap_nil_inv in Hls. }
  clear Hp Hls. unfold objects, merge_init.
  assert (forall srcs (q : Q) sum, pq_heap q ->
    in_path <$> pq_elems (fst (foldl (fun '(q, sum) '(path, file) =>
      (pq_push (input_open path file) q, u64 (sum + Z.of_nat (length (fbytes file))))) (q, sum) srcs)) ≡ₚ
    srcs.*1 ++ (in_path <$> pq_elems q)) as Hgen.
  { induction srcs as [|[path file] srcs IH]; intros q sum Hh; csimpl; [done|].
    rewrite IH by by apply pq_push_heap. rewrite pq_push_elems by done. csimpl. rewrite input_open_path.
    by rewrite Permutation_middle. }
  specialize (Hgen (src_of <$> inputs) pq_empty 0 pq_heap_empty). rewrite pq_elems_empty, app_nil_r in Hgen.
  destruct (foldl _ _ _) as [q sum]. cbn [fst ms_pq ms_deleted] in *. split; [|done]. rewrite app_nil_r, Hgen.
  by rewrite <- list_fmap_compose.
Qed.

Lemma merge_execute_objects fuel rm progressed cancelled writable inputs s' : Forall good_input inputs ->
  merge_execute (Q := Q) fuel rm progressed cancelled writable (src_of <$> inputs) = Ok (Some s') ->
  objects s' ≡ₚ fst <$> inputs /\ pq_heap (ms_pq s').
Proof.
  intros Hin Hr. destruct (merge_init_objects inputs Hin) as (ls & Hp & Hls & Hobj & _). unfold merge_execute in Hr.
  destruct (merge_init (src_of <$> inputs)) as [s tot]. cbn [fst] in *. destruct (cancelled 0%nat); [done|].
  destruct (pq_top (ms_pq s)) as [top|] eqn:Ht; [|done]. destruct writable; [|done]. cbn [negb] in Hr.
  apply bind_Ok in Hr as (s1 & Hl & Hr). apply bind_Ok in Hr as (_ & _ & [= <-]).
  assert (ls <> []) as Hne.
  { intros ->. pose proof (pending_nil _ _ Hp) as Hn. unfold pq_is_empty in Hn. by rewrite Ht in Hn. }
  rewrite <- Hobj. by eapply merge_loop_objects.
Qed.

Lemma merge_execute_returns rm progressed cancelled writable inputs :
  (forall n, progress progressed n = Ok tt) -> Forall good_input inputs ->
  match merge_execute (Q := Q) (merge_fuel inputs) rm progressed cancelled writable (src_of <$> inputs) with
  | Ok _ | Throws _ => True | OutOfFuel | Undefined => False
  end.
Proof.
  intros Hprog Hin. destruct (decide (inputs = [])) as [->|Hne].
  { unfold merge_execute. cbn. destruct (cancelled 0%nat); [done|].
    by rewrite (proj2 (pq_top_none _) pq_elems_empty). }
  destruct writable.
  - destruct (merge_merged (Q := Q) (merge_fuel inputs) rm progressed inputs (le_n _) Hprog Hne Hin) as (s' & out & Hr & Ho & _).
    by destruct (merge_cancelled cancelled _ _ _ _ _ _ Hprog Hr Ho) as [->|(s1 & m & -> & _)].
  - unfold merge_execute. destruct (merge_init _) as [s tot]. destruct (cancelled 0%nat); [done|]. by destruct (pq_top _).
Qed.

Lemma destroy_objects n s : pq_heap (ms_pq s) -> (length (objects s) <= n)%nat ->
  exists deleted, destroy n (ms_pq s) = Ok deleted /\ ms_deleted s ++ deleted ≡ₚ objects s.
Proof.
  intros Hh Hn. unfold objects in *. rewrite length_app, length_fmap in Hn.
  destruct (destroy_all n (ms_pq s) Hh) as (deleted & Hd & Hp); [lia|].
  exists deleted. split; [done|]. by rewrite Hp, Permutation_app_comm.
Qed.

(** ** Properties *)

(** C20: the inputs of a merge are neither leaked nor deleted twice: whether the merge ends, is
    cancelled at any moment, or cannot write, from the constructor to the destructor every
    object is deleted exactly once. *)
Theorem inputs_deleted_once rm progressed cancelled writable inputs :
  (forall n, progress progressed n = Ok tt) -> Forall good_input inputs ->
  exists deleted, life (merge_fuel inputs) rm progressed cancelled writable (src_of <$> inputs) = Ok deleted /\
    deleted ≡ₚ fst <$> inputs.
Proof.
  intros Hprog Hin. destruct (merge_init_objects inputs Hin) as (ls & Hp & _ & Hobj & Hdel).
  assert (exists deleted, destroy (length (src_of <$> inputs)) (ms_pq (fst (merge_init (Q := Q) (src_of <$> inputs)))) = Ok deleted /\
    deleted ≡ₚ fst <$> inputs) as Hinit.
  { edestruct (destroy_objects (length (src_of <$> inputs))) as (deleted & Hd & Hperm); [exact (pd_heap _ _ Hp)| |].
    - by rewrite Hobj, !length_fmap.
    - exists deleted. split; [exact Hd|]. rewrite <- Hobj, <- Hperm. by rewrite Hdel. }
  pose proof (merge_execute_returns rm progressed cancelled writable inputs Hprog Hin) as Hret.
  unfold life. destruct (merge_execute _ _ _ _ _ _) as [[s'|]| | |w] eqn:Hr; try done. destruct (merge_execute_objects _ _ _ _ _ _ _ Hin Hr) as [Ho Hh].
  destruct (destroy_objects (length (src_of <$> inputs)) s' Hh) as (deleted & -> & Hd); [by rewrite Ho, !length_fmap|].
  eexists. split; [done|]. by rewrite Hd.
Qed.
End life.

(** ** Witness *)

(** When q is pressed the first input is used up and deleted; the destructor deletes the other. *)
Lemma inputs_deleted_once_witness : exists deleted,
  life (Q := list MergerInput) (merge_fuel demo_inputs) false None (fun k => (5 <=? k)%nat) true (src_of <$> demo_inputs) = Ok deleted /\
  deleted ≡ₚ [bs "a.md5"; bs "b.md5"].
Proof. apply (inputs_deleted_once (Q := list MergerInput) false None _ true demo_inputs); [reflexivity|apply demo_inputs_good]. Defined.
