(* ===== verification/Merger.v ===== *)
(** * pwned-merger-cli: lazy sizes, the progress bar, and the loop of [main]

    [lazy.hpp], [inputfile.hpp], [progressbar.hpp] and [pwned-merger-cli.cpp]: the program
    merges its inputs a bounded number at a time into intermediate files until one file is
    left. *)

From Stdlib Require Import Floats.SpecFloat.
From S2P Require Import Prelude Decimal Stream Util Hash Phc Inspector PriorityQueue Merge.
From stdpp Require Import options.

(** ** [Lazy<T>]: a value created on first use

    [W] is the outside world [createValue] looks at. *)

Section lazy.
Context {W T : Type}.

Record Lazy := MkLazy { createValue : W -> outcome T; lazy_state : option T }.

Definition lazy_ctor (createValue : W -> outcome T) : Lazy := MkLazy createValue None.

(** [explicit operator bool] *)
Definition lazy_bool (l : Lazy) : bool := match lazy_state l with None => false | Some _ => true end.

(** [init()] and [value()]; an exception leaves the object uninitialised. *)
Definition lazy_init (l : Lazy) (w : W) : outcome Lazy :=
  match lazy_state l with
  | Some _ => Ok l
  | None => v ← createValue l w; Ok (MkLazy (createValue l) (Some v))
  end.
Definition lazy_value (l : Lazy) (w : W) : outcome (T * Lazy) :=
  l ← lazy_init l w;
  match lazy_state l with Some v => Ok (v, l) | None => Undefined end.
End lazy.
Arguments Lazy W T : clear implicits.

(** ** [InputFile] *)

Abbreviation files := (gmap (list byte) (list byte)).

Inductive FileState := pending_ | reading | finished | cancelled_.

Record InputFile := MkInputFile {
  path : list byte;
  state : FileState;
  inputSize : Lazy files Z }.

(** [fs::file_size]: throws when there is no such file. *)
Definition file_size (p : list byte) (fs : files) : outcome Z :=
  match fs !! p with
  | None => Throws (bs "file_size")
  | Some b => Ok (Z.of_nat (length b))
  end.

Definition InputFile_ctor (p : list byte) : InputFile := MkInputFile p pending_ (lazy_ctor (file_size p)).

(** [InputFileLess]: larger files first. *)
Definition InputFileLess (fs : files) (a b : InputFile) : outcome bool :=
  '(sa, _) ← lazy_value (inputSize a) fs;
  '(sb, _) ← lazy_value (inputSize b) fs;
  Ok (sb <? sa).

(** ** [ProgressBar] *)

Record ProgressBar := MkBar { bar_hi : Z; bar_width : Z; bar_begin : byte; bar_fill : byte; bar_space : byte; bar_end : byte }.

Definition ProgressBar_ctor (width hi : Z) : ProgressBar := MkBar hi width "["%byte "="%byte " "%byte "]"%byte.
Definition setHi (b : ProgressBar) (hi : Z) : ProgressBar :=
  MkBar hi (bar_width b) (bar_begin b) (bar_fill b) (bar_space b) (bar_end b).

(** Conversion to [int]. *)
Definition i32 (z : Z) : Z := (z + 2 ^ 31) mod 2 ^ 32 - 2 ^ 31.

(** [" %5.1f %% "] *)
Definition percent_text (percent : spec_float) : list byte :=
  bs " " ++ pad_left 5 x20 (fixed 1 percent) ++ bs " % ".

(** [void update(uint64_t value)]: the characters printed; a division by zero is undefined. *)
Definition update (b : ProgressBar) (value : Z) : outcome (list byte) :=
  defined_if (negb (bar_hi b =? 0)) (
    let w := i32 (u64 (u64 (bar_width b) * value) / bar_hi b) in
    let percent := f32_div (f32_mul (f32_of_Z 100) (f32_of_Z value)) (f32_of_Z (bar_hi b)) in
    match string_format 11 (percent_text percent) with
    | Some text =>
        Ok ([x0d; bar_begin b] ++ replicate (Z.to_nat w) (bar_fill b) ++
            replicate (Z.to_nat (bar_width b - Z.max 0 w)) (bar_space b) ++ [bar_end b] ++ pad_left 5 x20 text)
    | None => OutOfFuel
    end).

(** As the callback of a merge. *)
Definition bar_callback (b : ProgressBar) : option (Z -> outcome unit) :=
  Some (fun value => _ ← update b value; Ok tt).

(** ** [main] *)

Definition DefaultMaxFilesAtOnce : Z := 50.

Section main.
Context {Q : Type} `{PQ : PriorityQueue MergerInput SmallestHashFirst Q}.

Definition entry_of (fs : files) (p : list byte) : list byte * file_entry :=
  (p, match fs !! p with None => FileEntry [] false | Some b => FileEntry b true end).

(** Enough for any file: a queue read takes at least one byte off a file. *)
Definition op_fuel (src : list (list byte * file_entry)) : nat :=
  foldr (fun e n => (length (fbytes (snd e)) + 2 + n)%nat) 0%nat src.

(** [std::accumulate] of the sizes. *)
Fixpoint chunk_size (sum : Z) (fs : files) (slice : list InputFile) : outcome Z :=
  match slice with
  | [] => Ok sum
  | file :: slice => '(sz, _) ← lazy_value (inputSize file) fs; chunk_size (u64 (sum + sz)) fs slice
  end.

(** What [isCancelled] returns: the queue's at the head of a round and after it, and the
    operation's of a round each time the merge looks at it. *)
Record Cancelled := MkCancelled { at_head : nat -> bool; after_wait : nat -> bool; in_merge : nat -> nat -> bool }.
Definition not_cancelled : Cancelled := MkCancelled (fun _ => false) (fun _ => false) (fun _ _ => false).

(** One operation run through the queue: an [OperationException] is caught and reported.  What
    is left of an input that is the target as well, and truncated by opening it, depends on
    the buffers of the streams.  The target can be opened here ([merge_execute] has the other
    case). *)
Definition run_merge (cancelled : nat -> bool) (fs : files) (slice : list (list byte)) (target : list byte) : outcome files :=
  let src := entry_of fs <$> slice in
  chunkInputSize ← chunk_size 0 fs (InputFile_ctor <$> slice);
  let bar := setHi (ProgressBar_ctor 32 0) (chunkInputSize / PHC_size) in
  match merge_execute (Q := Q) (op_fuel src) false (bar_callback bar) cancelled true src with
  | Ok None => Ok fs
  | Ok (Some s) => defined_if (negb (bool_decide (target ∈ slice))) (Ok (<[target := ms_out s]> fs))
  | Throws _ => Ok fs
  | OutOfFuel => OutOfFuel
  | Undefined => Undefined
  end.

(** The loop over [inputFiles]; [tmp k] is the [k]th unique path, and
    [intermediateFilenames] collects the ones used.  A negative [maxFilesAtOnce] makes the
    iterator arithmetic undefined.  [begin() + maxFilesAtOnce] beyond the end, of which the
    code takes the minimum with [end()], is undefined in C++ as well; here it is what the
    pointers of a [std::vector] make of it: the whole vector. *)
Fixpoint main_loop (fuel : nat) (c : Cancelled) (round : nat) (maxFilesAtOnce : Z) (dstFile : list byte) (tmp : nat -> list byte)
    (intermediateFilenames : list (list byte)) (inputFiles : list (list byte)) (fs : files) :
    outcome (files * list (list byte)) :=
  match inputFiles with
  | [] => Ok (fs, intermediateFilenames)
  | _ =>
      if at_head c round then Ok (fs, intermediateFilenames) else
      match fuel with
      | O => OutOfFuel
      | S fuel =>
          defined_if (0 <=? maxFilesAtOnce) (
            let slice := take (Z.to_nat maxFilesAtOnce) inputFiles in
            let isLastChunk := (length slice =? length inputFiles)%nat in
            let targetFilename := if isLastChunk then dstFile else tmp (length intermediateFilenames) in
            let intermediateFilenames :=
              if isLastChunk then intermediateFilenames else intermediateFilenames ++ [targetFilename] in
            fs ← run_merge (in_merge c round) fs slice targetFilename;
            let left := drop (Z.to_nat maxFilesAtOnce) inputFiles in
            let inputFiles :=
              if after_wait c round then inputFiles
              else if isLastChunk then left else left ++ [targetFilename] in
            main_loop fuel c (S round) maxFilesAtOnce dstFile tmp intermediateFilenames inputFiles fs)
      end
  end.

(** [fs::remove] of every intermediate file. *)
Definition remove_files (fs : files) (names : list (list byte)) : files :=
  foldl (fun fs f => delete f fs) fs names.
End main.

(** ** Lemmas: one operation *)

(** Nobody cancels. *)
Ltac no_cancel round :=
  change (at_head not_cancelled round) with false;
  change (after_wait not_cancelled round) with false;
  change (in_merge not_cancelled round) with (fun _ : nat => false); cbv iota.

Section proofs.
Context {Q : Type} `{PQ : PriorityQueue MergerInput SmallestHashFirst Q}.
#[local] Set Default Proof Using "Type*".

Lemma percent_text_format x : string_format 11 (percent_text x) = Some (percent_text x).
Proof.
  apply string_format_total; [lia|]. unfold percent_text. rewrite !elem_of_app. intros [Hin|[Hin|Hin]]; revert Hin.
  - apply (bool_decide_unpack _). vm_compute. exact I.
  - by apply pad_left_notin; [|apply fixed_no_nul].
  - apply (bool_decide_unpack _). vm_compute. exact I.
Qed.

Lemma percent_text_long x : (5 - length (percent_text x) = 0)%nat.
Proof. unfold percent_text, pad_left. rewrite !length_app, length_replicate. simpl. lia. Qed.

Lemma bar_progress b n :
  bar_hi b <> 0 -> progress (bar_callback b) n = Ok tt.
Proof.
  intros Hb. unfold bar_callback, progress, update. rewrite (proj2 (Z.eqb_neq _ _) Hb). cbn [negb defined_if].
  by rewrite percent_text_format.
Qed.

(** The files [ps] hold the records [rs]. *)
Definition holds (fs : files) (p : list byte) (recs : list PHC) : Prop :=
  fs !! p = Some (phc_file recs) /\ good_input (p, recs).

Lemma chunk_size_ok fs ps rs acc :
  Forall2 (holds fs) ps rs -> 0 <= acc ->
  acc + PHC_size * Z.of_nat (length (concat rs)) < 2 ^ 64 ->
  chunk_size acc fs (InputFile_ctor <$> ps) = Ok (acc + PHC_size * Z.of_nat (length (concat rs))).
Proof.
  intros Hps. revert acc. induction Hps as [|p recs ps rs [Hp _] Hps IH]; intros acc Hacc Hb.
  { simpl. f_equal. unfold PHC_size. lia. }
  simpl concat in *. rewrite length_app in *. csimpl. unfold InputFile_ctor at 1. cbn [inputSize].
  unfold lazy_value, lazy_init, lazy_ctor. cbn [lazy_state createValue]. unfold file_size. rewrite Hp.
  cbn [mbind outcome_bind lazy_state]. rewrite length_phc_file, u64_small by (unfold PHC_size in *; lia).
  rewrite IH by (unfold PHC_size in *; lia). f_equal. unfold PHC_size. lia.
Qed.

Lemma entries_src fs ps rs :
  Forall2 (holds fs) ps rs -> entry_of fs <$> ps = src_of <$> zip ps rs.
Proof.
  induction 1 as [|p recs ps rs [Hp _] Hps IH]; [done|]. csimpl. rewrite IH. f_equal.
  unfold entry_of, src_of. by rewrite Hp.
Qed.

Lemma zip_good fs ps rs : Forall2 (holds fs) ps rs -> Forall good_input (zip ps rs).
Proof. induction 1 as [|p recs ps rs [_ Hg] Hps IH]; by constructor. Qed.

Lemma zip_all_records ps (rs : list (list PHC)) : length ps = length rs -> all_records (zip ps rs) = concat rs.
Proof. intros Hl. unfold all_records. by rewrite snd_zip by lia. Qed.

Lemma op_fuel_enough fs ps rs :
  Forall2 (holds fs) ps rs -> (merge_fuel (zip ps rs) <= op_fuel (src_of <$> zip ps rs))%nat.
Proof.
  unfold merge_fuel, all_records. induction 1 as [|p recs ps rs _ Hps IH]; [done|]. csimpl.
  rewrite length_app. pose proof (length_phc_file recs). unfold PHC_size in *. lia.
Qed.

Lemma distinct_length (out all : list PHC) :
  StronglySorted hash_lt out -> (forall v, v ∈ hval ∘ hash <$> out -> v ∈ hval ∘ hash <$> all) ->
  (length out <= length all)%nat.
Proof.
  intros Hs Hsub. rewrite <- (length_fmap (hval ∘ hash) out), <- (length_fmap (hval ∘ hash) all).
  apply submseteq_length, NoDup_submseteq; [|exact Hsub]. clear Hsub.
  induction Hs as [|p l Hs IH Hp]; csimpl; constructor; [|done].
  intros (q & Heq & Hq)%list_elem_of_fmap. rewrite Forall_forall in Hp. specialize (Hp q Hq).
  unfold hash_lt, compose in *. lia.
Qed.

Lemma run_merge_merged fs ps rs target :
  Forall2 (holds fs) ps rs -> ps <> [] -> target ∉ ps -> PHC_size * Z.of_nat (length (concat rs)) < 2 ^ 64 ->
  exists out, run_merge (Q := Q) (fun _ => false) fs ps target = Ok (<[target := phc_file out]> fs) /\
    merged (zip ps rs) out /\
    forall cancelled, run_merge (Q := Q) cancelled fs ps target = Ok fs \/
      exists m, run_merge (Q := Q) cancelled fs ps target = Ok (<[target := phc_file (take m out)]> fs).
Proof.
  intros Hps Hne Ht Hb. unfold run_merge. rewrite (bool_decide_false (target ∈ ps)) by done. unfold defined_if. cbn [negb].
  rewrite (chunk_size_ok fs ps rs 0 Hps) by lia. cbn [mbind outcome_bind].
  rewrite (entries_src _ _ _ Hps).
  assert (0 < length (concat rs))%nat as Hpos.
  { destruct Hps as [|p recs ps rs [_ (_ & _ & Hr)]]; [done|]. simpl in *. rewrite length_app.
    destruct recs; [done|simpl; lia]. }
  set (bar := setHi _ _).
  assert (forall n, progress (bar_callback bar) n = Ok tt) as Hprog.
  { intros n. apply bar_progress. cbn [bar_hi bar setHi]. unfold PHC_size. dlia. }
  destruct (merge_merged (Q := Q) (op_fuel (src_of <$> zip ps rs)) false (bar_callback bar) (zip ps rs))
    as (s & out & Hr & Ho & Hm).
  - by eapply op_fuel_enough.
  - done.
  - destruct Hps; done.
  - by eapply zip_good.
  - exists out. rewrite Hr, Ho. do 2 (split; [done|]). intros cancelled.
    destruct (merge_cancelled cancelled _ _ _ _ _ _ Hprog Hr Ho) as [->|(s1 & m & -> & ->)]; [by left|right; by exists m].
Qed.

Lemma run_merge_ok fs ps rs target :
  Forall2 (holds fs) ps rs -> ps <> [] -> target ∉ ps -> PHC_size * Z.of_nat (length (concat rs)) < 2 ^ 64 ->
  exists out, run_merge (Q := Q) (fun _ => false) fs ps target = Ok (<[target := phc_file out]> fs) /\
    good_input (target, out) /\ (length out <= length (concat rs))%nat /\
    forall v, v ∈ hval ∘ hash <$> out <-> v ∈ hval ∘ hash <$> concat rs.
Proof.
  intros Hps Hne Ht Hb. destruct (run_merge_merged fs ps rs target Hps Hne Ht Hb) as (out & -> & (Hs & Hwf & Hset & _) & _).
  rewrite zip_all_records in Hset by by eapply Forall2_length. exists out. split; [done|].
  split; [|split; [|done]]. 2: { apply distinct_length; [done|]. intros v. apply Hset. }
  split; [done|]. split; [done|]. simpl. intros ->.
  destruct Hps as [|p recs ps rs [_ (_ & _ & Hr)] _]; [done|]. simpl in Hr. destruct recs as [|r recs]; [done|].
  assert (hval (hash r) ∈ []) as Hx by (apply Hset; simpl; left). by apply not_elem_of_nil in Hx.
Qed.

Lemma holds_insert fs t b ps rs :
  t ∉ ps -> Forall2 (holds fs) ps rs -> Forall2 (holds (<[t := b]> fs)) ps rs.
Proof.
  intros Ht. induction 1 as [|p recs ps rs [Hp Hg] Hps IH]; constructor.
  - split; [|done]. rewrite lookup_insert_ne; [done|]. intros ->. apply Ht. left.
  - apply IH. intros Hin. apply Ht. by right.
Qed.

(** One round of the loop that is not the last. *)
Lemma main_round n fs ps rs t :
  Forall2 (holds fs) ps rs -> (0 < n)%nat -> (n < length ps)%nat -> t ∉ ps ->
  PHC_size * Z.of_nat (length (concat rs)) < 2 ^ 64 ->
  exists out, let fs' := <[t := phc_file out]> fs in
    run_merge (Q := Q) (fun _ => false) fs (take n ps) t = Ok fs' /\
    Forall2 (holds fs') (drop n ps ++ [t]) (drop n rs ++ [out]) /\
    (length (concat (drop n rs ++ [out])) <= length (concat rs))%nat /\
    forall v, v ∈ hval ∘ hash <$> concat (drop n rs ++ [out]) <-> v ∈ hval ∘ hash <$> concat rs.
Proof.
  intros Hps Hn Hlt Ht Hb.
  assert (Forall2 (holds fs) (take n ps) (take n rs)) as Htake by by apply Forall2_take.
  assert (Forall2 (holds fs) (drop n ps) (drop n rs)) as Hdrop by by apply Forall2_drop.
  assert (concat rs = concat (take n rs) ++ concat (drop n rs)) as Hsplit.
  { rewrite <- concat_app, take_drop. done. }
  rewrite Hsplit, length_app in Hb.
  destruct (run_merge_ok fs (take n ps) (take n rs) t Htake) as (out & Hrun & Hg & Hlen & Hset).
  - intros Hz. apply (f_equal length) in Hz. rewrite length_take in Hz. simpl in Hz. lia.
  - intros Hin. apply Ht. rewrite <- (take_drop n ps). apply elem_of_app. by left.
  - unfold PHC_size in *. lia.
  - exists out. cbv zeta. split; [done|]. split; [|split].
    + apply Forall2_app.
      * apply holds_insert; [|done]. intros Hin. apply Ht. rewrite <- (take_drop n ps). apply elem_of_app. by right.
      * constructor; [|constructor]. split; [by rewrite lookup_insert_eq|done].
    + rewrite Hsplit, concat_app, !length_app. simpl. rewrite app_nil_r. lia.
    + intros v. rewrite Hsplit, concat_app, !fmap_app, !elem_of_app. simpl. rewrite app_nil_r, Hset. tauto.
Qed.

Lemma main_loop_stopped fuel n dst tmp round ims ps fs c : at_head c round = true ->
  main_loop (Q := Q) fuel c round n dst tmp ims ps fs = Ok (fs, ims).
Proof. intros Hc. destruct fuel, ps; try done; cbn [main_loop]; by rewrite Hc. Qed.

(** More fuel does not change the result. *)
Lemma main_loop_fuel fuel fuel' c round n dst tmp ims ps fs r : (fuel <= fuel')%nat ->
  main_loop (Q := Q) fuel c round n dst tmp ims ps fs = Ok r -> main_loop (Q := Q) fuel' c round n dst tmp ims ps fs = Ok r.
Proof.
  revert fuel' round ims ps fs. induction fuel as [|fuel IH]; intros fuel' round ims ps fs Hle Hr.
  - destruct ps; cbn [main_loop] in Hr; [by destruct fuel'|]. destruct (at_head c round) eqn:Hc; [|done].
    injection Hr as <-. by apply main_loop_stopped.
  - destruct fuel' as [|fuel']; [lia|]. cbn [main_loop] in *. destruct ps as [|p ps]; [done|].
    destruct (at_head c round); [done|]. unfold defined_if in *. destruct (0 <=? n); [|done].
    apply bind_Ok in Hr as (fs1 & -> & Hr). cbn [mbind outcome_bind]. apply IH; [lia|exact Hr].
Qed.

(** The last round of the loop. *)
Lemma main_loop_last fuel n dst tmp round ims ps fs c : ps <> [] -> Z.of_nat (length ps) <= n ->
  main_loop (Q := Q) (S fuel) c round n dst tmp ims ps fs =
    if at_head c round then Ok (fs, ims)
    else
      fs ← run_merge (Q := Q) (in_merge c round) fs ps dst;
      if after_wait c round then main_loop (Q := Q) fuel c (S round) n dst tmp ims ps fs else Ok (fs, ims).
Proof.
  intros Hne Hn. cbn [main_loop]. destruct ps as [|p ps']; [done|]. set (ps := p :: ps') in *.
  destruct (at_head c round); [done|]. rewrite (proj2 (Z.leb_le 0 n)) by lia. unfold defined_if.
  rewrite take_ge, drop_ge, Nat.eqb_refl by lia. destruct (run_merge _ _ _ _) as [fs'| | |]; try done.
  cbn [mbind outcome_bind]. destruct (after_wait c round); [done|]. by destruct fuel.
Qed.

Lemma main_loop_ok n dst tmp fuel round ims ps rs fs :
  2 <= n -> (forall i j, tmp i = tmp j -> i = j) ->
  (forall j, (length ims <= j)%nat -> tmp j ∉ ps) -> dst ∉ ps -> (forall j, tmp j <> dst) -> Forall2 (holds fs) ps rs -> ps <> [] ->
  PHC_size * Z.of_nat (length (concat rs)) < 2 ^ 64 -> (length ps <= fuel)%nat ->
  exists fs' k out, main_loop (Q := Q) fuel not_cancelled round n dst tmp ims ps fs =
      Ok (fs', ims ++ (tmp <$> seq (length ims) k)) /\
    fs' !! dst = Some (phc_file out) /\
    (forall p, p <> dst -> p ∉ tmp <$> seq (length ims) k -> fs' !! p = fs !! p) /\
    StronglySorted hash_lt out /\ Forall PHC_wf out /\
    forall v, v ∈ hval ∘ hash <$> out <-> v ∈ hval ∘ hash <$> concat rs.
Proof.
  intros Hn Hinj. revert round ims ps rs fs. induction fuel as [|fuel IH]; intros round ims ps rs fs Hfresh Hdst Htd Hps Hne Hb Hfuel.
  { destruct ps; [done|simpl in Hfuel; lia]. }
  destruct ps as [|p ps']; [done|]. set (ps := p :: ps') in *. cbn [main_loop]. fold ps. no_cancel round.
  change (match ps with [] => Ok (fs, ims) | _ :: _ => ?x end) with x.
  rewrite (proj2 (Z.leb_le 0 n)) by lia. unfold defined_if. rewrite length_take.
  destruct (Nat.eqb_spec (Z.to_nat n `min` length ps) (length ps)) as [Hlast|Hmore].
  - assert (take (Z.to_nat n) ps = ps) as -> by (apply take_ge; lia).
    destruct (run_merge_ok fs ps rs dst Hps Hne Hdst Hb) as (out & -> & (Hwf & Hs & _) & _ & Hset).
    cbn [mbind outcome_bind]. rewrite drop_ge by lia.
    exists (<[dst := phc_file out]> fs), 0%nat, out. split_and!; try done.
    + rewrite app_nil_r. by destruct fuel.
    + by rewrite lookup_insert_eq.
    + intros q Hq _. by rewrite lookup_insert_ne.
  - assert (Z.to_nat n < length ps)%nat as Hlt by lia.
    destruct (main_round (Z.to_nat n) fs ps rs (tmp (length ims)) Hps) as (out & -> & Hps' & Hlen & Hset);
      [lia|done|by apply Hfresh|done|].
    cbn [mbind outcome_bind]. set (t := tmp (length ims)) in *.
    destruct (IH (S round) (ims ++ [t]) (drop (Z.to_nat n) ps ++ [t]) (drop (Z.to_nat n) rs ++ [out])
      (<[t := phc_file out]> fs)) as (fs' & k & out' & -> & Hd & Hother & Hs & Hwf & Hset').
    + intros j. rewrite length_app, elem_of_app, list_elem_of_singleton. simpl. intros Hj [Hin|Heq].
      * apply (Hfresh j); [lia|]. rewrite <- (take_drop (Z.to_nat n) ps). apply elem_of_app. by right.
      * apply Hinj in Heq. lia.
    + rewrite elem_of_app, list_elem_of_singleton. intros [Hin|Heq]; [|by destruct (Htd (length ims))].
      apply Hdst. rewrite <- (take_drop (Z.to_nat n) ps). apply elem_of_app. by right.
    + exact Htd.
    + exact Hps'.
    + by destruct (drop (Z.to_nat n) ps).
    + unfold PHC_size in *. lia.
    + rewrite length_app, length_drop. simpl. unfold ps in *. simpl in *. lia.
    + exists fs', (S k), out'. split_and!; try done.
      * rewrite length_app, <- app_assoc, Nat.add_1_r. reflexivity.
      * rewrite length_app, Nat.add_1_r in Hother. intros q Hq Hqt. cbn [seq] in Hqt. rewrite fmap_cons in Hqt.
        apply not_elem_of_cons in Hqt as [Hqt Hqs]. rewrite Hother by done. by apply lookup_insert_ne.
      * intros v. rewrite Hset'. apply Hset.
Qed.

Lemma remove_files_lookup names fs p :
  remove_files fs names !! p = if decide (p ∈ names) then None else fs !! p.
Proof.
  revert fs. unfold remove_files. induction names as [|f names IH]; intros fs; [done|]. cbn [foldl]. rewrite IH.
  destruct (decide (p = f)) as [->|Hne].
  - rewrite lookup_delete_eq, (decide_True (P := f ∈ f :: names)) by left. by case_decide.
  - rewrite lookup_delete_ne by done. pose proof (elem_of_cons names p f). repeat case_decide; tauto.
Qed.
End proofs.

(** ** Properties *)

Section properties.
Context {Q : Type} `{PQ : PriorityQueue MergerInput SmallestHashFirst Q}.
#[local] Set Default Proof Using "Type*".

(** for [--max-files-at-once] of two or more the loop ends after at most one round per
    input file, and the destination is a sorted file of exactly the hashes of all inputs,
    however many intermediate files it took; no other file is changed. *)
Theorem merger_loop_correct n dst tmp ps rs fs :
  2 <= n -> (forall i j, tmp i = tmp j -> i = j) -> (forall j, tmp j ∉ ps /\ tmp j <> dst) -> dst ∉ ps ->
  Forall2 (holds fs) ps rs -> ps <> [] -> PHC_size * Z.of_nat (length (concat rs)) < 2 ^ 64 ->
  exists fs' k out, main_loop (Q := Q) (length ps) not_cancelled 0 n dst tmp [] ps fs = Ok (fs', tmp <$> seq 0 k) /\
    fs' !! dst = Some (phc_file out) /\
    (forall p, p <> dst -> (forall j, p <> tmp j) -> fs' !! p = fs !! p) /\ StronglySorted hash_lt out /\ Forall PHC_wf out /\
    forall v, v ∈ hval ∘ hash <$> out <-> v ∈ hval ∘ hash <$> concat rs.
Proof.
  intros Hn Hinj Hfresh Hdst Hps Hne Hb.
  destruct (main_loop_ok n dst tmp (length ps) 0 [] ps rs fs) as (fs' & k & out & Hl & Ho & Hother & Hrest); try done;
    [intros j; by destruct (Hfresh j)..|]. exists fs', k, out. do 2 (split; [done|]). split; [|done].
  intros p Hp Hpt. apply Hother; [done|]. intros (j & -> & _)%list_elem_of_fmap. by apply (Hpt j).
Qed.

(** with [--max-files-at-once 1] and more than one input every round merges one file
    into a new intermediate file and puts that back: the loop never ends. *)
Theorem merger_loop_one_diverges fuel dst tmp ps rs fs :
  (forall i j, tmp i = tmp j -> i = j) -> (forall j, tmp j ∉ ps) ->
  Forall2 (holds fs) ps rs -> (1 < length ps)%nat -> PHC_size * Z.of_nat (length (concat rs)) < 2 ^ 64 ->
  main_loop (Q := Q) fuel not_cancelled 0 1 dst tmp [] ps fs = OutOfFuel.
Proof.
  intros Hinj Hfresh Hps Hlen Hb.
  enough (forall round ims, (forall j, (length ims <= j)%nat -> tmp j ∉ ps) ->
    main_loop (Q := Q) fuel not_cancelled round 1 dst tmp ims ps fs = OutOfFuel) as Hgen by (apply Hgen; auto).
  clear Hfresh. revert ps rs fs Hps Hlen Hb.
  induction fuel as [|fuel IH]; intros ps rs fs Hps Hlen Hb round ims Hfresh;
    (destruct ps as [|p ps']; [simpl in Hlen; lia|]); set (ps := p :: ps') in *; cbn [main_loop]; fold ps; no_cancel round; [done|].
  change (match ps with [] => Ok (fs, ims) | _ :: _ => ?x end) with x. cbn [Z.leb defined_if]. unfold defined_if.
  change (0 <=? 1) with true. cbv iota. change (Z.to_nat 1) with 1%nat.
  rewrite length_take, (proj2 (Nat.eqb_neq _ _)) by lia.
  destruct (main_round 1 fs ps rs (tmp (length ims)) Hps) as (out & -> & Hps' & Hl & _);
    [lia|lia|by apply Hfresh|done|].
  cbn [mbind outcome_bind].
  apply (IH _ (drop 1 rs ++ [out])).
  - exact Hps'.
  - rewrite length_app, length_drop. change (length [tmp (length ims)]) with 1%nat. lia.
  - unfold PHC_size in *. lia.
  - intros j. rewrite length_app, elem_of_app, list_elem_of_singleton. simpl. intros Hj [Hin|Heq].
    + apply (Hfresh j); [lia|]. rewrite <- (take_drop 1 ps). apply elem_of_app. by right.
    + apply Hinj in Heq. lia.
Qed.

(** a lazily created value is created at most once: after the first successful use it
    stays what it was, whatever becomes of the file. *)
Theorem lazy_value_stable {W T} (l : Lazy W T) w v l' w' :
  lazy_value l w = Ok (v, l') -> lazy_value l' w' = Ok (v, l').
Proof.
  unfold lazy_value, lazy_init. destruct l as [create [v0|]]; cbn.
  - intros. by simplify_eq/=.
  - destruct (create w) as [v0| | |]; cbn; intros H; try done. by simplify_eq/=.
Qed.

(** the bar has room for [width] characters and fills a part of them proportional to
    the value, rounded down. *)
Theorem progress_bar_shape b value :
  0 < bar_hi b -> 0 <= value <= bar_hi b -> 0 <= bar_width b < 2 ^ 31 -> bar_width b * bar_hi b < 2 ^ 64 ->
  exists w, 0 <= w <= bar_width b /\ w * bar_hi b <= bar_width b * value < (w + 1) * bar_hi b /\
    update b value =
      Ok ([x0d; bar_begin b] ++ replicate (Z.to_nat w) (bar_fill b) ++
          replicate (Z.to_nat (bar_width b - w)) (bar_space b) ++ [bar_end b] ++
          percent_text (f32_div (f32_mul (f32_of_Z 100) (f32_of_Z value)) (f32_of_Z (bar_hi b)))).
Proof.
  intros Hhi Hv Hw Hb. unfold update. rewrite (proj2 (Z.eqb_neq _ _)) by lia. cbn [negb defined_if].
  assert (0 <= bar_width b * value <= bar_width b * bar_hi b) by nia.
  rewrite (u64_small (bar_width b)), u64_small by lia.
  set (w := bar_width b * value / bar_hi b).
  assert (0 <= w <= bar_width b /\ w * bar_hi b <= bar_width b * value < (w + 1) * bar_hi b) as [Hw1 Hw2].
  { unfold w. split.
    - split; [apply Z.div_pos; lia|]. apply Z.div_le_upper_bound; nia.
    - pose proof (Z.mul_div_le (bar_width b * value) (bar_hi b)).
      pose proof (Z.mul_succ_div_gt (bar_width b * value) (bar_hi b)). lia. }
  assert (i32 w = w) as -> by (unfold i32; rewrite Z.mod_small; lia).
  rewrite Z.max_r, percent_text_format by lia. exists w. split; [done|]. split; [done|].
  unfold pad_left. by rewrite percent_text_long.
Qed.
End properties.

(** ** Witnesses *)

Definition demo_tmp (k : nat) : list byte := bs "/tmp/" ++ replicate k "x"%byte.
Definition demo_paths : list (list byte) := fst <$> demo_inputs.
Definition demo_contents : list (list PHC) := snd <$> demo_inputs.
Definition demo_files : files :=
  <[bs "a.md5" := phc_file (demo_contents !!! 0%nat)]> (<[bs "b.md5" := phc_file (demo_contents !!! 1%nat)]> ∅).

Lemma demo_tmp_inj i j : demo_tmp i = demo_tmp j -> i = j.
Proof. intros H. apply (f_equal length) in H. unfold demo_tmp in H. rewrite !length_app, !length_replicate in H. lia. Qed.

Lemma demo_tmp_fresh j : demo_tmp j ∉ demo_paths.
Proof.
  unfold demo_paths, demo_tmp. intros Hin. change (fst <$> demo_inputs) with [bs "a.md5"; bs "b.md5"] in Hin.
  apply elem_of_cons in Hin as [H|Hin]; [discriminate|].
  apply elem_of_cons in Hin as [H|Hin]; [discriminate|]. by apply not_elem_of_nil in Hin.
Qed.

Lemma demo_holds : Forall2 (holds demo_files) demo_paths demo_contents.
Proof.
  pose proof demo_inputs_good as Hg. apply Forall_cons in Hg as [Ha Hg]. apply Forall_cons in Hg as [Hb _].
  constructor; [|constructor; [|constructor]].
  - split; [|exact Ha]. unfold demo_files. by rewrite lookup_insert_eq.
  - split; [|exact Hb]. unfold demo_files. rewrite lookup_insert_ne by discriminate. by rewrite lookup_insert_eq.
Qed.

Lemma merger_loop_correct_witness :
  exists fs' k out,
    main_loop (Q := list MergerInput) 2 not_cancelled 0 2 (bs "all.md5") demo_tmp [] demo_paths demo_files =
      Ok (fs', demo_tmp <$> seq 0 k) /\
    fs' !! bs "all.md5" = Some (phc_file out) /\
    (forall p, p <> bs "all.md5" -> (forall j, p <> demo_tmp j) -> fs' !! p = demo_files !! p) /\ StronglySorted hash_lt out /\ Forall PHC_wf out /\
    forall v, v ∈ hval ∘ hash <$> out <-> v ∈ hval ∘ hash <$> concat demo_contents.
Proof.
  apply (merger_loop_correct (Q := list MergerInput) 2 (bs "all.md5") demo_tmp demo_paths demo_contents demo_files).
  - lia.
  - apply demo_tmp_inj.
  - intros j. split; [apply demo_tmp_fresh|discriminate].
  - apply (bool_decide_unpack _). vm_compute. exact I.
  - apply demo_holds.
  - discriminate.
  - unfold PHC_size. simpl. lia.
Defined.

Lemma merger_loop_one_diverges_witness :
  main_loop (Q := list MergerInput) 1000 not_cancelled 0 1 (bs "all.md5") demo_tmp [] demo_paths demo_files = OutOfFuel.
Proof.
  apply (merger_loop_one_diverges (Q := list MergerInput) 1000 (bs "all.md5") demo_tmp demo_paths
    demo_contents demo_files).
  - apply demo_tmp_inj.
  - apply demo_tmp_fresh.
  - apply demo_holds.
  - simpl. lia.
  - unfold PHC_size. simpl. lia.
Defined.

Lemma lazy_value_stable_witness :
  exists l' : Lazy files Z, lazy_value l' (∅ : files) = Ok (3, l').
Proof.
  eexists. apply (lazy_value_stable (lazy_ctor (file_size (bs "f"))) (<[bs "f" := bs "abc"]> (∅ : files)) 3 _ ∅).
  unfold lazy_value, lazy_init, lazy_ctor, file_size. cbn [lazy_state createValue].
  rewrite lookup_insert_eq. reflexivity.
Defined.

Lemma progress_bar_shape_witness :
  exists w, 0 <= w <= 32 /\ w * 1000 <= 32 * 502 < (w + 1) * 1000 /\
    update (ProgressBar_ctor 32 1000) 502 =
      Ok ([x0d; "["%byte] ++ replicate (Z.to_nat w) "="%byte ++ replicate (Z.to_nat (32 - w)) " "%byte ++
          ["]"%byte] ++ percent_text (f32_div (f32_mul (f32_of_Z 100) (f32_of_Z 502)) (f32_of_Z 1000))).
Proof. apply (progress_bar_shape (ProgressBar_ctor 32 1000) 502); simpl; lia. Defined.

Example progress_bar_text :
  update (ProgressBar_ctor 8 1000) 502 = Ok (x0d :: bs "[====    ]  50.2 % ").
Proof. vm_compute. reflexivity. Qed.
