(* ===== verification/Queue.v ===== *)
(** * pwned-lib/operation.*, operationexception.*, semaphore.hpp, operationqueue.hpp

    The queue that runs operations in threads of their own.  The threads are a step function
    ([step]) on an explicit state: the executor, one thread per operation, the main thread in
    [waitForScheduled] and [waitForFinished], and the thread that reads the keyboard and calls
    [pause], [resume] and [cancel].  A critical section without a wait inside is one step;
    [cancel] keeps the mutex while it waits, so it is several, and so is [pause], whose loop
    over the running operations takes no lock at all. *)

From S2P Require Import Prelude PriorityQueue.
From stdpp Require Import options.

(** ** [OperationException] *)

Record OperationException := MkException { mMsg : list byte; mCode : Z }.
Definition exception_OK : Z := 0.
Definition QueueNotSet : Z := 1.
Definition OperationException_ctor (message : list byte) (code : Z) : OperationException := MkException message code.
Definition what (e : OperationException) : list byte := mMsg e.
Definition code (e : OperationException) : Z := mCode e.

(** ** [Semaphore] *)

Record Semaphore := MkSemaphore { sem_capacity : Z }.

Definition Semaphore_ctor (capacity : Z) : Semaphore := MkSemaphore capacity.
Definition capacity (s : Semaphore) : Z := sem_capacity s.
Definition setCapacity (c : Z) (s : Semaphore) : Semaphore :=
  if 0 <? c then MkSemaphore (u32 (c - sem_capacity s)) else s.
Definition sem_notify (s : Semaphore) : Semaphore := MkSemaphore (u32 (sem_capacity s + 1)).
(** [wait]: blocks while the capacity is 0. *)
Definition sem_wait (s : Semaphore) : option Semaphore :=
  if sem_capacity s =? 0 then None else Some (MkSemaphore (u32 (sem_capacity s - 1))).

(** ** [Operation] *)

(** A pointer to an operation; [priority] is set by the constructors and never changes. *)
Record OpPtr := MkPtr { op_id : nat; priority : Z }.

#[export] Instance OpPtr_eq_decision : EqDecision OpPtr.
Proof. solve_decision. Defined.

Record Operation := MkOp {
  op_isRunning : bool; op_isFinished : bool; op_isCancelled : bool; op_isPaused : bool;
  op_queue : bool (* [queue != nullptr] *) }.

Definition Operation_ctor : Operation := MkOp false false false false false.
Definition setQueue (o : Operation) : Operation :=
  MkOp (op_isRunning o) (op_isFinished o) (op_isCancelled o) (op_isPaused o) true.
Definition op_pause (o : Operation) : Operation :=
  MkOp (op_isRunning o) (op_isFinished o) (op_isCancelled o) true (op_queue o).
Definition op_resumed (o : Operation) : Operation :=
  MkOp (op_isRunning o) (op_isFinished o) (op_isCancelled o) false (op_queue o).
(** The assignment at the beginning of [cancel]; the wait for [finishedCondition] is a state
    of the calling thread. *)
Definition op_cancel (o : Operation) : Operation :=
  MkOp (op_isRunning o) (op_isFinished o) true (op_isPaused o) (op_queue o).
(** [start] up to the call of [execute]. *)
Definition op_begin (o : Operation) : Operation :=
  MkOp true (op_isFinished o) (op_isCancelled o) false (op_queue o).
(** [start] after the call of [execute]. *)
Definition op_end (o : Operation) : Operation :=
  MkOp false true (op_isCancelled o) (op_isPaused o) (op_queue o).
(** [~Operation]: what it leaves, and whether it waits in [cancel]. *)
Definition Operation_dtor (o : Operation) : Operation * bool :=
  if op_isRunning o then (op_cancel o, true) else (o, false).

(** [wait]: whether the operation may wait for its queue. *)
Definition op_wait (o : Operation) : unit + OperationException :=
  if op_queue o then inl tt else inr (OperationException_ctor (bs "Queue not set") QueueNotSet).

(** ** [OperationQueue] *)

(** [opGreaterPriority] *)
Definition opGreaterPriority (lhs rhs : OpPtr) : bool := priority lhs <? priority rhs.

(** Where the thread of an operation is. *)
Inductive OpPc :=
  | TStart      (** about to call [start] *)
  | TExecute    (** in [execute] *)
  | TPaused     (** in [operationWait] *)
  | TStop       (** after [execute], before the end of [start] *)
  | TFinished   (** about to call [finished] *)
  | TNotify     (** about to call [guard.notify] *)
  | TEnd.

(** Where the executor thread is. *)
Inductive ExePc :=
  | EEmpty      (** about to test [unscheduledOps.empty()] *)
  | ECancelled  (** about to test [_isCancelled] *)
  | EGuard      (** in [guard.wait] *)
  | ELock       (** about to lock the mutex *)
  | EDone.

(** Where a call of [cancel] (or of [pause]) is. *)
Inductive CallPc :=
  | CIdle
  | CPausing (it : option OpPtr)              (** [pause]: the iterator of its loop, [None] is [end()] *)
  | CPauseNext (op : OpPtr)                   (** [pause]: the iterator is at [op], about to be advanced *)
  | CPauseLock                                (** [pause]: about to lock *)
  | CCancelLock                               (** [cancel]: about to lock *)
  | CCancelRunning (todo : list OpPtr)        (** in the loop over [runningOps] *)
  | CWaitRunning (op : OpPtr) (todo : list OpPtr)   (** in [op->cancel()] of that loop *)
  | CCancelPending                            (** in the loop over [unscheduledOps] *)
  | CWaitPending (op : OpPtr)                 (** in [op->cancel()] of that loop *)
  | CDeletePending (op : OpPtr)               (** after it *)
  | CReturned.

(** Where the main thread is. *)
Inductive MainPc :=
  | JoinExecutor            (** [waitForScheduled] *)
  | JoinOps                 (** [waitForFinished]: joining the threads *)
  | InReset (c : CallPc)    (** [waitForFinished]: in [reset], calling [cancel] *)
  | Returned.

Inductive Tid := TKey | TMain.

#[export] Instance OpPc_eq_decision : EqDecision OpPc.
Proof. solve_decision. Defined.
#[export] Instance CallPc_eq_decision : EqDecision CallPc.
Proof. solve_decision. Defined.
#[export] Instance Tid_eq_decision : EqDecision Tid.
Proof. solve_decision. Defined.

Section queue.
Context {Q : Type} `{PQ : PriorityQueue OpPtr opGreaterPriority Q}.

Record State := MkState {
  unscheduledOps : Q;
  runningOps : list OpPtr;
  opThreads : list (OpPtr * OpPc);
  exeThread : ExePc;
  keyThread : CallPc;
  mainThread : MainPc;
  mtx : option Tid;                 (** who keeps the mutex across a wait *)
  guard : Semaphore;
  _isRunning : bool;
  _isCancelled : bool;
  heap : gmap nat Operation;        (** the operations not deleted yet *)
  log : list OpPtr }.               (** the operations whose [execute] returned *)

(** The updates of the fields the steps change. *)
Definition set_ops (h : gmap nat Operation) (s : State) : State :=
  MkState (unscheduledOps s) (runningOps s) (opThreads s) (exeThread s) (keyThread s) (mainThread s)
    (mtx s) (guard s) (_isRunning s) (_isCancelled s) h (log s).
Definition set_threads (t : list (OpPtr * OpPc)) (s : State) : State :=
  MkState (unscheduledOps s) (runningOps s) t (exeThread s) (keyThread s) (mainThread s)
    (mtx s) (guard s) (_isRunning s) (_isCancelled s) (heap s) (log s).
Definition set_exe (e : ExePc) (s : State) : State :=
  MkState (unscheduledOps s) (runningOps s) (opThreads s) e (keyThread s) (mainThread s)
    (mtx s) (guard s) (_isRunning s) (_isCancelled s) (heap s) (log s).
Definition set_guard (g : Semaphore) (s : State) : State :=
  MkState (unscheduledOps s) (runningOps s) (opThreads s) (exeThread s) (keyThread s) (mainThread s)
    (mtx s) g (_isRunning s) (_isCancelled s) (heap s) (log s).
Definition set_queue (q : Q) (s : State) : State :=
  MkState q (runningOps s) (opThreads s) (exeThread s) (keyThread s) (mainThread s)
    (mtx s) (guard s) (_isRunning s) (_isCancelled s) (heap s) (log s).
Definition set_running (l : list OpPtr) (s : State) : State :=
  MkState (unscheduledOps s) l (opThreads s) (exeThread s) (keyThread s) (mainThread s)
    (mtx s) (guard s) (_isRunning s) (_isCancelled s) (heap s) (log s).
Definition set_mtx (m : option Tid) (s : State) : State :=
  MkState (unscheduledOps s) (runningOps s) (opThreads s) (exeThread s) (keyThread s) (mainThread s)
    m (guard s) (_isRunning s) (_isCancelled s) (heap s) (log s).
Definition set_flags (r c : bool) (s : State) : State :=
  MkState (unscheduledOps s) (runningOps s) (opThreads s) (exeThread s) (keyThread s) (mainThread s)
    (mtx s) (guard s) r c (heap s) (log s).
Definition set_main (m : MainPc) (s : State) : State :=
  MkState (unscheduledOps s) (runningOps s) (opThreads s) (exeThread s) (keyThread s) m
    (mtx s) (guard s) (_isRunning s) (_isCancelled s) (heap s) (log s).
Definition set_key (k : CallPc) (s : State) : State :=
  MkState (unscheduledOps s) (runningOps s) (opThreads s) (exeThread s) k (mainThread s)
    (mtx s) (guard s) (_isRunning s) (_isCancelled s) (heap s) (log s).
Definition set_log (l : list OpPtr) (s : State) : State :=
  MkState (unscheduledOps s) (runningOps s) (opThreads s) (exeThread s) (keyThread s) (mainThread s)
    (mtx s) (guard s) (_isRunning s) (_isCancelled s) (heap s) l.

(** A use of [*op]: undefined once the operation is deleted. *)
Definition with_op (s : State) (op : OpPtr) (f : Operation -> State) : outcome State :=
  match heap s !! op_id op with Some o => Ok (f o) | None => Undefined end.
Definition put_op (op : OpPtr) (o : Operation) (s : State) : State := set_ops (<[op_id op := o]> (heap s)) s.
Definition delete_op (op : OpPtr) (s : State) : State := set_ops (base.delete (op_id op) (heap s)) s.
Definition set_pc (i : nat) (op : OpPtr) (pc : OpPc) (s : State) : State :=
  set_threads (<[i := (op, pc)]> (opThreads s)) s.

(** *** The operations of the queue *)

Definition queue_ctor (hardware_concurrency : Z) : State :=
  MkState pq_empty [] [] EDone CIdle JoinExecutor None (Semaphore_ctor hardware_concurrency) false false ∅ [].

Definition queue_size (s : State) : nat := length (pq_elems (unscheduledOps s)) + length (runningOps s).
(** The queries, which take no lock. *)
Definition isRunning (s : State) : bool := _isRunning s.
Definition isCancelled (s : State) : bool := _isCancelled s.

(** [add], of an operation made by its constructor. *)
Definition add (op : OpPtr) (s : State) : State :=
  set_queue (pq_push op (unscheduledOps s)) (put_op op (setQueue Operation_ctor) s).

(** [execute]: starts the executor thread. *)
Definition execute (s : State) : State := set_flags true (_isCancelled s) (set_exe EEmpty s).

(** The executor thread. *)
Definition exe_step (s : State) : option (outcome State) :=
  match exeThread s with
  | EEmpty => Some (Ok (set_exe (if pq_is_empty (unscheduledOps s) then EDone else ECancelled) s))
  | ECancelled => Some (Ok (set_exe (if _isCancelled s then EDone else EGuard) s))
  | EGuard => g ← sem_wait (guard s); Some (Ok (set_exe ELock (set_guard g s)))
  | ELock =>
      match mtx s with
      | Some _ => None
      | None =>
          Some match pq_top (unscheduledOps s) with
          | None => Undefined
          | Some op =>
              Ok (set_exe EEmpty (set_threads (opThreads s ++ [(op, TStart)])
                (set_running (runningOps s ++ [op]) (set_queue (pq_pop (unscheduledOps s)) s))))
          end
      end
  | EDone => None
  end.

(** [finishedCondition.notify_one()]: wakes a thread that waits for the end of [op]. *)
Definition wake (op : OpPtr) (c : CallPc) : CallPc :=
  match c with
  | CWaitRunning op' todo => if decide (op' = op) then CCancelRunning todo else c
  | CWaitPending op' => if decide (op' = op) then CDeletePending op' else c
  | _ => c
  end.
Definition notify_finished (op : OpPtr) (s : State) : State :=
  set_key (wake op (keyThread s))
    (set_main match mainThread s with InReset c => InReset (wake op c) | m => m end s).

(** [finished]: under the mutex. *)
Definition finished (op : OpPtr) (s : State) : outcome State :=
  with_op s op (fun _ => delete_op op (set_running (filter (fun o => o <> op) (runningOps s)) s)).

(** The thread of an operation; [execute] of the operation is one step, in which it may
    also notice that it is paused ([pausing]). *)
Definition op_step (pausing : bool) (i : nat) (s : State) : option (outcome State) :=
  match opThreads s !! i with
  | None => None
  | Some (op, pc) =>
      match pc with
      | TStart =>
          Some (with_op s op (fun o =>
            if op_isCancelled o then set_pc i op TFinished s
            else set_pc i op TExecute (put_op op (op_begin o) s)))
      | TExecute =>
          match heap s !! op_id op with
          | None => Some Undefined
          | Some o =>
              if pausing then
                if op_isPaused o then Some (Ok (set_pc i op TPaused s)) else None
              else Some (Ok (set_pc i op TStop (set_log (log s ++ [op]) s)))
          end
      | TPaused => None
      | TStop =>
          Some (with_op s op (fun o => notify_finished op (set_pc i op TFinished (put_op op (op_end o) s))))
      | TFinished =>
          match mtx s with Some _ => None | None => Some (set_pc i op TNotify <$> finished op s) end
      | TNotify => Some (Ok (set_pc i op TEnd (set_guard (sem_notify (guard s)) s)))
      | TEnd => None
      end
  end.

(** [operationWait] returns. *)
Definition op_wakeup (i : nat) (s : State) : option (outcome State) :=
  match opThreads s !! i with
  | Some (op, TPaused) => Some (with_op s op (fun o => set_pc i op TExecute (put_op op (op_resumed o) s)))
  | _ => None
  end.

(** [resume]; the waiting operations are woken. *)
Fixpoint wake_all (n : nat) (s : State) : outcome State :=
  match n with
  | O => Ok s
  | S n => match op_wakeup n s with None => wake_all n s | Some r => s ← r; wake_all n s end
  end.
Definition resume (s : State) : outcome State :=
  if _isCancelled s || _isRunning s then Ok s
  else set_flags true (_isCancelled s) <$> wake_all (length (opThreads s)) s.

(** [++it]: the element behind [op]; elements that others append meanwhile are met, too. *)
Fixpoint after (op : OpPtr) (l : list OpPtr) : option OpPtr :=
  match l with
  | [] => None
  | x :: l => if decide (x = op) then head l else after op l
  end.

(** The loop of [pause], which the mutex does not protect.  The iterator points into the
    list of the running operations: once [finished] has removed the element, it dangles. *)
Definition pause_step (c : CallPc) (s : State) : option (outcome State) :=
  match c with
  | CPausing None => Some (Ok (set_key CPauseLock s))
  | CPausing (Some op) =>
      Some (if decide (op ∈ runningOps s)
            then with_op s op (fun o => set_key (CPauseNext op) (put_op op (op_pause o) s))
            else Undefined)
  | CPauseNext op =>
      Some (if decide (op ∈ runningOps s) then Ok (set_key (CPausing (after op (runningOps s))) s) else Undefined)
  | CPauseLock =>
      match mtx s with
      | Some _ => None
      | None => Some (Ok (set_key CIdle (set_flags false (_isCancelled s) s)))
      end
  | _ => None
  end.

(** The thread [t] is at [c] in its call. *)
Definition place (t : Tid) (c : CallPc) (s : State) : State :=
  match t with TKey => set_key c s | TMain => set_main (InReset c) s end.

(** A call of [cancel] by the thread [t] goes on; [None] is that it has to wait. *)
Definition cancel_step (t : Tid) (c : CallPc) (s : State) : option (outcome State) :=
  match c with
  | CCancelLock =>
      match mtx s with
      | Some _ => None
      | None =>
          Some (Ok (place t (CCancelRunning (runningOps s)) (set_mtx (Some t) (set_flags (_isRunning s) true s))))
      end
  | CCancelRunning [] => Some (Ok (place t CCancelPending s))
  | CCancelRunning (op :: todo) =>
      Some (with_op s op (fun o => place t (CWaitRunning op todo) (put_op op (op_cancel o) s)))
  | CCancelPending =>
      Some match pq_top (unscheduledOps s) with
      | None => Ok (place t CReturned (set_mtx None s))
      | Some op => with_op s op (fun o => place t (CWaitPending op) (put_op op (op_cancel o) s))
      end
  | CDeletePending op =>
      Some (with_op s op (fun _ =>
        place t CCancelPending (set_queue (pq_pop (unscheduledOps s)) (delete_op op s))))
  | _ => None
  end.

(** [finishedCondition.wait] returns without a notification. *)
Definition spurious (t : Tid) (c : CallPc) (s : State) : option (outcome State) :=
  match c with
  | CWaitRunning op todo => Some (Ok (place t (CCancelRunning todo) s))
  | CWaitPending op => Some (Ok (place t (CDeletePending op) s))
  | _ => None
  end.

(** The keys of the key thread: space ([p] in the merger) pauses or resumes, [q] resumes and
    cancels. *)
Inductive Key := Space | Quit_key.

Definition key_press (k : Key) (s : State) : option (outcome State) :=
  match keyThread s with
  | CIdle =>
      match k with
      | Space =>
          if _isRunning s then
            if _isCancelled s then Some (Ok s) else Some (Ok (set_key (CPausing (head (runningOps s))) s))
          else Some (resume s)
      | Quit_key => Some (set_key CCancelLock <$> resume s)
      end
  | _ => None
  end.

Definition key_step (s : State) : option (outcome State) :=
  match keyThread s with
  | CPausing _ | CPauseNext _ | CPauseLock => pause_step (keyThread s) s
  | c => cancel_step TKey c s
  end.

(** [reset] after its call of [cancel]. *)
Definition reset_end (s : State) : State := set_main Returned (set_flags false false (set_threads [] s)).

Definition main_step (s : State) : option (outcome State) :=
  match mainThread s with
  | JoinExecutor => match exeThread s with EDone => Some (Ok (set_main JoinOps s)) | _ => None end
  | JoinOps =>
      if forallb (fun t => bool_decide (snd t = TEnd)) (opThreads s)
      then Some (Ok (set_main (InReset CCancelLock) s)) else None
  | InReset CReturned => Some (Ok (reset_end s))
  | InReset c => cancel_step TMain c s
  | Returned => None
  end.

(** What happens next. *)
Inductive Label :=
  | LExe | LMain
  | LOp (pausing : bool) (i : nat)
  | LKey (k : Key) | LKeyStep
  | LSpurious (t : Tid).

Definition step (l : Label) (s : State) : option (outcome State) :=
  match l with
  | LExe => exe_step s
  | LMain => main_step s
  | LOp pausing i => op_step pausing i s
  | LKey k => key_press k s
  | LKeyStep => key_step s
  | LSpurious TKey => spurious TKey (keyThread s) s
  | LSpurious TMain =>
      match mainThread s with
      | InReset c => spurious TMain c s
      | _ => None
      end
  end.

(** A run along a list of labels. *)
Fixpoint run (ls : list Label) (s : State) : option (outcome State) :=
  match ls with
  | [] => Some (Ok s)
  | l :: ls => match step l s with Some (Ok s) => run ls s | r => r end
  end.

(** The queue, filled and executing. *)
Definition start_queue (hardware_concurrency : Z) (ops : list OpPtr) : State :=
  execute (foldl (fun s op => add op s) (queue_ctor hardware_concurrency) ops).
End queue.
Arguments State : clear implicits.

#[export] Instance operation_queue : PriorityQueue OpPtr opGreaterPriority (list OpPtr).
Proof. apply list_queue; unfold opGreaterPriority; intros; bool_cases; done || lia. Defined.

(** ** Lemmas: threads *)

(** The operations of the threads at a place that [f] selects. *)
Definition pick (f : OpPc -> bool) (l : list (OpPtr * OpPc)) : list OpPtr :=
  omap (fun t => if f (snd t) then Some (fst t) else None) l.
#[global] Arguments pick : simpl never.
(** Before [finished], before [guard.notify], after [execute]. *)
Definition pc_live (pc : OpPc) : bool := match pc with TNotify | TEnd => false | _ => true end.
Definition pc_permit (pc : OpPc) : bool := match pc with TEnd => false | _ => true end.
Definition pc_logged (pc : OpPc) : bool :=
  match pc with TStop | TFinished | TNotify | TEnd => true | _ => false end.

Lemma pick_app f l k : pick f (l ++ k) = pick f l ++ pick f k.
Proof. apply omap_app. Qed.
Lemma pick_cons f op pc l : pick f ((op, pc) :: l) = (if f pc then [op] else []) ++ pick f l.
Proof. unfold pick. csimpl. by destruct (f pc). Qed.
Lemma pick_nil f : pick f [] = [].
Proof. done. Qed.

Lemma pick_elem f l op : op ∈ pick f l <-> exists pc, (op, pc) ∈ l /\ f pc = true.
Proof.
  unfold pick. rewrite list_elem_of_omap. split.
  - intros ([o pc] & Hin & Hf). simpl in Hf. destruct (f pc) eqn:E; [|done]. injection Hf as ->. by exists pc.
  - intros (pc & Hin & Hf). exists (op, pc). split; [done|]. simpl. by rewrite Hf.
Qed.

Lemma pick_subseteq f l op : op ∈ pick f l -> op ∈ l.*1.
Proof. intros (pc & Hin & _)%pick_elem. apply list_elem_of_fmap. by exists (op, pc). Qed.

Lemma pick_all f l : (forall t, t ∈ l -> f (snd t) = true) -> pick f l = l.*1.
Proof.
  induction l as [|[op pc] l IH]; intros Hf; [done|]. pose proof (Hf (op, pc) ltac:(left)) as Hpc. simpl in Hpc. rewrite pick_cons, Hpc.
  csimpl. f_equal. apply IH. intros t Ht. apply Hf. by right.
Qed.

Lemma pick_none f l : (forall t, t ∈ l -> f (snd t) = false) -> pick f l = [].
Proof.
  induction l as [|[op pc] l IH]; intros Hf; [done|]. pose proof (Hf (op, pc) ltac:(left)) as Hpc. simpl in Hpc. rewrite pick_cons, Hpc.
  apply IH. intros t Ht. apply Hf. by right.
Qed.

Lemma threads_split (l : list (OpPtr * OpPc)) i t :
  l !! i = Some t -> exists l1 l2, l = l1 ++ t :: l2 /\ forall y, <[i := y]> l = l1 ++ y :: l2.
Proof.
  intros Hi. exists (take i l), (drop (S i) l). split; [by rewrite take_drop_middle|].
  intros y. apply insert_take_drop. by eapply lookup_lt_Some.
Qed.

Lemma filter_ne (op : OpPtr) (l : list OpPtr) : op ∉ l -> filter (fun o => o <> op) l = l.
Proof.
  intros Hop. induction l as [|o l IH]; [done|]. apply not_elem_of_cons in Hop as [Hne Hop].
  rewrite filter_cons_True by done. by rewrite IH.
Qed.

(** Replacing the place of one thread. *)
Lemma pick_same f l1 l2 op pc pc' :
  f pc = f pc' -> pick f (l1 ++ (op, pc) :: l2) = pick f (l1 ++ (op, pc') :: l2).
Proof. intros Hf. by rewrite !pick_app, !pick_cons, Hf. Qed.

Lemma fst_same (l1 l2 : list (OpPtr * OpPc)) op pc pc' :
  (l1 ++ (op, pc) :: l2).*1 = (l1 ++ (op, pc') :: l2).*1.
Proof. by rewrite !fmap_app, !fmap_cons. Qed.

(** ** The invariant of the queue *)

Definition waits (c : CallPc) : bool :=
  match c with
  | CCancelRunning _ | CWaitRunning _ _ | CCancelPending | CWaitPending _ | CDeletePending _ => true
  | _ => false
  end.

Section invariant.
Context {Q : Type} `{PQ : PriorityQueue OpPtr opGreaterPriority Q}.
Context (n : Z) (n_u32 : in_u32 n).
#[local] Set Default Proof Using "All".

(** What a call of [cancel] by [t] knows while it keeps the mutex. *)
Definition call_ok (t : Tid) (s : State Q) (c : CallPc) : Prop :=
  match c with
  | CIdle | CPausing _ | CPauseNext _ | CPauseLock | CCancelLock | CReturned => mtx s <> Some t
  | CCancelRunning todo => mtx s = Some t /\ (forall o, o ∈ todo -> o ∈ runningOps s)
  | CWaitRunning op todo => mtx s = Some t /\ (forall o, o ∈ todo -> o ∈ runningOps s)
  | CCancelPending => mtx s = Some t
  | CWaitPending op => mtx s = Some t /\ op ∈ pq_elems (unscheduledOps s)
  | CDeletePending op => False
  end.

Definition main_ok (s : State Q) : Prop :=
  match mainThread s with
  | InReset c => call_ok TMain s c
  | _ => mtx s <> Some TMain
  end.

Definition all_ended (s : State Q) : Prop := forall t, t ∈ opThreads s -> snd t = TEnd.

Record Inv (s : State Q) : Prop := {
  i_heap : pq_heap (unscheduledOps s);
  i_ids : NoDup (op_id <$> pq_elems (unscheduledOps s) ++ (opThreads s).*1);
  i_running : runningOps s = pick pc_live (opThreads s);
  i_live : forall k, is_Some (heap s !! k) <->
    k ∈ op_id <$> pq_elems (unscheduledOps s) ++ runningOps s;
  i_cap : 0 <= capacity (guard s) /\ capacity (guard s) + (match exeThread s with ELock => 1 | _ => 0 end) +
    Z.of_nat (length (pick pc_permit (opThreads s))) = n;
  i_exe : match exeThread s with
          | ECancelled | EGuard | ELock => pq_elems (unscheduledOps s) <> []
          | _ => True
          end;
  i_key : call_ok TKey s (keyThread s);
  i_main : main_ok s;
  i_joined : match mainThread s with
             | JoinExecutor => True
             | JoinOps => exeThread s = EDone
             | _ => exeThread s = EDone /\ all_ended s
             end }.

Lemma top_some s op : Inv s -> pq_top (unscheduledOps s) = Some op ->
  pq_elems (unscheduledOps s) ≡ₚ op :: pq_elems (pq_pop (unscheduledOps s)).
Proof. intros [] Ht. by apply pq_pop_elems. Qed.

Lemma live_op s op pc : Inv s -> (op, pc) ∈ opThreads s -> pc_live pc = true -> is_Some (heap s !! op_id op).
Proof.
  intros Hs Hin Hpc. apply (i_live _ Hs). rewrite (i_running _ Hs). apply list_elem_of_fmap.
  exists op. split; [done|]. apply elem_of_app. right. apply pick_elem. by exists pc.
Qed.

Lemma live_running s op : Inv s -> op ∈ runningOps s -> is_Some (heap s !! op_id op).
Proof.
  intros Hs Hin. apply (i_live _ Hs). apply list_elem_of_fmap. exists op. split; [done|].
  apply elem_of_app. by right.
Qed.

Lemma live_pending s op : Inv s -> op ∈ pq_elems (unscheduledOps s) -> is_Some (heap s !! op_id op).
Proof.
  intros Hs Hin. apply (i_live _ Hs). apply list_elem_of_fmap. exists op. split; [done|].
  apply elem_of_app. by left.
Qed.

Lemma exe_inv s r : Inv s -> exe_step s = Some r -> exists s', r = Ok s' /\ Inv s'.
Proof.
  intros Hs Hr. unfold exe_step in Hr. pose proof Hs as []. destruct (exeThread s) eqn:He.
  - injection Hr as <-. eexists. split; [done|]. unfold pq_is_empty.
    destruct (pq_top (unscheduledOps s)) eqn:Ht; split; cbn; try done.
    + intros Hno. apply pq_top_none in Hno. congruence.
    + destruct (mainThread s); naive_solver.
    + destruct (mainThread s); naive_solver.
  - injection Hr as <-. eexists. split; [done|]. destruct (_isCancelled s); split; cbn; try done;
      destruct (mainThread s); naive_solver.
  - unfold sem_wait in Hr. destruct (_ =? 0) eqn:Hc; [done|]. injection Hr as <-. eexists. split; [done|].
    unfold capacity in *. split; cbn; try done; [|destruct (mainThread s); naive_solver].
    rewrite u32_small by lia. lia.
  - destruct (mtx s) eqn:Hm; [done|]. injection Hr as <-. destruct (pq_top (unscheduledOps s)) as [op|] eqn:Ht.
    + pose proof (top_some s op Hs Ht) as Hp. eexists. split; [done|]. split; cbn; try done.
      * by apply pq_pop_heap.
      * rewrite (fmap_app fst). csimpl. rewrite app_assoc, <- Permutation_cons_append. by rewrite Hp in i_ids0.
      * by rewrite pick_app, i_running0.
      * intros k. rewrite i_live0, Hp, app_assoc. cbn [app]. by rewrite <- Permutation_cons_append.
      * rewrite pick_app, length_app, pick_cons, pick_nil. cbn. lia.
      * destruct (keyThread s); naive_solver.
      * unfold main_ok in *. cbn. destruct (mainThread s); try done. destruct c; naive_solver.
      * destruct (mainThread s); naive_solver.
    + exfalso. apply i_exe0. by apply pq_top_none.
  - done.
Qed.

Lemma ids_split s l1 l2 op pc : Inv s -> opThreads s = l1 ++ (op, pc) :: l2 ->
  forall o, o ∈ pq_elems (unscheduledOps s) ++ pick pc_live l1 ++ pick pc_live l2 -> op_id o <> op_id op.
Proof.
  intros Hs Ht. pose proof (i_ids _ Hs) as Hid. rewrite Ht in Hid.
  assert (pq_elems (unscheduledOps s) ++ (l1 ++ (op, pc) :: l2).*1 ≡ₚ
    op :: pq_elems (unscheduledOps s) ++ l1.*1 ++ l2.*1) as Hp.
  { rewrite fmap_app. csimpl. by rewrite <- !Permutation_middle. }
  rewrite Hp, fmap_cons, NoDup_cons in Hid. destruct Hid as [Hni _].
  intros o Hin Heq. apply Hni, list_elem_of_fmap. exists o. split; [done|].
  rewrite !elem_of_app in Hin |- *. destruct Hin as [?|[?|?]]; eauto using pick_subseteq.
Qed.

Lemma put_op_inv s op o : Inv s -> is_Some (heap s !! op_id op) -> Inv (put_op op o s).
Proof.
  intros [] Hop. split; cbn; try done. intros k. rewrite <- i_live0, lookup_insert_is_Some.
  destruct (decide (op_id op = k)) as [<-|]; naive_solver.
Qed.

Lemma set_log_inv s l : Inv s -> Inv (set_log l s).
Proof. intros []. by split. Qed.

Lemma set_flags_inv s r c : Inv s -> Inv (set_flags r c s).
Proof. intros []. by split. Qed.

Lemma set_pc_inv s i op pc pc' :
  Inv s -> opThreads s !! i = Some (op, pc) -> pc_live pc = pc_live pc' ->
  pc_permit pc = true -> pc_permit pc' = true -> Inv (set_pc i op pc' s).
Proof.
  intros [] Hi Hl Hp Hp'. destruct (threads_split _ _ _ Hi) as (l1 & l2 & Ht & Hset).
  unfold set_pc. rewrite Hset. split; cbn; try done.
  - by rewrite (fst_same l1 l2 op pc' pc), <- Ht.
  - by rewrite (pick_same _ l1 l2 op pc' pc), <- Ht.
  - by rewrite (pick_same _ l1 l2 op pc' pc), <- Ht by congruence.
  - assert (~ all_ended s) as Hno.
    { intros Hall. specialize (Hall (op, pc)). rewrite Ht in Hall. simpl in Hall.
      rewrite Hall in Hp by (apply elem_of_app; right; left). done. }
    destruct (mainThread s); naive_solver.
Qed.

Lemma wake_ok t s op c : op ∉ pq_elems (unscheduledOps s) -> call_ok t s c -> call_ok t s (wake op c).
Proof.
  intros Hop. destruct c; cbn; try done; case_decide; subst; naive_solver.
Qed.

Lemma notify_inv s op : Inv s -> op ∉ pq_elems (unscheduledOps s) -> Inv (notify_finished op s).
Proof.
  intros [] Hop. split; cbn; try done.
  - by apply (wake_ok TKey s).
  - unfold main_ok in *. cbn. destruct (mainThread s); try done. by apply (wake_ok TMain s).
  - destruct (mainThread s); naive_solver.
Qed.

Lemma finished_inv s i op r :
  Inv s -> opThreads s !! i = Some (op, TFinished) -> mtx s = None ->
  set_pc i op TNotify <$> finished op s = r -> exists s', r = Ok s' /\ Inv s'.
Proof.
  intros Hs Hi Hm <-. destruct (threads_split _ _ _ Hi) as (l1 & l2 & Ht & Hset).
  pose proof (ids_split _ _ _ _ _ Hs Ht) as Hids.
  destruct (live_op s op TFinished Hs) as [o Ho]; [by eapply list_elem_of_lookup_2|done|].
  unfold finished, with_op. rewrite Ho. eexists. split; [done|].
  destruct Hs. unfold set_pc. cbn [opThreads set_ops set_running delete_op]. rewrite Hset.
  assert (runningOps s ≡ₚ op :: pick pc_live l1 ++ pick pc_live l2 /\
    filter (fun o => o <> op) (runningOps s) = pick pc_live l1 ++ pick pc_live l2) as [Hp Hrun].
  { rewrite i_running0, Ht, !pick_app, !pick_cons. cbn [pc_live app].
    split; [by rewrite <- Permutation_middle|]. rewrite filter_app, filter_cons_False by naive_solver.
    rewrite !filter_ne; [done|intros Hin; apply (Hids op); set_solver..]. }
  split; cbn; try done.
  - by rewrite (fst_same l1 l2 op TNotify TFinished), <- Ht.
  - by rewrite Hrun, pick_app, pick_cons.
  - intros k. rewrite Hrun. setoid_rewrite Hp in i_live0. split.
    + intros [Hne Hk]%lookup_delete_is_Some. apply i_live0 in Hk.
      rewrite <- Permutation_middle in Hk. apply elem_of_cons in Hk as [->|Hk]; done.
    + intros Hk. apply lookup_delete_is_Some. split.
      * apply list_elem_of_fmap in Hk as (o' & -> & Hin). intros Heq. by apply (Hids o').
      * apply i_live0. rewrite <- Permutation_middle. by right.
  - by rewrite (pick_same _ l1 l2 op TNotify TFinished), <- Ht.
  - destruct (keyThread s); naive_solver.
  - unfold main_ok in *. cbn. destruct (mainThread s); try done. destruct c; naive_solver.
  - assert (~ all_ended s) as Hno.
    { intros Hall. specialize (Hall (op, TFinished)). rewrite Ht in Hall. simpl in Hall.
      discriminate Hall. apply elem_of_app. right; left. }
    destruct (mainThread s); naive_solver.
Qed.

Lemma with_op_inv s op f : is_Some (heap s !! op_id op) -> (forall o, heap s !! op_id op = Some o -> Inv (f o)) ->
  exists s', with_op s op f = Ok s' /\ Inv s'.
Proof. intros [o Ho] Hf. unfold with_op. rewrite Ho. eauto. Qed.

Lemma thread_live s i op pc : Inv s -> opThreads s !! i = Some (op, pc) -> pc_live pc = true ->
  is_Some (heap s !! op_id op) /\ op ∉ pq_elems (unscheduledOps s).
Proof.
  intros Hs Hi Hpc. split; [eapply live_op; eauto; by eapply list_elem_of_lookup_2|].
  destruct (threads_split _ _ _ Hi) as (l1 & l2 & Ht & _). intros Hin.
  apply (ids_split _ _ _ _ _ Hs Ht op); [set_solver|done].
Qed.

Lemma op_inv s b i r : Inv s -> op_step b i s = Some r -> exists s', r = Ok s' /\ Inv s'.
Proof.
  intros Hs Hr. unfold op_step in Hr. destruct (opThreads s !! i) as [[op pc]|] eqn:Hi; [|done].
  destruct pc; try done; try (destruct (thread_live _ _ _ _ Hs Hi eq_refl) as [Hlive Hop]).
  - injection Hr as <-. apply with_op_inv; [done|]. intros o Ho.
    destruct (op_isCancelled o); [by eapply set_pc_inv|].
    eapply set_pc_inv; [by apply put_op_inv|done..].
  - destruct Hlive as [o Ho]. rewrite Ho in Hr. destruct b; [destruct (op_isPaused o); [|done]|];
      injection Hr as <-; (eexists; split; [done|]).
    + by eapply set_pc_inv.
    + eapply set_pc_inv; [by apply set_log_inv|done..].
  - injection Hr as <-. apply with_op_inv; [done|]. intros o Ho. apply notify_inv; [|done].
    eapply set_pc_inv; [by apply put_op_inv|done..].
  - destruct (mtx s) eqn:Hm; [done|]. injection Hr as Hr. by eapply finished_inv.
  - injection Hr as <-. eexists. split; [done|].
    destruct (threads_split _ _ _ Hi) as (l1 & l2 & Ht & Hset). unfold set_pc.
    cbn [opThreads set_guard]. rewrite Hset. destruct Hs. split; cbn; try done.
    + by rewrite (fst_same l1 l2 op TEnd TNotify), <- Ht.
    + by rewrite (pick_same _ l1 l2 op TEnd TNotify), <- Ht.
    + rewrite Ht, pick_app, pick_cons, !length_app in i_cap0. cbn [pc_permit length] in i_cap0.
      rewrite pick_app, pick_cons, !length_app. cbn [pc_permit length]. unfold capacity in *.
      rewrite u32_small by (destruct (exeThread s); lia). destruct (exeThread s); lia.
    + assert (~ all_ended s) as Hno.
      { intros Hall. specialize (Hall (op, TNotify)). rewrite Ht in Hall. simpl in Hall.
        discriminate Hall. apply elem_of_app. right; left. }
      destruct (mainThread s); naive_solver.
Qed.

Lemma wakeup_inv s i r : Inv s -> op_wakeup i s = Some r -> exists s', r = Ok s' /\ Inv s'.
Proof.
  intros Hs Hr. unfold op_wakeup in Hr. destruct (opThreads s !! i) as [[op []]|] eqn:Hi; try done.
  injection Hr as <-. apply with_op_inv; [by eapply thread_live|]. intros o Ho.
  eapply set_pc_inv; [apply put_op_inv; [done|by eexists]|done..].
Qed.

Lemma wakeup_mtx i (s s' : State Q) : op_wakeup i s = Some (Ok s') -> mtx s' = mtx s.
Proof.
  clear n n_u32. unfold op_wakeup, with_op. destruct (opThreads s !! i) as [[op []]|]; try done.
  destruct (heap s !! op_id op); intros H; by simplify_eq/=.
Qed.

Lemma wake_all_inv k s : Inv s -> exists s', wake_all k s = Ok s' /\ Inv s' /\ mtx s' = mtx s.
Proof.
  revert s. induction k as [|k IH]; intros s Hs; [by exists s|]. cbn [wake_all].
  destruct (op_wakeup k s) as [r|] eqn:Hr; [|by apply IH].
  destruct (wakeup_inv _ _ _ Hs Hr) as (s' & -> & Hs'). rewrite <- (wakeup_mtx _ _ _ Hr). by apply IH.
Qed.

Lemma resume_inv s : Inv s -> exists s', resume s = Ok s' /\ Inv s' /\ mtx s' = mtx s.
Proof.
  intros Hs. unfold resume. destruct (_ || _); [by exists s|].
  destruct (wake_all_inv (length (opThreads s)) s Hs) as (s' & -> & Hs' & Hm). eexists. split; [done|].
  split; [by apply set_flags_inv|done].
Qed.

Lemma set_key_inv s c : Inv s -> call_ok TKey s c -> Inv (set_key c s).
Proof. intros [] Hc. split; cbn; try done. Qed.

(** The thread [t] is in a call of [cancel]. *)
Definition in_call (t : Tid) (c : CallPc) (s : State Q) : Prop :=
  match t with TKey => keyThread s = c | TMain => mainThread s = InReset c end.

Lemma place_inv t c c' s : Inv s -> in_call t c s -> call_ok t s c' -> Inv (place t c' s).
Proof.
  intros [] Hin Hc. destruct t; cbn in *.
  - by split.
  - rewrite Hin in i_joined0. by split.
Qed.

Lemma set_mtx_inv t c s m : Inv s -> in_call t c s -> m = Some t \/ m = None ->
  (mtx s = None \/ mtx s = Some t) ->
  forall c', call_ok t (set_mtx m s) c' -> Inv (place t c' (set_mtx m s)).
Proof.
  intros [] Hin Hm Hm0 c' Hc. destruct t; cbn in *.
  - split; cbn; try done.
    unfold main_ok in *. cbn. destruct (mainThread s) as [| |c0|]; try (destruct Hm as [-> | ->]; done).
    destruct c0; naive_solver.
  - rewrite Hin in i_joined0. split; cbn; try done.
    destruct (keyThread s); naive_solver.
Qed.

Lemma cancel_inv t c s r : Inv s -> in_call t c s -> call_ok t s c -> cancel_step t c s = Some r ->
  exists s', r = Ok s' /\ Inv s'.
Proof.
  intros Hs Hin Hc Hr. destruct c as [| | | | |[|op todo]|op todo| |op|op|]; cbn in Hr, Hc; try done.
  - destruct (mtx s) eqn:Hm; [done|]. injection Hr as <-. eexists. split; [done|].
    apply (set_mtx_inv t CCancelLock (set_flags (_isRunning s) true s) (Some t));
      [by apply set_flags_inv|by destruct t|by left|by left|done].
  - injection Hr as <-. eexists. split; [done|]. eapply place_inv; [done..|]. by destruct Hc.
  - injection Hr as <-. destruct Hc as [Hm Hc]. apply with_op_inv; [apply live_running; [done|]; apply Hc; left|].
    intros o Ho. eapply (place_inv t (CCancelRunning (op :: todo)));
      [apply put_op_inv; [done|by eexists]|by destruct t|].
    split; [done|]. intros o' Ho'. cbn. apply Hc. by right.
  - injection Hr as <-. destruct (pq_top (unscheduledOps s)) as [op|] eqn:Ht.
    + assert (op ∈ pq_elems (unscheduledOps s)) as Hop by (rewrite (top_some s op Hs Ht); left).
      apply with_op_inv; [by apply live_pending|]. intros o Ho. eapply (place_inv t CCancelPending);
        [apply put_op_inv; [done|by eexists]|by destruct t|]. done.
    + eexists. split; [done|]. apply (set_mtx_inv t CCancelPending); try done; auto.
Qed.

Lemma key_inv s k r : Inv s -> key_press k s = Some r -> exists s', r = Ok s' /\ Inv s'.
Proof.
  intros Hs Hr. unfold key_press in Hr. destruct (keyThread s) eqn:Hk; try done.
  pose proof (i_key _ Hs) as Hm. rewrite Hk in Hm. destruct (resume_inv s Hs) as (s2 & Hq & Hs2 & Hm2).
  rewrite Hq in Hr.
  destruct k; [destruct (_isRunning s); [destruct (_isCancelled s)|]|]; injection Hr as <-; eexists; (split; [done|]); auto;
    (apply set_key_inv; [done|]); cbn; congruence.
Qed.

(** The iterator of a [pause] that dangles: [finished] has removed its element. *)
Definition stale_pause (s : State Q) : Prop :=
  match keyThread s with CPausing (Some op) | CPauseNext op => op ∉ runningOps s | _ => False end.

Lemma pause_step_inv s r : Inv s -> pause_step (keyThread s) s = Some r ->
  (exists s', r = Ok s' /\ Inv s') \/ r = Undefined /\ stale_pause s.
Proof.
  intros Hs Hr. unfold pause_step, stale_pause in *. pose proof (i_key _ Hs) as Hk.
  destruct (keyThread s) as [|[op|]|op| | | | | | | |] eqn:E; try done; cbn in Hk.
  - case_decide as Hop; injection Hr as <-; [left|by right]. apply with_op_inv; [by apply live_running|].
    intros o Ho. apply set_key_inv; [apply put_op_inv; [done|by eexists]|done].
  - left. injection Hr as <-. eexists. split; [done|]. by apply set_key_inv.
  - case_decide as Hop; injection Hr as <-; [left|by right]. eexists. split; [done|]. by apply set_key_inv.
  - left. destruct (mtx s) eqn:Hm; [done|]. injection Hr as <-. eexists. split; [done|].
    apply set_key_inv; [by apply set_flags_inv|]. cbn. congruence.
Qed.

Lemma key_step_inv s r : Inv s -> key_step s = Some r ->
  (exists s', r = Ok s' /\ Inv s') \/ r = Undefined /\ stale_pause s.
Proof.
  intros Hs Hr. unfold key_step in Hr. pose proof (i_key _ Hs) as Hk. destruct (keyThread s) eqn:E;
    first [apply pause_step_inv; [done|by rewrite E]|left; by eapply (cancel_inv TKey _ _ _ Hs E)].
Qed.

Lemma main_inv s r : Inv s -> main_step s = Some r -> exists s', r = Ok s' /\ Inv s'.
Proof.
  intros Hs Hr. unfold main_step in Hr. destruct (mainThread s) as [| |c|] eqn:E; try done.
  - pose proof Hs as []. unfold main_ok in *. rewrite E in *. destruct (exeThread s) eqn:He; try done. injection Hr as <-. eexists. split; [done|].
    split; cbn; rewrite ?He; done.
  - destruct (forallb _ _) eqn:Hall; [|done]. injection Hr as <-. eexists. split; [done|].
    pose proof Hs as []. unfold main_ok in *. rewrite E in *. split; cbn; try done. split; [done|].
    rewrite forallb_forall in Hall. intros t Ht%list_elem_of_In. by apply Hall, bool_decide_eq_true in Ht.
  - destruct (decide (c = CReturned)) as [->|Hc].
    + injection Hr as <-. eexists. split; [done|]. pose proof Hs as []. unfold main_ok in *. rewrite E in *.
      destruct i_joined0 as [He Hall]. rewrite He in *.
      assert (pick pc_live (opThreads s) = [] /\ pick pc_permit (opThreads s) = []) as [Hl Hp].
      { split; apply pick_none; intros t Ht; by rewrite (Hall t Ht). }
      rewrite Hl in *. rewrite Hp in *. split; cbn; rewrite ?He; try done.
      * rewrite fmap_app in i_ids0. apply NoDup_app in i_ids0 as [? _]. by rewrite app_nil_r.
      * split; [done|]. by intros t Ht%elem_of_nil.
    + assert (cancel_step TMain c s = Some r) by (by destruct c). eapply (cancel_inv TMain); try done.
      pose proof (i_main _ Hs) as Hm. unfold main_ok in Hm. by rewrite E in Hm.
Qed.

(** The steps but the wake-ups without a notification: [finishedCondition.wait] has no
    predicate, so after one of them [cancel] goes on although the operation has not ended. *)
Definition notified (l : Label) : bool := match l with LSpurious _ => false | _ => true end.

(** Only the loop of [pause] can do something undefined. *)
Lemma step_inv l s r : notified l = true -> Inv s -> step l s = Some r ->
  (exists s', r = Ok s' /\ Inv s') \/ l = LKeyStep /\ r = Undefined /\ stale_pause s.
Proof.
  intros Hl Hs Hr. destruct l; cbn in Hr; try done;
    try (left; eauto using exe_inv, main_inv, op_inv, key_inv; fail).
  destruct (key_step_inv s r Hs Hr) as [?|[? ?]]; [by left|by right].
Qed.

Lemma step_ok_inv l s s' : notified l = true -> Inv s -> step l s = Some (Ok s') -> Inv s'.
Proof. intros Hl Hs Hr. destruct (step_inv l s _ Hl Hs Hr) as [(s1 & [= <-] & ?)|(_ & ? & _)]; done. Qed.

Lemma step_defined l s r : notified l = true -> l <> LKeyStep -> Inv s -> step l s = Some r ->
  exists s', r = Ok s' /\ Inv s'.
Proof. intros Hl Hne Hs Hr. destruct (step_inv l s _ Hl Hs Hr) as [?|[? _]]; done. Qed.

Lemma add_inv s op : Inv s -> op_id op ∉ op_id <$> pq_elems (unscheduledOps s) ++ (opThreads s).*1 ->
  exeThread s = EDone -> keyThread s = CIdle -> mainThread s = JoinExecutor -> mtx s = None ->
  Inv (add op s) /\ pq_elems (unscheduledOps (add op s)) ≡ₚ op :: pq_elems (unscheduledOps s).
Proof.
  intros [] Hop He Hk Hm Hx.
  assert (pq_elems (pq_push op (unscheduledOps s)) ≡ₚ op :: pq_elems (unscheduledOps s)) as Hp by by apply pq_push_elems.
  split; [|done]. unfold main_ok in *. rewrite He, Hk, Hm in *. split; unfold main_ok; cbn; rewrite ?He, ?Hk, ?Hm; try done.
  - by apply pq_push_heap.
  - rewrite Hp. cbn [app]. rewrite fmap_cons. by constructor.
  - intros k. rewrite Hp. cbn [app]. rewrite fmap_cons, elem_of_cons, lookup_insert_is_Some, i_live0.
    destruct (decide (op_id op = k)) as [->|]; naive_solver.
Qed.

Lemma add_all_inv ops s : Inv s -> NoDup (op_id <$> pq_elems (unscheduledOps s) ++ ops) -> opThreads s = [] ->
  exeThread s = EDone -> keyThread s = CIdle -> mainThread s = JoinExecutor -> mtx s = None ->
  let s' := foldl (fun s op => add op s) s ops in
  Inv s' /\ pq_elems (unscheduledOps s') ≡ₚ pq_elems (unscheduledOps s) ++ ops.
Proof.
  revert s. induction ops as [|op ops IH]; intros s Hs Hnd Ht He Hk Hm Hx; cbn [foldl]; [by rewrite app_nil_r|].
  rewrite <- Permutation_middle, fmap_cons in Hnd. apply NoDup_cons in Hnd as [Hni Hnd].
  destruct (add_inv s op Hs) as [Hs' Hp]; [|done..|].
  { rewrite Ht, app_nil_r. intros Hin. apply Hni. rewrite fmap_app, elem_of_app. by left. }
  destruct (IH (add op s)) as [Hs'' Hp'']; [done| |done..|].
  - rewrite Hp. cbn [app]. rewrite fmap_cons. by constructor.
  - split; [done|]. rewrite Hp'', Hp. cbn [app]. by rewrite Permutation_middle.
Qed.

Lemma add_all_frame ops (s : State Q) : let s' := foldl (fun s op => add op s) s ops in
  exeThread s' = exeThread s /\ keyThread s' = keyThread s /\ mainThread s' = mainThread s /\
  opThreads s' = opThreads s /\ mtx s' = mtx s /\ _isCancelled s' = _isCancelled s /\ log s' = log s.
Proof.
  clear n n_u32. revert s. induction ops as [|op ops IH]; intros s; [done|]. cbn [foldl]. apply (IH (add op s)).
Qed.

Lemma start_inv ops : NoDup (op_id <$> ops) ->
  Inv (start_queue n ops) /\ pq_elems (unscheduledOps (start_queue (Q := Q) n ops)) ≡ₚ ops.
Proof.
  intros Hnd. destruct (add_all_inv ops (queue_ctor n)) as [Hs Hp]; try done.
  - split; cbn; try done.
    + apply pq_heap_empty.
    + rewrite pq_elems_empty. constructor.
    + intros k. rewrite lookup_empty, pq_elems_empty. split; [by intros []|by intros ?%elem_of_nil].
    + unfold capacity. cbn. rewrite pick_nil. cbn. lia.
  - cbn. by rewrite pq_elems_empty.
  - destruct (add_all_frame ops (queue_ctor n)) as (He & Hk & Hm & Ht & _).
    unfold start_queue. split; [|rewrite Hp; cbn; by rewrite pq_elems_empty].
    destruct Hs. rewrite He in *. unfold main_ok in *. rewrite Hm in *.
    split; unfold main_ok; cbn; rewrite ?Hm; done.
Qed.
End invariant.

(** ** The queue without the keyboard: every operation is run *)

(** The steps of the executor, the main thread and the operations. *)
Inductive worker : Label -> Prop :=
  | worker_exe : worker LExe
  | worker_main : worker LMain
  | worker_op i : worker (LOp false i).

Section worker.
Context {Q : Type} `{PQ : PriorityQueue OpPtr opGreaterPriority Q}.
Context (n : Z) (n_u32 : in_u32 n) (ops : list OpPtr).
#[local] Set Default Proof Using "All".

Definition higher (x y : OpPtr) : Prop := priority y <= priority x.

(** Before [reset]. *)
Record Joining (s : State Q) : Prop := {
  j_mtx : mtx s = None;
  j_cancelled : _isCancelled s = false;
  j_flags : map_Forall (fun _ o => op_isCancelled o = false) (heap s);
  j_paused : forall t, t ∈ opThreads s -> snd t <> TPaused;
  j_all : pq_elems (unscheduledOps s) ++ (opThreads s).*1 ≡ₚ ops;
  j_log : log s ≡ₚ pick pc_logged (opThreads s);
  j_order : StronglySorted higher (opThreads s).*1;
  j_left : forall x y, x ∈ (opThreads s).*1 -> y ∈ pq_elems (unscheduledOps s) -> higher x y;
  j_done : exeThread s = EDone -> pq_elems (unscheduledOps s) = [] }.

(** In [reset] and after it. *)
Record Joined (s : State Q) : Prop := {
  jd_elems : pq_elems (unscheduledOps s) = [];
  jd_running : runningOps s = [];
  jd_log : log s ≡ₚ ops }.

Definition reset_ok (c : CallPc) (m : option Tid) : Prop :=
  match c with
  | CCancelLock | CReturned => m = None
  | CCancelRunning [] | CCancelPending => True
  | _ => False
  end.

Record Working (s : State Q) : Prop := {
  w_inv : Inv n s;
  w_key : keyThread s = CIdle;
  w_main : match mainThread s with
           | JoinExecutor | JoinOps => Joining s
           | InReset c => Joined s /\ reset_ok c (mtx s)
           | Returned => Joined s /\ _isCancelled s = false /\ opThreads s = []
           end }.

Definition pc_weight (pc : OpPc) : nat :=
  match pc with TStart => 5 | TExecute => 4 | TPaused => 0 | TStop => 3 | TFinished => 2 | TNotify => 1 | TEnd => 0 end.
Definition exe_weight (e : ExePc) : nat :=
  match e with EEmpty => 4 | ECancelled => 3 | EGuard => 2 | ELock => 1 | EDone => 0 end.
Definition main_weight (m : MainPc) : nat :=
  match m with
  | JoinExecutor => 8 | JoinOps => 7 | Returned => 0
  | InReset c =>
      match c with CCancelLock => 6 | CCancelRunning _ => 5 | CCancelPending => 4 | CReturned => 3 | _ => 9 end
  end.
Definition threads_weight (s : State Q) : nat := sum_list_with (fun t => pc_weight (snd t)) (opThreads s).
Definition weight (s : State Q) : nat :=
  9 * length (pq_elems (unscheduledOps s)) + threads_weight s +
  exe_weight (exeThread s) + main_weight (mainThread s).

Lemma ended_exe_blocked (s : State Q) : exeThread s = EDone -> exe_step s = None.
Proof. clear n n_u32 ops. intros He. unfold exe_step. by rewrite He. Qed.

Lemma ended_op_blocked (s : State Q) b i : all_ended s -> op_step b i s = None.
Proof.
  clear n n_u32 ops. intros Hall. unfold op_step. destruct (opThreads s !! i) as [[op pc]|] eqn:Hi; [|done].
  specialize (Hall (op, pc)). simpl in Hall. rewrite Hall; [done|]. by eapply list_elem_of_lookup_2.
Qed.

(** One thread moves on; the other fields a worker depends on stay. *)
Lemma joining_move s s' i op pc pc' extra :
  Joining s -> opThreads s !! i = Some (op, pc) -> opThreads s' = <[i := (op, pc')]> (opThreads s) ->
  mtx s' = mtx s -> _isCancelled s' = _isCancelled s -> unscheduledOps s' = unscheduledOps s ->
  exeThread s' = exeThread s -> log s' = log s ++ extra ->
  map_Forall (fun _ o => op_isCancelled o = false) (heap s') -> pc' <> TPaused ->
  (if pc_logged pc' then [op] else []) = (if pc_logged pc then [op] else []) ++ extra ->
  (pc_weight pc' < pc_weight pc)%nat ->
  Joining s' /\ (threads_weight s' < threads_weight s)%nat.
Proof.
  intros [] Hi Ht Hm Hc Hu He Hlog Hfl Hpc Hextra Hw.
  destruct (threads_split _ _ _ Hi) as (l1 & l2 & Hs & Hset). rewrite Hset in Ht.
  assert ((opThreads s').*1 = (opThreads s).*1) as Hfst by by rewrite Ht, Hs, !fmap_app.
  split.
  - split; rewrite ?Hm, ?Hc, ?Hu, ?He, ?Hfst; try done.
    + rewrite Ht. rewrite Hs in j_paused0. intros t Hin. rewrite elem_of_app, elem_of_cons in Hin.
      destruct Hin as [Hin|[->|Hin]]; [apply j_paused0; set_solver|done|apply j_paused0; set_solver].
    + rewrite Hlog, Ht, j_log0, Hs, !pick_app, !pick_cons, Hextra. solve_Permutation.
  - unfold threads_weight. rewrite Ht, Hs, !sum_list_with_app. simpl. lia.
Qed.

Lemma joining_op s i s' : Inv n s -> keyThread s = CIdle -> Joining s ->
  mainThread s = JoinExecutor \/ mainThread s = JoinOps -> op_step false i s = Some (Ok s') ->
  Joining s' /\ (threads_weight s' < threads_weight s)%nat /\ unscheduledOps s' = unscheduledOps s /\
  exeThread s' = exeThread s /\ mainThread s' = mainThread s /\ keyThread s' = CIdle.
Proof.
  intros Hs Hk Hj Hmain Hr. unfold op_step in Hr. destruct (opThreads s !! i) as [[op pc]|] eqn:Hi; [|done].
  assert (forall o o', heap s !! op_id op = Some o -> op_isCancelled o' = op_isCancelled o ->
    map_Forall (fun _ o => op_isCancelled o = false) (<[op_id op := o']> (heap s))) as Hput.
  { intros o o' Ho Ho'. apply map_Forall_insert_2; [|apply j_flags; done].
    rewrite Ho'. by apply (j_flags _ Hj (op_id op)). }
  destruct pc; try done; unfold with_op in Hr.
  - destruct (heap s !! op_id op) as [o|] eqn:Ho; [|done]. injection Hr as Hr.
    rewrite (j_flags _ Hj _ _ Ho) in Hr. subst s'.
    destruct (joining_move s (set_pc i op TExecute (put_op op (op_begin o) s)) i op TStart TExecute [] Hj Hi) as [? ?];
      cbn; try done; [by rewrite app_nil_r|by eapply Hput|lia].
  - destruct (heap s !! op_id op) as [o|] eqn:Ho; [|done]. injection Hr as <-.
    destruct (joining_move s (set_pc i op TStop (set_log (log s ++ [op]) s)) i op TExecute TStop [op] Hj Hi) as [? ?];
      cbn; try done; [apply j_flags; done|lia].
  - destruct (heap s !! op_id op) as [o|] eqn:Ho; [|done]. injection Hr as <-.
    destruct (joining_move s (notify_finished op (set_pc i op TFinished (put_op op (op_end o) s))) i op TStop TFinished [] Hj Hi) as [? ?];
      cbn; try done; [by rewrite app_nil_r|by eapply Hput|lia|]. rewrite Hk. split_and!; try done.
    by destruct Hmain as [-> | ->].
  - rewrite (j_mtx _ Hj) in Hr. unfold finished, with_op in Hr.
    destruct (heap s !! op_id op) as [o|] eqn:Ho; [|done]. injection Hr as <-.
    destruct (joining_move s (set_pc i op TNotify (delete_op op
      (set_running (filter (fun o => o <> op) (runningOps s)) s))) i op TFinished TNotify [] Hj Hi) as [? ?];
      cbn; try done; [by rewrite app_nil_r|apply map_Forall_delete, j_flags; done|lia].
  - injection Hr as <-.
    destruct (joining_move s (set_pc i op TEnd (set_guard (sem_notify (guard s)) s)) i op TNotify TEnd [] Hj Hi) as [? ?];
      cbn; try done; [by rewrite app_nil_r|apply j_flags; done|lia].
Qed.

Lemma higher_snoc l x : StronglySorted higher l -> (forall y, y ∈ l -> higher y x) -> StronglySorted higher (l ++ [x]).
Proof.
  clear n n_u32 ops. intros Hl Hx. induction Hl as [|y l Hl IH Hy]; cbn [app]; [by repeat constructor|].
  constructor; [apply IH; intros z Hz; apply Hx; by right|]. apply Forall_app. split; [done|].
  constructor; [apply Hx; left|constructor].
Qed.

Lemma joining_exe s s' : Inv n s -> Joining s -> exe_step s = Some (Ok s') ->
  Joining s' /\ mainThread s' = mainThread s /\ keyThread s' = keyThread s /\
  (9 * length (pq_elems (unscheduledOps s')) + threads_weight s' + exe_weight (exeThread s') <
   9 * length (pq_elems (unscheduledOps s)) + threads_weight s + exe_weight (exeThread s))%nat.
Proof.
  intros Hs Hj Hr. unfold exe_step in Hr. pose proof Hj as []. destruct (exeThread s) eqn:He; try done.
  - injection Hr as <-. unfold pq_is_empty. destruct (pq_top (unscheduledOps s)) as [op|] eqn:Ht; cbn.
    + repeat split; cbn; try done. unfold threads_weight. cbn. lia.
    + repeat split; cbn; try done; [intros _; by apply pq_top_none|]. unfold threads_weight. cbn. lia.
  - injection Hr as <-. rewrite j_cancelled0. repeat split; cbn; try done. unfold threads_weight. cbn. lia.
  - destruct (sem_wait (guard s)); [|done]. injection Hr as <-. repeat split; cbn; try done.
    unfold threads_weight. cbn. lia.
  - rewrite j_mtx0 in Hr. injection Hr as Hr. destruct (pq_top (unscheduledOps s)) as [op|] eqn:Ht; [|done].
    injection Hr as <-. pose proof (top_some n n_u32 s op Hs Ht) as Hp.
    pose proof (pq_top_elem _ _ (i_heap _ _ Hs) Ht) as Htop. rewrite Forall_forall in Htop.
    repeat split; cbn; try done.
    + intros t Hin. apply elem_of_app in Hin as [Hin|Hin]; [by apply j_paused0|].
      apply list_elem_of_singleton in Hin as ->. done.
    + rewrite fmap_app. csimpl. rewrite <- j_all0, Hp. solve_Permutation.
    + by rewrite j_log0, pick_app, pick_cons, pick_nil, !app_nil_r.
    + rewrite fmap_app. csimpl. apply higher_snoc; [done|]. intros y Hy. apply j_left0; [done|]. rewrite Hp. left.
    + intros x y Hx Hy. rewrite fmap_app in Hx. csimpl. apply elem_of_app in Hx as [Hx|Hx].
      * apply j_left0; [done|]. rewrite Hp. by right.
      * apply list_elem_of_singleton in Hx as ->. specialize (Htop y). rewrite Hp in Htop.
        assert (opGreaterPriority op y = false) as Hg by (apply Htop; by right).
        unfold opGreaterPriority, higher in *. cbn. lia.
    + unfold threads_weight. cbn. rewrite sum_list_with_app, Hp. simpl. lia.
Qed.

(** Every step keeps the invariant and makes the weight smaller. *)
Lemma working_step l s s' : Working s -> worker l -> step l s = Some (Ok s') ->
  Working s' /\ (weight s' < weight s)%nat.
Proof.
  intros Hw Hl Hr. pose proof Hw as [Hs Hk Hm].
  assert (Inv n s') as Hs' by (apply (step_ok_inv n n_u32 l s); [by destruct Hl|done..]).
  destruct (mainThread s) as [| |c|] eqn:Hmain; cycle 2.
  1-2: assert (exeThread s = EDone /\ all_ended s) as [He Hall] by (pose proof (i_joined _ _ Hs) as H; by rewrite Hmain in H).
  1-2: destruct Hl; cbn in Hr;
    [by rewrite ended_exe_blocked in Hr| |by rewrite (ended_op_blocked s false i Hall) in Hr];
    unfold main_step in Hr; rewrite Hmain in Hr; try done.
  - destruct Hm as [[He' Hrun Hlog] Hreset]. unfold weight, threads_weight. rewrite Hmain.
    destruct c as [| | | | |[|op todo]|op todo| |op|op|]; try done; cbn in Hr, Hreset.
    + rewrite Hreset, Hrun in Hr. injection Hr as <-. cbn. split; [|lia]. split; [done..|]. cbn. split; [by split|done].
    + injection Hr as <-. cbn. split; [|lia]. split; [done..|]. cbn. split; [by split|done].
    + destruct (pq_top (unscheduledOps s)) as [op|] eqn:Ht.
      { assert (pq_top (unscheduledOps s) = None) by by apply pq_top_none. congruence. }
      injection Hr as <-. cbn. split; [|lia]. split; [done..|]. cbn. split; [by split|done].
    + injection Hr as <-. cbn. split; [|lia]. split; [done..|]. cbn. split; [by split|done].
  - destruct Hl as [| |i]; cbn in Hr.
    + destruct (joining_exe s s' Hs Hm Hr) as (Hj & Hmm & Hkk & Hlt). split; [|unfold weight; rewrite Hmm; lia].
      split; [done|congruence|]. by rewrite Hmm, Hmain.
    + unfold main_step in Hr. rewrite Hmain in Hr. destruct (exeThread s) eqn:He; try done. injection Hr as <-.
      split; [|unfold weight, threads_weight; cbn; rewrite Hmain; cbn; lia]. split; [done..|].
      cbn. destruct Hm. by split.
    + destruct (joining_op s i s' Hs Hk Hm) as (Hj & Hlt & Hu & He & Hmm & Hkk); [by left|done|].
      split; [|unfold weight; rewrite Hu, He, Hmm; lia]. split; [done..|]. by rewrite Hmm, Hmain.
  - assert (exeThread s = EDone) as He by (pose proof (i_joined _ _ Hs) as H; by rewrite Hmain in H).
    destruct Hl as [| |i]; cbn in Hr.
    + by rewrite ended_exe_blocked in Hr.
    + unfold main_step in Hr. rewrite Hmain in Hr. destruct (forallb _ _) eqn:Hall; [|done]. injection Hr as <-.
      split; [|unfold weight, threads_weight; cbn; rewrite Hmain; cbn; lia]. split; [done..|]. cbn. destruct Hm.
      assert (all_ended s) as Hend.
      { rewrite forallb_forall in Hall. intros t Ht%list_elem_of_In. by apply Hall, bool_decide_eq_true in Ht. }
      split; [|done]. specialize (j_done0 He). split; cbn; [done|..].
      * rewrite (i_running _ _ Hs). apply pick_none. intros t Ht. by rewrite (Hend t Ht).
      * rewrite j_log0, <- j_all0, j_done0. cbn [app]. rewrite pick_all; [done|]. intros t Ht. by rewrite (Hend t Ht).
    + destruct (joining_op s i s' Hs Hk Hm) as (Hj & Hlt & Hu & Hee & Hmm & Hkk); [by right|done|].
      split; [|unfold weight; rewrite Hu, Hee, Hmm; lia]. split; [done..|]. by rewrite Hmm, Hmain.
Qed.

Definition worker_step (s s' : State Q) : Prop := exists l, worker l /\ step l s = Some (Ok s').

Lemma working_reach s s' : Working s -> rtc worker_step s s' -> Working s'.
Proof. intros Hw. induction 1 as [|s s' s'' (l & Hl & Hs) _ IH]; [done|]. apply IH. by eapply working_step. Qed.

Lemma add_all_flags l (s : State Q) : map_Forall (fun _ o => op_isCancelled o = false) (heap s) ->
  map_Forall (fun _ o => op_isCancelled o = false) (heap (foldl (fun s op => add op s) s l)).
Proof.
  clear n n_u32 ops. revert s. induction l as [|op l IH]; intros s Hs; [done|]. apply IH. cbn.
  by apply map_Forall_insert_2.
Qed.

Lemma working_start : NoDup (op_id <$> ops) -> Working (start_queue n ops).
Proof.
  intros Hnd. destruct (start_inv n n_u32 (Q := Q) ops Hnd) as [Hs Hp]. split; [done|..].
  - unfold start_queue. cbn. by destruct (add_all_frame n n_u32 ops (queue_ctor (Q := Q) n)) as (_ & -> & _).
  - pose proof (add_all_frame n n_u32 ops (queue_ctor (Q := Q) n)) as (He & Hk & Hm & Ht & Hx & Hc & Hl).
    unfold start_queue in *. cbn in *. rewrite Hm. split; cbn; rewrite ?Ht, ?Hx, ?Hc, ?Hl, ?Hp; try done.
    + apply add_all_flags. by intros k o.
    + by intros t Hin%elem_of_nil.
    + by rewrite app_nil_r.
    + constructor.
    + by intros x y Hin%elem_of_nil.
Qed.

Lemma thread_progress s op pc : Inv n s -> Joining s -> (op, pc) ∈ opThreads s -> pc <> TEnd ->
  exists i r, op_step false i s = Some r.
Proof.
  intros Hs Hj Hin Hpc. pose proof (j_paused _ Hj _ Hin) as Hpa. cbn in Hpa.
  apply list_elem_of_lookup in Hin as [i Hi]. exists i. unfold op_step. rewrite Hi, (j_mtx _ Hj).
  destruct pc; try done; try by eexists.
  destruct (thread_live n n_u32 s i op TExecute Hs Hi eq_refl) as [[o ->] _]. by eexists.
Qed.

(** Something can happen unless the main thread has returned. *)
Lemma working_progress s : 0 < n -> Working s -> mainThread s <> Returned ->
  exists l s', worker l /\ step l s = Some (Ok s').
Proof.
  intros Hn Hw Hret. pose proof Hw as [Hs Hk Hm].
  assert (forall l r, worker l -> step l s = Some r -> exists l s', worker l /\ step l s = Some (Ok s')) as Hgo.
  { intros l r Hl Hr. destruct (step_defined n n_u32 l s r) as (s' & -> & _); [by destruct Hl..|done|done|]. by exists l, s'. }
  destruct (mainThread s) as [| |c|] eqn:Hmain; [| | |done].
  - destruct (exeThread s) eqn:He.
    + eapply (Hgo LExe); [constructor|]. cbn. unfold exe_step. by rewrite He.
    + eapply (Hgo LExe); [constructor|]. cbn. unfold exe_step. by rewrite He.
    + destruct (pick pc_permit (opThreads s)) as [|op l] eqn:Hp.
      * eapply (Hgo LExe); [constructor|]. cbn. unfold exe_step, sem_wait. rewrite He.
        pose proof (i_cap _ _ Hs) as [_ Hcap]. rewrite He, Hp in Hcap. cbn in Hcap. unfold capacity in Hcap.
        rewrite (proj2 (Z.eqb_neq _ _)) by lia. done.
      * assert (op ∈ pick pc_permit (opThreads s)) as (pc & Hin & Hpc)%pick_elem by (rewrite Hp; left).
        destruct (thread_progress s op pc Hs Hm Hin) as (i & r & Hr); [by intros ->|].
        by apply (Hgo (LOp false i) r (worker_op i)).
    + eapply (Hgo LExe); [constructor|]. cbn. unfold exe_step. by rewrite He, (j_mtx _ Hm).
    + eapply (Hgo LMain); [constructor|]. cbn. unfold main_step. by rewrite Hmain, He.
  - destruct (forallb (fun t => bool_decide (snd t = TEnd)) (opThreads s)) eqn:Hall.
    + eapply (Hgo LMain); [constructor|]. cbn. unfold main_step. by rewrite Hmain, Hall.
    + apply not_true_iff_false in Hall. rewrite forallb_forall in Hall.
      destruct (decide (Exists (fun t => snd t <> TEnd) (opThreads s))) as [Hex|Hno].
      * apply Exists_exists in Hex as ([op pc] & Hin & Hpc).
        destruct (thread_progress s op pc Hs Hm Hin Hpc) as (i & r & Hr). by apply (Hgo (LOp false i) r (worker_op i)).
      * exfalso. apply Hall. intros t Ht%list_elem_of_In. apply bool_decide_eq_true.
        destruct (decide (snd t = TEnd)); [done|]. exfalso. apply Hno, Exists_exists. by exists t.
  - destruct Hm as [_ Hm]. destruct c as [| | | | |[|op todo]|op todo| |op|op|]; try done;
      (eapply (Hgo LMain); [constructor|]); cbn; unfold main_step; rewrite Hmain; cbn; rewrite ?Hm; done.
Qed.
End worker.

(** ** What the steps keep *)

Section frame.
Context {Q : Type} `{PQ : PriorityQueue OpPtr opGreaterPriority Q}.

(** The operations that are pending or have a thread. *)
Definition known (s : State Q) : list OpPtr := pq_elems (unscheduledOps s) ++ (opThreads s).*1.

(** No operation comes or goes, none ends. *)
Definition kept (s s' : State Q) : Prop :=
  unscheduledOps s' = unscheduledOps s /\ (opThreads s').*1 = (opThreads s).*1 /\ log s' = log s.

#[export] Instance kept_preorder : PreOrder kept.
Proof. split; [by intros s|]. intros s1 s2 s3 (H1 & H2 & H3) (H4 & H5 & H6). unfold kept. by rewrite H4, H5, H6. Qed.

Lemma inv_running_bound n (s : State Q) : Inv n s -> Z.of_nat (length (runningOps s)) <= n.
Proof.
  intros Hs. pose proof (i_cap _ _ Hs) as [? Hcap]. rewrite (i_running _ _ Hs).
  assert (length (pick pc_live (opThreads s)) <= length (pick pc_permit (opThreads s)))%nat.
  { clear. induction (opThreads s) as [|[op []] l IH]; [done|..]; rewrite !pick_cons; cbn; lia. }
  destruct (exeThread s); lia.
Qed.

Lemma set_pc_fst i op pc pc' (s : State Q) :
  opThreads s !! i = Some (op, pc) -> (<[i := (op, pc')]> (opThreads s)).*1 = (opThreads s).*1.
Proof. intros Hi. rewrite list_fmap_insert. apply list_insert_id. by rewrite list_lookup_fmap, Hi. Qed.

Lemma with_op_kept op f (s s' : State Q) : (forall o, kept s (f o)) -> with_op s op f = Ok s' -> kept s s'.
Proof. intros Hf Hw. unfold with_op in Hw. destruct (heap s !! op_id op); [|done]. by injection Hw as <-. Qed.

Lemma op_wakeup_kept i (s s' : State Q) : op_wakeup i s = Some (Ok s') -> kept s s'.
Proof.
  unfold op_wakeup. destruct (opThreads s !! i) as [[op []]|] eqn:Hi; try done. intros [= Hw].
  eapply with_op_kept; [|exact Hw]. intros o. split; [done|]. split; [|done]. exact (set_pc_fst _ _ _ _ s Hi).
Qed.

Lemma wake_all_kept k (s s' : State Q) : wake_all k s = Ok s' -> kept s s'.
Proof.
  revert s. induction k as [|k IH]; intros s Hw; cbn in Hw; [by injection Hw as <-|].
  destruct (op_wakeup k s) as [r|] eqn:Hr; [|by apply IH]. destruct r as [s1| | |]; try done.
  transitivity s1; [by eapply op_wakeup_kept|by apply IH].
Qed.

Lemma resume_kept (s s' : State Q) : resume s = Ok s' -> kept s s'.
Proof.
  unfold resume. destruct (_ || _); [by intros [= <-]|].
  destruct (wake_all _ s) as [s1| | |] eqn:Hw; try done. intros [= <-]. by apply wake_all_kept in Hw.
Qed.

Lemma pause_step_kept c (s s' : State Q) : pause_step c s = Some (Ok s') -> kept s s'.
Proof.
  intros Hr. destruct c as [|[op|]|op| | | | | | | |]; try done; cbn in Hr.
  - case_decide; [|done]. injection Hr as Hr. by eapply with_op_kept; [|exact Hr].
  - by injection Hr as <-.
  - case_decide; [|done]. by injection Hr as <-.
  - destruct (mtx s); [done|]. by injection Hr as <-.
Qed.

Lemma place_kept t c (s : State Q) : kept s (place t c s).
Proof. by destruct t. Qed.

Lemma cancel_step_kept t c (s s' : State Q) : call_ok t s c -> cancel_step t c s = Some (Ok s') -> kept s s'.
Proof.
  intros Hc Hr. destruct c as [| | | | |[|op todo]|op todo| |op|op|]; try done; cbn in Hr.
  - destruct (mtx s); [done|]. injection Hr as <-. by destruct t.
  - injection Hr as <-. by destruct t.
  - injection Hr as Hr. eapply with_op_kept; [|exact Hr]. intros o. by destruct t.
  - injection Hr as Hr. destruct (pq_top _) as [op|]; [|injection Hr as <-; by destruct t].
    eapply with_op_kept; [|exact Hr]. intros o. by destruct t.
Qed.

(** Threads are started for known operations, and an operation is logged when its thread
    leaves [execute]. *)
Lemma op_step_frame b i (s s' : State Q) : op_step b i s = Some (Ok s') ->
  unscheduledOps s' = unscheduledOps s /\ (opThreads s').*1 = (opThreads s).*1 /\
  (log s' = log s \/ exists op, b = false /\ opThreads s !! i = Some (op, TExecute) /\ log s' = log s ++ [op]).
Proof.
  intros Hr. unfold op_step, finished, with_op in Hr. destruct (opThreads s !! i) as [[op pc]|] eqn:Hi; [|done].
  destruct pc; try done; try (destruct (heap s !! op_id op) as [o|]; [|done]).
  - injection Hr as <-. destruct (op_isCancelled o); (split; [done|]; split; [exact (set_pc_fst _ _ _ _ s Hi)|by left]).
  - destruct b.
    + destruct (op_isPaused o); [|done]. injection Hr as <-. split; [done|]. split; [exact (set_pc_fst _ _ _ _ s Hi)|by left].
    + injection Hr as <-. split; [done|]. split; [exact (set_pc_fst _ _ _ _ s Hi)|]. right. by exists op.
  - injection Hr as <-. split; [done|]. split; [exact (set_pc_fst _ _ _ _ s Hi)|by left].
  - destruct (mtx s); [done|]. destruct (heap s !! op_id op); [|done]. injection Hr as <-.
    split; [done|]. split; [exact (set_pc_fst _ _ _ _ s Hi)|by left].
  - injection Hr as <-. split; [done|]. split; [exact (set_pc_fst _ _ _ _ s Hi)|by left].
Qed.

Lemma step_frame n l (s s' : State Q) : Inv n s -> notified l = true -> step l s = Some (Ok s') ->
  (forall op, op ∈ known s' -> op ∈ known s) /\
  (log s' = log s \/ exists i op, l = LOp false i /\ opThreads s !! i = Some (op, TExecute) /\ log s' = log s ++ [op]).
Proof.
  intros Hs Hl Hr.
  assert (kept s s' -> (forall op, op ∈ known s' -> op ∈ known s) /\ (log s' = log s \/
    exists i op, l = LOp false i /\ opThreads s !! i = Some (op, TExecute) /\ log s' = log s ++ [op])) as Hkept.
  { intros (Hu & Ht & Hlog). unfold known. rewrite Hu, Ht. auto. }
  destruct l as [| |b i|k| |t]; cbn in Hr; try done.
  - unfold exe_step in Hr. destruct (exeThread s); try done; try (injection Hr as <-; by apply Hkept).
    + destruct (sem_wait (guard s)); [|done]. injection Hr as <-. by apply Hkept.
    + destruct (mtx s); [done|]. destruct (pq_top (unscheduledOps s)) as [op|] eqn:Ht; [|done]. injection Hr as <-.
      split; [|by left]. unfold known. cbn. intros op'. rewrite (pq_pop_elems _ _ (i_heap _ _ Hs) Ht), fmap_app. set_solver.
  - unfold main_step in Hr. pose proof (i_main _ _ Hs) as Hm. unfold main_ok in Hm. destruct (mainThread s) as [| |c|]; try done.
    + destruct (exeThread s); try done. injection Hr as <-. by apply Hkept.
    + destruct (forallb _ _); [|done]. injection Hr as <-. by apply Hkept.
    + destruct (decide (c = CReturned)) as [->|Hc].
      * injection Hr as <-. split; [|by left]. intros op. unfold known. cbn. set_solver.
      * apply Hkept. apply (cancel_step_kept TMain c); [done|]. by destruct c.
  - destruct (op_step_frame b i s s' Hr) as (Hu & Ht & Hlog). split.
    + intros op. unfold known. by rewrite Hu, Ht.
    + destruct Hlog as [?|(op & -> & ? & ?)]; [by left|]. right. by exists i, op.
  - apply Hkept. unfold key_press in Hr. destruct (keyThread s); try done.
    assert (forall c r, Some (set_key c <$> r) = Some (Ok s') -> (forall s1, r = Ok s1 -> kept s s1) -> kept s s') as Hset.
    { intros c r Hr' Hk. destruct r as [s1| | |]; try done. injection Hr' as <-. by apply (Hk s1). }
    destruct k; [destruct (_isRunning s); [destruct (_isCancelled s)|]|].
    + by injection Hr as <-.
    + by injection Hr as <-.
    + injection Hr as Hr. by apply resume_kept.
    + by eapply Hset; [exact Hr|apply resume_kept].
  - apply Hkept. unfold key_step in Hr. pose proof (i_key _ _ Hs) as Hk. destruct (keyThread s) eqn:E;
      first [exact (pause_step_kept _ _ _ Hr)|exact (cancel_step_kept TKey _ _ _ Hk Hr)].
Qed.
End frame.

(** ** A [cancel] that cannot end *)

Section cancel.
Context {Q : Type} `{PQ : PriorityQueue OpPtr opGreaterPriority Q}.
Context (n : Z) (n_u32 : in_u32 n).
#[local] Set Default Proof Using "All".

Definition notified_step (s s' : State Q) : Prop := exists l, notified l = true /\ step l s = Some (Ok s').

Lemma inv_reach s s' : Inv n s -> rtc notified_step s s' -> Inv n s'.
Proof.
  intros Hs. induction 1 as [|s s' s'' (l & Hl & Hr) _ IH]; [done|]. apply IH. by eapply step_ok_inv.
Qed.

Definition not_returned (m : MainPc) : bool := match m with Returned | InReset CReturned => false | _ => true end.

(** The key thread is in [cancel], behind the lock, and operations are pending. *)
Record Doomed (s : State Q) : Prop := {
  d_inv : Inv n s;
  d_key : waits (keyThread s) = true;
  d_pending : pq_elems (unscheduledOps s) <> [];
  d_main : not_returned (mainThread s) = true }.

(** Without processors the executor never passes the semaphore. *)
Lemma unstarted_step s s' : n = 0 -> Inv n s -> opThreads s = [] -> log s = [] -> notified_step s s' ->
  opThreads s' = [] /\ log s' = [].
Proof.
  intros -> Hs Ht Hlog (l & Hl & Hr). destruct l as [| |b i|k| |t]; cbn in Hr; try done.
  - unfold exe_step in Hr. pose proof (i_cap _ _ Hs) as [Hpos Hcap].
    destruct (exeThread s); try done; try (injection Hr as <-; done).
    + destruct (sem_wait (guard s)); [|done]. by injection Hr as <-.
    + destruct (mtx s); [done|]. lia.
  - unfold main_step in Hr. destruct (mainThread s) as [| |c|]; try done.
    + destruct (exeThread s); try done. by injection Hr as <-.
    + destruct (forallb _ _); [|done]. by injection Hr as <-.
    + destruct c as [| | | | |[|op todo]|op todo| |op|op|]; try done; cbn in Hr; unfold with_op in Hr; try by injection Hr as <-.
      * destruct (mtx s); [done|]. by injection Hr as <-.
      * destruct (heap s !! op_id op); [|done]. by injection Hr as <-.
      * destruct (pq_top _) as [op|]; [|by injection Hr as <-].
        destruct (heap s !! op_id op); [|done]. by injection Hr as <-.
      * destruct (heap s !! op_id op); [|done]. by injection Hr as <-.
  - unfold op_step in Hr. by rewrite Ht in Hr.
  - unfold key_press, resume in Hr. rewrite Ht in Hr. cbn in Hr.
    destruct (keyThread s); try done.
    destruct k, (_isRunning s), (_isCancelled s); cbn in Hr; by injection Hr as <-.
  - unfold key_step in Hr. destruct (keyThread s) as [| | | | |[|op todo]|op todo| |op|op|]; try done; cbn in Hr;
      unfold with_op in Hr; try by injection Hr as <-.
    + pose proof (pause_step_kept (CPausing it) s s' Hr) as (_ & Hf & Hg). rewrite Ht in Hf. rewrite Hg.
      split; [|done]. by apply fmap_nil_inv in Hf.
    + case_decide; [|done]. by injection Hr as <-.
    + destruct (mtx s); [done|]. by injection Hr as <-.
    + destruct (mtx s); [done|]. by injection Hr as <-.
    + destruct (heap s !! op_id op); [|done]. by injection Hr as <-.
    + destruct (pq_top _) as [op|]; [|by injection Hr as <-].
      destruct (heap s !! op_id op); [|done]. by injection Hr as <-.
    + destruct (heap s !! op_id op); [|done]. by injection Hr as <-.
Qed.

Lemma doomed_mtx s : Doomed s -> mtx s = Some TKey.
Proof.
  intros [Hs Hk _ _]. pose proof (i_key _ _ Hs) as Hc. destruct (keyThread s); try done; by destruct Hc.
Qed.

Lemma doomed_frame s s' : Doomed s -> Inv n s' -> keyThread s' = keyThread s ->
  unscheduledOps s' = unscheduledOps s -> not_returned (mainThread s') = true -> Doomed s'.
Proof. intros [] Hs Hk Hq Hm. split; rewrite ?Hk, ?Hq; done. Qed.

Lemma doomed_wake s op pc i : Doomed s -> opThreads s !! i = Some (op, pc) -> pc_live pc = true ->
  waits (wake op (keyThread s)) = true.
Proof.
  intros [Hs Hk _ _] Hi Hpc. destruct (thread_live n n_u32 s i op pc Hs Hi Hpc) as [_ Hop].
  destruct (keyThread s); try done; cbn; by case_decide.
Qed.

Lemma doomed_step s s' : Doomed s -> notified_step s s' -> Doomed s'.
Proof.
  intros Hd (l & Hl & Hr). pose proof (doomed_mtx s Hd) as Hx. pose proof Hd as [Hs Hk Hp Hm].
  pose proof (step_ok_inv n n_u32 l s s' Hl Hs Hr) as Hs'.
  destruct l as [| |b i|k| |t]; cbn in Hr; try done.
  - unfold exe_step in Hr. rewrite Hx in Hr. destruct (exeThread s); try done; try (injection Hr as <-; (apply (doomed_frame s _ Hd Hs'); [reflexivity..|first [exact Hm|reflexivity]])).
    destruct (sem_wait (guard s)); [|done]. injection Hr as <-. (apply (doomed_frame s _ Hd Hs'); [reflexivity..|first [exact Hm|reflexivity]]).
  - unfold main_step in Hr. pose proof (i_main _ _ Hs) as Hmo. unfold main_ok in Hmo.
    destruct (mainThread s) as [| |c|] eqn:E; try done.
    + destruct (exeThread s); try done. injection Hr as <-. (apply (doomed_frame s _ Hd Hs'); [reflexivity..|first [exact Hm|reflexivity]]).
    + destruct (forallb _ _); [|done]. injection Hr as <-. (apply (doomed_frame s _ Hd Hs'); [reflexivity..|first [exact Hm|reflexivity]]).
    + destruct c as [| | | | |todo|op todo| |op|op|]; try done; cbn in Hr, Hmo;
        [by rewrite Hx in Hr|destruct Hmo as [Hmo _]; congruence|congruence].
  - unfold op_step, finished, with_op in Hr. rewrite Hx in Hr.
    destruct (opThreads s !! i) as [[op pc]|] eqn:Hi; [|done].
    destruct pc; try done; try (destruct (heap s !! op_id op) as [o|]; [|done]).
    + injection Hr as Hr. destruct (op_isCancelled o); subst s'; (apply (doomed_frame s _ Hd Hs'); [reflexivity..|first [exact Hm|reflexivity]]).
    + destruct b; [destruct (op_isPaused o); [|done]|]; injection Hr as <-; (apply (doomed_frame s _ Hd Hs'); [reflexivity..|first [exact Hm|reflexivity]]).
    + injection Hr as <-. split; [done| |done|].
      * cbn. by eapply doomed_wake.
      * cbn. destruct (mainThread s) as [| |[]|]; try done; cbn; by case_decide.
    + injection Hr as <-. (apply (doomed_frame s _ Hd Hs'); [reflexivity..|first [exact Hm|reflexivity]]).
  - unfold key_press in Hr. by destruct (keyThread s).
  - unfold key_step in Hr. pose proof (i_key _ _ Hs) as Hkey. destruct (keyThread s) as [| | | | |[|op todo]|op todo| |op|op|]; try done; cbn in Hr.
    + injection Hr as <-. by split.
    + unfold with_op in Hr. destruct (heap s !! op_id op); [|done]. injection Hr as <-. by split.
    + destruct (pq_top (unscheduledOps s)) as [op|] eqn:Ht; [|by apply pq_top_none in Ht].
      unfold with_op in Hr. destruct (heap s !! op_id op); [|done]. injection Hr as <-. by split.
Qed.
End cancel.

(** ** Properties *)

Section properties.
Context {Q : Type} `{PQ : PriorityQueue OpPtr opGreaterPriority Q}.
Context (n : Z) (n_u32 : in_u32 n) (ops : list OpPtr) (ops_distinct : NoDup (op_id <$> ops)).
#[local] Set Default Proof Using "All".

(** C13: in every run up to which nothing was undefined, whatever the threads and the
    keyboard did (no condition variable waking up by itself: after that [cancel] can take the
    operation away that the executor is about to schedule, see [spurious_top_of_empty]), the
    next step uses no deleted operation and no top of an empty queue, and never more
    operations run at once than the machine has processors.  There is one exception, and it
    is exact: the loop of [pause] takes no lock, and a step of it is undefined when and only
    when [finished] has removed the operation its iterator is at. *)
Theorem queue_safe (s : State Q) l : rtc notified_step (start_queue n ops) s -> notified l = true ->
  (step l s = Some Undefined <-> l = LKeyStep /\ stale_pause s) /\ Z.of_nat (length (runningOps s)) <= n.
Proof.
  intros Hr Hl. apply (inv_reach n n_u32) in Hr; [|by apply start_inv]. split; [split|].
  - intros Hs. by destruct (step_inv n n_u32 l s Undefined Hl Hr Hs) as [(? & ? & _)|(? & _ & ?)].
  - intros [-> Hst]. unfold stale_pause in Hst. cbn. unfold key_step, pause_step.
    destruct (keyThread s) as [|[op|]|op| | | | | | | |]; try done; by rewrite decide_False.
  - by apply inv_running_bound.
Qed.

(** C12: with at least one processor the queue ends, in whatever order the threads take their
    steps: every run is finite, it ends only when [waitForFinished] returns, and then every
    operation was executed exactly once, in threads started by descending priority. *)
Theorem queue_runs_all : 0 < n ->
  sn worker_step (start_queue (Q := Q) n ops) /\
  forall s, rtc worker_step (start_queue n ops) s ->
    (mainThread s = Returned -> log s ≡ₚ ops /\ runningOps s = [] /\ heap s = ∅ /\ _isCancelled s = false) /\
    (mainThread s <> Returned -> exists s', worker_step s s') /\
    (mainThread s = JoinExecutor -> StronglySorted higher (opThreads s).*1).
Proof.
  intros Hn. pose proof (working_start n n_u32 ops (Q := Q) ops_distinct) as Hw. split.
  - revert Hw. generalize (start_queue (Q := Q) n ops). intros s.
    induction s as [s IH] using (induction_ltof1 _ (weight (Q := Q))). intros Hs. constructor.
    intros s' (l & Hl & Hr). destruct (working_step n n_u32 ops l s s' Hs Hl Hr) as [Hs' Hlt]. by apply IH.
  - intros s Hr. pose proof (working_reach n n_u32 ops _ _ Hw Hr) as Hs. split; [|split].
    + intros Hret. pose proof (w_main _ _ _ Hs) as Hm. rewrite Hret in Hm. destruct Hm as ([He Hrun Hl] & Hc & _).
      split; [done|]. split; [done|]. split; [|done]. apply map_eq. intros k. rewrite lookup_empty.
      apply eq_None_not_Some. rewrite (i_live _ _ (w_inv _ _ _ Hs) k), He, Hrun. by intros ?%elem_of_nil.
    + intros Hret. destruct (working_progress n n_u32 ops s Hn Hs Hret) as (l & s' & ? & ?). exists s'. by exists l.
    + intros Hret. pose proof (w_main _ _ _ Hs) as Hm. rewrite Hret in Hm. by apply j_order in Hm.
Qed.

(** C35: a [cancel] that has the lock while operations are still pending never ends, and the
    program with it: it waits for operations to finish that were never started (as long as
    the condition variable does not wake up by itself). *)
Theorem cancel_pending_deadlock (s s' : State Q) : rtc notified_step (start_queue n ops) s ->
  waits (keyThread s) = true -> pq_elems (unscheduledOps s) <> [] -> not_returned (mainThread s) = true ->
  rtc notified_step s s' -> waits (keyThread s') = true /\ mainThread s' <> Returned.
Proof.
  intros Hr Hk Hp Hm Hr'. apply (inv_reach n n_u32) in Hr; [|by apply start_inv].
  assert (Doomed n s) as Hd by done. clear Hr Hk Hp Hm.
  induction Hr' as [s|s s1 s2 Hs _ IH]; [destruct Hd as [_ ? _ Hm]; split; [done|by intros E; rewrite E in Hm]|].
  apply IH. by eapply doomed_step.
Qed.

(** an operation in [operationWait] stays there until somebody presses a key: no step of
    the executor, the main thread and the operations wakes it, and the program does not end.
    [resume] wakes only those that wait already; an operation that has been told to pause
    and looks at its flag after [resume] goes to sleep although the queue is running. *)
Theorem paused_sleeps (s s' : State Q) i op : rtc notified_step (start_queue n ops) s ->
  opThreads s !! i = Some (op, TPaused) -> rtc worker_step s s' ->
  opThreads s' !! i = Some (op, TPaused) /\ mainThread s' <> Returned.
Proof.
  intros Hr Hi Hw. apply (inv_reach n n_u32) in Hr; [|by apply start_inv].
  assert (forall s, Inv n s -> opThreads s !! i = Some (op, TPaused) -> mainThread s <> Returned /\
    forall c, mainThread s <> InReset c) as Hmain.
  { clear. intros s Hs Hi. assert (~ all_ended s) as Hne by (intros Hall; by specialize (Hall _ (list_elem_of_lookup_2 _ _ _ Hi))).
    pose proof (i_joined _ _ Hs) as H. split; [|intros c]; intros E; rewrite E in H; by destruct H. }
  induction Hw as [s|s s1 s2 (l & Hl & Hst) _ IH]; [split; [done|by apply Hmain]|]. apply IH.
  - apply (step_ok_inv n n_u32 l s); [by destruct Hl|done..].
  - destruct (Hmain s Hr Hi) as [Hm1 Hm2]. destruct Hl as [| |j]; cbn in Hst.
    + unfold exe_step in Hst. destruct (exeThread s); try done; try (by injection Hst as <-).
      * destruct (sem_wait (guard s)); [|done]. by injection Hst as <-.
      * destruct (mtx s); [done|]. destruct (pq_top _); [|done]. injection Hst as <-. cbn. by apply lookup_app_l_Some.
    + unfold main_step in Hst. destruct (mainThread s) as [| |c|]; try done.
      * destruct (exeThread s); try done. by injection Hst as <-.
      * destruct (forallb _ _); [|done]. by injection Hst as <-.
      * by destruct (Hm2 c).
    + destruct (decide (j = i)) as [->|Hne]; [unfold op_step in Hst; by rewrite Hi in Hst|].
      unfold op_step, finished, with_op in Hst. destruct (opThreads s !! j) as [[op' pc]|]; [|done].
      destruct pc; try done; try (destruct (mtx s); [done|]); try (destruct (heap s !! op_id op') as [o|]; [|done]);
        injection Hst as Hst; subst s1; try destruct (op_isCancelled o); cbn; by rewrite list_lookup_insert_ne.
Qed.
End properties.

(** the queue takes as many permits as [hardware_concurrency] says; where that is unknown
    the standard library says 0, and then no operation is ever executed. *)
Theorem no_processor_no_run `{PQ : PriorityQueue OpPtr opGreaterPriority Q} ops (s : State Q) :
  NoDup (op_id <$> ops) -> rtc notified_step (start_queue 0 ops) s -> log s = [].
Proof.
  intros Hops Hr. assert (in_u32 0) as H0 by lia. assert (Inv 0 (start_queue (Q := Q) 0 ops)) as Hs by by apply start_inv.
  pose proof (add_all_frame 0 H0 ops (queue_ctor (Q := Q) 0)) as (_ & _ & _ & Ht & _ & _ & Hl).
  cbn in Ht, Hl. assert (opThreads (start_queue (Q := Q) 0 ops) = [] /\ log (start_queue (Q := Q) 0 ops) = []) as [Ht' Hl'] by by split.
  clear Ht Hl. revert Hs Ht' Hl'.
  induction Hr as [s|s s1 s2 Hstep _ IH]; intros Hs Ht Hl; [done|].
  destruct (unstarted_step 0 H0 s s1 eq_refl Hs Ht Hl Hstep) as [Ht1 Hl1].
  apply IH; [|done..]. eapply inv_reach; [done|exact Hs|]. by apply rtc_once.
Qed.

(** the capacity of a semaphore is what was asked for only when it was 0 before: the old
    capacity is subtracted. *)
Theorem setCapacity_subtracts c s :
  0 < c < 2 ^ 32 -> in_u32 (capacity s) -> capacity (setCapacity c s) = c <-> capacity s = 0.
Proof.
  intros Hc Hs. unfold setCapacity. rewrite (proj2 (Z.ltb_lt _ _)) by lia. unfold capacity, u32 in *. cbn.
  split; intros H; [dlia|]. rewrite H, Z.sub_0_r. apply Z.mod_small. lia.
Qed.

(** ** Witnesses *)

Definition demo_ops : list OpPtr := [MkPtr 0 1; MkPtr 1 5; MkPtr 2 3].
Definition demo_start : State (list OpPtr) := start_queue 2 demo_ops.

(** A run on two processors: two operations are started, then space and [q] are pressed. *)
Definition demo_labels : list Label :=
  [LExe; LExe; LExe; LExe; LExe; LExe; LExe; LExe; LOp false 0; LKey Space; LKeyStep; LKeyStep; LKeyStep; LKeyStep;
   LKeyStep; LKeyStep; LOp true 0; LKey Quit_key; LKeyStep].
Definition demo_cancelled : State (list OpPtr) :=
  match run demo_labels demo_start with Some (Ok s) => s | _ => demo_start end.

Example demo_cancelled_state :
  runningOps demo_cancelled = [MkPtr 1 5; MkPtr 2 3] /\ unscheduledOps demo_cancelled = [MkPtr 0 1] /\
  keyThread demo_cancelled = CCancelRunning [MkPtr 1 5; MkPtr 2 3].
Proof. vm_compute. auto. Qed.

Lemma run_reach (ls : list Label) (s s' : State (list OpPtr)) :
  forallb notified ls = true -> run ls s = Some (Ok s') -> rtc notified_step s s'.
Proof.
  revert s. induction ls as [|l ls IH]; intros s Hl Hr; cbn in *; [by injection Hr as <-; constructor|].
  apply andb_true_iff in Hl as [Hl Hls]. destruct (step l s) as [[s1| | |]|] eqn:E; try done.
  eapply rtc_l; [|by apply IH]. by exists l.
Qed.

Lemma demo_ids : NoDup (op_id <$> demo_ops).
Proof. apply (bool_decide_unpack _). vm_compute. exact I. Qed.

Lemma demo_reach : rtc notified_step demo_start demo_cancelled.
Proof. apply (run_reach demo_labels); vm_compute; reflexivity. Qed.

Lemma queue_safe_witness :
  (step LKeyStep demo_cancelled = Some Undefined <-> LKeyStep = LKeyStep /\ stale_pause demo_cancelled) /\
  Z.of_nat (length (runningOps demo_cancelled)) <= 2.
Proof.
  apply (queue_safe 2 ltac:(lia) demo_ops demo_ids demo_cancelled LKeyStep); [exact demo_reach|reflexivity].
Defined.

(** Space is pressed while an operation runs: the iterator of [pause] is at it when it ends,
    [finished] removes and deletes it, and [pause] goes on with what is left of it. *)
Definition demo_stale_labels : list Label :=
  [LExe; LExe; LExe; LExe; LOp false 0; LKey Space; LOp false 0; LOp false 0; LOp false 0; LKeyStep].

Example pause_uses_deleted : run demo_stale_labels demo_start = Some Undefined.
Proof. vm_compute. reflexivity. Qed.

(** [q] is pressed when the executor has found the queue not empty and got its permit, but
    not the lock.  The wait for the pending operation in [cancel] ends without a notification:
    the operation is deleted, and the executor takes the top of an empty queue. *)
Definition demo_spurious_labels : list Label :=
  [LExe; LExe; LExe; LKey Quit_key; LKeyStep; LKeyStep; LKeyStep; LSpurious TKey; LKeyStep; LKeyStep; LExe].

Example spurious_top_of_empty :
  run demo_spurious_labels (start_queue (Q := list OpPtr) 1 [MkPtr 0 1]) = Some Undefined.
Proof. vm_compute. reflexivity. Qed.

Lemma queue_runs_all_witness : sn worker_step demo_start.
Proof. apply (queue_runs_all (Q := list OpPtr) 2 ltac:(lia) demo_ops demo_ids). lia. Defined.

Definition demo_deadlocked : State (list OpPtr) :=
  match run [LKeyStep; LOp false 1; LOp false 1] demo_cancelled with Some (Ok s) => s | _ => demo_start end.

Lemma cancel_pending_deadlock_witness :
  waits (keyThread demo_deadlocked) = true /\ mainThread demo_deadlocked <> Returned.
Proof.
  apply (cancel_pending_deadlock 2 ltac:(lia) demo_ops demo_ids demo_cancelled demo_deadlocked).
  - exact demo_reach.
  - vm_compute. reflexivity.
  - vm_compute. discriminate.
  - vm_compute. reflexivity.
  - apply (run_reach [LKeyStep; LOp false 1; LOp false 1]); vm_compute; reflexivity.
Defined.

(** Space is pressed twice before the operation looks at its flag. *)
Definition demo_sleeping : State (list OpPtr) :=
  match run [LExe; LExe; LExe; LExe; LOp false 0; LKey Space; LKeyStep; LKeyStep; LKeyStep; LKeyStep; LKey Space; LOp true 0] demo_start with
  | Some (Ok s) => s | _ => demo_start
  end.

Lemma paused_sleeps_witness :
  _isRunning demo_sleeping = true /\ keyThread demo_sleeping = CIdle /\
  forall s, rtc worker_step demo_sleeping s -> opThreads s !! 0%nat = Some (MkPtr 1 5, TPaused) /\ mainThread s <> Returned.
Proof.
  split; [reflexivity|]. split; [reflexivity|]. intros s Hs.
  apply (paused_sleeps 2 ltac:(lia) demo_ops demo_ids demo_sleeping s 0 (MkPtr 1 5)); [|reflexivity|exact Hs].
  apply (run_reach [LExe; LExe; LExe; LExe; LOp false 0; LKey Space; LKeyStep; LKeyStep; LKeyStep; LKeyStep; LKey Space; LOp true 0]); vm_compute; reflexivity.
Defined.

Lemma no_processor_no_run_witness : log (start_queue (Q := list OpPtr) 0 demo_ops) = [].
Proof. apply (no_processor_no_run demo_ops); [exact demo_ids|constructor]. Defined.

Lemma setCapacity_subtracts_witness : capacity (setCapacity 4 (Semaphore_ctor 3)) <> 4.
Proof.
  intros H. assert (capacity (Semaphore_ctor 3) = 0) as H0.
  { apply (setCapacity_subtracts 4 (Semaphore_ctor 3)); [lia|vm_compute; split; discriminate|exact H]. }
  discriminate H0.
Defined.
