(* ===== verification/QueueCancel.v ===== *)
(** * pwned-lib/operationqueue.hpp: what a cancelled queue has done

    [Queue] has the threads; here is what they promise when keys are pressed: an operation that
    [cancel] reaches too late or too early keeps the queue from ending, so that a queue that
    ends has executed all its operations; and the queue can be filled and executed again. *)

From S2P Require Import Prelude PriorityQueue Queue.
From stdpp Require Import options.

(** ** The invariant *)

(** A call of [cancel] has had the lock. *)
Definition past_lock (c : CallPc) : bool := match c with CIdle | CPausing _ | CPauseNext _ | CPauseLock | CCancelLock => false | _ => true end.
(** A thread that is past [start]. *)
Definition late (pc : OpPc) : bool := match pc with TStop | TFinished | TNotify | TEnd => true | _ => false end.
(** Where an operation may be deleted, or not be started yet. *)
Definition idle (pc : OpPc) : bool := match pc with TStart | TFinished => true | _ => false end.
(** The key thread waits for the end of [op]. *)
Definition key_waits (op : OpPtr) (c : CallPc) : Prop := exists todo, c = CWaitRunning op todo.

Section told.
Context {Q : Type} `{PQ : PriorityQueue OpPtr opGreaterPriority Q}.

Definition told (s : State Q) (op : OpPtr) : Prop :=
  exists o, heap s !! op_id op = Some o /\ op_isCancelled o = true.
(** The main thread is past [waitForFinished]'s loop over pending operations. *)
Definition main_over (m : MainPc) : bool := match m with InReset CReturned | Returned => true | _ => false end.

Record Told (s : State Q) : Prop := {
  td_flag : forall op, op ∈ known s -> told s op ->
    past_lock (keyThread s) = true \/ mainThread s = InReset (CWaitPending op);
  td_pending : forall op, op ∈ pq_elems (unscheduledOps s) -> told s op ->
    keyThread s = CWaitPending op \/ mainThread s = InReset (CWaitPending op);
  td_start : forall op, (op, TStart) ∈ opThreads s -> told s op -> key_waits op (keyThread s);
  td_late : forall op pc, (op, pc) ∈ opThreads s -> late pc = true ->
    op ∈ log s \/ (pc = TFinished /\ key_waits op (keyThread s));
  td_over : main_over (mainThread s) = true -> pq_elems (unscheduledOps s) = [];
  td_idle : forall op o, op ∈ pq_elems (unscheduledOps s) \/ (exists pc, (op, pc) ∈ opThreads s /\ idle pc = true) ->
    heap s !! op_id op = Some o -> op_isRunning o = false;
  td_queue : _isCancelled s = true ->
    past_lock (keyThread s) = true \/ exists c, mainThread s = InReset c /\ past_lock c = true }.

(** The steps that leave the key thread and the main thread where they are and tell nobody. *)
Record calm (s s' : State Q) : Prop := {
  cm_key : keyThread s' = keyThread s;
  cm_main : mainThread s' = mainThread s;
  cm_elems : forall op, op ∈ pq_elems (unscheduledOps s') -> op ∈ pq_elems (unscheduledOps s);
  cm_known : forall op, op ∈ known s' -> op ∈ known s;
  cm_threads : forall op pc, (op, pc) ∈ opThreads s' ->
    exists pc0, (op, pc0) ∈ opThreads s /\ (pc = pc0 \/ (pc <> TStart /\ late pc = false /\ late pc0 = false));
  cm_heap : forall k o', heap s' !! k = Some o' -> exists o, heap s !! k = Some o /\
    op_isCancelled o' = op_isCancelled o /\ op_isRunning o' = op_isRunning o;
  cm_log : log s' = log s;
  cm_flag : _isCancelled s' = _isCancelled s }.

#[export] Instance calm_preorder : PreOrder calm.
Proof.
  split.
  - intros s. split; try done; eauto.
  - intros s1 s2 s3 [] []. split; try congruence; eauto.
    + intros op pc Hin. destruct (cm_threads1 op pc Hin) as (pc1 & Hin1 & H1).
      destruct (cm_threads0 op pc1 Hin1) as (pc0 & Hin0 & H0). exists pc0. split; [done|].
      destruct H1 as [->|(? & ? & ?)]; [done|right]. split_and!; [done..|]. destruct H0 as [<-|(? & ? & ?)]; done.
    + intros k o Ho. destruct (cm_heap1 k o Ho) as (o1 & Ho1 & ? & ?). destruct (cm_heap0 k o1 Ho1) as (o0 & ? & ? & ?).
      exists o0. split_and!; congruence.
Qed.

Lemma calm_told s s' op : calm s s' -> told s' op -> told s op.
Proof. intros Hc (o' & Ho & Hf). destruct (cm_heap _ _ Hc _ _ Ho) as (o & ? & ? & _). exists o. split; congruence. Qed.

Lemma told_calm s s' : Told s -> calm s s' -> Told s'.
Proof.
  intros [] Hc. pose proof (fun op => calm_told s s' op Hc) as Ht. destruct Hc.
  split; rewrite ?cm_key0, ?cm_main0, ?cm_log0, ?cm_flag0; eauto.
  - intros op Hin Ho. destruct (cm_threads0 _ _ Hin) as (pc0 & Hin0 & [<-|[? _]]); eauto. done.
  - intros op pc Hin Hl. destruct (cm_threads0 _ _ Hin) as (pc0 & Hin0 & [<-|(_ & ? & _)]); eauto. congruence.
  - intros Hm. destruct (pq_elems (unscheduledOps s')) as [|op l] eqn:E; [done|]. exfalso.
    assert (op ∈ pq_elems (unscheduledOps s)) as Hin by (apply cm_elems0; left).
    rewrite td_over0 in Hin by done. by apply elem_of_nil in Hin.
  - intros op o' Hin Ho. destruct (cm_heap0 _ _ Ho) as (o & Ho0 & _ & ->). apply (td_idle0 op o); [|done].
    destruct Hin as [Hin|(pc & Hin & Hpc)]; [left; auto|]. right.
    destruct (cm_threads0 _ _ Hin) as (pc0 & Hin0 & [<-|(? & ? & _)]); [eauto|]. by destruct pc.
Qed.

(** The key thread moves, not waiting for an operation before. *)
Lemma told_key c s : Told s -> (forall op, ~ key_waits op (keyThread s)) -> (forall op, keyThread s <> CWaitPending op) ->
  (past_lock (keyThread s) = true -> past_lock c = true) -> Told (set_key c s).
Proof.
  intros [] Hw Hp Hc. split; cbn; try done.
  - intros op Hin Ho. destruct (td_flag0 op Hin Ho); [left; auto|by right].
  - intros op Hin Ho. destruct (td_pending0 op Hin Ho) as [H|H]; [by destruct (Hp op)|by right].
  - intros op Hin Ho. destruct (Hw op). auto.
  - intros op pc Hin Hl. destruct (td_late0 op pc Hin Hl) as [?|[_ H]]; [by left|by destruct (Hw op)].
  - intros H. destruct (td_queue0 H); [left; auto|by right].
Qed.

(** The main thread moves, not waiting for an operation before. *)
Lemma told_main m s : Told s -> (forall op, mainThread s <> InReset (CWaitPending op)) ->
  (main_over m = true -> pq_elems (unscheduledOps s) = []) ->
  (_isCancelled s = true -> past_lock (keyThread s) = true \/ exists c, m = InReset c /\ past_lock c = true) -> Told (set_main m s).
Proof.
  intros [] Hm Ho Hq. split; cbn; try done.
  - intros op Hin Ht. destruct (td_flag0 op Hin Ht); [by left|by destruct (Hm op)].
  - intros op Hin Ht. destruct (td_pending0 op Hin Ht); [by left|by destruct (Hm op)].
Qed.
End told.

(** ** Every step keeps it *)

Section steps.
Context {Q : Type} `{PQ : PriorityQueue OpPtr opGreaterPriority Q}.
Context (n : Z) (n_u32 : in_u32 n).
#[local] Set Default Proof Using "Type*".

Lemma calm_threads_insert (s : State Q) i op pc pc' op' pc1 : opThreads s !! i = Some (op, pc) ->
  (op', pc1) ∈ <[i := (op, pc')]> (opThreads s) -> (op', pc1) = (op, pc') \/ (op', pc1) ∈ opThreads s.
Proof.
  intros Hi Hin. apply list_elem_of_lookup in Hin as [j Hj]. destruct (decide (j = i)) as [->|Hne].
  - rewrite list_lookup_insert_eq in Hj by by eapply lookup_lt_Some. injection Hj as -> ->. by left.
  - rewrite list_lookup_insert_ne in Hj by done. right. by eapply list_elem_of_lookup_2.
Qed.

(** A thread goes on, past [TStart] and not past [start]. *)
Lemma calm_set_pc (s : State Q) i op pc pc' : opThreads s !! i = Some (op, pc) -> pc' <> TStart -> late pc' = false ->
  late pc = false -> calm s (set_pc i op pc' s).
Proof.
  intros Hi Hpc Hl Hl0. split; cbn; try done; eauto.
  - intros op'. unfold known. cbn. by rewrite (set_pc_fst i op pc pc' s Hi).
  - intros op' pc1 Hin. destruct (calm_threads_insert _ _ _ _ _ _ _ Hi Hin) as [[= -> ->]|Hin']; [|by eauto].
    exists pc. split; [by eapply list_elem_of_lookup_2|by right].
Qed.

Lemma calm_put_op (s : State Q) op o o' : heap s !! op_id op = Some o ->
  op_isCancelled o' = op_isCancelled o -> op_isRunning o' = op_isRunning o -> calm s (put_op op o' s).
Proof.
  intros Ho Hc Hr. split; cbn; eauto. intros k o1 Hk. apply lookup_insert_Some in Hk as [[<- <-]|[_ Hk]]; eauto.
Qed.

Lemma calm_flags (s : State Q) r : calm s (set_flags r (_isCancelled s) s).
Proof. split; cbn; eauto. Qed.

Lemma calm_with_op op f (s s' : State Q) : (forall o, heap s !! op_id op = Some o -> calm s (f o)) ->
  with_op s op f = Ok s' -> calm s s'.
Proof. intros Hf Hw. unfold with_op in Hw. destruct (heap s !! op_id op); [|done]. injection Hw as <-. auto. Qed.

Lemma calm_wakeup i (s s' : State Q) : op_wakeup i s = Some (Ok s') -> calm s s'.
Proof.
  unfold op_wakeup. destruct (opThreads s !! i) as [[op []]|] eqn:Hi; try done. intros [= Hw].
  eapply calm_with_op; [|exact Hw]. intros o Ho. etransitivity; [by apply (calm_put_op s op o (op_resumed o))|].
  by apply (calm_set_pc _ i op TPaused TExecute).
Qed.

Lemma calm_wake_all k (s s' : State Q) : wake_all k s = Ok s' -> calm s s'.
Proof.
  revert s. induction k as [|k IH]; intros s Hw; cbn in Hw; [by injection Hw as <-|].
  destruct (op_wakeup k s) as [r|] eqn:Hr; [|by apply IH]. destruct r as [s1| | |]; try done.
  etransitivity; [by eapply calm_wakeup|by apply IH].
Qed.

Lemma calm_resume (s s' : State Q) : resume s = Ok s' -> calm s s'.
Proof.
  unfold resume. destruct (_ || _); [by intros [= <-]|].
  destruct (wake_all _ s) as [s1| | |] eqn:Hw; try done. intros [= <-]. apply calm_wake_all in Hw.
  rewrite <- (cm_flag _ _ Hw). by etransitivity; [|apply calm_flags].
Qed.

(** The steps of [pause] but the last leave all but the key thread where it is. *)
Lemma pause_step_calm c (s s' : State Q) : pause_step c s = Some (Ok s') ->
  exists c' s1, s' = set_key c' s1 /\ calm s s1 /\ past_lock c' = false.
Proof.
  intros Hr. destruct c as [|[op|]|op| | | | | | | |]; try done; cbn in Hr.
  - case_decide; [|done]. injection Hr as Hr. unfold with_op in Hr. destruct (heap s !! op_id op) as [o|] eqn:Ho; [|done].
    injection Hr as <-. eexists _, (put_op op (op_pause o) s). split; [done|]. split; [by apply (calm_put_op s op o)|done].
  - injection Hr as <-. by eexists _, s.
  - case_decide; [|done]. injection Hr as <-. by eexists _, s.
  - destruct (mtx s); [done|]. injection Hr as <-. eexists _, (set_flags false (_isCancelled s) s).
    split; [done|]. split; [apply calm_flags|done].
Qed.

Lemma told_exe s s' : Inv n s -> Told s -> exe_step s = Some (Ok s') -> Told s'.
Proof.
  intros Hs Ht Hr. unfold exe_step in Hr. destruct (exeThread s) eqn:He; try done.
  1-2: injection Hr as <-; apply (told_calm s); [done|split; cbn; eauto].
  - destruct (sem_wait (guard s)); [|done]. injection Hr as <-. apply (told_calm s); [done|split; cbn; eauto].
  - destruct (mtx s) eqn:Hm; [done|]. destruct (pq_top (unscheduledOps s)) as [op|] eqn:Htop; [|done]. injection Hr as <-.
    pose proof (pq_pop_elems _ _ (i_heap _ _ Hs) Htop) as Hp.
    assert (forall c, mainThread s <> InReset c) as Hmain.
    { intros c E. pose proof (i_joined _ _ Hs) as Hj. rewrite E in Hj. destruct Hj. congruence. }
    assert (main_over (mainThread s) = false) as Hover.
    { pose proof (i_joined _ _ Hs) as Hj. destruct (mainThread s) as [| |c|] eqn:E; try done; [by destruct (Hmain c)|].
      destruct Hj. congruence. }
    assert (op ∈ pq_elems (unscheduledOps s)) as Hop by (rewrite Hp; left).
    destruct Ht. split; cbn; try done.
    + intros op'. unfold known. cbn. intros Hin. apply td_flag0. unfold known. rewrite Hp. rewrite fmap_app in Hin. set_solver.
    + intros op' Hin. apply td_pending0. rewrite Hp. by right.
    + intros op' Hin Ho. apply elem_of_app in Hin as [Hin|Hin]; [by apply td_start0|].
      apply list_elem_of_singleton in Hin as [= ->]. exfalso.
      destruct (td_pending0 op Hop Ho) as [E|E]; [|by destruct (Hmain (CWaitPending op))].
      pose proof (i_key _ _ Hs) as Hk. rewrite E in Hk. destruct Hk. congruence.
    + intros op' pc Hin Hl. apply elem_of_app in Hin as [Hin|Hin]; [by apply td_late0|].
      by apply list_elem_of_singleton in Hin as [= -> ->].
    + rewrite Hover. done.
    + intros op' o Hin. apply td_idle0. destruct Hin as [Hin|(pc & Hin & Hpc)]; [left; rewrite Hp; by right|].
      apply elem_of_app in Hin as [Hin|Hin]; [right; eauto|]. apply list_elem_of_singleton in Hin as [= -> ->]. by left.
Qed.

(** Two operations that are pending or have a thread have different numbers. *)
Lemma known_inj s op op' : Inv n s -> op ∈ known s -> op' ∈ known s -> op_id op = op_id op' -> op = op'.
Proof.
  intros Hs H1 H2 Heq. pose proof (i_ids _ _ Hs) as Hnd. fold (known s) in Hnd.
  apply list_elem_of_lookup in H1 as [i Hi], H2 as [j Hj].
  assert (i = j) as ->; [|congruence].
  eapply NoDup_lookup; [exact Hnd|rewrite list_lookup_fmap, Hi; reflexivity|rewrite list_lookup_fmap, Hj; cbn; by rewrite Heq].
Qed.

Lemma thread_known s i op pc : opThreads s !! i = Some (op, pc) -> op ∈ known s.
Proof.
  intros Hi. apply elem_of_app. right. apply list_elem_of_fmap. exists (op, pc). split; [done|by eapply list_elem_of_lookup_2].
Qed.

(** An operation is told to stop. *)
Lemma member_known s op pc : (op, pc) ∈ opThreads s -> op ∈ known s.
Proof. intros [i Hi]%list_elem_of_lookup. by eapply thread_known. Qed.

(** A pending operation has no thread, another one has one thread. *)
Lemma pending_no_thread s op pc : Inv n s -> op ∈ pq_elems (unscheduledOps s) -> (op, pc) ∈ opThreads s -> False.
Proof.
  intros Hs H1 H2. pose proof (i_ids _ _ Hs) as Hnd. rewrite fmap_app in Hnd. apply NoDup_app in Hnd as (_ & Hnd & _).
  apply (Hnd (op_id op)); apply list_elem_of_fmap; exists op; (split; [done|]); [done|].
  apply list_elem_of_fmap. by exists (op, pc).
Qed.

Lemma thread_index s i j op pc pc' : Inv n s -> opThreads s !! i = Some (op, pc) -> opThreads s !! j = Some (op, pc') -> i = j.
Proof.
  intros Hs Hi Hj. pose proof (i_ids _ _ Hs) as Hnd. rewrite fmap_app in Hnd. apply NoDup_app in Hnd as (_ & _ & Hnd).
  eapply NoDup_lookup; [exact Hnd|by rewrite !list_lookup_fmap, Hi|by rewrite !list_lookup_fmap, Hj].
Qed.

(** After [set_pc] the operation is at the new place only. *)
Lemma set_pc_same s i op pc pc' pc1 : Inv n s -> opThreads s !! i = Some (op, pc) ->
  (op, pc1) ∈ <[i := (op, pc')]> (opThreads s) -> pc1 = pc'.
Proof.
  intros Hs Hi [j Hj]%list_elem_of_lookup. destruct (decide (j = i)) as [->|Hne].
  - rewrite list_lookup_insert_eq in Hj by by eapply lookup_lt_Some. by injection Hj.
  - rewrite list_lookup_insert_ne in Hj by done. destruct Hne. by eapply thread_index.
Qed.

(** In [reset] the threads have ended. *)
Lemma reset_ended s c op pc : Inv n s -> mainThread s = InReset c -> (op, pc) ∈ opThreads s -> pc = TEnd.
Proof. intros Hs Hm Hin. pose proof (i_joined _ _ Hs) as Hj. rewrite Hm in Hj. destruct Hj as [_ Hall]. exact (Hall _ Hin). Qed.

Lemma told_cancel s op o c c' t : Inv n s -> Told s -> heap s !! op_id op = Some o -> op ∈ known s ->
  in_call t c s -> (forall op, ~ key_waits op (keyThread s)) -> (forall op, keyThread s <> CWaitPending op) ->
  (forall op, mainThread s <> InReset (CWaitPending op)) -> main_over (mainThread (place t c' s)) = false ->
  (op ∈ pq_elems (unscheduledOps s) /\ c' = CWaitPending op \/
    (exists pc, (op, pc) ∈ opThreads s) /\ t = TKey /\ key_waits op c') ->
  past_lock c' = true -> Told (place t c' (put_op op (op_cancel o) s)).
Proof.
  intros Hs Ht Ho Hop Hin Hkw Hkp Hmp Hover Hc' Hpl.
  assert (forall op', op' ∈ known s -> told (put_op op (op_cancel o) s) op' -> op' = op \/ told s op') as Hold.
  { intros op' Hk (o' & Ho' & Hf). cbn in Ho'. apply lookup_insert_Some in Ho' as [[Heq _]|[_ Ho']]; [left|right; by exists o'].
    by apply (known_inj s). }
  assert (forall op' pc, (op', pc) ∈ opThreads s -> op' ∈ known s) as Hthr by (intros op' pc; apply member_known).
  assert (forall op', op' ∈ pq_elems (unscheduledOps s) -> op' ∈ known s) as Hpen by (intros; apply elem_of_app; by left).
  assert (forall op' pc, op' ∈ pq_elems (unscheduledOps s) -> (op', pc) ∈ opThreads s -> False) as Hdis
    by (intros; by eapply pending_no_thread).
  assert (forall o', <[op_id op := op_cancel o]> (heap s) !! op_id op = Some o' -> o' = op_cancel o) as Hnew.
  { intros o' H. rewrite lookup_insert_eq in H. by injection H as <-. }
  destruct Ht.
  assert (past_lock (keyThread (place t c' s)) = true \/ t = TMain /\ keyThread (place t c' s) = keyThread s) as Hkey
    by (destruct t; cbn; auto).
  split.
  - intros op' Hk Htold. assert (op' ∈ known s) as Hk' by by destruct t.
    destruct (Hold op' Hk') as [->|Htold']; [by destruct t|..].
    + destruct t; [by left|]. destruct Hc' as [[_ ->]|(_ & [=] & _)]. by right.
    + destruct (td_flag0 op' Hk' Htold') as [H|H]; [left; destruct t; [exact Hpl|exact H]|by destruct (Hmp op')].
  - intros op' Hk Htold. assert (op' ∈ pq_elems (unscheduledOps s)) as Hk' by by destruct t.
    destruct (Hold op' (Hpen _ Hk')) as [->|Htold']; [by destruct t|..].
    + destruct Hc' as [[_ ->]|((pc & Hpc) & _)]; [destruct t; auto|by destruct (Hdis op pc)].
    + destruct (td_pending0 op' Hk' Htold') as [H|H]; [by destruct (Hkp op')|by destruct (Hmp op')].
  - intros op' Hk Htold. assert ((op', TStart) ∈ opThreads s) as Hk' by by destruct t.
    destruct (Hold op' (Hthr _ _ Hk')) as [->|Htold']; [by destruct t|..].
    + destruct Hc' as [[Hp _]|(_ & -> & Hw)]; [by destruct (Hdis op TStart)|exact Hw].
    + by destruct (Hkw op' (td_start0 op' Hk' Htold')).
  - intros op' pc Hk Hl. assert ((op', pc) ∈ opThreads s) as Hk' by by destruct t.
    destruct (td_late0 op' pc Hk' Hl) as [H|[_ H]]; [left; by destruct t|by destruct (Hkw op')].
  - intros Hm. exfalso. destruct t; cbn in *; congruence.
  - intros op' o' Hk Ho'.
    assert (op' ∈ pq_elems (unscheduledOps s) \/ (exists pc, (op', pc) ∈ opThreads s /\ idle pc = true)) as Hk' by by destruct t.
    assert (op' ∈ known s) as Hkn by (destruct Hk' as [?|(pc & ? & _)]; eauto).
    assert (<[op_id op := op_cancel o]> (heap s) !! op_id op' = Some o') as Ho1 by by destruct t.
    apply lookup_insert_Some in Ho1 as [[Heq <-]|[_ Ho1]]; [|by apply (td_idle0 op')].
    apply (known_inj s op op' Hs Hop Hkn) in Heq as ->. by apply (td_idle0 op' o).
  - intros _. destruct t; cbn; [by left|right; by exists c'].
Qed.

Lemma told_mtx m s : Told s -> Told (set_mtx m s).
Proof. intros Ht. apply (told_calm s); [done|split; cbn; eauto]. Qed.

(** A call of [cancel] that does not tell anybody goes on. *)
Lemma told_place t c c' s : Told s -> in_call t c s -> (forall op, ~ key_waits op c) -> (forall op, c <> CWaitPending op) ->
  past_lock c' = true -> (t = TMain -> c' = CReturned -> pq_elems (unscheduledOps s) = []) -> Told (place t c' s).
Proof.
  intros Ht Hin Hw Hp Hc Ho. destruct t; cbn in Hin |- *.
  - apply told_key; rewrite ?Hin; auto.
  - apply told_main; rewrite ?Hin; [done| | |].
    + intros op [= ->]. by destruct (Hp op).
    + cbn. destruct c'; try done. auto.
    + intros _. right. by exists c'.
Qed.

(** It gets the lock. *)
Lemma told_lock t l m r b s : Told s -> in_call t CCancelLock s -> Told (place t (CCancelRunning l) (set_mtx m (set_flags r b s))).
Proof.
  intros [] Hin. destruct t; cbn in Hin; rewrite Hin in *.
  - split; cbn; try done; auto.
    + intros op Hk Ho. destruct (td_pending0 op Hk Ho); [done|by right].
    + intros op Hk Ho. by destruct (td_start0 op Hk Ho).
    + intros op pc Hk Hl. destruct (td_late0 op pc Hk Hl) as [?|[_ [? ?]]]; [by left|done].
  - split; cbn; try done.
    + intros op Hk Ho. destruct (td_flag0 op Hk Ho); [by left|done].
    + intros op Hk Ho. destruct (td_pending0 op Hk Ho); [by left|done].
    + intros _. right. by exists (CCancelRunning l).
Qed.

Lemma told_cancel_step t c s s' : Inv n s -> Told s -> in_call t c s -> call_ok t s c -> cancel_step t c s = Some (Ok s') ->
  Told s'.
Proof.
  intros Hs Ht Hin Hc Hr.
  assert (mtx s = Some t -> (forall op, ~ key_waits op c) -> (forall op, c <> CWaitPending op) ->
    (forall op, ~ key_waits op (keyThread s)) /\ (forall op, keyThread s <> CWaitPending op) /\
    (forall op, mainThread s <> InReset (CWaitPending op))) as Hfree.
  { intros Hm Hw Hp. destruct t; cbn in Hin; rewrite ?Hin.
    - split_and!; [done|done|]. intros op E. pose proof (i_main _ _ Hs) as H. unfold main_ok in H. rewrite E in H. destruct H. congruence.
    - pose proof (i_key _ _ Hs) as H. split_and!.
      + intros op [todo E]. rewrite E in H. destruct H. congruence.
      + intros op E. rewrite E in H. destruct H. congruence.
      + intros op [= ->]. by destruct (Hp op). }
  destruct c as [| | | | |[|op todo]|op todo| |op|op|]; cbn in Hr, Hc; try done.
  - destruct (mtx s); [done|]. injection Hr as <-.
    by apply told_lock.
  - injection Hr as <-. apply (told_place t (CCancelRunning [])); try done. by intros ? [? ?].
  - destruct Hc as [Hm Hc]. unfold with_op in Hr. destruct (heap s !! op_id op) as [o|] eqn:Ho; [|done]. injection Hr as <-.
    assert (op ∈ runningOps s) as Hrun by (apply Hc; left). rewrite (i_running _ _ Hs) in Hrun.
    apply pick_elem in Hrun as (pc & Hpc & Hlive).
    destruct (Hfree Hm) as (H1 & H2 & H3); [by intros ? [? ?]|done|].
    assert (forall c, mainThread s = InReset c -> False) as Hnr
      by (intros c E; by rewrite (reset_ended s c op pc Hs E Hpc) in Hlive).
    destruct t; cbn in Hin; [|by destruct (Hnr _ Hin)].
    eapply (told_cancel s op o (CCancelRunning (op :: todo))); try done.
    + by eapply member_known.
    + cbn. destruct (mainThread s) as [| |c|] eqn:E; try done; [by destruct (Hnr c)|].
      pose proof (i_joined _ _ Hs) as Hj. rewrite E in Hj. destruct Hj as [_ Hall]. specialize (Hall _ Hpc).
      cbn in Hall. by rewrite Hall in Hlive.
    + right. split; [by exists pc|]. split; [done|]. by exists todo.
  - destruct (Hfree Hc) as (H1 & H2 & H3); [by intros ? [? ?]|done|].
    destruct (pq_top (unscheduledOps s)) as [op|] eqn:Htop.
    + injection Hr as Hr. unfold with_op in Hr. destruct (heap s !! op_id op) as [o|] eqn:Ho; [|done]. injection Hr as <-.
      pose proof (pq_pop_elems _ _ (i_heap _ _ Hs) Htop) as Hp.
      assert (op ∈ pq_elems (unscheduledOps s)) as Hop by (rewrite Hp; left).
      eapply (told_cancel s op o CCancelPending); try done; [by apply elem_of_app; left| |by left].
      destruct t; [|done]. cbn. pose proof (td_over _ Ht) as Hov. destruct (main_over (mainThread s)); [|done].
      rewrite Hov in Hop by done. by apply elem_of_nil in Hop.
    + injection Hr as <-. apply (told_place t CCancelPending); try done.
      * by apply told_mtx.
      * by intros ? [? ?].
      * intros _ _. by apply pq_top_none.
Qed.

Lemma told_main_step s s' : Inv n s -> Told s -> main_step s = Some (Ok s') -> Told s'.
Proof.
  intros Hs Ht Hr. unfold main_step in Hr. pose proof (td_queue _ Ht) as Hq.
  destruct (mainThread s) as [| |c|] eqn:E; try done.
  - destruct (exeThread s); try done. injection Hr as <-. apply told_main; rewrite ?E; try done. naive_solver.
  - destruct (forallb _ _); [|done]. injection Hr as <-. apply told_main; rewrite ?E; try done. naive_solver.
  - destruct (decide (c = CReturned)) as [->|Hc].
    + injection Hr as <-. pose proof (td_over _ Ht) as Ho. rewrite E in Ho. specialize (Ho eq_refl).
      destruct Ht. split; cbn; try done.
      * intros op. unfold known. cbn. rewrite Ho. by intros ?%elem_of_nil.
      * intros op. rewrite Ho. by intros ?%elem_of_nil.
      * by intros op ?%elem_of_nil.
      * by intros op pc ?%elem_of_nil.
      * intros op o [Hin|(pc & Hin%elem_of_nil & _)]; [|done]. rewrite Ho in Hin. by apply elem_of_nil in Hin.
    + apply (told_cancel_step TMain c s s'); try done; [|by destruct c].
      pose proof (i_main _ _ Hs) as H. unfold main_ok in H. by rewrite E in H.
Qed.

Lemma told_key_press k s s' : Told s -> key_press k s = Some (Ok s') -> Told s'.
Proof.
  intros Ht Hr. unfold key_press in Hr. destruct (keyThread s) eqn:E; try done.
  assert (forall c r, Some (set_key c <$> r) = Some (Ok s') -> (forall s1, r = Ok s1 -> calm s s1) -> Told s') as Hset.
  { intros c r Hr' Hk. destruct r as [s1| | |]; try done. injection Hr' as <-. specialize (Hk s1 eq_refl).
    apply told_key; rewrite ?(cm_key _ _ Hk), ?E; try done; [by apply (told_calm s)|by intros op [? ?]]. }
  destruct k; [destruct (_isRunning s); [destruct (_isCancelled s)|]|].
  - by injection Hr as <-.
  - apply (Hset (CPausing (head (runningOps s))) (Ok s)); [done|]. by intros s1 [= <-].
  - injection Hr as Hr. by eapply told_calm; [|apply calm_resume].
  - by eapply Hset; [exact Hr|apply calm_resume].
Qed.

Lemma told_key_step s s' : Inv n s -> Told s -> key_step s = Some (Ok s') -> Told s'.
Proof.
  intros Hs Ht Hr. unfold key_step in Hr. pose proof (i_key _ _ Hs) as Hk. destruct (keyThread s) eqn:E;
    try (by eapply (told_cancel_step TKey); [done|done|exact E|exact Hk|]).
  all: destruct (pause_step_calm _ _ _ Hr) as (c' & s1 & -> & Hc & Hp); apply told_key; rewrite ?(cm_key _ _ Hc), ?E;
    [by apply (told_calm s)|by intros ? [? ?]|done|done].
Qed.

(** The thread [i] of [op] moves on. *)
Lemma told_move s s' i op pc pc' : Inv n s -> Told s -> opThreads s !! i = Some (op, pc) ->
  opThreads s' = <[i := (op, pc')]> (opThreads s) -> unscheduledOps s' = unscheduledOps s -> mainThread s' = mainThread s -> _isCancelled s' = _isCancelled s ->
  keyThread s' = keyThread s \/ keyThread s' = wake op (keyThread s) -> pc' <> TStart ->
  (forall k o', heap s' !! k = Some o' -> exists o, heap s !! k = Some o /\
    op_isCancelled o' = op_isCancelled o /\ (op_isRunning o' = op_isRunning o \/ k = op_id op)) ->
  (forall o, idle pc' = true -> heap s' !! op_id op = Some o -> op_isRunning o = false) ->
  (log s' = log s \/ log s' = log s ++ [op]) ->
  (late pc' = true -> op ∈ log s' \/ (pc' = TFinished /\ key_waits op (keyThread s'))) -> Told s'.
Proof.
  intros Hs Ht Hi Hthr Hu Hm Hflag Hk Hl Hheap Hidle Hlog Hop.
  assert (forall op', told s' op' -> told s op') as Htold.
  { intros op' (o' & Ho' & Hf). destruct (Hheap _ _ Ho') as (o & ? & ? & _). exists o. split; congruence. }
  assert (forall op' pc1, (op', pc1) ∈ opThreads s' -> (op', pc1) = (op, pc') \/ (op', pc1) ∈ opThreads s) as Hin'.
  { intros op' pc1. rewrite Hthr. by apply (calm_threads_insert _ i op pc pc'). }
  assert (forall op' pc1, (op', pc1) ∈ opThreads s' -> op' = op -> pc1 = pc') as Hsame
    by (intros op' pc1 Hin ->; rewrite Hthr in Hin; by eapply set_pc_same).
  assert (op ∉ pq_elems (unscheduledOps s)) as Hnp
    by (intros Hin; by eapply (pending_no_thread s), list_elem_of_lookup_2).
  assert (forall op', op' <> op -> key_waits op' (keyThread s) -> key_waits op' (keyThread s')) as Hkw.
  { intros op' Hne [todo E]. exists todo. destruct Hk as [-> | ->]; [done|]. rewrite E. cbn. by rewrite decide_False. }
  destruct Ht. split.
  - intros op' Hin Ho. assert (op' ∈ known s) as Hin1.
    { unfold known in *. rewrite Hu, Hthr, (set_pc_fst i op pc pc' s Hi) in Hin. done. }
    rewrite Hm. destruct (td_flag0 op' Hin1 (Htold _ Ho)) as [H|H]; [left|by right].
    destruct Hk as [-> | ->]; [done|]. destruct (keyThread s); try done; cbn; by case_decide.
  - rewrite Hu, Hm. intros op' Hin Ho. destruct (td_pending0 op' Hin (Htold _ Ho)) as [H|H]; [left|by right].
    destruct Hk as [-> | ->]; [done|]. rewrite H. cbn. by rewrite decide_False by (intros ->; by apply Hnp).
  - intros op' Hin Ho. destruct (decide (op' = op)) as [->|Hne].
    { specialize (Hsame op TStart Hin eq_refl) as <-. done. }
    apply Hkw; [done|]. apply td_start0; [|by apply Htold]. by destruct (Hin' _ _ Hin) as [[= ? ?]|].
  - intros op' pc1 Hin Hl1. destruct (decide (op' = op)) as [->|Hne].
    { specialize (Hsame op pc1 Hin eq_refl) as ->. auto. }
    destruct (Hin' _ _ Hin) as [[= ? ?]|Hin1]; [done|]. destruct (td_late0 _ _ Hin1 Hl1) as [H|[-> H]].
    + left. destruct Hlog as [->| ->]; [done|]. apply elem_of_app. by left.
    + right. split; [done|]. by apply Hkw.
  - rewrite Hm, Hu. done.
  - intros op' o' Hin Ho'. destruct (decide (op' = op)) as [->|Hne].
    + apply Hidle; [|done]. rewrite Hu in Hin. destruct Hin as [?|(pc1 & Hin & Hpc1)]; [done|].
      by specialize (Hsame op pc1 Hin eq_refl) as ->.
    + assert (op' ∈ pq_elems (unscheduledOps s) \/ (exists pc, (op', pc) ∈ opThreads s /\ idle pc = true)) as Hin1.
      { rewrite Hu in Hin. destruct Hin as [?|(pc1 & Hin & Hpc1)]; [by left|right]. exists pc1. split; [|done].
        by destruct (Hin' _ _ Hin) as [[= ? ?]|]. }
      destruct (Hheap _ _ Ho') as (o & Ho & _ & [-> | Hid]); [by apply (td_idle0 op' o)|]. destruct Hne.
      apply (known_inj s); [done| |by eapply thread_known|done].
      destruct Hin1 as [?|(pc1 & Hin1 & _)]; [apply elem_of_app; by left|by eapply member_known].
  - rewrite Hflag, Hm. intros H. destruct (td_queue0 H) as [Hp|Hp]; [left|by right].
    destruct Hk as [-> | ->]; [done|]. destruct (keyThread s); try done; cbn; by case_decide.
Qed.

Lemma live_not_over s i op pc : Inv n s -> opThreads s !! i = Some (op, pc) -> pc <> TEnd ->
  main_over (mainThread s) = false /\ forall c, mainThread s <> InReset c.
Proof.
  intros Hs Hi Hpc. assert (~ all_ended s) as Hne by (intros Hall; by specialize (Hall _ (list_elem_of_lookup_2 _ _ _ Hi))).
  pose proof (i_joined _ _ Hs) as Hj. destruct (mainThread s); try done; by destruct Hj.
Qed.

Lemma told_op b i s s' : Inv n s -> Told s -> op_step b i s = Some (Ok s') -> Told s'.
Proof.
  intros Hs Ht Hr. unfold op_step, finished, with_op in Hr. destruct (opThreads s !! i) as [[op pc]|] eqn:Hi; [|done].
  assert ((op, pc) ∈ opThreads s) as Hin by by eapply list_elem_of_lookup_2.
  destruct pc; try done.
  - destruct (heap s !! op_id op) as [o|] eqn:Ho; [|done]. destruct (op_isCancelled o) eqn:Hc; injection Hr as <-.
    + eapply (told_move s _ i op TStart TFinished); try done; cbn; eauto.
      * intros o' _ Ho'. apply (td_idle _ Ht op); [right; by exists TStart|done].
      * right. split; [done|]. apply (td_start _ Ht); [done|by exists o].
    + eapply (told_move s _ i op TStart TExecute); try done; cbn; eauto.
      intros k o' Hk. apply lookup_insert_Some in Hk as [[<- <-]|[_ Hk]]; [exists o|exists o']; eauto.
  - destruct (heap s !! op_id op) as [o|] eqn:Ho; [|done]. destruct b.
    + destruct (op_isPaused o); [|done]. injection Hr as <-. apply (told_calm s); [done|]. by eapply calm_set_pc.
    + injection Hr as <-. eapply (told_move s _ i op TExecute TStop); try done; cbn; eauto.
      intros _. left. apply elem_of_app. right. left.
  - destruct (heap s !! op_id op) as [o|] eqn:Ho; [|done]. injection Hr as <-.
    destruct (live_not_over s i op TStop Hs Hi) as [_ Hm]; [done|].
    eapply (told_move s _ i op TStop TFinished); try done; cbn; eauto.
    + destruct (mainThread s); try done. by destruct (Hm c).
    + intros k o' Hk. apply lookup_insert_Some in Hk as [[<- <-]|[_ Hk]]; [exists o|exists o']; eauto.
    + intros o' _ Ho'. rewrite lookup_insert_eq in Ho'. by injection Ho' as <-.
    + destruct (td_late _ Ht op TStop Hin) as [?|[? _]]; [done|by left|done].
  - destruct (mtx s) eqn:Hm; [done|]. destruct (heap s !! op_id op) as [o|] eqn:Ho; [|done]. injection Hr as <-.
    eapply (told_move s _ i op TFinished TNotify); try done; cbn; eauto.
    + intros k o' Hk. apply lookup_delete_Some in Hk as [_ Hk]. eauto.
    + intros _. left. destruct (td_late _ Ht op TFinished Hin) as [?|[_ [todo E]]]; [done|done|].
      pose proof (i_key _ _ Hs) as Hk. rewrite E in Hk. destruct Hk. congruence.
  - injection Hr as <-. eapply (told_move s _ i op TNotify TEnd); try done; cbn; eauto.
    intros _. left. destruct (td_late _ Ht op TNotify Hin) as [?|[? _]]; done.
Qed.

Lemma told_step l s s' : Inv n s -> Told s -> notified l = true -> step l s = Some (Ok s') -> Told s'.
Proof.
  intros Hs Ht Hl Hr. destruct l as [| |b i|k| |t]; cbn in Hr; try done.
  - by eapply told_exe.
  - by eapply told_main_step.
  - by eapply told_op.
  - by eapply told_key_press.
  - by eapply told_key_step.
Qed.

(** No step but the end of [reset] drops an operation, and no thread goes back. *)
Definition forward (s s' : State Q) : Prop :=
  (mainThread s' = Returned <-> mainThread s = Returned) /\ (forall op, op ∈ known s -> op ∈ known s') /\
  (forall op, op ∈ pq_elems (unscheduledOps s') -> op ∈ pq_elems (unscheduledOps s)) /\
  forall op pc, (op, pc) ∈ opThreads s' -> late pc = false ->
    op ∈ pq_elems (unscheduledOps s) \/ exists pc0, (op, pc0) ∈ opThreads s /\ late pc0 = false.

Lemma forward_same s s' : (mainThread s' = Returned <-> mainThread s = Returned) ->
  unscheduledOps s' = unscheduledOps s -> opThreads s' = opThreads s -> forward s s'.
Proof. intros Hm Hu Ht. unfold forward, known. rewrite Hu, Ht. split_and!; eauto. Qed.

Lemma forward_calm s s' : kept s s' -> calm s s' -> forward s s'.
Proof.
  intros (Hu & Hf & _) Hc. split; [by rewrite (cm_main _ _ Hc)|]. split; [intros op; unfold known; by rewrite Hu, Hf|].
  split; [by rewrite Hu|].
  intros op pc Hin Hl. right. destruct (cm_threads _ _ Hc _ _ Hin) as (pc0 & Hin0 & [<-|(_ & _ & ?)]); eauto.
Qed.

Lemma forward_set_pc s s' i op pc pc' : opThreads s !! i = Some (op, pc) -> opThreads s' = <[i := (op, pc')]> (opThreads s) ->
  unscheduledOps s' = unscheduledOps s -> (late pc = false \/ late pc' = true) ->
  (mainThread s' = Returned <-> mainThread s = Returned) -> forward s s'.
Proof.
  intros Hi Ht Hu Hl Hm. split; [done|]. split; [|split; [by rewrite Hu|]].
  - intros op'. unfold known. by rewrite Hu, Ht, (set_pc_fst i op pc pc' s Hi).
  - intros op' pc1 Hin Hl1. right. rewrite Ht in Hin.
    destruct (calm_threads_insert _ _ _ _ _ _ _ Hi Hin) as [[= -> ->]|?]; [|by eauto].
    exists pc. split; [by eapply list_elem_of_lookup_2|]. destruct Hl; congruence.
Qed.

Ltac moved_on Hi := eapply forward_set_pc; [exact Hi|cbn; auto..].

Lemma cancel_threads t c s s' : in_call t c s -> cancel_step t c s = Some (Ok s') -> call_ok t s c ->
  (mainThread s' = Returned <-> mainThread s = Returned) /\ unscheduledOps s' = unscheduledOps s /\ opThreads s' = opThreads s.
Proof.
  intros Hin Hr Hc. unfold cancel_step, with_op in Hr. destruct c as [| | | | |[|op todo]|op todo| |op|op|]; cbn in Hc; try done.
  - destruct (mtx s); [done|]. injection Hr as <-. destruct t; cbn in *; rewrite ?Hin; done.
  - injection Hr as <-. destruct t; cbn in *; rewrite ?Hin; done.
  - destruct (heap s !! op_id op); [|done]. injection Hr as <-. destruct t; cbn in *; rewrite ?Hin; done.
  - destruct (pq_top _) as [op|]; [destruct (heap s !! op_id op); [|done]|]; injection Hr as <-; destruct t; cbn in *; rewrite ?Hin; done.
Qed.

Lemma step_forward l s s' : Inv n s -> notified l = true -> step l s = Some (Ok s') ->
  forward s s' \/ (s' = reset_end s /\ mainThread s = InReset CReturned).
Proof.
  intros Hs Hl Hr. destruct l as [| |b i|k| |t]; cbn in Hr; try done.
  - left. unfold exe_step in Hr. destruct (exeThread s); try done; try (injection Hr as <-; by apply forward_same).
    + destruct (sem_wait (guard s)); [|done]. injection Hr as <-. by apply forward_same.
    + destruct (mtx s); [done|]. destruct (pq_top (unscheduledOps s)) as [op|] eqn:Ht; [|done]. injection Hr as <-.
      pose proof (pq_pop_elems _ _ (i_heap _ _ Hs) Ht) as Hp. split; [done|]. split.
      { unfold known. cbn. intros op'. rewrite Hp, fmap_app. set_solver. }
      split; [intros op' Hin; rewrite Hp; by right|].
      cbn. intros op' pc Hin Hpc. rewrite Hp. apply elem_of_app in Hin as [Hin|Hin]; [by eauto|].
        apply list_elem_of_singleton in Hin as [= -> ->]. left. left.
  - unfold main_step in Hr. pose proof (i_main _ _ Hs) as Hm. unfold main_ok in Hm. destruct (mainThread s) as [| |c|] eqn:E; try done.
    + destruct (exeThread s); try done. injection Hr as <-. left. apply forward_same; [by rewrite E|done..].
    + destruct (forallb _ _); [|done]. injection Hr as <-. left. apply forward_same; [by rewrite E|done..].
    + destruct (decide (c = CReturned)) as [->|Hc]; [right; by injection Hr as <-|left].
      assert (cancel_step TMain c s = Some (Ok s')) as Hr' by by destruct c.
      destruct (cancel_threads TMain c s s' E Hr') as (? & ? & ?); [done|by apply forward_same].
  - left. unfold op_step, finished, with_op in Hr. destruct (opThreads s !! i) as [[op pc]|] eqn:Hi; [|done].
    destruct pc; try done; try (destruct (mtx s); [done|]); try (destruct (heap s !! op_id op) as [o|]; [|done]).
    + injection Hr as <-. destruct (op_isCancelled o); moved_on Hi.
    + destruct b; [destruct (op_isPaused o); [|done]|]; injection Hr as <-; moved_on Hi.
    + injection Hr as <-. moved_on Hi. by destruct (mainThread s).
    + injection Hr as <-. moved_on Hi.
    + injection Hr as <-. moved_on Hi.
  - left. unfold key_press in Hr. destruct (keyThread s); try done.
    assert (forall c r, Some (set_key c <$> r) = Some (Ok s') -> (forall s1, r = Ok s1 -> kept s s1 /\ calm s s1) -> forward s s') as Hset.
    { intros c r Hr' Hk. destruct r as [s1| | |]; try done. injection Hr' as <-. destruct (Hk s1 eq_refl).
      by apply (forward_calm s s1). }
    destruct k; [destruct (_isRunning s); [destruct (_isCancelled s)|]|].
    + injection Hr as <-. by apply forward_same.
    + apply (Hset (CPausing (head (runningOps s))) (Ok s)); [done|]. by intros s1 [= <-].
    + injection Hr as Hr. apply forward_calm; [by apply resume_kept|by apply calm_resume].
    + eapply Hset; [exact Hr|]. intros s1 H1. split; [by apply resume_kept|by apply calm_resume].
  - left. unfold key_step in Hr. pose proof (i_key _ _ Hs) as Hk. destruct (keyThread s) eqn:E;
      try (destruct (cancel_threads TKey _ _ _ E Hr Hk) as (? & ? & ?); by apply forward_same).
    all: destruct (pause_step_calm _ _ _ Hr) as (c' & s1 & -> & Hc & _); apply (forward_calm s s1); [|done..].
    all: by apply pause_step_kept in Hr.
Qed.
End steps.

(** ** The queue again: [add] and [execute] after a [waitForFinished] *)

Section again.
Context {Q : Type} `{PQ : PriorityQueue OpPtr opGreaterPriority Q}.
Context (n : Z) (n_u32 : in_u32 n).
#[local] Set Default Proof Using "Type*".

(** The queue with nothing in it, between two rounds. *)
Record Resting (s : State Q) : Prop := {
  rs_inv : Inv n s;
  rs_told : Told s;
  rs_main : mainThread s = Returned;
  rs_threads : opThreads s = [] }.

Lemma resting_empty s : Resting s -> pq_elems (unscheduledOps s) = [] /\ runningOps s = [] /\ exeThread s = EDone /\ heap s = ∅.
Proof.
  intros [Hs Ht Hm Hth]. assert (pq_elems (unscheduledOps s) = []) as Hu by (apply (td_over _ Ht); by rewrite Hm).
  assert (runningOps s = []) as Hr by by rewrite (i_running _ _ Hs), Hth.
  split_and!; [done..| |].
  - pose proof (i_joined _ _ Hs) as Hj. rewrite Hm in Hj. by destruct Hj.
  - apply map_eq. intros k. rewrite lookup_empty. apply eq_None_not_Some. rewrite (i_live _ _ Hs), Hu, Hr. by intros ?%elem_of_nil.
Qed.

(** [add] of an operation; the log is that of the round. *)
Definition refill (op : OpPtr) (s : State Q) : State Q := add op (set_log [] (set_main JoinExecutor s)).

Record Filled (op : OpPtr) (s : State Q) : Prop := {
  fl_inv : Inv n s;
  fl_told : Told s;
  fl_main : mainThread s = JoinExecutor;
  fl_threads : opThreads s = [];
  fl_exe : exeThread s = EDone;
  fl_elems : pq_elems (unscheduledOps s) ≡ₚ [op];
  fl_log : log s = [] }.

Lemma refill_filled op s : Resting s -> mtx s = None -> Filled op (refill op s).
Proof.
  intros Hr Hx. destruct (resting_empty s Hr) as (Hu & Hrun & He & Hh). destruct Hr as [Hs Ht Hm Hth].
  assert (pq_elems (pq_push op (unscheduledOps s)) ≡ₚ [op]) as Hp by (rewrite pq_push_elems by apply Hs; by rewrite Hu).
  pose proof (i_cap _ _ Hs) as Hcap. pose proof (i_key _ _ Hs) as Hkey. rewrite Hth in Hcap.
  split; try done; cbn.
  - split; unfold main_ok; cbn; rewrite ?Hm, ?Hth, ?Hrun, ?Hx; try done.
    + apply pq_push_heap, Hs.
    + rewrite Hp. repeat constructor. by intros ?%elem_of_nil.
    + intros k. rewrite Hp, lookup_insert_is_Some, Hh, lookup_empty. csimpl.
      assert (~ is_Some (@None Operation)) by by intros []. set_solver.
    + by rewrite He.
    + destruct (keyThread s); cbn in *; try done; naive_solver congruence.
  - assert (forall op' o, <[op_id op := setQueue Operation_ctor]> (heap s) !! op_id op' = Some o ->
      op_isCancelled o = false /\ op_isRunning o = false) as Ho.
    { rewrite Hh. intros op' o [[_ <-]|[_ Ho]]%lookup_insert_Some; [done|]. by rewrite lookup_empty in Ho. }
    assert (forall op', ~ told (refill op s) op') as Hn by (intros op' (o & H & Hc); destruct (Ho op' o H); congruence).
    split; cbn; try done; rewrite ?Hth.
    + intros op' _ H. by destruct (Hn op').
    + intros op' _ H. by destruct (Hn op').
    + by intros ? ?%elem_of_nil.
    + by intros ? ? ?%elem_of_nil.
    + intros op' o _ H. by destruct (Ho op' o).
    + intros H. destruct (td_queue _ Ht H) as [?|(c & Hc & _)]; [by left|congruence].
Qed.

Lemma execute_filled op s : Filled op s -> Inv n (execute s) /\ Told (execute s) /\ forall op', op' ∈ known (execute s) <-> op' = op.
Proof.
  intros [Hs Ht Hm Hth He Hu Hl]. split; [|split].
  - pose proof (i_cap _ _ Hs) as Hcap. rewrite He in Hcap. destruct Hs. split; try done. cbn. by rewrite Hm.
  - by destruct Ht; split.
  - intros op'. unfold known. cbn. by rewrite Hth, app_nil_r, Hu, list_elem_of_singleton.
Qed.

(** While the executor rests only the key thread has steps, but for the main thread. *)
Lemma resting_step l s s' : Inv n s -> l <> LMain -> notified l = true -> exeThread s = EDone -> opThreads s = [] ->
  step l s = Some (Ok s') ->
  exeThread s' = EDone /\ opThreads s' = [] /\ mainThread s' = mainThread s /\ log s' = log s /\ unscheduledOps s' = unscheduledOps s /\
  (_isCancelled s = true -> _isCancelled s' = true).
Proof.
  intros Hs Hlm Hl He Hth Hr. destruct l as [| |b i|k| |t]; cbn in Hr; try done.
  - unfold exe_step in Hr. by rewrite He in Hr.
  - unfold op_step in Hr. by rewrite Hth in Hr.
  - unfold key_press in Hr. destruct (keyThread s); try done.
    assert (exists s1, resume s = Ok s1 /\ exeThread s1 = EDone /\ opThreads s1 = [] /\ mainThread s1 = mainThread s /\
      log s1 = log s /\ unscheduledOps s1 = unscheduledOps s /\ (_isCancelled s = true -> _isCancelled s1 = true)) as (s1 & Hres & ?).
    { unfold resume. rewrite Hth. cbn. destruct (_ || _); eexists; (split; [done|]); split_and!; done. }
    rewrite Hres in Hr. destruct k; [destruct (_isRunning s); [destruct (_isCancelled s) eqn:?|]|]; by injection Hr as <-.
  - unfold key_step in Hr. pose proof (i_key _ _ Hs) as Hk. destruct (keyThread s) as [| | | | |[|op todo]|op todo| |op|op|] eqn:E;
      unfold pause_step, cancel_step, with_op in Hr; cbn in Hk; try done.
    + destruct it as [op|]; [|by injection Hr as <-]. case_decide; [|done].
      destruct (heap s !! op_id op); [|done]. by injection Hr as <-.
    + case_decide; [|done]. by injection Hr as <-.
    + destruct (mtx s); [done|]. by injection Hr as <-.
    + destruct (mtx s); [done|]. by injection Hr as <-.
    + by injection Hr as <-.
    + destruct (heap s !! op_id op); [|done]. by injection Hr as <-.
    + destruct (pq_top _); [destruct (heap s !! _); [|done]|]; by injection Hr as <-.
Qed.
(** A [cancel] that has told an operation is the only one, and [reset] makes it forgotten. *)
Definition Spent (s : State Q) : Prop :=
  past_lock (keyThread s) = true /\
  match mainThread s with
  | InReset c => past_lock c = true -> keyThread s = CReturned
  | Returned => keyThread s = CReturned /\ _isCancelled s = false
  | _ => True
  end.

Lemma past_lock_mtx s : Inv n s -> past_lock (keyThread s) = true -> mtx s = None -> keyThread s = CReturned.
Proof.
  intros Hs Hp Hm. pose proof (i_key _ _ Hs) as Hk. destruct (keyThread s); cbn in Hk; try done; rewrite Hm in Hk; naive_solver.
Qed.

(** Who was told to stop while it was executed was told by the key thread. *)
Lemma executing_spent s i op pc o : Inv n s -> Told s -> opThreads s !! i = Some (op, pc) -> pc <> TEnd ->
  heap s !! op_id op = Some o -> op_isCancelled o = true -> Spent s.
Proof.
  intros Hs Ht Hi Hpc Ho Hc. destruct (live_not_over n n_u32 s i op pc Hs Hi Hpc) as [Hov Hm].
  destruct (td_flag _ Ht op) as [Hp|Hp]; [by eapply thread_known|by exists o| |by destruct (Hm (CWaitPending op))].
  split; [done|]. destruct (mainThread s); try done. by destruct (Hm c).
Qed.

Lemma wake_past_lock op c : past_lock (wake op c) = past_lock c.
Proof. destruct c; try done; cbn; by case_decide. Qed.

Lemma op_step_frame_key b i (s s' : State Q) : op_step b i s = Some (Ok s') ->
  _isCancelled s' = _isCancelled s /\
  ((keyThread s' = keyThread s /\ mainThread s' = mainThread s) \/
   exists op, opThreads s !! i = Some (op, TStop) /\ keyThread s' = wake op (keyThread s)).
Proof.
  intros Hr. unfold op_step, finished, with_op in Hr. destruct (opThreads s !! i) as [[op pc]|] eqn:Hi; [|done].
  destruct pc; try done; try (destruct (mtx s); [done|]); try (destruct (heap s !! op_id op) as [o|]; [|done]).
  - injection Hr as <-. destruct (op_isCancelled o); auto.
  - destruct b; [destruct (op_isPaused o); [|done]|]; injection Hr as <-; auto.
  - injection Hr as <-. split; [done|]. right. by exists op.
  - injection Hr as <-. auto.
  - injection Hr as <-. auto.
Qed.

Lemma spent_step l s s' : Inv n s -> Spent s -> notified l = true -> step l s = Some (Ok s') -> Spent s'.
Proof.
  intros Hs [Hp Hm] Hl Hr. destruct l as [| |b i|k| |t]; cbn in Hr; try done.
  - unfold exe_step in Hr. destruct (exeThread s); try done; try (injection Hr as <-; by split).
    + destruct (sem_wait (guard s)); [|done]. injection Hr as <-. by split.
    + destruct (mtx s); [done|]. destruct (pq_top (unscheduledOps s)); [|done]. injection Hr as <-. by split.
  - unfold main_step in Hr. destruct (mainThread s) as [| |c|] eqn:E; try done.
    + destruct (exeThread s); try done. by injection Hr as <-.
    + destruct (forallb _ _); [|done]. by injection Hr as <-.
    + destruct (decide (c = CReturned)) as [->|Hc].
      { injection Hr as <-. split; [done|]. cbn. by rewrite (Hm eq_refl). }
      assert (cancel_step TMain c s = Some (Ok s')) as Hr' by by destruct c. clear Hr Hc. unfold cancel_step, with_op in Hr'.
      destruct c as [| | | | |[|op todo]|op todo| |op|op|]; try done.
      * destruct (mtx s) eqn:Hx; [done|]. injection Hr' as <-. split; [done|]. cbn. intros _. by apply past_lock_mtx.
      * injection Hr' as <-. split; [done|]. cbn. auto.
      * destruct (heap s !! op_id op); [|done]. injection Hr' as <-. split; [done|]. cbn. auto.
      * destruct (pq_top _); [destruct (heap s !! _); [|done]|]; injection Hr' as <-; (split; [done|]); cbn; auto.
      * destruct (heap s !! op_id op); [|done]. injection Hr' as <-. split; [done|]. cbn. auto.
  - destruct (op_step_frame_key b i s s' Hr) as (Hc & [(Hk & Hmm)|(op & Hi & Hk)]).
    + split; [congruence|]. rewrite Hmm, Hk, Hc. done.
    + destruct (live_not_over n n_u32 s i op TStop Hs Hi) as [Hov Hnr]; [done|].
      assert (mainThread s' = mainThread s) as Hmm.
      { unfold op_step, with_op in Hr. rewrite Hi in Hr. destruct (heap s !! op_id op); [|done]. injection Hr as <-. cbn.
        destruct (mainThread s); try done. by destruct (Hnr c). }
      split; [by rewrite Hk, wake_past_lock|]. rewrite Hmm. destruct (mainThread s); try done. by destruct (Hnr c).
  - unfold key_press in Hr. by destruct (keyThread s).
  - unfold key_step in Hr. assert (cancel_step TKey (keyThread s) s = Some (Ok s')) as Hr' by by destruct (keyThread s).
    clear Hr. unfold cancel_step, with_op in Hr'.
    assert (forall c, keyThread s = c -> c <> CReturned -> match mainThread s with InReset c => past_lock c = false | Returned => False | _ => True end) as Hm'.
    { intros c <- Hc. destruct (mainThread s); try done; [|by destruct Hm]. destruct (past_lock c) eqn:E; [|done]. by destruct Hc, Hm. }
    destruct (keyThread s) as [| | | | |[|op todo]|op todo| |op|op|] eqn:E; try done; specialize (Hm' _ eq_refl ltac:(done)).
    * injection Hr' as <-. split; [done|]. cbn. destruct (mainThread s); try done. congruence.
    * destruct (heap s !! op_id op); [|done]. injection Hr' as <-. split; [done|]. cbn. destruct (mainThread s); try done. congruence.
    * destruct (pq_top _); [destruct (heap s !! _); [|done]|]; injection Hr' as <-; (split; [done|]); cbn;
        destruct (mainThread s); try done; congruence.
    * destruct (heap s !! op_id op); [|done]. injection Hr' as <-. split; [done|]. cbn. destruct (mainThread s); try done. congruence.
Qed.
End again.

(** ** A queue that ends has executed everything *)

Section complete.
Context {Q : Type} `{PQ : PriorityQueue OpPtr opGreaterPriority Q}.
Context (n : Z) (n_u32 : in_u32 n) (ops : list OpPtr) (ops_distinct : NoDup (op_id <$> ops)).
#[local] Set Default Proof Using "All".

(** What is logged was executed once. *)
Record Executed (s : State Q) : Prop := {
  ex_inv : Inv n s;
  ex_told : Told s;
  ex_sub : forall op, op ∈ known s \/ op ∈ log s -> op ∈ ops;
  ex_log : NoDup (log s);
  ex_pending : forall op, op ∈ log s -> op ∉ pq_elems (unscheduledOps s);
  ex_late : forall op pc, op ∈ log s -> (op, pc) ∈ opThreads s -> late pc = true;
  ex_known : mainThread s <> Returned -> forall op, op ∈ ops -> op ∈ known s;
  ex_done : mainThread s = Returned -> opThreads s = [] /\ forall op, op ∈ ops -> op ∈ log s }.

Lemma executed_start : Executed (start_queue n ops).
Proof.
  destruct (start_inv n n_u32 (Q := Q) ops ops_distinct) as [Hs Hp].
  pose proof (add_all_frame n n_u32 ops (queue_ctor (Q := Q) n)) as (He & Hk & Hm & Ht & Hx & Hc & Hl).
  assert (opThreads (start_queue (Q := Q) n ops) = []) as Ht' by exact Ht.
  assert (log (start_queue (Q := Q) n ops) = []) as Hl' by exact Hl.
  assert (mainThread (start_queue (Q := Q) n ops) = JoinExecutor) as Hm' by exact Hm.
  assert (map_Forall (fun _ o => op_isCancelled o = false /\ op_isRunning o = false) (heap (start_queue (Q := Q) n ops))) as Hf.
  { unfold start_queue. cbn. assert (map_Forall (fun _ o => op_isCancelled o = false /\ op_isRunning o = false)
      (heap (queue_ctor (Q := Q) n))) as H by by intros ? ?. clear - H. revert H. generalize (queue_ctor (Q := Q) n) as s.
    induction ops as [|op l IH]; intros s H; [done|]. apply IH. cbn. by apply map_Forall_insert_2. }
  assert (forall op, ~ told (start_queue (Q := Q) n ops) op) as Hn.
  { intros op (o & Ho & Hc'). destruct (Hf _ _ Ho). congruence. }
  split; [done| |..]; rewrite ?Ht', ?Hl', ?Hm'; try done.
  - split; rewrite ?Ht', ?Hm'; try done.
    + intros op _ H. by destruct (Hn op).
    + intros op _ H. by destruct (Hn op).
    + by intros ? ?%elem_of_nil.
    + by intros ? ? ?%elem_of_nil.
    + intros op o _ Ho. by destruct (Hf _ _ Ho).
    + intros H. unfold start_queue in H. cbn in H. by rewrite Hc in H.
  - intros op [Hin|Hin]; [|by apply elem_of_nil in Hin]. unfold known in Hin. by rewrite Ht', Hp, app_nil_r in Hin.
  - constructor.
  - by intros op ?%elem_of_nil.
  - by intros op pc ?%elem_of_nil.
  - intros _ op Hin. unfold known. by rewrite Ht', Hp, app_nil_r.
Qed.

Lemma executed_step s s' : Executed s -> notified_step s s' -> Executed s'.
Proof.
  intros [Hs Ht Hsub Hlog Hpen Hlate Hkn Hdone] (l & Hl & Hr).
  pose proof (step_ok_inv n n_u32 l s s' Hl Hs Hr) as Hs'.
  pose proof (told_step n n_u32 l s s' Hs Ht Hl Hr) as Ht'.
  destruct (step_frame n l s s' Hs Hl Hr) as [Hk Hlg].
  destruct (step_forward n n_u32 l s s' Hs Hl Hr) as [(Hret & Hf1 & Hun & Hf2)|[-> Hm]].
  - assert (forall op, op ∈ log s' -> op ∈ log s \/ exists i, l = LOp false i /\ opThreads s !! i = Some (op, TExecute) /\ log s' = log s ++ [op]) as Hnew.
    { intros op Hin. destruct Hlg as [E|(i & op' & ? & ? & E)]; rewrite E in Hin; [by left|].
      apply elem_of_app in Hin as [?| ->%list_elem_of_singleton]; [by left|right; by exists i]. }
    assert (forall op pc, op ∈ pq_elems (unscheduledOps s) -> (op, pc) ∈ opThreads s -> False) as Hdis
      by (intros op pc; by apply (pending_no_thread n n_u32 s)).
    split; try done.
    + intros op [Hin|Hin]; [apply Hsub; left; auto|].
      destruct (Hnew op Hin) as [?|(i & _ & Hi & _)]; apply Hsub; [by right|left; by eapply thread_known].
    + destruct Hlg as [-> |(i & op & _ & Hi & ->)]; [done|]. apply NoDup_app. split; [done|].
      split; [|apply NoDup_singleton]. intros op' Hin ->%list_elem_of_singleton.
      by specialize (Hlate op TExecute Hin (list_elem_of_lookup_2 _ _ _ Hi)).
    + intros op Hin Hp. apply Hun in Hp. destruct (Hnew op Hin) as [?|(i & _ & Hi & _)]; [by apply (Hpen op)|].
      by apply (Hdis op TExecute Hp), (list_elem_of_lookup_2 _ _ _ Hi).
    + intros op pc Hin Hp. destruct (late pc) eqn:E; [done|]. destruct (Hf2 op pc Hp E) as [H|(pc0 & H & E0)].
      * destruct (Hnew op Hin) as [?|(i & _ & Hi & _)]; [by destruct (Hpen op)|].
        by destruct (Hdis op TExecute H (list_elem_of_lookup_2 _ _ _ Hi)).
      * destruct (Hnew op Hin) as [Hl0|(i & -> & Hi & _)]; [by specialize (Hlate _ _ Hl0 H); congruence|].
        cbn in Hr. unfold op_step in Hr. rewrite Hi in Hr. destruct (heap s !! op_id op); [|done]. injection Hr as <-.
        cbn in Hp. by rewrite (set_pc_same n n_u32 s i op TExecute TStop pc Hs Hi Hp) in E.
    + intros E op Hop. apply Hf1, Hkn; [by rewrite <- Hret|done].
    + intros E. apply Hret in E as E'. clear E. rename E' into E. destruct (Hdone E) as [Ht0 Hall]. split.
      * apply (fmap_nil_inv fst). destruct (opThreads s').*1 as [|op l'] eqn:Ef; [done|].
        assert (op ∈ known s') as Hin by (unfold known; rewrite Ef; apply elem_of_app; right; left).
        apply Hk in Hin. unfold known in Hin. rewrite Ht0, (td_over _ Ht) in Hin by by rewrite E. by apply elem_of_nil in Hin.
      * intros op Hop. destruct Hlg as [-> |(i & op' & _ & Hi & ->)]; [auto|]. apply elem_of_app. auto.
  - pose proof (td_over _ Ht) as Hov. rewrite Hm in Hov. specialize (Hov eq_refl).
    pose proof (i_joined _ _ Hs) as Hj. rewrite Hm in Hj. destruct Hj as [_ Hall].
    split; try done; cbn.
    + intros op [Hin|Hin]; [|apply Hsub; by right]. unfold known in Hin. cbn in Hin. rewrite Hov in Hin. by apply elem_of_nil in Hin.
    + by intros op pc _ ?%elem_of_nil.
    + intros _. split; [done|]. intros op Hop. assert (op ∈ known s) as Hin by (apply Hkn; [by rewrite Hm|done]).
      unfold known in Hin. rewrite Hov in Hin. apply list_elem_of_fmap in Hin as ([op' pc] & -> & Hin).
      pose proof (Hall _ Hin) as E. cbn in E. subst pc. by destruct (td_late _ Ht op' TEnd Hin) as [?|[? _]].
Qed.

Lemma executed_reach s : rtc notified_step (start_queue n ops) s -> Executed s.
Proof.
  intros Hr. pose proof executed_start as Hs. induction Hr as [s|s s1 s2 Hst _ IH]; [done|].
  apply IH. by eapply executed_step.
Qed.
End complete.

(** The queue at rest, filled with one operation and executed again and again. *)
Section rounds.
Context {Q : Type} `{PQ : PriorityQueue OpPtr opGreaterPriority Q}.
Context (n : Z) (n_u32 : in_u32 n).
#[local] Set Default Proof Using "Type*".

Lemma resting_start : Resting n (set_main Returned (queue_ctor (Q := Q) n)).
Proof.
  assert (pq_elems (unscheduledOps (queue_ctor (Q := Q) n)) = []) as Hu by apply pq_elems_empty.
  split; try done.
  - split; unfold main_ok; cbn; try done.
    + apply pq_heap_empty.
    + rewrite pq_elems_empty. constructor.
    + intros k. rewrite lookup_empty, pq_elems_empty. split; [by intros []|by intros ?%elem_of_nil].
    + unfold capacity. cbn. rewrite pick_nil. cbn. lia.
    + split; [done|]. by intros t ?%elem_of_nil.
  - split; cbn; try done.
    + by intros op _ (o & Ho & _).
    + intros op. rewrite pq_elems_empty. by intros ?%elem_of_nil.
    + by intros op ?%elem_of_nil.
    + by intros op pc ?%elem_of_nil.
Qed.

Lemma executed_filled op (s : State Q) : Filled n op s -> Executed n [op] (execute s).
Proof.
  intros Hf. destruct (execute_filled n n_u32 op s Hf) as (Hs & Ht & Hk). destruct Hf as [_ _ Hm Hth He Hu Hl].
  split; cbn; rewrite ?Hl, ?Hth, ?Hm; try done.
  - intros op' [Hin|Hin]; [apply Hk in Hin as ->; left|by apply elem_of_nil in Hin].
  - constructor.
  - by intros op' ?%elem_of_nil.
  - by intros op' pc ?%elem_of_nil.
  - intros _ op' ->%list_elem_of_singleton. by apply Hk.
Qed.

Lemma executed_resting op (s : State Q) : Executed n [op] s -> mainThread s = Returned -> Resting n s /\ op ∈ log s.
Proof.
  intros [Hs Ht _ _ _ _ _ Hd] Hm. destruct (Hd Hm) as [Hth Hall]. split; [by split|]. apply Hall. left.
Qed.

(** A queue at rest that is cancelled was cancelled by the key thread. *)
Lemma resting_cancelled (s : State Q) : Resting n s -> _isCancelled s = true -> past_lock (keyThread s) = true.
Proof. intros [_ Ht Hm _] Hc. destruct (td_queue _ Ht Hc) as [?|(c & Hm' & _)]; [done|congruence]. Qed.

Lemma resting_stays l (s s' : State Q) : Resting n s -> notified l = true -> step l s = Some (Ok s') ->
  Resting n s' /\ (_isCancelled s = true -> _isCancelled s' = true).
Proof.
  intros Hr Hl Hst. destruct (resting_empty n n_u32 s Hr) as (_ & _ & He & _). destruct Hr as [Hs Ht Hm Hth].
  assert (l <> LMain) as Hlm by (intros ->; cbn in Hst; unfold main_step in Hst; by rewrite Hm in Hst).
  destruct (resting_step n n_u32 l s s' Hs Hlm Hl He Hth Hst) as (_ & Hth' & Hm' & _ & _ & Hc).
  pose proof (step_ok_inv n n_u32 l s s' Hl Hs Hst) as Hs'. split; [|done].
  split; [done|by apply (told_step n n_u32 l s s')|congruence|done].
Qed.

Lemma filled_stays op l (s s' : State Q) : Filled n op s -> l <> LMain -> notified l = true -> step l s = Some (Ok s') -> Filled n op s'.
Proof.
  intros [Hs Ht Hm Hth He Hu Hlg] Hlm Hl Hst.
  destruct (resting_step n n_u32 l s s' Hs Hlm Hl He Hth Hst) as (He' & Hth' & Hm' & Hl' & Hu' & _).
  pose proof (step_ok_inv n n_u32 l s s' Hl Hs Hst) as Hs'.
  split; try congruence; [by apply (told_step n n_u32 l s s')|by rewrite Hu'..].
Qed.
End rounds.

(** ** Properties *)

(** Every operation was executed once and deleted, and no thread is left. *)
Definition Completed `{PQ : PriorityQueue OpPtr opGreaterPriority Q} (ops : list OpPtr) (s : State Q) : Prop :=
  log s ≡ₚ ops /\ heap s = ∅ /\ pq_elems (unscheduledOps s) = [] /\ runningOps s = [] /\ opThreads s = [].

(** C6: whatever keys are pressed (in runs in which no condition variable wakes up by itself
    and nothing undefined has happened; [Queue.queue_safe] says what can), when
    [waitForFinished] returns, [execute] was called of every operation, and returned, exactly
    once, all operations are deleted and no thread is left: a cancelled queue that returns has
    still run everything (a queue that cannot does not return).  And the destructor of an
    operation never finds it running, so it does not wait. *)
Theorem queue_returns_complete `{PQ : PriorityQueue OpPtr opGreaterPriority Q} n ops (s : State Q) :
  in_u32 n -> NoDup (op_id <$> ops) -> rtc notified_step (start_queue n ops) s ->
  (mainThread s = Returned -> Completed ops s) /\
  forall i op o, opThreads s !! i = Some (op, TFinished) -> heap s !! op_id op = Some o -> Operation_dtor o = (o, false).
Proof.
  intros Hn Hops Hr. apply (executed_reach n Hn ops Hops) in Hr as []. split.
  - intros Hm. destruct (ex_done0 Hm) as [Ht Hall].
    assert (pq_elems (unscheduledOps s) = []) as Hu by (apply (td_over _ ex_told0); by rewrite Hm).
    assert (runningOps s = []) as Hrun by (by rewrite (i_running _ _ ex_inv0), Ht). split; [|split; [|done]].
    + apply NoDup_Permutation; [done|by apply NoDup_fmap_1 in Hops|]. intros op. split; [auto|apply Hall].
    + apply map_eq. intros k. rewrite lookup_empty. apply eq_None_not_Some. rewrite (i_live _ _ ex_inv0), Hu, Hrun.
      by intros ?%elem_of_nil.
  - intros i op o Hi Ho. unfold Operation_dtor. rewrite (td_idle _ ex_told0 op o); [done| |done].
    right. exists TFinished. split; [by eapply list_elem_of_lookup_2|done].
Qed.

(** ** Witness: [q] is pressed while both operations are executed *)

Definition demo_pair : list OpPtr := [MkPtr 0 1; MkPtr 1 5].
Definition demo_quit : list Label :=
  replicate 9 LExe ++ [LOp false 0; LOp false 1; LKey Quit_key; LKeyStep; LKeyStep; LOp false 0; LOp false 0; LKeyStep;
    LOp false 1; LOp false 1; LKeyStep; LKeyStep; LOp false 0; LOp false 0; LOp false 1; LOp false 1] ++ replicate 6 LMain.
Definition demo_ended : State (list OpPtr) :=
  match run demo_quit (start_queue 2 demo_pair) with Some (Ok s) => s | _ => start_queue 2 demo_pair end.

Example demo_ended_cancelled : keyThread demo_ended = CReturned /\ mainThread demo_ended = Returned.
Proof. vm_compute. done. Qed.

Lemma queue_returns_complete_witness :
  keyThread demo_ended = CReturned /\ Completed demo_pair demo_ended.
Proof.
  split; [reflexivity|]. apply (queue_returns_complete 2 demo_pair demo_ended).
  - lia.
  - apply (bool_decide_unpack _). vm_compute. exact I.
  - apply (run_reach demo_quit); vm_compute; reflexivity.
  - reflexivity.
Defined.
