(* ===== verification/Converter.v ===== *)
(** * pwned-converter-cli: the program, with its threads and its files

    [Convert] has a conversion that runs alone and [Queue] the threads of any operations.  Here
    the two are one system: [ConvertOperation::execute] is a step function whose steps are the
    looks at the file system ([fs::exists], opening a file, writing a record), the steps of
    the conversions are interleaved in any order, and they happen while the thread of the
    operation is in [execute].  Where the code looks at [isPaused] it may wait for the queue:
    this is the queue's step, possible at any moment of [execute]. *)

From S2P Require Import Prelude Stream Util Hash Phc Inspector Regex UserPasswordReader Convert PriorityQueue Queue.
From stdpp Require Import options.

(** ** One conversion *)

(** Where [execute] is.  The reader and [splitFileNum] are its local variables. *)
Inductive ConvPc :=
  | VEntry                                             (** before the first look at [isCancelled] *)
  | VLoop (reader : UserPasswordReader) (splitFileNum : Z)   (** about to test [reader.eof()] *)
  | VFilled (reader : UserPasswordReader) (splitFileNum : Z) (passwordCountSet : count_set)
  | VUnsorted (reader : UserPasswordReader) (splitFileNum : Z) (passwordList : list PHC)
  | VSorted (reader : UserPasswordReader) (splitFileNum : Z) (passwordList : list PHC)
  | VName (reader : UserPasswordReader) (splitFileNum : Z) (passwordList : list PHC)
      (dstFilePath : list byte) (n : Z)                (** about to test [fs::exists(dstFilePath)] *)
  | VOpen (reader : UserPasswordReader) (splitFileNum : Z) (passwordList : list PHC) (dstFilePath : list byte)
  | VWrite (reader : UserPasswordReader) (splitFileNum : Z) (todo : list PHC)
      (dstFilePath : list byte) (pos : Z)              (** in the loop of [dump]s *)
  | VDone.

(** The operation's private members, the stream its constructor opened, and where it is. *)
Record Task := MkTask { t_d : ConvertOperationPrivate; t_in : istream; t_pc : ConvPc }.

Definition task_done (t : Task) : bool := match t_pc t with VDone => true | _ => false end.

(** A write at a position of a file: bytes there are replaced, and a gap is filled with
    zeros (another stream may have truncated the file). *)
Definition write_at (pos : Z) (l f : list byte) : list byte :=
  let p := Z.to_nat pos in
  take p (f ++ replicate (p - length f) x00) ++ l ++ drop (p + length l) f.

(** What a step of a part means for the whole. *)
Definition lift {A B} (f : A -> B) (r : option (outcome A)) : option (outcome B) :=
  match r with Some r => Some (f <$> r) | None => None end.

Section program.
(** boost's paths and which files can be created, MD5, fuel for the loop over lines. *)
Context (path_append : list byte -> list byte -> list byte) (path_stem : list byte -> list byte).
Context (writable : list byte -> bool) (MD5 : list byte -> list byte) (fuel : nat).

Abbreviation fs := (gmap (list byte) (list byte)).

(** The next step of [execute]; [cancelled] is the operation's flag, [None] is after the end. *)
Definition convert_step (cancelled : bool) (t : Task) (files : fs) : option (outcome (Task * fs)) :=
  let d := t_d t in
  let goto pc := Some (Ok (MkTask d (t_in t) pc, files)) in
  match t_pc t with
  | VEntry => if cancelled then goto VDone else goto (VLoop (new_reader (t_in t) (options d)) 0)
  | VLoop reader splitFileNum =>
      if reader_eof reader then goto VDone
      else lift (fun '(reader, set) => (MkTask d (t_in t) (VFilled reader (splitFileNum + 1) set), files))
        (Some (fill_loop fuel MD5 (maxMem d) reader [] 0))
  | VFilled reader splitFileNum set =>
      if cancelled then goto VDone
      else if decide (set = []) then goto (VLoop reader splitFileNum)
      else goto (VUnsorted reader splitFileNum ((fun i => PHC_ctor (fst i) (snd i)) <$> set))
  | VUnsorted reader splitFileNum l =>
      if cancelled then goto VDone else goto (VSorted reader splitFileNum (std_sort PHCLess l))
  | VSorted reader splitFileNum l =>
      if cancelled then goto VDone
      else goto (VName reader splitFileNum l
        (generatedOutputFilename path_append path_stem d splitFileNum ++ outputExt d) splitFileNum)
  | VName reader splitFileNum l dstFilePath n =>
      if bool_decide (is_Some (files !! dstFilePath)) && (n <? 10000)
      then goto (VName reader splitFileNum l
        (generatedOutputFilename path_append path_stem d splitFileNum ++ bs "-" ++ hexOut 4 false n ++ outputExt d)
        (n + 1))
      else goto (VOpen reader splitFileNum l dstFilePath)
  | VOpen reader splitFileNum l dstFilePath =>
      if writable dstFilePath
      then Some (Ok (MkTask d (t_in t) (VWrite reader splitFileNum l dstFilePath 0), <[dstFilePath := []]> files))
      else goto (VLoop reader splitFileNum)
  | VWrite reader splitFileNum [] _ _ => goto (VLoop reader splitFileNum)
  | VWrite reader splitFileNum (phc :: todo) dstFilePath pos =>
      Some (Ok (MkTask d (t_in t) (VWrite reader splitFileNum todo dstFilePath (pos + PHC_size)),
        <[dstFilePath := write_at pos (dump phc) (default [] (files !! dstFilePath))]> files))
  | VDone => None
  end.

(** ** The program *)

Section steps.
Context {Q : Type} `{PQ : PriorityQueue OpPtr opGreaterPriority Q}.

Record Program := MkProgram {
  p_queue : State Q;
  p_tasks : list Task;    (** the operation with number [i] *)
  p_files : fs }.

(** The operation in whose [execute] the thread [i] is. *)
Definition executing (q : State Q) (i : nat) : option OpPtr :=
  match opThreads q !! i with Some (op, TExecute) => Some op | _ => None end.

(** [execute] returns when it is at its end only. *)
Definition unfinished (l : Label) (s : Program) : bool :=
  match l with
  | LOp false i =>
      match executing (p_queue s) i with
      | Some op => match p_tasks s !! op_id op with Some t => negb (task_done t) | None => false end
      | None => false
      end
  | _ => false
  end.

Inductive ProgramLabel :=
  | PQueue (l : Label)   (** a step of the queue, the main thread or the keyboard *)
  | PWork (i : nat).     (** a step of the [execute] that thread [i] is in *)

Definition program_step (l : ProgramLabel) (s : Program) : option (outcome Program) :=
  match l with
  | PQueue l =>
      if unfinished l s then None
      else lift (fun q => MkProgram q (p_tasks s) (p_files s)) (step l (p_queue s))
  | PWork i =>
      match executing (p_queue s) i with
      | None => None
      | Some op =>
          match heap (p_queue s) !! op_id op, p_tasks s !! op_id op with
          | Some o, Some t =>
              lift (fun '(t, files) => MkProgram (p_queue s) (<[op_id op := t]> (p_tasks s)) files)
                (convert_step (op_isCancelled o) t (p_files s))
          | _, _ => Some Undefined
          end
      end
  end.

Fixpoint program_run (ls : list ProgramLabel) (s : Program) : option (outcome Program) :=
  match ls with
  | [] => Some (Ok s)
  | l :: ls => match program_step l s with Some (Ok s) => program_run ls s | r => r end
  end.

(** The constructor of [ConvertOperation], and its priority. *)
Definition ConvertOperation (content : list byte -> file_entry) (d : ConvertOperationPrivate) : Task :=
  MkTask d (snd (fopen (content (srcFilePath d)))) VEntry.
Definition op_priority (content : list byte -> file_entry) (d : ConvertOperationPrivate) : Z :=
  i64 (Z.of_nat (length (fbytes (content (srcFilePath d))))).

(** [main] from the preparation of the queue to [waitForFinished]. *)
Definition queue_ops (content : list byte -> file_entry) (ds : list ConvertOperationPrivate) : list OpPtr :=
  imap (fun i d => MkPtr i (op_priority content d)) ds.
Definition start_program (hardware_concurrency : Z) (content : list byte -> file_entry)
    (ds : list ConvertOperationPrivate) (files : fs) : Program :=
  MkProgram (start_queue hardware_concurrency (queue_ops content ds)) (ConvertOperation content <$> ds) files.

Definition converter_program (hardware_concurrency : Z) (tree : list byte -> list (list byte * bool))
    (content : list byte -> file_entry) (files : fs) (o : ConverterOptions) : option Program :=
  ds ← converter_main tree o; Some (start_program hardware_concurrency content ds files).
End steps.
Arguments Program : clear implicits.
End program.

(** ** Lemmas: one conversion *)

Lemma write_at_end f l : write_at (Z.of_nat (length f)) l f = f ++ l.
Proof.
  unfold write_at. cbv zeta. rewrite Nat2Z.id, Nat.sub_diag. cbn [replicate]. rewrite app_nil_r, take_ge by lia.
  by rewrite drop_ge, app_nil_r by lia.
Qed.

Lemma lines_length t : (length (lines t) <= S (length t))%nat.
Proof. induction t as [|c t IH]; [done|]. cbn [lines]. case_decide; [simpl; lia|]. destruct (lines t); simpl in *; lia. Qed.

(** Lines that a reader still has to read. *)
Definition left_lines (f : istream) : nat := if eof f then 0 else length (lines (rest f)).

Lemma has_lines_left f ls : has_lines f ls -> left_lines f = length ls.
Proof.
  intros Hl. unfold left_lines. rewrite (has_lines_eof _ _ Hl). destruct ls as [|l ls]; [done|].
  destruct Hl as (_ & _ & _ & ->). done.
Qed.

(** Steps that a conversion can still take, when no name is taken. *)
Definition task_weight (t : Task) : nat :=
  match t_pc t with
  | VEntry => 2 + 9 * left_lines (t_in t)
  | VLoop r _ => 1 + 9 * left_lines (input r)
  | VFilled r _ set => 8 + 9 * left_lines (input r) + length set
  | VUnsorted r _ l => 7 + 9 * left_lines (input r) + length l
  | VSorted r _ l => 6 + 9 * left_lines (input r) + length l
  | VName r _ l _ _ => 5 + 9 * left_lines (input r) + length l
  | VOpen r _ l _ => 4 + 9 * left_lines (input r) + length l
  | VWrite r _ l _ _ => 2 + 9 * left_lines (input r) + length l
  | VDone => 0
  end.

Section task.
Context (path_append : list byte -> list byte -> list byte) (path_stem : list byte -> list byte).
Context (MD5 : list byte -> list byte) (fuel : nat).
Context (append_ok : append_law path_append).
Abbreviation fs := (gmap (list byte) (list byte)).
#[local] Set Default Proof Using "Type".

(** The finished outputs of a conversion that has used the numbers up to [n] have the hashes
    [hs]; there is nothing under the other names. *)
Definition written (d : ConvertOperationPrivate) (n : Z) (files : fs) (hs : list Hash) : Prop :=
  exists out : list (Z * list PHC), NoDup out.*1 /\
    Forall (fun e => 1 <= fst e <= n /\ files !! out_name path_append path_stem d (fst e) = Some (phc_file (snd e)) /\
      lookup_file (snd e) /\ snd e <> []) out /\
    (forall k, 1 <= k < 2 ^ 31 -> k ∉ out.*1 -> files !! out_name path_append path_stem d k = None) /\
    (sum_list_with (fun e => length (snd e)) out <= length hs)%nat /\
    forall v, sum_Z ((fun e => count_of (snd e) v) <$> out) = occurrences hs v.

(** A reader that has read the lines [before] of the text, into at most as many files. *)
Definition reading (d : ConvertOperationPrivate) (t : list byte) (r : UserPasswordReader) (n : Z) (before : list (list byte)) : Prop :=
  exists ls, lines t = before ++ ls /\ has_lines (input r) ls /\
    same_config (new_reader (open_stream t) (options d)) r /\ 0 <= n <= Z.of_nat (length before).

Definition hashes (d : ConvertOperationPrivate) (t : list byte) (ls : list (list byte)) : list Hash :=
  valid_hashes MD5 (new_reader (open_stream t) (options d)) ls.

(** Between the loop over the lines and the writing of a file. *)
Definition chunk_read (d : ConvertOperationPrivate) (t : list byte) (files : fs) (r : UserPasswordReader) (n : Z)
    (P : list Hash -> Prop) : Prop :=
  exists before chunk, reading d t r n (before ++ chunk) /\ 1 <= n /\ written d (n - 1) files (hashes d t before) /\
    P (hashes d t chunk).

(** The invariant of one conversion; [c] is whether it may be cancelled. *)
Definition task_ok (c : bool) (d : ConvertOperationPrivate) (t : list byte) (files : fs) (task : Task) : Prop :=
  t_d task = d /\ t_in task = open_stream t /\
  match t_pc task with
  | VEntry => written d 0 files []
  | VLoop r n => exists before, reading d t r n before /\ written d n files (hashes d t before)
  | VFilled r n set => chunk_read d t files r n (fun hs => set = set_of [] hs)
  | VUnsorted r n l => chunk_read d t files r n (fun hs => hs <> [] /\ l = (fun i => PHC_ctor (fst i) (snd i)) <$> set_of [] hs)
  | VSorted r n l => chunk_read d t files r n (fun hs => hs <> [] /\ l = chunk_records hs)
  | VName r n l p _ | VOpen r n l p =>
      p = out_name path_append path_stem d n /\ chunk_read d t files r n (fun hs => hs <> [] /\ l = chunk_records hs)
  | VWrite r n todo p pos =>
      p = out_name path_append path_stem d n /\
      exists recs, files !! p = Some (phc_file recs) /\ pos = Z.of_nat (length (phc_file recs)) /\
        chunk_read d t (delete p files) r n (fun hs => hs <> [] /\ recs ++ todo = chunk_records hs)
  | VDone => exists before after n, lines t = before ++ after /\ (c = false -> after = []) /\ n < 2 ^ 31 /\
      written d n files (hashes d t before)
  end.

Lemma written_le d n n' files hs : n <= n' -> written d n files hs -> written d n' files hs.
Proof.
  intros Hn (out & Hnd & Hall & Hrest). exists out. split; [done|]. split; [|done].
  eapply Forall_impl; [exact Hall|]. intros e [? ?]. split; [lia|done].
Qed.

Lemma written_frame d n files files' hs :
  (forall k, 1 <= k < 2 ^ 31 -> files' !! out_name path_append path_stem d k = files !! out_name path_append path_stem d k) ->
  n < 2 ^ 31 -> written d n files hs -> written d n files' hs.
Proof.
  intros Hf Hn (out & Hnd & Hall & Hnone & Hsum). exists out. split_and!; [done| | |apply Hsum..].
  - eapply Forall_impl; [exact Hall|]. intros e (? & ? & ? & ?). split; [done|]. by rewrite Hf by lia.
  - intros k Hk Hin. rewrite Hf by done. by apply Hnone.
Qed.

Lemma written_free d n files hs k : n < k < 2 ^ 31 -> 0 <= n -> written d n files hs ->
  files !! out_name path_append path_stem d k = None.
Proof.
  intros Hk Hn (out & _ & Hall & Hnone & _). apply Hnone; [lia|]. intros (e & -> & He)%list_elem_of_fmap.
  rewrite Forall_forall in Hall. destruct (Hall e He) as [? _]. lia.
Qed.

Lemma written_add d n files before hs recs : "/"%byte ∉ path_stem (srcFilePath d) -> 1 <= n < 2 ^ 31 ->
  files !! out_name path_append path_stem d n = Some (phc_file recs) -> lookup_file recs -> recs <> [] ->
  (length recs <= length hs)%nat -> (forall v, count_of recs v = occurrences hs v) ->
  written d (n - 1) (delete (out_name path_append path_stem d n) files) before -> written d n files (before ++ hs).
Proof using append_ok.
  intros Hplain Hn Hf Hlook Hne0 Hlen Hcount (out & Hnd & Hall & Hnone & Hlens & Hsum).
  assert (forall k, 1 <= k < 2 ^ 31 -> k <> n -> out_name path_append path_stem d n <> out_name path_append path_stem d k) as Hne.
  { intros k Hk Hkn (_ & ->)%out_name_inj; try done; lia. }
  exists ((n, recs) :: out). split_and!.
  - csimpl. constructor; [|done]. intros (e & Heq & He)%list_elem_of_fmap.
    rewrite Forall_forall in Hall. destruct (Hall e He) as [? _]. lia.
  - constructor; [split; [simpl; lia|done]|]. eapply Forall_impl; [exact Hall|]. intros e (Hk & He & ? & ?).
    rewrite lookup_delete_ne in He by (apply Hne; lia). split; [lia|done].
  - intros k Hk Hin. csimpl. apply not_elem_of_cons in Hin as [Hkn Hin]. specialize (Hnone k Hk Hin).
    by rewrite lookup_delete_ne in Hnone by by apply Hne.
  - rewrite length_app. csimpl. lia.
  - intros v. csimpl. rewrite occurrences_app, Hsum, Hcount. lia.
Qed.

(** *** Steps *)

Section steps.
Context (d : ConvertOperationPrivate) (t : list byte).
Context (mem_ok : 0 < maxMem d < 2 ^ 38) (short : Z.of_nat (length (lines t)) < 2 ^ 31) (fuel_ok : (length (lines t) < fuel)%nat).
Context (stem_plain : "/"%byte ∉ path_stem (srcFilePath d)).
#[local] Set Default Proof Using "All".

Lemma reading_bound r n before : reading d t r n before ->
  0 <= n < 2 ^ 31 /\ Z.of_nat (length before) < 2 ^ 31 /\ left_lines (input r) = (length (lines t) - length before)%nat.
Proof.
  intros (ls & Hls & Hl & _ & Hn). rewrite (has_lines_left _ _ Hl). rewrite Hls in short |- *.
  rewrite length_app in short |- *. lia.
Qed.

Lemma hashes_app l k : hashes d t (l ++ k) = hashes d t l ++ hashes d t k.
Proof. apply valid_hashes_app. Qed.

Lemma chunk_small r n before chunk : reading d t r n (before ++ chunk) ->
  lookup_file (chunk_records (hashes d t chunk)) /\
  (length (chunk_records (hashes d t chunk)) <= length (hashes d t chunk))%nat /\
  forall v, count_of (chunk_records (hashes d t chunk)) v = occurrences (hashes d t chunk) v.
Proof.
  intros (_ & Hb & _)%reading_bound.
  assert (lookup_file (chunk_records (hashes d t chunk)) /\
    forall v, count_of (chunk_records (hashes d t chunk)) v = occurrences (hashes d t chunk) v) as [? ?].
  2: { split; [done|]. split; [|done]. unfold chunk_records, passwordList. rewrite std_sort_perm, length_fmap.
    pose proof (set_of_length [] (hashes d t chunk)). simpl in *. lia. }
  apply chunk_records_ok; [apply valid_hashes_wf|].
  pose proof (valid_hashes_length MD5 (new_reader (open_stream t) (options d)) chunk).
  rewrite length_app in Hb. unfold hashes. lia.
Qed.

(** The loop over the lines. *)
Lemma fill_reading r n before : reading d t r n before -> reader_eof r = false ->
  exists r' chunk, fill_loop fuel MD5 (maxMem d) r [] 0 = Ok (r', set_of [] (hashes d t chunk)) /\
    reading d t r' (n + 1) (before ++ chunk) /\ (1 <= length chunk)%nat.
Proof.
  intros (ls & Hls & Hl & Hc & Hn) He. unfold reader_eof in He. rewrite (has_lines_eof _ _ Hl) in He.
  apply bool_decide_eq_false in He.
  destruct (fill_loop_spec fuel MD5 (maxMem d) r ls [] 0) as (r' & Hf & Hl' & Hc');
    [done|rewrite Hls, length_app in fuel_ok; lia|lia|lia|lia|].
  exists r', (take (room (maxMem d) 0) ls). split; [|split].
  - rewrite Hf. do 3 f_equal. by apply valid_hashes_config.
  - exists (drop (room (maxMem d) 0) ls). rewrite <- app_assoc, take_drop. split; [done|]. split; [done|].
    split; [destruct Hc as (? & ? & ?), Hc' as (? & ? & ?); unfold same_config; split_and!; congruence|].
    rewrite length_app, length_take. assert (0 < length ls)%nat by (destruct ls; [done|simpl; lia]).
    rewrite room_step by lia. lia.
  - rewrite length_take. assert (0 < length ls)%nat by (destruct ls; [done|simpl; lia]). rewrite room_step by lia. lia.
Qed.

Lemma set_weight hs : (length (set_of [] hs) <= length hs)%nat.
Proof. pose proof (set_of_length [] hs). simpl in *. lia. Qed.

Lemma chunk_read_frame files files' r n P :
  (forall k, 1 <= k < 2 ^ 31 -> files' !! out_name path_append path_stem d k = files !! out_name path_append path_stem d k) ->
  chunk_read d t files r n P -> chunk_read d t files' r n P.
Proof.
  intros Hf (before & chunk & Hr & Hn & Hw & HP). exists before, chunk. split; [done|]. split; [done|]. split; [|done].
  destruct (reading_bound _ _ _ Hr) as (Hb & _ & _). eapply written_frame; [exact Hf|lia|done].
Qed.

(** What others do elsewhere does not matter. *)
Lemma task_ok_frame c files files' task :
  (forall k, 1 <= k < 2 ^ 31 -> files' !! out_name path_append path_stem d k = files !! out_name path_append path_stem d k) ->
  task_ok c d t files task -> task_ok c d t files' task.
Proof.
  intros Hf (Hd & Hin & Hpc). split; [done|]. split; [done|]. destruct (t_pc task) as [|r n|r n set|r n l|r n l|r n l p k|r n l p|r n l p pos|].
  - by eapply written_frame; [exact Hf|lia|].
  - destruct Hpc as (before & Hr & Hw). exists before. split; [done|].
    destruct (reading_bound _ _ _ Hr) as (Hb & _ & _). eapply written_frame; [exact Hf|lia|done].
  - by eapply chunk_read_frame.
  - by eapply chunk_read_frame.
  - by eapply chunk_read_frame.
  - destruct Hpc as [? Hpc]. split; [done|]. by eapply chunk_read_frame.
  - destruct Hpc as [? Hpc]. split; [done|]. by eapply chunk_read_frame.
  - destruct Hpc as (Hp & recs & Hfile & Hpos & Hch). split; [done|]. exists recs.
    assert (exists k, p = out_name path_append path_stem d k /\ 1 <= k < 2 ^ 31) as (k & Hpk & Hk).
    { destruct Hch as (before & chunk & Hr & Hn & _). exists n. split; [done|].
      destruct (reading_bound _ _ _ Hr) as (Hb & _ & _). lia. }
    split; [by rewrite Hpk, Hf, <- Hpk|]. split; [done|]. eapply chunk_read_frame; [|done].
    intros k' Hk'. destruct (decide (p = out_name path_append path_stem d k')) as [->|Hne];
      [by rewrite !lookup_delete_eq|rewrite !lookup_delete_ne by done; by apply Hf].
  - destruct Hpc as (before & after & n & Hl & Hc & Hn & Hw). exists before, after, n. split_and!; try done.
    by eapply written_frame.
Qed.

(** What one step does: the invariant is kept, only the conversion's own names change, and
    something is left less to do. *)
Definition stepped (c : bool) (files : fs) (task : Task) (r : option (outcome (Task * fs))) : Prop :=
  exists task' files', r = Some (Ok (task', files')) /\ task_ok c d t files' task' /\
    (forall p, (forall k, 1 <= k < 2 ^ 31 -> p <> out_name path_append path_stem d k) -> files' !! p = files !! p) /\
    (task_weight task' < task_weight task)%nat.

Lemma stepped_goto c files task pc :
  task_ok c d t files (MkTask d (open_stream t) pc) ->
  (task_weight (MkTask d (open_stream t) pc) < task_weight task)%nat ->
  stepped c files task (Some (Ok (MkTask d (open_stream t) pc, files))).
Proof. intros Hok Hw. by eexists _, _. Qed.

(** A conversion that is cancelled ends. *)
Lemma done_ok c files n before after : lines t = before ++ after -> (c = false -> after = []) -> n < 2 ^ 31 ->
  written d n files (hashes d t before) -> task_ok c d t files (MkTask d (open_stream t) VDone).
Proof. intros. split; [done|]. split; [done|]. by exists before, after, n. Qed.

Lemma chunk_done c files r n P : c = true -> chunk_read d t files r n P ->
  task_ok c d t files (MkTask d (open_stream t) VDone).
Proof.
  intros -> (before & chunk & Hr & Hn & Hw & _). destruct (reading_bound _ _ _ Hr) as (Hb & _ & _).
  destruct Hr as (ls & Hls & _). rewrite <- app_assoc in Hls. apply (done_ok true files (n - 1) before (chunk ++ ls)); done || lia.
Qed.

Lemma chunk_impl files r n (P P' : list Hash -> Prop) : (forall hs, P hs -> P' hs) ->
  chunk_read d t files r n P -> chunk_read d t files r n P'.
Proof. intros HP (before & chunk & Hr & Hn & Hw & ?). exists before, chunk. auto. Qed.

Lemma chunk_bound files r n P : chunk_read d t files r n P -> 1 <= n < 2 ^ 31.
Proof. intros (before & chunk & Hr & Hn & _). destruct (reading_bound _ _ _ Hr) as (Hb & _ & _). lia. Qed.

(** The number the chunk has is not used yet. *)
Lemma chunk_free files r n P : chunk_read d t files r n P -> files !! out_name path_append path_stem d n = None.
Proof.
  intros Hc. pose proof (chunk_bound _ _ _ _ Hc). destruct Hc as (before & chunk & _ & _ & Hw & _).
  apply (written_free d (n - 1) files (hashes d t before)); [lia..|done].
Qed.

Lemma step_loop c cancelled files r n : task_ok c d t files (MkTask d (open_stream t) (VLoop r n)) ->
  stepped c files (MkTask d (open_stream t) (VLoop r n))
    (convert_step path_append path_stem (fun _ => true) MD5 fuel cancelled (MkTask d (open_stream t) (VLoop r n)) files).
Proof.
  intros (_ & _ & before & Hr & Hw). cbn [convert_step t_pc t_d t_in]. destruct (reader_eof r) eqn:He.
  - apply stepped_goto; [|unfold task_weight; cbn; lia]. destruct Hr as (ls & Hls & Hl & Hc & Hn).
    unfold reader_eof in He. rewrite (has_lines_eof _ _ Hl) in He. apply bool_decide_eq_true in He as ->.
    rewrite app_nil_r in Hls. apply (done_ok c files n before []); [by rewrite app_nil_r|done| |done]. rewrite Hls in short. lia.
  - destruct (fill_reading r n before Hr He) as (r' & chunk & -> & Hr' & Hlen). cbn.
    apply stepped_goto.
    + split; [done|]. split; [done|]. exists before, chunk. split; [done|]. destruct Hr as (_ & _ & _ & _ & Hn).
      split; [lia|]. split; [|done]. by replace (n + 1 - 1) with n by lia.
    + unfold task_weight. cbn. destruct (reading_bound _ _ _ Hr) as (_ & _ & ->), (reading_bound _ _ _ Hr') as (_ & _ & ->).
      rewrite length_app. pose proof (set_weight (hashes d t chunk)).
      pose proof (valid_hashes_length MD5 (new_reader (open_stream t) (options d)) chunk). fold (hashes d t chunk) in *.
      destruct Hr' as (ls' & Hls' & _). rewrite Hls', !length_app. lia.
Qed.

Lemma step_filled c cancelled files r n set : (cancelled = true -> c = true) ->
  task_ok c d t files (MkTask d (open_stream t) (VFilled r n set)) ->
  stepped c files (MkTask d (open_stream t) (VFilled r n set))
    (convert_step path_append path_stem (fun _ => true) MD5 fuel cancelled (MkTask d (open_stream t) (VFilled r n set)) files).
Proof.
  intros Hcc (_ & _ & Hpc). cbn [convert_step t_pc t_d t_in]. cbn in Hpc. destruct cancelled.
  { apply stepped_goto; [|unfold task_weight; cbn; lia]. eapply chunk_done; [auto|exact Hpc]. }
  case_decide as Hset.
  - apply stepped_goto; [|unfold task_weight; cbn; lia]. split; [done|]. split; [done|].
    destruct Hpc as (before & chunk & Hr & Hn & Hw & ->). exists (before ++ chunk). split; [done|].
    apply set_of_nil in Hset. rewrite hashes_app, Hset, app_nil_r. eapply written_le; [|exact Hw]. lia.
  - apply stepped_goto; [|unfold task_weight; cbn; rewrite ?length_fmap; lia]. split; [done|]. split; [done|].
    eapply chunk_impl; [|exact Hpc]. intros hs ->. split; [by intros ->|done].
Qed.

Lemma step_sorting c cancelled files pc : (cancelled = true -> c = true) ->
  match pc with VUnsorted _ _ _ | VSorted _ _ _ => true | _ => false end = true ->
  task_ok c d t files (MkTask d (open_stream t) pc) ->
  stepped c files (MkTask d (open_stream t) pc)
    (convert_step path_append path_stem (fun _ => true) MD5 fuel cancelled (MkTask d (open_stream t) pc) files).
Proof.
  intros Hcc Hk (_ & _ & Hpc). destruct pc as [| | |r n l|r n l| | | |]; try done; cbn [convert_step t_pc t_d t_in]; cbn in Hpc;
    (destruct cancelled; [apply stepped_goto; [|unfold task_weight; cbn; lia]; eapply chunk_done; [auto|exact Hpc]|]);
    apply stepped_goto; try (unfold task_weight; cbn; rewrite ?(Permutation_length (std_sort_perm _ _)); lia);
    (split; [done|]; split; [done|]); cbn.
  - eapply chunk_impl; [|exact Hpc]. by intros hs [? ->].
  - split; [done|exact Hpc].
Qed.

Lemma step_writing c cancelled files pc :
  match pc with VName _ _ _ _ _ | VOpen _ _ _ _ | VWrite _ _ _ _ _ => true | _ => false end = true ->
  task_ok c d t files (MkTask d (open_stream t) pc) ->
  stepped c files (MkTask d (open_stream t) pc)
    (convert_step path_append path_stem (fun _ => true) MD5 fuel cancelled (MkTask d (open_stream t) pc) files).
Proof.
  intros Hk (_ & _ & Hpc). destruct pc as [| | | | |r n l p k|r n l p|r n [|x l] p pos|]; try done; cbn [convert_step t_pc t_d t_in]; cbn in Hpc.
  - destruct Hpc as [-> Hpc]. rewrite (chunk_free _ _ _ _ Hpc), bool_decide_false by by intros []. cbn [andb].
    apply stepped_goto; [by split|unfold task_weight; cbn; lia].
  - destruct Hpc as [-> Hpc]. pose proof (chunk_bound _ _ _ _ Hpc) as Hb. pose proof (chunk_free _ _ _ _ Hpc) as Hfree.
    eexists _, _. split; [done|]. split; [|split].
    + split; [done|]. split; [done|]. cbn. split; [done|]. exists []. rewrite lookup_insert_eq. split; [done|]. split; [done|].
      by rewrite delete_insert_id.
    + intros p Hp. rewrite lookup_insert_ne; [done|]. intros <-. by apply (Hp n).
    + unfold task_weight; cbn; lia.
  - destruct Hpc as (-> & recs & Hfile & Hpos & before & chunk & Hr & Hn & Hw & Hhs & Hrecs). rewrite app_nil_r in Hrecs. subst recs.
    apply stepped_goto; [|unfold task_weight; cbn; lia]. split; [done|]. split; [done|]. exists (before ++ chunk).
    split; [done|]. rewrite hashes_app. destruct (chunk_small _ _ _ _ Hr) as (? & ? & ?), (reading_bound _ _ _ Hr) as (? & _).
    eapply written_add; [done|lia|try done..]. intros Hnil. apply Hhs, (set_of_nil (hashes d t chunk)).
    unfold chunk_records, passwordList in Hnil. apply (f_equal length) in Hnil.
    rewrite std_sort_perm, length_fmap in Hnil. by apply length_zero_iff_nil.
  - destruct Hpc as (-> & recs & Hfile & -> & Hpc). pose proof (chunk_bound _ _ _ _ Hpc) as Hb.
    eexists _, _. split; [done|]. split; [|split].
    + split; [done|]. split; [done|]. cbn. split; [done|]. exists (recs ++ [x]).
      rewrite lookup_insert_eq, Hfile. cbn. rewrite write_at_end, phc_file_app. unfold phc_file at 3. cbn. rewrite app_nil_r.
      split; [done|]. split; [rewrite length_app, length_dump; unfold PHC_size; lia|]. rewrite delete_insert_eq.
      eapply chunk_impl; [|exact Hpc]. intros hs [? ?]. split; [done|]. by rewrite <- app_assoc.
    + intros p Hp. rewrite lookup_insert_ne; [done|]. intros <-. by apply (Hp n).
    + unfold task_weight; cbn; lia.
Qed.

Lemma convert_step_ok c cancelled files task : (cancelled = true -> c = true) ->
  task_ok c d t files task -> task_done task = false ->
  stepped c files task (convert_step path_append path_stem (fun _ => true) MD5 fuel cancelled task files).
Proof.
  intros Hcc Hok Hdone. assert (task = MkTask d (open_stream t) (t_pc task)) as E by (destruct task, Hok as (? & ? & _); by simplify_eq/=).
  rewrite E in Hok, Hdone |- *. destruct (t_pc task) as [|r n|r n set|r n l|r n l|r n l p k|r n l p|r n l p pos|];
    try done; [|by apply step_loop|by apply step_filled|by apply step_sorting..|by apply step_writing|by apply step_writing|by apply step_writing].
  destruct Hok as (_ & _ & Hw). cbn in Hw |- *. destruct cancelled.
  - apply stepped_goto; [|unfold task_weight; cbn; lia]. apply (done_ok c files 0 [] (lines t)); [done|by rewrite Hcc|lia|done].
  - apply stepped_goto; [|unfold task_weight; cbn; rewrite new_reader_input by done; cbn; lia]. split; [done|]. split; [done|].
    exists []. split; [|done]. exists (lines t). split; [done|]. split; [rewrite new_reader_input by done; apply open_stream_lines|].
    split; [done|]. simpl. lia.
Qed.
End steps.
End task.

(** ** Lemmas: the program *)

(** What the file of an operation holds. *)
Definition text (content : list byte -> file_entry) (d : ConvertOperationPrivate) : list byte :=
  fbytes (content (srcFilePath d)).

Lemma queue_ops_ids content ds : op_id <$> queue_ops content ds = seq 0 (length ds).
Proof.
  unfold queue_ops. rewrite fmap_imap. apply list_eq. intros i. rewrite list_lookup_imap.
  destruct (ds !! i) as [d|] eqn:Hi; cbn.
  - symmetry. apply lookup_seq. split; [done|]. by eapply lookup_lt_Some.
  - symmetry. apply lookup_seq_ge. by apply lookup_ge_None.
Qed.

Lemma sum_insert {A} (f : A -> nat) l i x y :
  l !! i = Some x -> (f y < f x)%nat -> (sum_list_with f (<[i:=y]> l) < sum_list_with f l)%nat.
Proof.
  intros Hi Hf. rewrite <- (take_drop_middle l i x Hi) at 2. rewrite insert_take_drop by by eapply lookup_lt_Some.
  rewrite !sum_list_with_app. cbn. lia.
Qed.

Section program.
Context (path_append : list byte -> list byte -> list byte) (path_stem : list byte -> list byte).
Context (MD5 : list byte -> list byte) (fuel : nat) (append_ok : append_law path_append).
Context {Q : Type} `{PQ : PriorityQueue OpPtr opGreaterPriority Q}.
Context (n : Z) (n_u32 : in_u32 n).
Context (content : list byte -> file_entry) (ds : list ConvertOperationPrivate) (files0 : gmap (list byte) (list byte)).
(** The files of the operations can be read and are not too long, and there is memory. *)
Context (ds_ok : forall d, d ∈ ds -> 0 < maxMem d < 2 ^ 38 /\ freadable (content (srcFilePath d)) = true /\
  Z.of_nat (length (lines (text content d))) < 2 ^ 31 /\ (length (lines (text content d)) < fuel)%nat).
(** The outputs go into one directory, where nothing has their names, and the names of the
    inputs differ in more than their directories. *)
Context (one_directory : forall d d', d ∈ ds -> d' ∈ ds -> dstPath d = dstPath d' /\ outputExt d = outputExt d').
Context (stems_differ : NoDup ((fun d => path_stem (srcFilePath d)) <$> ds)).
Context (stems_plain : forall d, d ∈ ds -> "/"%byte ∉ path_stem (srcFilePath d)).
Context (names_free : forall d k, d ∈ ds -> 1 <= k < 2 ^ 31 -> files0 !! out_name path_append path_stem d k = None).
#[local] Set Default Proof Using "All".

Abbreviation fs := (gmap (list byte) (list byte)).
Abbreviation name := (out_name path_append path_stem).
Abbreviation next := (program_step path_append path_stem (fun _ => true) MD5 fuel (Q := Q)).

Lemma names_differ i j d d' k k' : ds !! i = Some d -> ds !! j = Some d' -> 1 <= k < 2 ^ 31 -> 1 <= k' < 2 ^ 31 ->
  name d k = name d' k' -> i = j /\ k = k'.
Proof.
  intros Hi Hj Hk Hk' Heq. destruct (one_directory d d') as [Hdst Hext]; [by eapply list_elem_of_lookup_2..|].
  apply out_name_inj in Heq as [Hs ->]; try done; try lia; [|by eapply stems_plain, list_elem_of_lookup_2..]. split; [|done].
  eapply (NoDup_lookup _ _ _ (path_stem (srcFilePath d)) stems_differ); rewrite list_lookup_fmap; [by rewrite Hi|].
  by rewrite Hj, Hs.
Qed.

(** The invariant of the conversions. *)
Record TasksOk (c : bool) (q : State Q) (tasks : list Task) (files : fs) : Prop := {
  to_length : length tasks = length ds;
  to_each : forall i d task, ds !! i = Some d -> tasks !! i = Some task ->
    task_ok path_append path_stem MD5 c d (text content d) files task;
  to_else : forall p, (forall d k, d ∈ ds -> 1 <= k < 2 ^ 31 -> p <> name d k) -> files !! p = files0 !! p;
  to_known : forall op, op ∈ known q -> (op_id op < length ds)%nat;
  to_log : forall op task, op ∈ log q -> tasks !! op_id op = Some task -> task_done task = true }.

Lemma start_tasks_ok : TasksOk false (start_queue n (queue_ops content ds)) (ConvertOperation content <$> ds) files0.
Proof.
  split.
  - by rewrite length_fmap.
  - intros i d task Hd Ht. rewrite list_lookup_fmap, Hd in Ht. injection Ht as <-.
    assert (d ∈ ds) as Hin by by eapply list_elem_of_lookup_2. destruct (ds_ok d Hin) as (_ & Hr & _).
    split; [done|]. split; [unfold ConvertOperation, fopen; cbn; by rewrite Hr|]. exists []. split_and!; [constructor|constructor|..].
    + intros k Hk _. by apply names_free.
    + done.
    + intros v. unfold occurrences. done.
  - done.
  - intros op Hop. assert (op_id op ∈ op_id <$> queue_ops content ds) as Hid.
    { apply list_elem_of_fmap. exists op. split; [done|]. unfold known in Hop.
      pose proof (add_all_frame n n_u32 (queue_ops content ds) (queue_ctor (Q := Q) n)) as (_ & _ & _ & Ht & _).
      cbn in Ht, Hop. rewrite Ht in Hop. cbn in Hop. rewrite app_nil_r in Hop.
      destruct (start_inv n n_u32 (Q := Q) (queue_ops content ds)) as [_ Hp]; [rewrite queue_ops_ids; apply NoDup_seq|].
      by rewrite <- Hp. }
    rewrite queue_ops_ids in Hid. apply elem_of_seq in Hid. lia.
  - pose proof (add_all_frame n n_u32 (queue_ops content ds) (queue_ctor (Q := Q) n)) as (_ & _ & _ & _ & _ & _ & Hl).
    cbn in Hl. intros op task. cbn. rewrite Hl. by intros ?%elem_of_nil.
Qed.

(** A step of a conversion. *)
Lemma work_ok c q tasks files i op o : Inv n q -> TasksOk c q tasks files -> executing q i = Some op ->
  heap q !! op_id op = Some o -> (op_isCancelled o = true -> c = true) ->
  exists task, tasks !! op_id op = Some task /\
    (task_done task = true /\ convert_step path_append path_stem (fun _ => true) MD5 fuel (op_isCancelled o) task files = None \/
     exists task' files', convert_step path_append path_stem (fun _ => true) MD5 fuel (op_isCancelled o) task files = Some (Ok (task', files')) /\
       TasksOk c q (<[op_id op := task']> tasks) files' /\
       (sum_list_with task_weight (<[op_id op := task']> tasks) < sum_list_with task_weight tasks)%nat).
Proof.
  intros Hs Hok He Ho Hcc.
  assert (op_id op < length ds)%nat as Hlt.
  { apply (to_known _ _ _ _ Hok). unfold known, executing in *. destruct (opThreads q !! i) as [[op' []]|] eqn:Hi; try done.
    injection He as ->. apply elem_of_app. right. apply list_elem_of_fmap. eexists. split; [|by eapply list_elem_of_lookup_2]. done. }
  destruct (lookup_lt_is_Some_2 ds _ Hlt) as [d Hd]. rewrite <- (to_length _ _ _ _ Hok) in Hlt.
  destruct (lookup_lt_is_Some_2 tasks _ Hlt) as [task Htask]. exists task. split; [done|].
  pose proof (to_each _ _ _ _ Hok _ _ _ Hd Htask) as Htok.
  assert (d ∈ ds) as Hin by by eapply list_elem_of_lookup_2. destruct (ds_ok d Hin) as (Hmem & _ & Hshort & Hfuel).
  destruct (task_done task) eqn:Hdone.
  { left. split; [done|]. unfold task_done in Hdone. unfold convert_step. by destruct (t_pc task). }
  right. destruct (convert_step_ok path_append path_stem MD5 fuel append_ok d (text content d) Hmem Hshort Hfuel (stems_plain d Hin) c
    (op_isCancelled o) files task Hcc Htok Hdone) as (task' & files' & -> & Htok' & Helse & Hw).
  exists task', files'. split; [done|]. split; [|by eapply sum_insert].
  split.
  - rewrite length_insert. apply Hok.
  - intros j d' task2 Hj Ht2. destruct (decide (j = op_id op)) as [->|Hne].
    + rewrite list_lookup_insert_eq in Ht2 by done. simplify_eq. done.
    + rewrite list_lookup_insert_ne in Ht2 by done.
      assert (d' ∈ ds) as Hin' by by eapply list_elem_of_lookup_2. destruct (ds_ok d' Hin') as (Hmem' & _ & Hshort' & Hfuel').
      eapply (task_ok_frame path_append path_stem MD5 fuel append_ok d' (text content d') Hmem' Hshort' Hfuel' (stems_plain d' Hin') c files);
        [|by eapply (to_each _ _ _ _ Hok)]. intros k Hk. apply Helse. intros k' Hk' Heq.
      destruct (names_differ _ _ _ _ _ _ Hj Hd Hk Hk' Heq) as [? _]. done.
  - intros p Hp. rewrite Helse; [by apply Hok|]. intros k Hk. by apply Hp.
  - apply Hok.
  - intros op2 task2 Hlog Ht2. destruct (decide (op_id op2 = op_id op)) as [E|Hne].
    + rewrite E in Ht2. pose proof (to_log _ _ _ _ Hok op2 task Hlog) as Hd2. rewrite E in Hd2.
      specialize (Hd2 Htask). congruence.
    + rewrite list_lookup_insert_ne in Ht2 by done. by eapply (to_log _ _ _ _ Hok).
Qed.

(** A step of the queue. *)
Lemma queue_step_ok c l q q' tasks files : Inv n q -> TasksOk c q tasks files -> notified l = true ->
  unfinished l (MkProgram q tasks files) = false -> step l q = Some (Ok q') -> TasksOk c q' tasks files.
Proof.
  intros Hs Hok Hl Hun Hstep. destruct (step_frame n l q q' Hs Hl Hstep) as [Hkn Hlog].
  split; try apply Hok.
  - intros op Hop. apply (to_known _ _ _ _ Hok). by apply Hkn.
  - intros op task Hop Ht. destruct Hlog as [Hlog|(i & op' & -> & Hi & Hlog)]; rewrite Hlog in Hop;
      [by eapply (to_log _ _ _ _ Hok)|]. apply elem_of_app in Hop as [Hop|Hop%list_elem_of_singleton];
      [by eapply (to_log _ _ _ _ Hok)|]. subst op'. cbn in Hun. unfold executing in Hun. cbn in Hun. rewrite Hi, Ht in Hun.
    by apply negb_false_iff in Hun.
Qed.

(** Whatever may happen without and with the keyboard. *)
Definition program_worker (l : ProgramLabel) : Prop := match l with PQueue l => worker l | PWork _ => True end.
Definition program_notified (l : ProgramLabel) : bool := match l with PQueue l => notified l | PWork _ => true end.
Definition worker_run (s s' : Program) : Prop := exists l, program_worker l /\ next l s = Some (Ok s').
Definition notified_run (s s' : Program) : Prop := exists l, program_notified l = true /\ next l s = Some (Ok s').

Abbreviation start := (start_program (Q := Q) n content ds files0).

Definition program_ok (c : bool) (s : Program) : Prop :=
  Inv n (p_queue s) /\ TasksOk c (p_queue s) (p_tasks s) (p_files s).

Lemma ids_distinct : NoDup (op_id <$> queue_ops content ds).
Proof. rewrite queue_ops_ids. apply NoDup_seq. Qed.

Lemma start_ok c : program_ok c start.
Proof.
  split; [apply start_inv; [done|apply ids_distinct]|]. destruct start_tasks_ok as [H1 H2 H3 H4 H5]. destruct c; [|by split].
  split; try done. intros i d task Hd Ht. destruct (H2 i d task Hd Ht) as (Htd & Hti & Hpc). split; [done|]. split; [done|].
  destruct (t_pc task); try done. destruct Hpc as (before & after & m & ? & _ & ? & ?). by exists before, after, m.
Qed.

(** Every step that the flags allow does what it should. *)
Lemma next_ok c l s r : program_ok c s -> program_notified l = true ->
  (forall k o, heap (p_queue s) !! k = Some o -> op_isCancelled o = true -> c = true) ->
  next l s = Some r ->
  (exists s', r = Ok s' /\ program_ok c s' /\
    match l with
    | PQueue l => step l (p_queue s) = Some (Ok (p_queue s')) /\ p_tasks s' = p_tasks s
    | PWork _ => p_queue s' = p_queue s /\ (sum_list_with task_weight (p_tasks s') < sum_list_with task_weight (p_tasks s))%nat
    end) \/
  l = PQueue LKeyStep /\ r = Undefined /\ stale_pause (p_queue s).
Proof.
  intros [Hs Hok] Hl Hcc Hr. destruct s as [q tasks files]. destruct l as [l|i]; cbn in *.
  - destruct (unfinished l _) eqn:Hun; [done|]. destruct (step l q) as [r'|] eqn:Hst; [|done].
    destruct (step_inv n n_u32 l q r' Hl Hs Hst) as [(q' & -> & Hq')|(-> & -> & ?)]; injection Hr as <-; [left|by right].
    eexists. split; [done|]. split; [|done]. split; [done|]. exact (queue_step_ok c l q q' tasks files Hs Hok Hl Hun Hst).
  - left. destruct (executing q i) as [op|] eqn:He; [|done].
    assert (exists o, heap q !! op_id op = Some o) as [o Ho].
    { unfold executing in He. destruct (opThreads q !! i) as [[op' []]|] eqn:Hi; try done. injection He as ->.
      by destruct (thread_live n n_u32 q i op TExecute Hs Hi eq_refl) as [[o ?] _]; exists o. }
    rewrite Ho in Hr. destruct (work_ok c q tasks files i op o Hs Hok He Ho (Hcc _ _ Ho))
      as (task & Ht & [[_ Hnone]|(task' & files' & Hst & Hok' & Hw)]); rewrite Ht in Hr; [by rewrite Hnone in Hr|].
    rewrite Hst in Hr. injection Hr as <-. eexists. split; [done|]. done.
Qed.

Lemma reach_ok s : rtc notified_run start s -> program_ok true s.
Proof.
  intros Hr. pose proof (start_ok true) as Hs. revert Hs. induction Hr as [s|s s1 s2 (l & Hl & Hst) _ IH]; [done|].
  intros Hs. apply IH. by destruct (next_ok true l s _ Hs Hl ltac:(done) Hst) as [(s' & [= <-] & ? & _)|(_ & ? & _)].
Qed.

(** The conversion is in the loop that writes this file. *)
Definition being_written (s : Program (Q := Q)) (p : list byte) : Prop :=
  exists i task r m todo pos, p_tasks s !! i = Some task /\ t_pc task = VWrite r m todo p pos.

Lemma written_complete d m files hs k : written path_append path_stem d m files hs -> 1 <= k < 2 ^ 31 ->
  files !! name d k = None \/ exists recs, files !! name d k = Some (phc_file recs) /\ lookup_file recs.
Proof.
  intros (out & _ & Hall & Hnone & _) Hk. destruct (decide (k ∈ out.*1)) as [Hin|Hin]; [right|left; by apply Hnone].
  apply list_elem_of_fmap in Hin as (e & -> & He). rewrite Forall_forall in Hall.
  destruct (Hall e He) as (_ & ? & ? & _). by exists (snd e).
Qed.

Lemma names_complete c s d k : program_ok c s -> d ∈ ds -> 1 <= k < 2 ^ 31 ->
  p_files s !! name d k = None \/ (exists recs, p_files s !! name d k = Some (phc_file recs) /\ lookup_file recs) \/
  being_written s (name d k).
Proof.
  intros [_ Hok] Hd Hk. apply list_elem_of_lookup in Hd as [i Hd].
  assert (i < length (p_tasks s))%nat as Hlt by (rewrite (to_length _ _ _ _ Hok); by eapply lookup_lt_Some).
  destruct (lookup_lt_is_Some_2 _ _ Hlt) as [task Ht]. destruct (to_each _ _ _ _ Hok _ _ _ Hd Ht) as (_ & _ & Hpc).
  destruct (t_pc task) as [|r m|r m set|r m l|r m l|r m l p j|r m l p|r m l p pos|] eqn:Epc.
  - destruct (written_complete _ _ _ _ k Hpc Hk); auto.
  - destruct Hpc as (before & _ & Hw). destruct (written_complete _ _ _ _ k Hw Hk); auto.
  - destruct Hpc as (b & ch & _ & _ & Hw & _). destruct (written_complete _ _ _ _ k Hw Hk); auto.
  - destruct Hpc as (b & ch & _ & _ & Hw & _). destruct (written_complete _ _ _ _ k Hw Hk); auto.
  - destruct Hpc as (b & ch & _ & _ & Hw & _). destruct (written_complete _ _ _ _ k Hw Hk); auto.
  - destruct Hpc as (_ & b & ch & _ & _ & Hw & _). destruct (written_complete _ _ _ _ k Hw Hk); auto.
  - destruct Hpc as (_ & b & ch & _ & _ & Hw & _). destruct (written_complete _ _ _ _ k Hw Hk); auto.
  - destruct Hpc as (-> & recs & _ & _ & b & ch & _ & _ & Hw & _). destruct (decide (name d m = name d k)) as [E|Hne].
    + right. right. exists i, task, r, m, l, pos. by rewrite <- E.
    + destruct (written_complete _ _ _ _ k Hw Hk) as [H|(recs' & H & ?)]; rewrite lookup_delete_ne in H by done; eauto.
  - destruct Hpc as (b & a & m & _ & _ & _ & Hw). destruct (written_complete _ _ _ _ k Hw Hk); auto.
Qed.

(** What the program knows while nobody presses a key. *)
Definition working_ok (s : Program) : Prop :=
  Working n (queue_ops content ds) (p_queue s) /\ TasksOk false (p_queue s) (p_tasks s) (p_files s).

Definition program_weight (s : Program (Q := Q)) : nat :=
  weight (p_queue s) + sum_list_with task_weight (p_tasks s).

(** Nothing is cancelled while a thread is in [execute]. *)
Lemma working_flags s i op o : working_ok s -> executing (p_queue s) i = Some op ->
  heap (p_queue s) !! op_id op = Some o -> op_isCancelled o = false.
Proof.
  intros [Hw _] He Ho. assert (~ all_ended (p_queue s)) as Hne.
  { intros Hall. unfold executing in He. destruct (opThreads _ !! i) as [[op' []]|] eqn:Hi; try done.
    by specialize (Hall _ (list_elem_of_lookup_2 _ _ _ Hi)). }
  pose proof (i_joined _ _ (w_inv _ _ _ Hw)) as Hj. pose proof (w_main _ _ _ Hw) as Hm.
  destruct (mainThread (p_queue s)); [|..|by destruct Hj|by destruct Hj]; by apply (j_flags _ _ Hm (op_id op)).
Qed.

Lemma worker_next l s r : working_ok s -> program_worker l -> next l s = Some r ->
  exists s', r = Ok s' /\ working_ok s' /\ (program_weight s' < program_weight s)%nat.
Proof.
  intros Hw Hl Hr. pose proof Hw as [Hq Htasks]. destruct l as [l|i].
  - cbn in Hl, Hr. destruct (unfinished l s) eqn:Hun; [done|]. destruct (step l (p_queue s)) as [r'|] eqn:Hst; [|done].
    pose proof (w_inv _ _ _ Hq) as Hs. assert (notified l = true) as Hn by by destruct Hl.
    destruct (step_defined n n_u32 l _ r' Hn ltac:(by destruct Hl) Hs Hst) as (q' & -> & Hq'). injection Hr as <-. eexists. split; [done|].
    destruct (working_step n n_u32 (queue_ops content ds) l _ _ Hq Hl Hst) as [Hwork Hlt].
    split; [split; [done|]|unfold program_weight; cbn [p_queue p_tasks]; lia]. destruct s as [q tasks files].
    exact (queue_step_ok false l q q' tasks files Hs Htasks Hn Hun Hst).
  - assert (Inv n (p_queue s)) as Hs by apply Hq. cbn in Hr. destruct (executing (p_queue s) i) as [op|] eqn:He; [|done].
    assert (exists o, heap (p_queue s) !! op_id op = Some o) as [o Ho].
    { pose proof He as He'. unfold executing in He'. destruct (opThreads (p_queue s) !! i) as [[op' []]|] eqn:Hi; try done. injection He' as ->.
      by destruct (thread_live n n_u32 _ i op TExecute Hs Hi eq_refl) as [[o ?] _]; exists o. }
    rewrite Ho in Hr. assert (op_isCancelled o = false) as Hc by by eapply working_flags.
    destruct (work_ok false _ _ _ i op o Hs Htasks He Ho ltac:(by rewrite Hc))
      as (task & Ht & [[_ Hnone]|(task' & files' & Hst & Hok' & Hlt)]); rewrite Ht in Hr; [by rewrite Hnone in Hr|].
    rewrite Hst in Hr. injection Hr as <-. eexists. split; [done|]. split; [by split|]. unfold program_weight. cbn [p_queue p_tasks]. lia.
Qed.

Lemma start_working : working_ok start.
Proof. split; [apply working_start; [done|apply ids_distinct]|apply start_tasks_ok]. Qed.

Lemma worker_reach s : rtc worker_run start s -> working_ok s.
Proof.
  intros Hr. pose proof start_working as Hs. revert Hs. induction Hr as [s|s s1 s2 (l & Hl & Hst) _ IH]; [done|].
  intros Hs. apply IH. by destruct (worker_next l s _ Hs Hl Hst) as (s' & [= <-] & ? & _).
Qed.

Lemma worker_progress s : 0 < n -> working_ok s -> mainThread (p_queue s) <> Returned -> exists s', worker_run s s'.
Proof.
  intros Hn Hw Hret. pose proof Hw as [Hq Htasks].
  destruct (working_progress n n_u32 (queue_ops content ds) _ Hn Hq Hret) as (l & q' & Hl & Hst).
  destruct (unfinished l s) eqn:Hun.
  - unfold unfinished in Hun. destruct l as [| |[] i| | |]; try done.
    destruct (executing (p_queue s) i) as [op|] eqn:He; [|done].
    assert (exists o, heap (p_queue s) !! op_id op = Some o) as [o Ho].
    { pose proof He as He'. unfold executing in He'. destruct (opThreads (p_queue s) !! i) as [[op' []]|] eqn:Hi; try done. injection He' as ->.
      by destruct (thread_live n n_u32 _ i op TExecute (w_inv _ _ _ Hq) Hi eq_refl) as [[o ?] _]; exists o. }
    assert (op_isCancelled o = false) as Hc by by eapply working_flags.
    destruct (work_ok false _ _ _ i op o (w_inv _ _ _ Hq) Htasks He Ho ltac:(by rewrite Hc))
      as (task & Ht & [[Hd _]|(task' & files' & Hst' & _)]); rewrite Ht in Hun; [by rewrite Hd in Hun|].
    eexists. exists (PWork i). split; [done|]. cbn. by rewrite He, Ho, Ht, Hst'.
  - eexists. exists (PQueue l). split; [done|]. cbn. by rewrite Hun, Hst.
Qed.

(** *** The outputs of all conversions *)

Lemma collect (H : ConvertOperationPrivate -> list Hash) files l : NoDup l -> (forall d, d ∈ l -> d ∈ ds) ->
  (forall d, d ∈ l -> exists m, m < 2 ^ 31 /\ written path_append path_stem d m files (H d)) ->
  exists out : list (list byte * list PHC), NoDup out.*1 /\
    Forall (fun e => files !! fst e = Some (phc_file (snd e)) /\ (lookup_file (snd e) /\ snd e <> []) /\
      exists d k, d ∈ l /\ 1 <= k < 2 ^ 31 /\ fst e = name d k) out /\
    (forall d k, d ∈ l -> 1 <= k < 2 ^ 31 -> name d k ∉ out.*1 -> files !! name d k = None) /\
    (sum_list_with (fun e => length (snd e)) out <= sum_list_with (fun d => length (H d)) l)%nat /\
    forall v, sum_Z ((fun e => count_of (snd e) v) <$> out) = sum_Z ((fun d => occurrences (H d) v) <$> l).
Proof.
  induction 1 as [|d l Hd Hnd IH]; intros Hin Hw.
  { exists []. split_and!; [constructor|constructor|by intros d k ?%elem_of_nil|done|done]. }
  destruct IH as (out & Hout & Hall & Hnone & Hlen & Hsum); [intros; apply Hin; by right|intros; apply Hw; by right|].
  destruct (Hw d ltac:(by left)) as (m & Hm & o & Ho & Hoall & Honone & Holen & Hosum).
  assert (forall d' k k', d' ∈ ds -> 1 <= k < 2 ^ 31 -> 1 <= k' < 2 ^ 31 -> name d k = name d' k' -> d = d' /\ k = k') as Hinj.
  { intros d' k k' Hd' Hk Hk' Heq. pose proof (Hin d ltac:(by left)) as Hdd. apply list_elem_of_lookup in Hd' as [j Hj], Hdd as [i Hi].
    destruct (names_differ _ _ _ _ _ _ Hi Hj Hk Hk' Heq) as [-> ->]. split; [congruence|done]. }
  rewrite Forall_forall in Hoall. rewrite Forall_forall in Hall.
  assert ((prod_map (name d) id <$> o).*1 = name d <$> o.*1) as Hfst.
  { clear. induction o as [|e o IH]; [done|]. csimpl. by rewrite IH. }
  exists ((prod_map (name d) id <$> o) ++ out). split_and!.
  - rewrite fmap_app, Hfst. apply NoDup_app. split; [|split; [|done]].
    + apply NoDup_fmap_2_strong; [|done]. intros k k' (e & -> & He)%list_elem_of_fmap (e' & -> & He')%list_elem_of_fmap Heq.
      destruct (Hoall e He) as [? _], (Hoall e' He') as [? _].
      destruct (Hinj d (fst e) (fst e') (Hin d ltac:(by left)) ltac:(lia) ltac:(lia) Heq). done.
    + intros p (k & -> & (e & -> & He)%list_elem_of_fmap)%list_elem_of_fmap (e' & Heq & He')%list_elem_of_fmap.
      destruct (Hoall e He) as [? _]. destruct (Hall e' He') as (_ & _ & d' & k' & Hd' & Hk' & E). rewrite E in Heq.
      destruct (Hinj d' (fst e) k' ltac:(apply Hin; by right) ltac:(lia) Hk' Heq) as [-> _]. done.
  - apply Forall_forall. intros e [He|He]%elem_of_app.
    + apply list_elem_of_fmap in He as (e' & -> & He'). destruct (Hoall e' He') as (? & ? & ? & ?). cbn.
      split; [done|]. split; [done|]. exists d, (fst e'). split; [by left|]. split; [lia|done].
    + destruct (Hall e He) as (? & ? & d' & k' & ? & ? & ?). split; [done|]. split; [done|]. exists d', k'. split; [by right|done].
  - intros d' k Hd' Hk Hni. rewrite fmap_app, Hfst, elem_of_app in Hni. apply elem_of_cons in Hd' as [->|Hd'].
    + apply Honone; [done|]. intros Hk'. apply Hni. left. by apply list_elem_of_fmap_2.
    + apply (Hnone d'); [done..|]. tauto.
  - rewrite sum_list_with_app. cbn [sum_list_with].
    assert (sum_list_with (fun e => length (snd e)) (prod_map (name d) id <$> o) = sum_list_with (fun e => length (snd e)) o) as ->
      by (clear; induction o as [|e o IH]; [done|]; csimpl; by rewrite IH). lia.
  - intros v. rewrite !fmap_app, fmap_cons. unfold sum_Z. rewrite foldr_app. fold (sum_Z ((fun e => count_of (snd e) v) <$> out)).
    rewrite Hsum. cbn [foldr]. rewrite <- Hosum. unfold sum_Z. clear. induction o as [|e o IH]; csimpl; [lia|]. rewrite IH. lia.
Qed.

(** When the program has ended, its files are the outputs of all conversions. *)
Lemma returned_files s : working_ok s -> mainThread (p_queue s) = Returned ->
  exists out : list (list byte * list PHC), NoDup out.*1 /\
    p_files s = list_to_map (prod_map id phc_file <$> out) ∪ files0 /\
    Forall (fun e => (lookup_file (snd e) /\ snd e <> []) /\ files0 !! fst e = None) out /\
    (sum_list_with (fun e => length (snd e)) out <= sum_list_with (fun d => length (lines (text content d))) ds)%nat /\
    forall v, sum_Z ((fun e => count_of (snd e) v) <$> out) =
      sum_Z ((fun d => occurrences (hashes MD5 d (text content d) (lines (text content d))) v) <$> ds).
Proof.
  intros [Hq Hok] Hret. pose proof (w_main _ _ _ Hq) as Hm. rewrite Hret in Hm. destruct Hm as ([_ _ Hlog] & _).
  destruct (collect (fun d => hashes MD5 d (text content d) (lines (text content d))) (p_files s) ds) as (out & Hnd & Hall & Hnone & Hlen & Hsum);
    [by eapply NoDup_fmap_1|done|..].
  { intros d Hd. apply list_elem_of_lookup in Hd as [i Hd].
    assert (i < length (p_tasks s))%nat as Hlt by (rewrite (to_length _ _ _ _ Hok); by eapply lookup_lt_Some).
    destruct (lookup_lt_is_Some_2 _ _ Hlt) as [task Ht]. destruct (to_each _ _ _ _ Hok _ _ _ Hd Ht) as (_ & _ & Hpc).
    assert (task_done task = true) as Hdone.
    { apply (to_log _ _ _ _ Hok (MkPtr i (op_priority content d))); [|done]. rewrite Hlog. unfold queue_ops.
      apply elem_of_lookup_imap. by exists i, d. }
    unfold task_done in Hdone. destruct (t_pc task); try done.
    destruct Hpc as (before & after & m & Hl & Ha & Hm & Hw). rewrite (Ha eq_refl), app_nil_r in Hl.
    exists m. split; [done|]. by rewrite Hl. }
  exists out. split_and!; [done| | | |done].
  3: { etransitivity; [exact Hlen|]. clear - MD5. induction ds as [|d l IH]; [done|]. cbn [sum_list_with].
    pose proof (valid_hashes_length MD5 (new_reader (open_stream (text content d)) (options d)) (lines (text content d))).
    unfold hashes at 1. lia. }
  - apply map_eq. intros p. assert ((prod_map id phc_file <$> out).*1 = out.*1) as Hfst.
    { clear. induction out as [|e o IH]; [done|]. csimpl. by rewrite IH. }
    rewrite Forall_forall in Hall. destruct (decide (p ∈ out.*1)) as [Hin|Hin].
    + apply list_elem_of_fmap in Hin as (e & -> & He). destruct (Hall e He) as (-> & _). symmetry.
      apply lookup_union_Some_l. apply elem_of_list_to_map_1; [by rewrite Hfst|]. apply list_elem_of_fmap. by exists e.
    + rewrite lookup_union_r by (apply not_elem_of_list_to_map_1; by rewrite Hfst).
      destruct (decide (Exists (fun d => Exists (fun k => p = name d k) (seqZ 1 (2 ^ 31 - 1))) ds)) as [Hex|Hno].
      * apply Exists_exists in Hex as (d & Hd & (k & Hk%elem_of_seqZ & ->)%Exists_exists).
        rewrite names_free by (done || lia). apply (Hnone d); [done|lia|done].
      * apply (to_else _ _ _ _ Hok). intros d k Hd Hk ->. apply Hno, Exists_exists. exists d. split; [done|].
        apply Exists_exists. exists k. split; [|done]. apply elem_of_seqZ. lia.
  - eapply Forall_impl; [exact Hall|]. intros e (_ & Hf & d & k & Hd & Hk & ->). split; [done|]. by apply names_free.
Qed.
End program.

(** The conversions of [main] write into one directory. *)
Lemma converter_main_directory tree o ds d d' : converter_main tree o = Some ds -> d ∈ ds -> d' ∈ ds ->
  dstPath d = dstPath d' /\ outputExt d = outputExt d'.
Proof.
  unfold converter_main. intros Hm Hd Hd'. repeat case_decide; simplify_eq.
  apply list_elem_of_fmap in Hd as (f & -> & _), Hd' as (f' & -> & _). done.
Qed.

(** ** Properties *)

Section properties.
Context (path_append : list byte -> list byte -> list byte) (path_stem : list byte -> list byte).
Context (MD5 : list byte -> list byte) (fuel : nat) (append_ok : append_law path_append).
Context {Q : Type} `{PQ : PriorityQueue OpPtr opGreaterPriority Q}.
Context (n : Z) (n_u32 : in_u32 n) (tree : list byte -> list (list byte * bool)) (o : ConverterOptions).
Context (content : list byte -> file_entry) (files : gmap (list byte) (list byte)).
Context (ds : list ConvertOperationPrivate) (ds_main : converter_main tree o = Some ds).
Context (ds_ok : forall d, d ∈ ds -> 0 < maxMem d < 2 ^ 38 /\ freadable (content (srcFilePath d)) = true /\
  Z.of_nat (length (lines (text content d))) < 2 ^ 31 /\ (length (lines (text content d)) < fuel)%nat).
Context (stems_differ : NoDup ((fun d => path_stem (srcFilePath d)) <$> ds)).
Context (stems_plain : forall d, d ∈ ds -> "/"%byte ∉ path_stem (srcFilePath d)).
Context (names_free : forall d k, d ∈ ds -> 1 <= k < 2 ^ 31 -> files !! out_name path_append path_stem d k = None).
#[local] Set Default Proof Using "All".

(** C3: let there be a processor, memory for at least one password (and less than 256 GB) per
    conversion, and readable lists of less than 2^31 lines whose names differ in more than
    their directories ([same_stem_lost] is what happens otherwise); let the numbered names of
    the outputs be free, and every output can be opened.  Then the whole converter ends, however its threads take turns:
    every run without keys is finite and ends only when [main] returns.  Then the files are
    the old ones and new ones, each a file for lookups, in which every hash is counted as often
    as it occurs in all the password lists together. *)
Theorem converter_program_converts : 0 < n ->
  exists s0, converter_program (Q := Q) n tree content files o = Some s0 /\
  sn (worker_run path_append path_stem MD5 fuel) s0 /\
  forall s, rtc (worker_run path_append path_stem MD5 fuel) s0 s ->
    (mainThread (p_queue s) <> Returned -> exists s', worker_run path_append path_stem MD5 fuel s s') /\
    (mainThread (p_queue s) = Returned -> exists out : list (list byte * list PHC), NoDup out.*1 /\
      p_files s = list_to_map (prod_map id phc_file <$> out) ∪ files /\
      Forall (fun e => (lookup_file (snd e) /\ snd e <> []) /\ files !! fst e = None) out /\
      (sum_list_with (fun e => length (snd e)) out <= sum_list_with (fun d => length (lines (text content d))) ds)%nat /\
      forall v, sum_Z ((fun e => count_of (snd e) v) <$> out) =
        sum_Z ((fun d => occurrences (valid_hashes MD5 (new_reader (open_stream (text content d)) (options d))
          (lines (text content d))) v) <$> ds)).
Proof.
  intros Hn. exists (start_program n content ds files). split; [unfold converter_program; by rewrite ds_main|].
  pose proof (fun d d' => converter_main_directory tree o ds d d' ds_main) as Hdir. split.
  - pose proof (start_working path_append path_stem MD5 fuel append_ok (Q := Q) n n_u32 content ds files ds_ok Hdir stems_differ stems_plain names_free) as Hs.
    revert Hs. generalize (start_program (Q := Q) n content ds files). intros s.
    induction s as [s IH] using (induction_ltof1 _ (program_weight (Q := Q))). intros Hs. constructor.
    intros s' (l & Hl & Hr). destruct (worker_next path_append path_stem MD5 fuel append_ok n n_u32 content ds files
      ds_ok Hdir stems_differ stems_plain names_free l s _ Hs Hl Hr) as (s1 & [= <-] & Hs1 & Hlt). by apply IH.
  - intros s Hr. apply (worker_reach path_append path_stem MD5 fuel append_ok n n_u32 content ds files ds_ok Hdir stems_differ stems_plain names_free) in Hr.
    split; [by apply (worker_progress path_append path_stem MD5 fuel append_ok n n_u32 content ds files ds_ok Hdir stems_differ stems_plain names_free)|].
    by apply (returned_files path_append path_stem MD5 fuel append_ok n n_u32 content ds files ds_ok Hdir stems_differ stems_plain names_free).
Qed.

(** C14: for readable lists of less than 2^31 lines whose names differ in more than their
    directories, with memory for at least one password (and less than 256 GB) per conversion,
    free names for the outputs, all of which can be opened: at every moment of a run in which
    nothing undefined has happened, whatever the threads did and whatever keys were pressed
    (no condition variable waking up by itself), every step that can be taken succeeds, but for
    the loop of [pause] when the operation its iterator is at is gone; no more conversions run
    than there are processors; and under the name of an output there is nothing, or a whole
    file for lookups, or a conversion is writing it. *)
Theorem converter_program_safe s0 s : converter_program (Q := Q) n tree content files o = Some s0 ->
  rtc (notified_run path_append path_stem MD5 fuel) s0 s ->
  (forall l r, program_notified l = true -> program_step path_append path_stem (fun _ => true) MD5 fuel l s = Some r ->
    (exists s', r = Ok s') \/ l = PQueue LKeyStep /\ r = Undefined /\ stale_pause (p_queue s)) /\
  Z.of_nat (length (runningOps (p_queue s))) <= n /\
  forall d k, d ∈ ds -> 1 <= k < 2 ^ 31 ->
    p_files s !! out_name path_append path_stem d k = None \/
    (exists recs, p_files s !! out_name path_append path_stem d k = Some (phc_file recs) /\ lookup_file recs) \/
    being_written s (out_name path_append path_stem d k).
Proof.
  unfold converter_program. rewrite ds_main. intros [= <-] Hr.
  pose proof (fun d d' => converter_main_directory tree o ds d d' ds_main) as Hdir.
  apply (reach_ok path_append path_stem MD5 fuel append_ok n n_u32 content ds files ds_ok Hdir stems_differ stems_plain names_free) in Hr.
  split; [|split; [by apply inv_running_bound; destruct Hr|]].
  - intros l r Hl Hst. destruct (next_ok path_append path_stem MD5 fuel append_ok n n_u32 content ds files ds_ok Hdir
      stems_differ stems_plain names_free true l s r Hr Hl ltac:(done) Hst) as [(s' & -> & _)|?]; [left; by exists s'|by right].
  - intros d k. by apply (names_complete path_append path_stem MD5 fuel append_ok n n_u32 content ds files ds_ok Hdir
      stems_differ stems_plain names_free true).
Qed.
End properties.

(** ** Witnesses: two lists, two processors *)

(** The name after the last slash, without [.txt]. *)
Definition demo_file_stem (p : list byte) : list byte :=
  let leaf := foldl (fun acc c => if decide (c = "/"%byte) then [] else acc ++ [c]) [] p in
  take (length leaf - 4) leaf.

Definition demo_program_options : ConverterOptions :=
  MkConverterOptions (bs "in") (bs "out") DefaultOutputExt 1 4 false false false false.
Definition demo_lists (_ : list byte) : list (list byte * bool) :=
  [(bs "in/a.txt", true); (bs "in/b.txt", true); (bs "in/b.zip", true)].
Definition demo_lists_content (p : list byte) : file_entry :=
  FileEntry (if decide (p = bs "in/a.txt") then bs "x" ++ [x0a] ++ bs "y" else bs "x") true.
Definition demo_conversions : list ConvertOperationPrivate :=
  (fun f => MkConvert f (bs "out") DefaultOutputExt 262144 []) <$> [bs "in/a.txt"; bs "in/b.txt"].

Lemma demo_conversions_ok d : d ∈ demo_conversions ->
  0 < maxMem d < 2 ^ 38 /\ freadable (demo_lists_content (srcFilePath d)) = true /\
  Z.of_nat (length (lines (text demo_lists_content d))) < 2 ^ 31 /\
  (length (lines (text demo_lists_content d)) < 9)%nat.
Proof.
  intros Hd. apply list_elem_of_fmap in Hd as (f & -> & Hf). cbn [maxMem srcFilePath].
  split; [lia|]. split; [done|]. split;
    (apply elem_of_cons in Hf as [->|Hf%list_elem_of_singleton]; [|subst f]); apply (bool_decide_unpack _); vm_compute; exact I.
Qed.

Lemma demo_stems_plain d : d ∈ demo_conversions -> "/"%byte ∉ demo_file_stem (srcFilePath d).
Proof.
  intros [->| ->%list_elem_of_singleton]%elem_of_cons; apply (bool_decide_unpack _); vm_compute; exact I.
Qed.

Lemma converter_program_converts_witness :
  exists s0, converter_program (Q := list OpPtr) 2 demo_lists demo_lists_content ∅ demo_program_options = Some s0 /\
    sn (worker_run demo_append demo_file_stem toy_digest 9) s0.
Proof.
  destruct (converter_program_converts demo_append demo_file_stem toy_digest 9 demo_append_law (Q := list OpPtr) 2 ltac:(lia)
    demo_lists demo_program_options demo_lists_content ∅ demo_conversions eq_refl demo_conversions_ok
    ltac:(apply (bool_decide_unpack _); vm_compute; exact I) demo_stems_plain ltac:(intros; apply lookup_empty) ltac:(lia)) as (s0 & H0 & Hsn & _).
  exists s0. split; [exact H0|exact Hsn].
Defined.

(** Both conversions have begun, and space has been pressed. *)
Definition demo_pause_labels : list ProgramLabel :=
  (PQueue <$> replicate 9 LExe ++ [LMain; LOp false 0; LOp false 1]) ++ (PWork <$> replicate 8 0%nat) ++
  (PQueue <$> [LKey Space; LKeyStep]) ++ [PWork 1%nat].
Definition demo_program : Program (Q := list OpPtr) := start_program 2 demo_lists_content demo_conversions ∅.
Definition demo_pausing : Program (Q := list OpPtr) :=
  match program_run demo_append demo_file_stem (fun _ => true) toy_digest 9 demo_pause_labels demo_program with
  | Some (Ok s) => s | _ => demo_program
  end.

Lemma program_run_notified (ls : list ProgramLabel) (s s' : Program (Q := list OpPtr)) : forallb program_notified ls = true ->
  program_run demo_append demo_file_stem (fun _ => true) toy_digest 9 ls s = Some (Ok s') ->
  rtc (notified_run demo_append demo_file_stem toy_digest 9) s s'.
Proof.
  revert s. induction ls as [|l ls IH]; intros s Hl Hr; cbn [program_run forallb] in *; [by injection Hr as <-|].
  apply andb_true_iff in Hl as [Hl Hls].
  destruct (program_step _ _ _ _ _ l s) as [[s1| | |]|] eqn:E; try done. eapply rtc_l; [|by apply IH]. by exists l.
Qed.

Lemma converter_program_safe_witness :
  (exists op, keyThread (p_queue demo_pausing) = CPauseNext op) /\ length (runningOps (p_queue demo_pausing)) = 2%nat /\
  forall r, program_step demo_append demo_file_stem (fun _ => true) toy_digest 9 (PQueue (LOp true 0)) demo_pausing = Some r ->
    exists s', r = Ok s'.
Proof.
  split; [eexists; vm_compute; reflexivity|]. split; [vm_compute; reflexivity|]. intros r Hr.
  destruct (converter_program_safe demo_append demo_file_stem toy_digest 9 demo_append_law (Q := list OpPtr) 2 ltac:(lia)
    demo_lists demo_program_options demo_lists_content ∅ demo_conversions eq_refl demo_conversions_ok
    ltac:(apply (bool_decide_unpack _); vm_compute; exact I) demo_stems_plain ltac:(intros; apply lookup_empty) demo_program demo_pausing eq_refl)
    as (Hstep & _ & _).
  - apply (program_run_notified demo_pause_labels); vm_compute; reflexivity.
  - destruct (Hstep (PQueue (LOp true 0)) r eq_refl Hr) as [Hok|[E _]]; [exact Hok|discriminate E].
Defined.

(** *** Two lists with one name *)

Definition demo_same (_ : list byte) : list (list byte * bool) := [(bs "in/1/x.txt", true); (bs "in/2/x.txt", true)].
Definition demo_same_content (p : list byte) : file_entry :=
  FileEntry (if decide (p = bs "in/1/x.txt") then bs "x" else bs "y") true.

(** Both threads are started; [first] are the steps of the conversions. *)
Definition demo_turns (turns : list nat) : list ProgramLabel :=
  (PQueue <$> replicate 9 LExe ++ [LMain; LOp false 0; LOp false 1]) ++ (PWork <$> turns) ++
  (PQueue <$> replicate 4 (LOp false 0) ++ replicate 4 (LOp false 1) ++ replicate 5 LMain).

Definition final (start : option (Program (Q := list OpPtr))) (turns : list nat) : option (bool * list (list byte * list byte)) :=
  s0 ← start;
  match program_run demo_append demo_file_stem (fun _ => true) toy_digest 9 (demo_turns turns) s0 with
  | Some (Ok s) => Some (match mainThread (p_queue s) with Returned => true | _ => false end, map_to_list (p_files s))
  | _ => None
  end.

Definition demo_same_start : option (Program (Q := list OpPtr)) :=
  converter_program 2 demo_same demo_same_content ∅ demo_program_options.

(** One after the other. *)
Definition demo_sequential : list nat := replicate 10 0%nat ++ replicate 11 1%nat.
(** Both look for a free name before one of them opens its file. *)
Definition demo_racing : list nat := replicate 6 0%nat ++ replicate 6 1%nat ++ replicate 4 0%nat ++ replicate 4 1%nat.

(** The record of a password that occurs once. *)
Definition demo_record (pwd : list byte) : PHC := MkPHC (Hash_of_string toy_digest pwd) 1.

Example demo_sequential_files : final demo_same_start demo_sequential =
  Some (true, [(bs "out/x-0001.md5", phc_file [demo_record (bs "y")]);
    (bs "out/x-0001-0001.md5", phc_file [demo_record (bs "x")])]).
Proof. vm_compute. reflexivity. Qed.

Example demo_racing_files : final demo_same_start demo_racing = Some (true, [(bs "out/x-0001.md5", phc_file [demo_record (bs "x")])]).
Proof. vm_compute. reflexivity. Qed.

Lemma program_run_reach (ls : list ProgramLabel) (s s' : Program (Q := list OpPtr)) : Forall program_worker ls ->
  program_run demo_append demo_file_stem (fun _ => true) toy_digest 9 ls s = Some (Ok s') ->
  rtc (worker_run demo_append demo_file_stem toy_digest 9) s s'.
Proof.
  intros Hls. revert s. induction Hls as [|l ls Hl Hls IH]; intros s Hr; cbn [program_run] in Hr; [by injection Hr as <-|].
  destruct (program_step _ _ _ _ _ l s) as [[s1| | |]|] eqn:E; try done. eapply rtc_l; [|by apply IH]. by exists l.
Qed.

Lemma demo_turns_worker turns : Forall program_worker (demo_turns turns).
Proof. unfold demo_turns. rewrite !Forall_app, !Forall_fmap. split_and!; [repeat constructor|by apply Forall_true|repeat constructor]. Qed.

Lemma final_reach start turns l : final start turns = Some (true, l) ->
  exists s0 s, start = Some s0 /\ rtc (worker_run demo_append demo_file_stem toy_digest 9) s0 s /\
    mainThread (p_queue s) = Returned /\ map_to_list (p_files s) = l.
Proof.
  intros E. unfold final in E. destruct start as [s0|]; [|discriminate].
  cbn [mbind option_bind] in E. destruct (program_run _ _ _ _ _ (demo_turns turns) s0) as [[s| | |]|] eqn:Er; try discriminate.
  injection E as Em El. exists s0, s. split; [reflexivity|]. split; [by eapply program_run_reach; [apply demo_turns_worker|]|].
  split; [by destruct (mainThread (p_queue s))|exact El].
Qed.

(** the names of the lists must differ: of two lists [1/x.txt] and [2/x.txt] with one
    password each, converted at the same time, only one password arrives when both
    conversions look for a free name before one of them opens its file.  The program ends as
    usual, with one file. *)
Theorem same_stem_lost :
  exists s0 s, demo_same_start = Some s0 /\
    rtc (worker_run demo_append demo_file_stem toy_digest 9) s0 s /\ mainThread (p_queue s) = Returned /\
    map_to_list (p_files s) = [(bs "out/x-0001.md5", phc_file [demo_record (bs "x")])].
Proof. exact (final_reach demo_same_start demo_racing _ demo_racing_files). Qed.
