(* ===== verification/Server.v ===== *)
(** * pwned-server/httpworker.*: a worker of the web service

    A worker owns a socket and an inspector and is driven by the completion of its
    asynchronous operations: accept, read, write, and the timer.  Boost (asio, beast, the JSON
    writer, [split], [replace_all]) is not part of the repository: its operations are
    parameters, and what a theorem needs of them is a named law.  The lookup is an interface
    ([LookupService]) that the inspector implements, with and without an index. *)

From S2P Require Import Prelude Decimal Stream Util Hash Phc Inspector Index Regex Uri.
From stdpp Require Import options.

(** ** What a worker needs of an inspector *)

Class LookupService (I : Type) := {
  svc_lookup : Hash -> I -> outcome (PHC * I);
  svc_size : I -> Z;
  (** the service holds these records *)
  svc_serves : list PHC -> I -> Prop;
  (** the hashes it can look up without breaking *)
  svc_domain : list PHC -> Hash -> Prop;
  svc_correct : forall recs h i, svc_serves recs i -> Hash_wf h -> svc_domain recs h ->
    exists q i', svc_lookup h i = Ok (q, i') /\ answers recs (hval h) q /\ svc_serves recs i';
  svc_size_correct : forall recs i, svc_serves recs i -> svc_size i = Z.of_nat (length recs) }.

(** A lookup of the inspector. *)
Definition inspector_lookup (fuel : nat) (h : Hash) (i : Inspector) : outcome (PHC * Inspector) :=
  match binsearch fuel i h with Some (q, _, i) => Ok (q, i) | None => OutOfFuel end.

(** ** Requests and responses *)

Inductive verb := get | other_verb.

Record request := MkRequest {
  req_method : verb;
  req_method_string : list byte;
  req_target : list byte }.

Inductive status := status_ok | status_bad_request | status_not_found.

#[export] Instance status_eq_decision : EqDecision status.
Proof. solve_decision. Defined.

Record response := MkResponse {
  res_status : status;
  res_fields : list (list byte * list byte);
  res_body : list byte }.

Definition PWNED_SERVER_VERSION : list byte := bs "1.0.1".

(** [makeResponse] *)
Definition makeResponse (msg : list byte) : response :=
  MkResponse status_ok
    [(bs "Server", bs "#pwned server " ++ PWNED_SERVER_VERSION); (bs "Content-Type", bs "application/json");
     (bs "Access-Control-Allow-Origin", bs "*")] msg.

(** The response [sendBadResponse] makes. *)
Definition bad_response (st : status) (error : list byte) : response :=
  MkResponse st [(bs "Server", bs "#pwned server " ++ PWNED_SERVER_VERSION); (bs "Content-Type", bs "text/plain")] error.

Definition quoted (l : list byte) : list byte := x22 :: l ++ [x22].

(** ** [HttpWorker] *)

(** [Timeout], in seconds. *)
Definition Timeout : Z := 60.

(** The asynchronous operation on the socket that is under way. *)
Inductive Pending := PNone | PAccept | PRead | PWrite.

(** What completes next. *)
Inductive Event :=
  | EAccepted (ok : bool) (now : Z)
  | ERead (req : option request) (rest : list byte)
      (logline : option (list byte))
        (** the time and the address in front of the target; [None]: [remote_endpoint] does not
            know the address, since the other side has reset the connection *)
      (duration : list byte)     (** [std::to_string] of the milliseconds the lookup took *)
  | EWritten
  | ETimer (now : Z).

Section worker.
Context {I : Type} `{LookupService I}.
Context (split : list byte -> byte -> list (list byte)).
Context (write_json : list (list byte * list byte) -> list byte).
Context (replace_all : list byte -> list byte -> list byte -> list byte).

Record Worker := MkWorker {
  mSocket : bool;                    (** open *)
  mBuffer : list byte;
  mParser : bool;
  mReqTimeout : option Z;            (** the expiry; [None] is [time_point::max()] *)
  mResponse : option response;
  mSerializer : option response;
  mBasePath : list byte;
  mInspector : I;
  mLog : option (list (list byte));  (** what [mLogCallback] was called with; [None]: no callback *)
  mLastUpdated : Z;
  pending : Pending }.

(** The constructor. *)
Definition HttpWorker (basePath : list byte) (i : I) (log : bool) (last_write_time : Z) : Worker :=
  MkWorker false [] false None None None basePath i (if log then Some [] else None) last_write_time PNone.

(** [void accept()], up to the completion. *)
Definition accept (w : Worker) : Worker :=
  MkWorker false [] (mParser w) (mReqTimeout w) (mResponse w) (mSerializer w) (mBasePath w) (mInspector w)
    (mLog w) (mLastUpdated w) PAccept.

(** [void readRequest()], up to the completion. *)
Definition readRequest (w : Worker) : Worker :=
  MkWorker (mSocket w) (mBuffer w) true (mReqTimeout w) (mResponse w) (mSerializer w) (mBasePath w) (mInspector w)
    (mLog w) (mLastUpdated w) PRead.

(** Filling [mResponse] and [mSerializer] and starting to write. *)
Definition send (r : response) (w : Worker) : Worker :=
  MkWorker (mSocket w) (mBuffer w) (mParser w) (mReqTimeout w) (Some r) (Some r) (mBasePath w) (mInspector w)
    (mLog w) (mLastUpdated w) PWrite.

Definition sendBadResponse (st : status) (error : list byte) (w : Worker) : Worker :=
  send (bad_response st error) w.

(** What [mSocket.remote_endpoint()] makes of it: it throws on a socket that is closed or not
    connected any more. *)
Definition remote_endpoint (logline : option (list byte)) (w : Worker) : outcome (list byte) :=
  match mSocket w, logline with true, Some line => Ok line | _, _ => Throws (bs "remote_endpoint") end.
(** The call of [mLogCallback], if there is one. *)
Definition log_request (logline : option (list byte)) (target : list byte) (w : Worker) : outcome Worker :=
  match mLog w with
  | None => Ok w
  | Some l =>
      line ← remote_endpoint logline w;
      Ok (MkWorker (mSocket w) (mBuffer w) (mParser w) (mReqTimeout w) (mResponse w) (mSerializer w) (mBasePath w) (mInspector w)
        (Some (l ++ [line ++ x20 :: target])) (mLastUpdated w) (pending w))
  end.
Definition set_inspector (i : I) (w : Worker) : Worker :=
  MkWorker (mSocket w) (mBuffer w) (mParser w) (mReqTimeout w) (mResponse w) (mSerializer w) (mBasePath w) i
    (mLog w) (mLastUpdated w) (pending w).

(** The texts the JSON writer gets; numbers are put in afterwards. *)
Definition lookup_json (hash_text found duration : list byte) : list byte :=
  let responseStr := write_json [(bs "hash", hash_text); (bs "found", bs "[found]");
    (bs "lookup-time-ms", bs "[lookup-time-ms]")] in
  let responseStr := replace_all responseStr (quoted (bs "[found]")) found in
  replace_all responseStr (quoted (bs "[lookup-time-ms]")) duration.
Definition info_json (size last_updated : list byte) : list byte :=
  let responseStr := write_json [(bs "count", bs "[count]"); (bs "last-update", bs "[last-update]")] in
  let responseStr := replace_all responseStr (quoted (bs "[count]")) size in
  replace_all responseStr (quoted (bs "[last-update]")) last_updated.

(** [void sendResponse(req)] *)
Definition sendResponse (req : request) (logline : option (list byte)) (duration : list byte) (w : Worker) : outcome Worker :=
  let uri := parseTarget split (req_target req) URI_default in
  w ← log_request logline (req_target req) w;
  if decide (Accessors.path uri = mBasePath w ++ bs "/lookup" /\ is_Some (Accessors.query uri !! bs "hash")) then
    let hash := fromHex (default [] (Accessors.query uri !! bs "hash")) in
    '(phc, i) ← svc_lookup hash (mInspector w);
    Ok (send (makeResponse (lookup_json (toString false hash) (to_string (count phc)) duration)) (set_inspector i w))
  else if decide (Accessors.path uri = mBasePath w ++ bs "/info") then
    Ok (send (makeResponse (info_json (to_string (svc_size (mInspector w))) (to_string (mLastUpdated w)))) w)
  else Ok (sendBadResponse status_not_found [] w).

(** [void processRequest(req)] *)
Definition processRequest (req : request) (logline : option (list byte)) (duration : list byte) (w : Worker) : outcome Worker :=
  match req_method req with
  | get => sendResponse req logline duration w
  | other_verb =>
      Ok (sendBadResponse status_bad_request
        (bs "Invalid request method '" ++ req_method_string req ++ bs "'" ++ [x0d; x0a]) w)
  end.

(** [void checkTimeout()]: closes the socket once the time is over, and waits again. *)
Definition checkTimeout (now : Z) (w : Worker) : Worker :=
  if match mReqTimeout w with Some t => t <=? now | None => false end then
    MkWorker false (mBuffer w) (mParser w) None (mResponse w) (mSerializer w) (mBasePath w) (mInspector w)
      (mLog w) (mLastUpdated w) (pending w)
  else w.

(** [void start()] *)
Definition start (now : Z) (w : Worker) : Worker := checkTimeout now (accept w).

(** The completion handlers; [None]: no such operation is under way. *)
Definition handle (e : Event) (w : Worker) : option (outcome Worker) :=
  match e, pending w with
  | EAccepted ok now, PAccept =>
      Some (Ok (if ok then
        readRequest (MkWorker true (mBuffer w) (mParser w) (Some (now + Timeout)) (mResponse w) (mSerializer w)
          (mBasePath w) (mInspector w) (mLog w) (mLastUpdated w) (pending w))
        else accept w))
  | ERead req rest logline duration, PRead =>
      let w := MkWorker (mSocket w) rest (mParser w) (mReqTimeout w) (mResponse w) (mSerializer w)
        (mBasePath w) (mInspector w) (mLog w) (mLastUpdated w) (pending w) in
      Some match req with
      | None => Ok (accept w)
      | Some req => processRequest req logline duration w
      end
  | EWritten, PWrite =>
      Some (Ok (accept (MkWorker (mSocket w) (mBuffer w) (mParser w) (mReqTimeout w) None None
        (mBasePath w) (mInspector w) (mLog w) (mLastUpdated w) (pending w))))
  | ETimer now, _ => Some (Ok (checkTimeout now w))
  | _, _ => None
  end.

(** A run along a list of events. *)
Fixpoint run (es : list Event) (w : Worker) : option (outcome Worker) :=
  match es with
  | [] => Some (Ok w)
  | e :: es => match handle e w with Some (Ok w) => run es w | r => r end
  end.

(** A worker that waits for something, with its response ready exactly when it writes. *)
Record Serving (base : list byte) (recs : list PHC) (w : Worker) : Prop := {
  sv_pending : pending w <> PNone;
  sv_response : match pending w with
                | PWrite => is_Some (mResponse w) /\ mSerializer w = mResponse w
                | _ => mResponse w = None /\ mSerializer w = None
                end;
  sv_base : mBasePath w = base;
  sv_socket : pending w = PAccept -> mSocket w = false /\ mBuffer w = [];
  sv_open : pending w = PRead -> mSocket w = bool_decide (is_Some (mReqTimeout w));
  sv_serves : svc_serves recs (mInspector w) }.

(** The worker can name the other side, or has no need to. *)
Definition connected (logline : option (list byte)) (w : Worker) : Prop :=
  mLog w = None \/ mSocket w = true /\ is_Some logline.

(** A request whose lookup, if it is one, is in the domain. *)
Definition safe_request (base : list byte) (recs : list PHC) (req : request) : Prop :=
  let uri := parseTarget split (req_target req) URI_default in
  forall t, mQuery uri !! bs "hash" = Some t -> svc_domain recs (fromHex t).
Definition safe_event (base : list byte) (recs : list PHC) (e : Event) : Prop :=
  match e with ERead (Some req) _ _ _ => safe_request base recs req | _ => True end.
End worker.
Arguments Worker : clear implicits.

(** ** What a response should be *)

(** A JSON object on one line, of names and values. *)
Definition json_object (l : list (list byte * list byte)) : list byte :=
  x7b :: join x2c ((fun e => quoted (fst e) ++ x3a :: snd e) <$> l) ++ [x7d; x0a].

(** The response to a lookup of [hash] in a file with these records. *)
Definition expected (recs : list PHC) (hash : Hash) (duration : list byte) : response :=
  makeResponse (json_object [(bs "hash", quoted (toString false hash));
    (bs "found", to_string (count_of recs (hval hash))); (bs "lookup-time-ms", duration)]).

(** The response to any request, when the file was last changed at this time. *)
Definition answer (split : list byte -> byte -> list (list byte)) (base : list byte) (recs : list PHC) (last_updated : Z)
    (req : request) (duration : list byte) : response :=
  match req_method req with
  | other_verb => bad_response status_bad_request (bs "Invalid request method '" ++ req_method_string req ++ bs "'" ++ [x0d; x0a])
  | get =>
      let uri := parseTarget split (req_target req) URI_default in
      match Accessors.query uri !! bs "hash" with
      | Some hash_text =>
          if decide (Accessors.path uri = base ++ bs "/lookup") then expected recs (fromHex hash_text) duration
          else if decide (Accessors.path uri = base ++ bs "/info") then
            makeResponse (json_object [(bs "count", to_string (Z.of_nat (length recs))); (bs "last-update", to_string last_updated)])
          else bad_response status_not_found []
      | None =>
          if decide (Accessors.path uri = base ++ bs "/info") then
            makeResponse (json_object [(bs "count", to_string (Z.of_nat (length recs))); (bs "last-update", to_string last_updated)])
          else bad_response status_not_found []
      end
  end.

(** What the documentation of boost says of [write_json] (not pretty, of a flat tree of texts
    that need no escape) and of [replace_all]. *)
Definition json_plain (c : byte) : bool :=
  (32 <=? byte.unsigned c) && (byte.unsigned c <=? 126) && negb (among [x22; x2f; x5c] c).
Definition write_json_law (write_json : list (list byte * list byte) -> list byte) : Prop :=
  forall l, l <> [] -> NoDup l.*1 -> Forall (fun e => forallb json_plain (fst e) && forallb json_plain (snd e) = true) l ->
    write_json l = json_object ((fun e => (fst e, quoted (snd e))) <$> l).
Definition occurs (pat s : list byte) : Prop := exists a b, s = a ++ pat ++ b.
Definition replace_law (replace_all : list byte -> list byte -> list byte -> list byte) : Prop :=
  (forall s pat rep, pat <> [] -> ~ occurs pat s -> replace_all s pat rep = s) /\
  (forall a b pat rep, pat <> [] -> ~ occurs pat (a ++ removelast pat) ->
    replace_all (a ++ pat ++ b) pat rep = a ++ rep ++ replace_all b pat rep).

(** ** Lemmas: texts *)

(** A text is cut at the first occurrence of a character in one way only. *)
Lemma first_split (c : byte) (a b z y : list byte) : c ∉ a -> c ∉ b -> a ++ c :: z = b ++ c :: y -> a = b /\ z = y.
Proof.
  revert b. induction a as [|d a IH]; intros [|e b] Ha Hb Heq; simplify_eq/=; [done|set_solver..|].
  destruct (IH b) as [-> ->]; [set_solver..|done|done].
Qed.

(** In a text with the mark [c] once, a pattern with the mark can only be where the mark is. *)
Lemma occurs_mark c x y a z :
  c ∉ x -> c ∉ a -> c ∉ z -> occurs (x ++ c :: y) (a ++ c :: z) -> exists k l, a = k ++ x /\ z = y ++ l.
Proof.
  intros Hx Ha Hz (k & l & Heq).
  replace (k ++ (x ++ c :: y) ++ l) with ((k ++ x) ++ c :: y ++ l) in Heq by by rewrite <- !app_assoc.
  destruct (decide (c ∈ k ++ x)) as [Hin|Hin].
  - exfalso. apply list_elem_of_split_l in Hin as (k1 & k2 & Hk & Hk1). rewrite Hk, <- app_assoc in Heq.
    cbn in Heq. apply first_split in Heq as [-> ->]; [|done..]. apply Hz. set_solver.
  - apply first_split in Heq as [-> ->]; [|done..]. by exists k, l.
Qed.

(** A character of a JSON text that is no bracket. *)
Definition json_safe (c : byte) : bool := json_plain c && negb (among [x5b] c).

Lemma json_safe_text l : forallb json_safe l = true -> forallb json_plain l = true /\ x5b ∉ l.
Proof.
  rewrite !forallb_forall. intros Hl. split.
  - intros c Hc. by apply Hl, andb_true_iff in Hc as [? _].
  - intros Hc%list_elem_of_In. by apply Hl in Hc.
Qed.

Lemma hexEncode_safe u l : forallb json_safe (hexEncode u l) = true.
Proof.
  assert (forall d, 0 <= d < 16 -> json_safe (hexDigit u d) = true) as Hd.
  { intros d Hd. apply (Z_range_check (fun d => json_safe (hexDigit u d)) 16); [|done].
    destruct u; vm_compute; reflexivity. }
  unfold hexEncode. induction l as [|b l IH]; [done|]. csimpl. pose proof (byte.unsigned_range b).
  by rewrite !Hd, IH by dlia.
Qed.

Lemma toString_safe u h : Hash_wf h -> forallb json_safe (toString u h) = true.
Proof. intros Hh. rewrite toString_encode by done. apply hexEncode_safe. Qed.

Section json.
Context (write_json : list (list byte * list byte) -> list byte) (write_json_ok : write_json_law write_json).
Context (replace_all : list byte -> list byte -> list byte -> list byte) (replace_ok : replace_law replace_all).
#[local] Set Default Proof Using "All".

(** Replacing the quoted text [[name]] where it is the only text with a bracket in front of
    the rest. *)
Lemma replace_mark a name rest rep :
  x5b ∉ a -> x5b ∉ name -> ~ occurs (quoted (x5b :: name)) rest ->
  replace_all (a ++ quoted (x5b :: name) ++ rest) (quoted (x5b :: name)) rep = a ++ rep ++ rest.
Proof.
  intros Ha Hn Hr. destruct replace_ok as [Hnone Hsome]. rewrite Hsome; [by rewrite Hnone|done|].
  assert (removelast (quoted (x5b :: name)) = [x22] ++ x5b :: name) as ->.
  { unfold quoted. rewrite app_comm_cons, removelast_app by done. by rewrite app_nil_r. }
  intros Hocc. unfold quoted in Hocc. change (x22 :: (x5b :: name) ++ [x22]) with ([x22] ++ x5b :: name ++ [x22]) in Hocc.
  rewrite app_assoc in Hocc. apply occurs_mark in Hocc as (k & l & _ & Hz); [|set_solver..].
  apply (f_equal length) in Hz. rewrite !length_app in Hz. simpl in Hz. lia.
Qed.

(** Two marks, replaced one after the other. *)
Lemma replace_two P1 P2 m1 m2 v1 v2 :
  x5b ∉ P1 -> x5b ∉ P2 -> x5b ∉ m1 -> x5b ∉ m2 -> x5b ∉ v1 ->
  (forall l, m2 ++ [x22; x7d; x0a] <> (m1 ++ [x22]) ++ l) ->
  replace_all (replace_all (P1 ++ quoted (x5b :: m1) ++ P2 ++ quoted (x5b :: m2) ++ [x7d; x0a]) (quoted (x5b :: m1)) v1)
    (quoted (x5b :: m2)) v2 = P1 ++ v1 ++ P2 ++ v2 ++ [x7d; x0a].
Proof.
  intros H1 H2 Hm1 Hm2 Hv Hne. rewrite (replace_mark P1 m1); [|done..|].
  - rewrite !app_assoc, <- (app_assoc _ (quoted _)). rewrite (replace_mark _ m2); [by rewrite !app_assoc| |done|].
    + rewrite !elem_of_app. tauto.
    + intros (k & l & Heq). assert (x5b ∈ [x7d; x0a]) as Hx; [|revert Hx; apply (bool_decide_unpack _); vm_compute; exact I].
      rewrite Heq. unfold quoted. set_solver.
  - intros Hocc. unfold quoted in Hocc.
    replace (P2 ++ (x22 :: (x5b :: m2) ++ [x22]) ++ [x7d; x0a]) with ((P2 ++ [x22]) ++ x5b :: m2 ++ [x22; x7d; x0a]) in Hocc
      by (cbn [app]; by rewrite <- !app_assoc).
    change (x22 :: (x5b :: m1) ++ [x22]) with ([x22] ++ x5b :: m1 ++ [x22]) in Hocc.
    apply occurs_mark in Hocc as (k & l & _ & Hz); [by apply (Hne l)|set_solver| |].
    + rewrite elem_of_app. intros [?|Hin]; [done|]. revert Hin. apply (bool_decide_unpack _). vm_compute. exact I.
    + rewrite elem_of_app. intros [?|Hin]; [done|]. revert Hin. apply (bool_decide_unpack _). vm_compute. exact I.
Qed.

Ltac no_bracket := apply (bool_decide_unpack _); vm_compute; exact I.

Lemma lookup_json_text h found duration :
  forallb json_plain h = true -> x5b ∉ h -> x5b ∉ found ->
  lookup_json write_json replace_all h found duration =
  json_object [(bs "hash", quoted h); (bs "found", found); (bs "lookup-time-ms", duration)].
Proof.
  intros Hh Hb Hf. unfold lookup_json. rewrite write_json_ok; [|done|no_bracket|].
  2: { repeat constructor. cbn [fst snd]. by rewrite Hh. }
  set (P1 := x7b :: quoted (bs "hash") ++ x3a :: quoted h ++ x2c :: quoted (bs "found") ++ [x3a]).
  set (P2 := x2c :: quoted (bs "lookup-time-ms") ++ [x3a]).
  assert (forall f d, json_object [(bs "hash", quoted h); (bs "found", f); (bs "lookup-time-ms", d)] =
    P1 ++ f ++ P2 ++ d ++ [x7d; x0a]) as Hobj.
  { intros f d. unfold P1, P2, json_object, quoted. cbn. repeat (rewrite <- app_assoc; cbn [app]). done. }
  cbn [fmap list_fmap fst snd]. rewrite !Hobj.
  apply (replace_two P1 P2 (bs "found]") (bs "lookup-time-ms]")); [|no_bracket..|done|by intros [|? ?]].
  unfold P1, quoted. cbn. rewrite !not_elem_of_cons, !not_elem_of_app, !not_elem_of_cons.
  split_and!; try discriminate; try done; apply not_elem_of_nil.
Qed.

Lemma info_json_text size last_updated : x5b ∉ size ->
  info_json write_json replace_all size last_updated =
  json_object [(bs "count", size); (bs "last-update", last_updated)].
Proof.
  intros Hs. unfold info_json. rewrite write_json_ok; [|done|no_bracket|by repeat constructor].
  set (P1 := x7b :: quoted (bs "count") ++ [x3a]). set (P2 := x2c :: quoted (bs "last-update") ++ [x3a]).
  assert (forall f d, json_object [(bs "count", f); (bs "last-update", d)] = P1 ++ f ++ P2 ++ d ++ [x7d; x0a]) as Hobj.
  { intros f d. unfold P1, P2, json_object, quoted. cbn. repeat (rewrite <- app_assoc; cbn [app]). done. }
  cbn [fmap list_fmap fst snd]. rewrite !Hobj.
  apply (replace_two P1 P2 (bs "count]") (bs "last-update]")); [no_bracket..|done|by intros [|? ?]].
Qed.
End json.

(** ** The inspector implements the interface *)

Lemma binsearch_size fuel i h q n i' : binsearch fuel i h = Some (q, n, i') -> mFileSize i' = mFileSize i.
Proof.
  unfold binsearch. intros Hb. repeat case_match; by simplify_eq.
Qed.

#[export] Program Instance plain_inspector : LookupService Inspector := {|
  svc_lookup := inspector_lookup 0;
  svc_size := Inspector.size;
  svc_serves recs i := lookup_file recs /\ opened recs i;
  svc_domain recs h := exists p, p ∈ recs /\ hval h <= hval (hash p) |}.
Next Obligation.
  intros recs h i [Hf Hi] Hh (p & Hp & Hle). unfold inspector_lookup.
  destruct (binsearch_opened recs 0 i h Hf Hi Hh) as (q & n & i' & -> & Ha & _ & Hnext).
  exists q, i'. split; [done|]. split; [done|]. split; [done|]. apply Hnext.
  rewrite Forall_forall. intros Hall. specialize (Hall p Hp). lia.
Qed.
Next Obligation.
  intros recs i [Hf Hi]. unfold Inspector.size. rewrite (op_size _ _ Hi). pose proof (lf_size _ Hf).
  unfold PHC_size in *. rewrite u64_small by lia. dlia.
Qed.

(** With an index of [bits] bits. *)
Program Definition indexed_inspector (bits : Z) (Hbits : 1 <= bits <= 60) : LookupService Inspector := {|
  svc_lookup := inspector_lookup (Z.to_nat (2 ^ bits));
  svc_size := Inspector.size;
  svc_serves recs i := lookup_file recs /\ indexed bits recs i /\ mFileSize i = PHC_size * Z.of_nat (length recs);
  svc_domain recs h := bracketed bits recs h |}.
Next Obligation.
  intros bits Hb recs h i (Hf & Hi & Hs) Hh Hbr. unfold inspector_lookup.
  destruct (indexed_binsearch bits recs i h (Z.to_nat (2 ^ bits)) Hb Hf Hh Hi Hbr) as (q & n & i' & E & Ha & Hi'); [lia|].
  rewrite E. exists q, i'. split; [done|]. split; [done|]. split; [done|]. split; [done|].
  by rewrite (binsearch_size _ _ _ _ _ _ E).
Qed.
Next Obligation.
  intros bits Hb recs i (Hf & Hi & Hs). unfold Inspector.size. rewrite Hs. pose proof (lf_size _ Hf).
  unfold PHC_size in *. rewrite u64_small by lia. dlia.
Qed.

(** ** Properties *)

Section properties.
Context {I : Type} `{LookupService I}.
Context (split : list byte -> byte -> list (list byte)) (split_ok : split_law split).
Context (write_json : list (list byte * list byte) -> list byte) (write_json_ok : write_json_law write_json).
Context (replace_all : list byte -> list byte -> list byte -> list byte) (replace_ok : replace_law replace_all).
Context (base : list byte) (recs : list PHC).
#[local] Set Default Proof Using "All".

Lemma log_request_connected line target (w : Worker I) : connected line w -> exists log,
  log_request line target w = Ok (MkWorker (mSocket w) (mBuffer w) (mParser w) (mReqTimeout w) (mResponse w) (mSerializer w)
    (mBasePath w) (mInspector w) log (mLastUpdated w) (pending w)) /\ (is_Some (mLog w) -> is_Some log).
Proof using Type.
  unfold log_request, connected, remote_endpoint. destruct w as [so ? ? ? ? ? ? ? log ? ?]. cbn.
  intros [->|[-> [l ->]]]; [by exists None|]. destruct log as [log|]; [by eexists|by exists None].
Qed.

Lemma connected_or_throws line (w : Worker I) : connected line w \/ forall target, log_request line target w = Throws (bs "remote_endpoint").
Proof using Type.
  unfold log_request, connected, remote_endpoint. destruct w as [so ? ? ? ? ? ? ? [log|] ? ?]; cbn; [|auto].
  destruct so, line as [line|]; eauto.
Qed.

(** A request is answered, as it should be, and keeps the worker serving. *)
Lemma processRequest_answer req line duration w :
  Serving base recs w -> mResponse w = None -> safe_request split base recs req -> (req_method req = get -> connected line w) ->
  exists w', processRequest split write_json replace_all req line duration w = Ok w' /\ Serving base recs w' /\
    pending w' = PWrite /\ mResponse w' = Some (answer split base recs (mLastUpdated w) req duration) /\
    mLastUpdated w' = mLastUpdated w /\ (is_Some (mLog w) -> is_Some (mLog w')).
Proof.
  intros [Hp Hr Hb Hso Hop Hs] Hno Hsafe Hcon. unfold processRequest, answer. destruct (req_method req); [|by eexists].
  set (u := parseTarget split (req_target req) URI_default).
  assert (forall z, x5b ∉ to_string z) as Hz.
  { intros z. apply to_string_chars; vm_compute; [discriminate|by intros [? ?]]. }
  unfold sendResponse. destruct (log_request_connected line (req_target req) w (Hcon eq_refl)) as (log & -> & Hlog).
  cbn [mbind outcome_bind mBasePath mInspector mLastUpdated]. fold u. rewrite Hb, svc_size_correct with (recs := recs) by done.
  rewrite (info_json_text write_json write_json_ok replace_all replace_ok) by done.
  destruct (Accessors.query u !! bs "hash") as [t|] eqn:Ht.
  2: { rewrite decide_False by (by intros [_ []]). case_decide; by eexists. }
  destruct (decide (Accessors.path u = base ++ bs "/lookup")) as [Hl|Hl].
  2: { rewrite decide_False by tauto. case_decide; by eexists. }
  rewrite decide_True by (split; [done|by eexists]). cbn [default from_option id].
  destruct (svc_correct recs (fromHex t) (mInspector w) Hs (fromHex_wf t) (Hsafe t Ht)) as (q & i' & -> & [Hc _] & Hs').
  cbn [mbind outcome_bind]. eexists. split; [done|]. split; [by split|]. split; [done|]. split; [|by split]. cbn [mResponse send]. unfold expected.
  destruct (json_safe_text (toString false (fromHex t))) as [H1 H2]; [apply toString_safe, fromHex_wf|].
  by rewrite (lookup_json_text write_json write_json_ok replace_all replace_ok), Hc.
Qed.

(** a worker never gets lost: whatever completes, in whatever order the service may, it
    always has exactly one operation under way on its socket, a response exactly while it
    writes, and its inspector still serves the file; or the address of the other side could not
    be logged, and an exception left the handler. *)
Theorem worker_serving es w : Serving base recs w -> Forall (safe_event split base recs) es ->
  match run split write_json replace_all es w with
  | Some (Ok w') => Serving base recs w'
  | Some (Throws m) => m = bs "remote_endpoint"
  | Some _ => False
  | None => True
  end.
Proof.
  intros Hw Hes. revert w Hw. induction Hes as [|e es He Hes IH]; intros w Hw; [done|]. cbn [run].
  enough (match handle split write_json replace_all e w with
    | Some (Ok w') => Serving base recs w' | Some (Throws m) => m = bs "remote_endpoint" | Some _ => False | None => True end) as Hstep.
  { destruct (handle _ _ _ e w) as [[w'| | |]|]; try done. by apply IH. }
  pose proof Hw as [Hp Hr Hb Hso Hop Hs]. destruct e as [ok now|req rest line duration| |now]; cbn [handle].
  - destruct (pending w) eqn:E; try done. destruct ok; by split.
  - destruct (pending w) eqn:E; try done. destruct Hr as [Hr Hser]. destruct req as [req|]; [|by split].
    set (w0 := MkWorker _ _ _ _ _ _ _ _ _ _ _). assert (Serving base recs w0) as Hw0 by (split; cbn; rewrite ?E; try done; by apply Hop).
    destruct (connected_or_throws line w0) as [Hc|Ht].
    + by destruct (processRequest_answer req line duration w0 Hw0 Hr He (fun _ => Hc)) as (w' & -> & Hw' & _).
    + unfold processRequest. destruct (req_method req); [unfold sendResponse; by rewrite Ht|]. destruct Hw0. by split.
  - destruct (pending w) eqn:E; try done.
  - unfold checkTimeout. destruct (match mReqTimeout w with Some t => _ | None => _ end); [|done].
    split; cbn; try done. intros Hpe. split; [done|]. by apply Hso.
Qed.

(** The answer to a request whose target is a lookup. *)
Lemma processRequest_lookup hash_text target line duration w :
  let u := parseTarget split target URI_default in
  Serving base recs w -> mResponse w = None ->
  Accessors.path u = base ++ bs "/lookup" -> Accessors.query u !! bs "hash" = Some hash_text ->
  svc_domain recs (fromHex hash_text) -> connected line w ->
  exists w', processRequest split write_json replace_all (MkRequest get (bs "GET") target) line duration w = Ok w' /\
    mResponse w' = Some (expected recs (fromHex hash_text) duration) /\ pending w' = PWrite /\ Serving base recs w'.
Proof.
  intros u Hw Hno Hpath Hq Hdom Hcon. destruct (processRequest_answer (MkRequest get (bs "GET") target) line duration w)
    as (w' & Hr & Hs & Hpe & Hres & _); [done|done| |done|].
  { intros t Ht. cbn [req_target] in Ht. fold u in Ht. unfold Accessors.query in Hq. by simplify_eq. }
  exists w'. split; [done|]. split; [|done]. rewrite Hres. unfold answer. cbn [req_method req_target]. fold u.
  by rewrite Hq, decide_True.
Qed.

(** A connection whose request is a lookup. *)
Lemma lookup_round hash_text target now line duration w :
  let u := parseTarget split target URI_default in
  Serving base recs w -> pending w = PAccept ->
  Accessors.path u = base ++ bs "/lookup" -> Accessors.query u !! bs "hash" = Some hash_text ->
  svc_domain recs (fromHex hash_text) ->
  exists w', run split write_json replace_all
      [EAccepted true now; ERead (Some (MkRequest get (bs "GET") target)) [] (Some line) duration] w = Some (Ok w') /\
    mResponse w' = Some (expected recs (fromHex hash_text) duration) /\ pending w' = PWrite /\ Serving base recs w'.
Proof.
  intros u [Hp Hr Hb Hso Hop Hs] Hacc Hpa Hq Hdom. rewrite Hacc in Hr. destruct Hr as [Hr Hser].
  cbn [run handle]. rewrite Hacc. cbn [run handle pending readRequest].
  match goal with |- context [processRequest _ _ _ _ _ _ ?x] => set (w0 := x) end.
  assert (Serving base recs w0) as Hw0 by (by split).
  destruct (processRequest_lookup hash_text target (Some line) duration w0) as (w1 & -> & Hres & Hpe & Hsv); try done; [by right|].
  by exists w1.
Qed.

End properties.

(** ** Witnesses *)

(** Functions that do what the laws say. *)
Definition demo_write_json (l : list (list byte * list byte)) : list byte :=
  json_object ((fun e => (fst e, quoted (snd e))) <$> l).

Lemma demo_write_json_law : write_json_law demo_write_json.
Proof. by intros l _ _ _. Qed.

Fixpoint replace_loop (fuel : nat) (s pat rep : list byte) : list byte :=
  match fuel with
  | O => s
  | S fuel =>
      if decide (take (length pat) s = pat) then rep ++ replace_loop fuel (drop (length pat) s) pat rep
      else match s with [] => [] | c :: s => c :: replace_loop fuel s pat rep end
  end.
Definition demo_replace_all (s pat rep : list byte) : list byte := replace_loop (S (length s)) s pat rep.

Lemma replace_loop_fuel pat rep : pat <> [] -> forall f1 f2 s, (length s < f1)%nat -> (length s < f2)%nat ->
  replace_loop f1 s pat rep = replace_loop f2 s pat rep.
Proof.
  intros Hp. assert (0 < length pat)%nat by (destruct pat; [done|simpl; lia]).
  induction f1 as [|f1 IH]; intros [|f2] s H1 H2; try lia. cbn [replace_loop]. case_decide as E.
  - assert (length pat <= length s)%nat by (rewrite <- E, length_take; lia).
    f_equal. apply IH; rewrite length_drop; lia.
  - destruct s; [done|]. f_equal. apply IH; simpl in *; lia.
Qed.

Lemma replace_loop_S fuel s pat rep : replace_loop (S fuel) s pat rep =
  if decide (take (length pat) s = pat) then rep ++ replace_loop fuel (drop (length pat) s) pat rep
  else match s with [] => [] | c :: s => c :: replace_loop fuel s pat rep end.
Proof. done. Qed.

Lemma demo_replace_law : replace_law demo_replace_all.
Proof.
  split.
  - intros s pat rep Hp. unfold demo_replace_all. generalize (S (length s)) as fuel. intros fuel. revert s.
    induction fuel as [|fuel IH]; intros s Hno; cbn [replace_loop]; [done|]. case_decide as E.
    + exfalso. apply Hno. exists [], (drop (length pat) s). cbn. rewrite <- E at 1. by rewrite take_drop.
    + destruct s as [|c s]; [done|]. rewrite IH; [done|]. intros (a & b & ->). apply Hno. by exists (c :: a), b.
  - intros a b pat rep Hp. unfold demo_replace_all. induction a as [|c a IH]; intros Hno.
    + cbn [app]. rewrite (replace_loop_S (length (pat ++ b))), decide_True by by rewrite take_app_length.
      rewrite drop_app_length. f_equal. apply replace_loop_fuel; [done| |lia]. rewrite length_app. destruct pat; [done|simpl; lia].
    + cbn [app length]. rewrite replace_loop_S, decide_False.
      * cbn [app]. f_equal. apply IH. intros (k & l & Hk). apply Hno. exists (c :: k), l. cbn. by rewrite Hk.
      * intros E. apply Hno. exists [], (drop (length pat) ((c :: a) ++ removelast pat)). cbn [app].
        rewrite <- (take_drop (length pat) (c :: a ++ removelast pat)) at 1. f_equal.
        assert (length (removelast pat) = length pat - 1)%nat as Hlen.
        { rewrite removelast_firstn_len, length_take. lia. }
        assert (pat = removelast pat ++ drop (length pat - 1) pat) as Hpat.
        { rewrite removelast_firstn_len, <- Nat.sub_1_r. by rewrite take_drop. }
        assert (forall x y z : list byte, length pat <= length (x ++ y) -> take (length pat) (x ++ y) = take (length pat) (x ++ y ++ z))%nat as Htake.
        { intros x y z Hl. rewrite (app_assoc x y z). by rewrite (take_app_le (x ++ y)). }
        transitivity (take (length pat) ((c :: a) ++ removelast pat ++ (drop (length pat - 1) pat ++ b))).
        { apply (Htake (c :: a)). rewrite length_app, Hlen. simpl. lia. }
        rewrite (app_assoc (removelast pat)), <- Hpat. exact E.
Qed.

Definition demo_worker : Worker Inspector :=
  HttpWorker (bs "/api") (default Inspector_default (PasswordInspector (Some (FileEntry (phc_file demo_recs) true)))) true 0.

Lemma demo_serving : Serving (bs "/api") demo_recs (start 0 demo_worker).
Proof.
  destruct (open_opened demo_recs demo_lookup_file) as (i & Ho & Hi).
  unfold demo_worker. rewrite Ho. split; [done..|]. split; [apply demo_lookup_file|done].
Qed.

Definition demo_text : list byte := bs "00000000000000020000000000005555".

Lemma demo_domain : svc_domain demo_recs (fromHex demo_text).
Proof.
  exists (MkPHC (MkHash 2 0x5555 false) 3000000000). split; [apply list_elem_of_In; simpl; auto|vm_compute; discriminate].
Qed.

(** The worker once it has accepted a connection. *)
Definition demo_accepted : Worker Inspector :=
  match handle split_on demo_write_json demo_replace_all (EAccepted true 5) (start 0 demo_worker) with
  | Some (Ok w) => w | _ => demo_worker end.

Lemma demo_accepted_serving : Serving (bs "/api") demo_recs demo_accepted.
Proof. destruct demo_serving as [_ _ _ _ _ Hs]. by split. Qed.


(** The request arrives while the timer closes the socket, or the other side resets the
    connection: the exception leaves the handler. *)
Example closed_connection_throws :
  run split_on demo_write_json demo_replace_all
    [EAccepted true 5; ETimer 70; ERead (Some (MkRequest get (bs "GET") (bs "/api/info"))) [] (Some (bs "now")) []] (start 0 demo_worker) =
    Some (Throws (bs "remote_endpoint")) /\
  run split_on demo_write_json demo_replace_all
    [EAccepted true 5; ERead (Some (MkRequest get (bs "GET") (bs "/api/info"))) [] None []] (start 0 demo_worker) =
    Some (Throws (bs "remote_endpoint")).
Proof. split; vm_compute; reflexivity. Qed.

Example expected_text :
  res_body (expected demo_recs (fromHex demo_text) (bs "0.01")) =
  x7b :: quoted (bs "hash") ++ x3a :: quoted demo_text ++ x2c :: quoted (bs "found") ++ bs ":3000000000," ++
    quoted (bs "lookup-time-ms") ++ bs ":0.01" ++ [x7d; x0a].
Proof. vm_compute. reflexivity. Qed.

Lemma worker_serving_witness :
  match run split_on demo_write_json demo_replace_all
    [EAccepted true 5; ERead (Some (MkRequest other_verb (bs "PUT") [])) [] None []; ETimer 70; EWritten] (start 0 demo_worker) with
  | Some (Ok w') => Serving (bs "/api") demo_recs w'
  | Some (Throws m) => m = bs "remote_endpoint"
  | Some _ => False
  | None => True
  end.
Proof.
  apply (worker_serving split_on split_on_law demo_write_json demo_write_json_law demo_replace_all demo_replace_law (bs "/api") demo_recs).
  - exact demo_serving.
  - repeat constructor. cbn. intros t Ht. vm_compute in Ht. discriminate Ht.
Defined.
