(* ===== verification/LookupCli.v ===== *)
(** * pwned-lookup-cli/pwned-lookup-cli.cpp: looking passwords up at a terminal

    [main] opens an inspector and then asks for passwords forever.  The inspector is used
    through [LookupService], so what is proved holds with and without an index. *)

From S2P Require Import Prelude Decimal Stream Util Hash Phc Inspector Index Regex Uri Server.
From stdpp Require Import options.

(** ** [std::cin >> word] *)

Definition isspace (c : byte) : bool :=
  (byte.unsigned c =? 32) || ((9 <=? byte.unsigned c) && (byte.unsigned c <=? 13)).

Fixpoint skip_ws (l : list byte) : list byte :=
  match l with [] => [] | c :: l' => if isspace c then skip_ws l' else l end.
Fixpoint word (l : list byte) : list byte :=
  match l with [] => [] | c :: l' => if isspace c then [] else c :: word l' end.

(** The string keeps its value when there is no word; the end of the input sets [eofbit], and
    [failbit] too when there was no word. *)
Definition read_word (s : istream) (w : list byte) : list byte * istream :=
  if good s then
    match skip_ws (rest s) with
    | [] => (w, IStream (sopen s) (src s) (Z.of_nat (length (src s))) true true false)
    | r =>
        let t := word r in
        let after := drop (length t) r in
        (t, IStream (sopen s) (src s) (Z.of_nat (length (src s) - length after)) (bool_decide (after = [])) false false)
    end
  else (w, IStream (sopen s) (src s) (spos s) (eofbit s) true (badbit s)).

(** The words of a text. *)
Fixpoint words (t : list byte) : list (list byte) :=
  match t with
  | [] => []
  | c :: t =>
      if isspace c then words t
      else match t with
           | d :: _ => if isspace d then [c] :: words t
                       else match words t with w :: ws => (c :: w) :: ws | [] => [[c]] end
           | [] => [[c]]
           end
  end.

(** ** [main] *)

Section lookup_cli.
Context {I : Type} `{LookupService I}.
Context (MD5 : list byte -> list byte) (ECHO : Z).

(** The terminal flags, the input and the inspector. *)
Record Terminal := MkTerminal { c_lflag : Z; cin : istream; inspector : I }.

(** What is printed about one password, without the time it took. *)
Definition report (hash : Hash) (phc : PHC) : list (list byte) :=
  [bs "MD5 hash " ++ write_hash hash;
   if 0 <? count phc then bs "Found " ++ to_string (count phc) ++ bs " times." else bs "Not found."].

(** The body of [for (;;)]. *)
Definition ask (t : Terminal) : outcome (list (list byte) * Terminal) :=
  let flags := setStdinEcho ECHO false (c_lflag t) in
  let '(pwd, cin) := read_word (cin t) [] in
  let flags := setStdinEcho ECHO true flags in
  let soughtHash := Hash_of_string MD5 pwd in
  '(phc, i) ← svc_lookup soughtHash (inspector t);
  Ok (report soughtHash phc, MkTerminal flags cin i).

(** [n] rounds of it. *)
Fixpoint rounds (n : nat) (t : Terminal) : outcome (list (list (list byte)) * Terminal) :=
  match n with
  | O => Ok ([], t)
  | S n =>
      '(out, t) ← ask t;
      '(outs, t) ← rounds n t;
      Ok (out :: outs, t)
  end.
End lookup_cli.
Arguments Terminal : clear implicits.

(** [main] with an input file: it gives up only when no input file is named. *)
Definition lookup_main {I : Type} (open : list byte -> list byte -> outcome I) (inputFilename indexFilename : list byte)
    (flags : Z) (stdin : istream) : outcome (option (Terminal I)) :=
  if decide (inputFilename = []) then Ok None
  else i ← open inputFilename indexFilename; Ok (Some (MkTerminal flags stdin i)).

(** ** Lemmas: words *)

Lemma words_word t : words t = match skip_ws t with [] => [] | r => word r :: words (drop (length (word r)) r) end.
Proof.
  induction t as [|c t IH]; [done|]. cbn [words skip_ws]. destruct (isspace c) eqn:Hc; [done|].
  cbn [word length drop]. rewrite Hc. cbn [length drop]. destruct t as [|d t]; [done|].
  cbn [word]. destruct (isspace d) eqn:Hd; [done|]. rewrite IH. cbn [skip_ws]. rewrite Hd. cbn [word]. by rewrite Hd.
Qed.

(** A stream with these words left. *)
Definition has_words (f : istream) (ws : list (list byte)) : Prop :=
  if good f then 0 <= spos f <= Z.of_nat (length (src f)) /\ words (rest f) = ws else ws = [].

Lemma skip_ws_suffix l : exists k, l = k ++ skip_ws l.
Proof.
  induction l as [|c l [k IH]]; [by exists []|]. cbn [skip_ws]. destruct (isspace c); [|by exists []].
  exists (c :: k). cbn. by rewrite <- IH.
Qed.

Lemma word_prefix l : l = word l ++ drop (length (word l)) l.
Proof. induction l as [|c l IH]; [done|]. cbn [word]. destruct (isspace c); [done|]. cbn. by rewrite <- IH. Qed.

Lemma read_word_next f ws : has_words f ws ->
  exists f', read_word f [] = (default [] (head ws), f') /\ has_words f' (tail ws).
Proof.
  unfold has_words, read_word. destruct (good f) eqn:Hg.
  - intros [Hp <-]. rewrite words_word. destruct (skip_ws_suffix (rest f)) as [k Hk].
    destruct (skip_ws (rest f)) as [|c r] eqn:Hr; [by eexists|].
    eexists. split; [done|]. set (w := word (c :: r)). pose proof (word_prefix (c :: r)) as Hw. fold w in Hw.
    set (after := drop (length w) (c :: r)) in *. unfold good. cbn [eofbit failbit badbit orb spos src tail].
    fold w. fold after.
    destruct (bool_decide_reflect (after = [])) as [->|Hne]; [done|]. cbn [negb].
    assert (src f = take (Z.to_nat (spos f)) (src f) ++ k ++ w ++ after) as Hsrc.
    { rewrite <- Hw, <- Hk. unfold rest. by rewrite take_drop. }
    split; [lia|]. unfold rest. cbn [spos src]. rewrite Nat2Z.id. f_equal. rewrite Hsrc at 2.
    rewrite !app_assoc. apply drop_app_exact. rewrite Hsrc at 2. rewrite !length_app. lia.
  - intros ->. exists (IStream (sopen f) (src f) (spos f) (eofbit f) true (badbit f)). split; [done|].
    unfold good. simpl. by rewrite orb_true_r.
Qed.

Lemma open_stream_words t : has_words (open_stream t) (words t).
Proof. unfold has_words. cbn. split; [lia|]. unfold rest. simpl. by rewrite drop_0. Qed.

(** ** Properties *)

Section properties.
Context {I : Type} `{LookupService I}.
Context (MD5 : list byte -> list byte) (ECHO : Z).
#[local] Set Default Proof Using "All".

(** What the report on a password should be. *)
Definition report_ok (recs : list PHC) (pwd : list byte) (out : list (list byte)) : Prop :=
  let n := count_of recs (hval (Hash_of_string MD5 pwd)) in
  out = [bs "MD5 hash " ++ write_hash (Hash_of_string MD5 pwd);
         if 0 <? n then bs "Found " ++ to_string n ++ bs " times." else bs "Not found."].

Lemma ask_ok recs ws t :
  svc_serves recs (inspector t) -> has_words (cin t) ws ->
  svc_domain recs (Hash_of_string MD5 (default [] (head ws))) ->
  exists out t', ask MD5 ECHO t = Ok (out, t') /\ report_ok recs (default [] (head ws)) out /\
    svc_serves recs (inspector t') /\ has_words (cin t') (tail ws) /\
    c_lflag t' = setStdinEcho ECHO true (setStdinEcho ECHO false (c_lflag t)).
Proof.
  intros Hs Hw Hd. unfold ask. destruct (read_word_next _ _ Hw) as (f' & -> & Hw').
  destruct (svc_correct recs _ (inspector t) Hs (Hash_of_string_wf MD5 _) Hd) as (q & i' & -> & [Hc _] & Hs').
  cbn [mbind outcome_bind]. do 2 eexists. split; [done|]. split; [|done]. unfold report_ok, report. by rewrite Hc.
Qed.

(** C21: over a service that serves a file (an inspector of it does), and as long as the hashes of
    all words, and of the empty password, are in its domain (for an inspector without index:
    not above the last record; one word above it makes all later answers wrong, see
    [Inspector.lookup_beyond_poisons]), every round answers the next word of the input with
    the number of times it is in the file; when the words are used up the loop goes on, and
    answers the empty password again and again. *)
Theorem lookup_cli_answers recs n ws t :
  svc_serves recs (inspector t) -> has_words (cin t) ws ->
  Forall (fun w => svc_domain recs (Hash_of_string MD5 w)) ([] :: ws) ->
  exists outs t', rounds MD5 ECHO n t = Ok (outs, t') /\ length outs = n /\
    forall k out, outs !! k = Some out -> report_ok recs (default [] (ws !! k)) out.
Proof.
  revert ws t. induction n as [|n IH]; intros ws t Hs Hw Hd; cbn [rounds]; [by do 2 eexists|].
  apply Forall_cons in Hd as [Hnil Hd].
  destruct (ask_ok recs ws t Hs Hw) as (out & t1 & -> & Hout & Hs1 & Hw1 & _); [by destruct Hd|].
  cbn [mbind outcome_bind].
  destruct (IH (tail ws) t1 Hs1 Hw1) as (outs & t2 & -> & Hlen & Houts); [constructor; [done|by destruct Hd]|].
  cbn [mbind outcome_bind]. do 2 eexists. split; [done|]. split; [by simpl; rewrite Hlen|].
  intros [|k] o Ho; cbn in Ho; [injection Ho as <-; by destruct ws|].
  specialize (Houts k o Ho). by destruct ws.
Qed.
End properties.

(** ** Witnesses *)

(** A stand-in for MD5: the password itself, padded. *)
Definition demo_MD5 (l : list byte) : list byte := take 16 (l ++ replicate 16 x00).

Definition demo_db : list PHC :=
  [MkPHC (MkHash 0 0 false) 7; MkPHC (MkHash 0x6162630000000000 0 false) 3; MkPHC (MkHash 0x6364000000000000 0 false) 9].

Lemma demo_db_file : lookup_file demo_db.
Proof.
  split; [|unfold hash_lt|simpl; unfold PHC_size; lia].
  - repeat constructor; simpl; lia.
  - repeat constructor; vm_compute; reflexivity.
Qed.

Definition demo_terminal : Terminal Inspector :=
  MkTerminal 0x8a3b (open_stream (bs " abc  xyz cd"))
    (default Inspector_default (PasswordInspector (Some (FileEntry (phc_file demo_db) true)))).

(** Answers to two words and to two rounds after the end of the input. *)
Lemma lookup_cli_answers_witness :
  exists outs t', rounds demo_MD5 8 4 (MkTerminal (c_lflag demo_terminal) (open_stream (bs " abc  cd")) (inspector demo_terminal)) = Ok (outs, t') /\
    length outs = 4%nat /\
    forall k out, outs !! k = Some out -> report_ok demo_MD5 demo_db (default [] ([bs "abc"; bs "cd"] !! k)) out.
Proof.
  destruct (open_opened demo_db demo_db_file) as (i & Ho & Hi).
  apply (lookup_cli_answers demo_MD5 8 demo_db 4 [bs "abc"; bs "cd"]).
  - unfold demo_terminal. cbn [inspector]. rewrite Ho. split; [apply demo_db_file|exact Hi].
  - apply (open_stream_words (bs " abc  cd")).
  - repeat constructor; (exists (MkPHC (MkHash 0x6364000000000000 0 false) 9); split;
      [apply list_elem_of_In; simpl; auto|vm_compute; discriminate]).
Defined.

Example lookup_cli_output :
  match rounds demo_MD5 8 4 demo_terminal with
  | Ok (outs, _) => (fun o => o !! 1%nat) <$> outs
  | _ => []
  end = [Some (bs "Found 3 times."); Some (bs "Not found."); Some (bs "Not found."); Some (bs "Not found.")].
Proof. vm_compute. reflexivity. Qed.
