(* ===== verification/Random.v ===== *)
(** * [std::mt19937_64]

    The 64-bit Mersenne twister of the standard library, which the test set extractor and the
    load test draw from: the state is the window of the last 312 words of the recurrence, as
    the C++ standard describes the engine. *)

From S2P Require Import Prelude.
From stdpp Require Import options.

(** The words of the recurrence that come next depend on. *)
Definition mt_state : Type := list Z.

Definition mt_n : nat := 312.
Definition mt_m : nat := 156.
Definition mt_r : Z := 31.
Definition mt_a : Z := 0xb5026f5aa96619e9.
Definition mt_f : Z := 6364136223846793005.

(** The seeding of the engine with a value. *)
Fixpoint mt_seed_words (k : nat) (i prev : Z) : mt_state :=
  match k with
  | O => []
  | S k =>
      let x := u64 (mt_f * Z.lxor prev (Z.shiftr prev 62) + i) in
      x :: mt_seed_words k (i + 1) x
  end.
Definition mt_seed (value : Z) : mt_state := u64 value :: mt_seed_words (mt_n - 1) 1 (u64 value).

(** The tempering of a word. *)
Definition mt_temper (x : Z) : Z :=
  let z := Z.lxor x (Z.land (Z.shiftr x 29) 0x5555555555555555) in
  let z := Z.lxor z (Z.land (Z.shiftl z 17) 0x71d67fffeda60000) in
  let z := Z.lxor z (Z.land (Z.shiftl z 37) 0xfff7eee000000000) in
  Z.lxor z (Z.shiftr z 43).

(** [gen()]: the next number and the state. *)
Definition mt_next (s : mt_state) : Z * mt_state :=
  let x0 := default 0 (s !! 0%nat) in
  let x1 := default 0 (s !! 1%nat) in
  let xm := default 0 (s !! mt_m) in
  let y := Z.lor (Z.land x0 (Z.shiftl (Z.ones (64 - mt_r)) mt_r)) (Z.land x1 (Z.ones mt_r)) in
  let x := Z.lxor (Z.lxor xm (Z.shiftr y 1)) (if Z.odd y then mt_a else 0) in
  (mt_temper x, drop 1 s ++ [x]).

(** The first numbers the engine gives with its default seed. *)
Fixpoint mt_take (k : nat) (s : mt_state) : list Z :=
  match k with O => [] | S k => let '(x, s) := mt_next s in x :: mt_take k s end.
Example mt_default_seed :
  mt_take 3 (mt_seed 5489) = [14514284786278117030; 4620546740167642908; 13109570281517897720].
Proof. vm_compute. reflexivity. Qed.

(** ** Lemmas: the numbers are of 64 bits *)

Lemma u64_log2 z : in_u64 z <-> 0 <= z /\ Z.log2 z < 64.
Proof.
  split; intros [H0 H].
  - split; [done|]. destruct (decide (z = 0)) as [->|]; [done|]. apply Z.log2_lt_pow2; lia.
  - split; [done|]. destruct (decide (z = 0)) as [->|]; [lia|]. apply Z.log2_lt_pow2; lia.
Qed.

Lemma lxor_u64 a b : in_u64 a -> in_u64 b -> in_u64 (Z.lxor a b).
Proof.
  rewrite !u64_log2. intros [Ha Hla] [Hb Hlb]. pose proof (Z.log2_lxor a b Ha Hb).
  split; [by apply Z.lxor_nonneg|lia].
Qed.

Lemma land_u64 a b : 0 <= a -> in_u64 b -> in_u64 (Z.land a b).
Proof.
  rewrite !u64_log2. intros Ha [Hb Hlb]. pose proof (Z.log2_land a b Ha Hb).
  split; [apply Z.land_nonneg; lia|lia].
Qed.

Lemma lor_u64 a b : in_u64 a -> in_u64 b -> in_u64 (Z.lor a b).
Proof.
  rewrite !u64_log2. intros [Ha Hla] [Hb Hlb]. rewrite Z.log2_lor by done.
  split; [by apply Z.lor_nonneg|lia].
Qed.

Lemma shiftr_u64 a n : 0 <= n -> in_u64 a -> in_u64 (Z.shiftr a n).
Proof.
  intros Hn [H0 H]. split; [by apply Z.shiftr_nonneg|]. rewrite Z.shiftr_div_pow2 by done.
  assert (0 < 2 ^ n) by (apply Z.pow_pos_nonneg; lia).
  apply Z.div_lt_upper_bound; nia.
Qed.

#[export] Hint Resolve lxor_u64 land_u64 lor_u64 : pwned.

Lemma mt_temper_u64 x : in_u64 x -> in_u64 (mt_temper x).
Proof.
  intros Hx. unfold mt_temper. cbv zeta.
  set (z1 := Z.lxor x _). assert (in_u64 z1) as H1.
  { apply lxor_u64; [done|]. apply land_u64; [apply Z.shiftr_nonneg; lia|lia]. }
  set (z2 := Z.lxor z1 _). assert (in_u64 z2) as H2.
  { apply lxor_u64; [done|]. apply land_u64; [apply Z.shiftl_nonneg; lia|lia]. }
  set (z3 := Z.lxor z2 _). assert (in_u64 z3) as H3.
  { apply lxor_u64; [done|]. apply land_u64; [apply Z.shiftl_nonneg; lia|lia]. }
  apply lxor_u64; [done|]. by apply shiftr_u64.
Qed.

(** A state all of whose words have 64 bits. *)
Definition mt_wf (s : mt_state) : Prop := Forall (fun x => in_u64 x) s.

Lemma mt_seed_wf value : mt_wf (mt_seed value).
Proof.
  unfold mt_seed, mt_wf. constructor; [apply u64_range|]. generalize (u64 value) at 1, 1%Z, (mt_n - 1)%nat.
  intros prev i k. revert prev i. induction k as [|k IH]; intros prev i; cbn [mt_seed_words]; constructor; [apply u64_range|apply IH].
Qed.

Lemma mt_next_wf s : mt_wf s -> in_u64 (fst (mt_next s)) /\ mt_wf (snd (mt_next s)).
Proof.
  intros Hs. assert (forall k, in_u64 (default 0 (s !! k))) as Hk.
  { intros k. destruct (s !! k) as [x|] eqn:E; [|simpl; lia]. unfold mt_wf in Hs. rewrite Forall_lookup in Hs. by apply (Hs k). }
  unfold mt_next. cbv zeta. cbn [fst snd]. set (y := Z.lor _ _).
  assert (in_u64 y) as Hy.
  { unfold y. apply lor_u64; apply land_u64; try apply Hk; unfold mt_r; [|]; vm_compute; split; congruence. }
  set (x := Z.lxor _ _). assert (in_u64 x) as Hx.
  { apply lxor_u64; [apply lxor_u64; [apply Hk|by apply shiftr_u64]|]. destruct (Z.odd y); unfold mt_a; lia. }
  split; [by apply mt_temper_u64|]. apply Forall_app_2; [by apply Forall_drop|by constructor].
Qed.
