(* ===== verification/TestSet.v ===== *)
(** * extras/pwned-test-set-extractor: hashes for tests

    The extractor writes hashes of a sorted file, evenly spaced, or random hashes the file does
    not hold, as records or as the URLs of requests.  The two names are of different files. *)

From S2P Require Import Prelude Stream Util Hash Phc Inspector Random.
From stdpp Require Import options.

Record Options := MkOptions {
  help : bool; opt_warranty : bool; opt_license : bool;
  inputFilename : list byte; outputFilename : list byte; testUrlPrefix : list byte;
  writeLoadTestUrls : bool; N : Z; onlyNonExistent : bool }.

Definition DefaultN : Z := 20000.
Definition DefaultURI : list byte := bs "http://127.0.0.1:31337/v1/pwned/api/lookup?hash=".

Inductive Exit :=
  | Usage | Warranty | License   (** printed, successful *)
  | NoInput | NoOutput           (** errors *)
  | Done (out : list byte).      (** the bytes written *)

(** What one hash adds to the output. *)
Definition emit (o : Options) (p : PHC) : list byte :=
  if writeLoadTestUrls o then testUrlPrefix o ++ toString false (hash p) ++ [x0a] else dump p.

(** The two arguments of [Hash(gen(), gen())] are evaluated in an order the language leaves
    open. *)
Definition draw_hash (first_is_upper : bool) (gen : mt_state) : Hash * mt_state :=
  let '(a, gen) := mt_next gen in
  let '(b, gen) := mt_next gen in
  (if first_is_upper then Hash_of_quads a b else Hash_of_quads b a, gen).

(** [for (auto i = 0; i < N; ++i)] over drawn hashes; [k] is what is left of [N - i]. *)
Fixpoint nonexistent_loop (fuel : nat) (first_is_upper : bool) (o : Options) (k : nat) (gen : mt_state)
    (inspector : Inspector) : outcome (list byte) :=
  match k with
  | O => Ok []
  | S k =>
      let '(h, gen) := draw_hash first_is_upper gen in
      match binsearch fuel inspector h with
      | None => OutOfFuel
      | Some (p, _, inspector) =>
          let written := if count p =? 0 then emit o (MkPHC h (count p)) else [] in
          out ← nonexistent_loop fuel first_is_upper o k gen inspector;
          Ok (written ++ out)
      end
  end.

(** [for (pos = 0; pos < size && i < N; pos += offset)] over the records. *)
Fixpoint existent_loop (fuel : nat) (o : Options) (size offset : Z) (f : istream) (phc : PHC) (pos i : Z)
    : outcome (list byte) :=
  match fuel with
  | O => OutOfFuel
  | S fuel =>
      if (pos <? size) && (i <? N o) then
        let idx := pos - Z.rem pos PHC_size in
        let '(ok, phc, f) := PHC_read_at phc f idx in
        if ok then
          out ← existent_loop fuel o size offset f phc (pos + offset) (i + 1);
          Ok (emit o phc ++ out)
        else existent_loop fuel o size offset f phc (pos + offset) i
      else Ok []
  end.

(** [main] after the options are parsed.  [files] gives the file a name stands for: a missing
    one makes [file_size] throw; a division by zero is undefined. *)
Definition test_set_main (fuel : nat) (first_is_upper : bool) (files : list byte -> option file_entry)
    (writable : list byte -> bool) (o : Options) : outcome Exit :=
  if help o then Ok Usage
  else if opt_warranty o then Ok Warranty
  else if opt_license o then Ok License
  else if decide (inputFilename o = [] \/ outputFilename o = []) then Ok Usage
  else
    match files (inputFilename o) with
    | None => Throws (bs "file_size")
    | Some e =>
        let size := i64 (Z.of_nat (length (fbytes e))) in
        if N o =? 0 then Undefined
        else
          let offset := Z.quot size (N o) in
          let '(is_open, f) := fopen e in
          if negb is_open then Ok NoInput
          else if negb (writable (outputFilename o)) then Ok NoOutput
          else if onlyNonExistent o then
            match PasswordInspector (Some e) with
            | None => Throws (bs "file_size")
            | Some inspector =>
                Done <$> nonexistent_loop fuel first_is_upper o (Z.to_nat (N o)) (mt_seed 31337) inspector
            end
          else Done <$> existent_loop fuel o size offset f PHC_default 0 0
    end.

(** ** What should be written *)

(** The hashes drawn. *)
Fixpoint drawn (first_is_upper : bool) (k : nat) (gen : mt_state) : list Hash :=
  match k with
  | O => []
  | S k => let '(h, gen) := draw_hash first_is_upper gen in h :: drawn first_is_upper k gen
  end.

(** The record under the byte at [j * offset]. *)
Definition picked (recs : list PHC) (offset : Z) (j : Z) : option PHC := recs !! Z.to_nat (j * offset / PHC_size).

(** Options that lead to the extraction. *)
Definition extracts (o : Options) : Prop :=
  help o = false /\ opt_warranty o = false /\ opt_license o = false /\ inputFilename o <> [] /\ outputFilename o <> [].

(** ** Lemmas *)

Lemma draw_hash_wf b gen : mt_wf gen -> Hash_wf (fst (draw_hash b gen)) /\ mt_wf (snd (draw_hash b gen)).
Proof.
  intros Hg. unfold draw_hash. pose proof (mt_next_wf gen Hg) as [Ha Hg1]. destruct (mt_next gen) as [a g1].
  pose proof (mt_next_wf g1 Hg1) as [Hb Hg2]. destruct (mt_next g1) as [c g2]. by destruct b.
Qed.

Lemma drawn_wf b k gen : mt_wf gen -> Forall Hash_wf (drawn b k gen).
Proof.
  revert gen. induction k as [|k IH]; intros gen Hg; cbn [drawn]; [done|].
  pose proof (draw_hash_wf b gen Hg) as [Hh Hg']. destruct (draw_hash b gen) as [h g]. by constructor; [|apply IH].
Qed.

Lemma emit_read_into o q p : emit o (read_into q p) = emit o p.
Proof. done. Qed.

Lemma nonexistent_loop_spec fuel b o recs k gen i :
  lookup_file recs -> opened recs i -> mt_wf gen ->
  Forall (fun h => exists p, p ∈ recs /\ hval h <= hval (hash p)) (drawn b k gen) ->
  nonexistent_loop fuel b o k gen i =
    Ok (concat ((fun h => emit o (MkPHC h 0)) <$> filter (fun h => count_of recs (hval h) = 0) (drawn b k gen))).
Proof.
  intros Hf. revert gen i. induction k as [|k IH]; intros gen i Hi Hg Hbelow; [done|].
  cbn [nonexistent_loop drawn] in *. pose proof (draw_hash_wf b gen Hg) as [Hh Hg'].
  destruct (draw_hash b gen) as [h g]. cbn [fst snd] in *. apply Forall_cons in Hbelow as [(p & Hp & Hle) Hbelow].
  destruct (binsearch_opened recs fuel i h Hf Hi Hh) as (q & n & i' & -> & [Hc _] & _ & Hnext).
  rewrite (IH g i'); [|apply Hnext; rewrite Forall_forall; intros Hall; specialize (Hall p Hp); lia|done|done].
  cbn [mbind outcome_bind]. rewrite Hc, filter_cons. destruct (Z.eqb_spec (count_of recs (hval h)) 0) as [E|E].
  - rewrite decide_True by done. by rewrite E.
  - by rewrite decide_False.
Qed.

(** While fewer than [N] records are written, the position is inside the file. *)
Lemma existent_pos size n j : 0 <= size -> 0 < n -> 0 <= j < n -> 0 < size -> 0 <= j * Z.quot size n < size.
Proof. intros Hs Hn Hj Hp. rewrite Z.quot_div_nonneg by lia. pose proof (Z.mul_div_le size n Hn).
  assert (0 <= size / n) by (apply Z.div_pos; lia). destruct (decide (size / n = 0)); nia. Qed.

Lemma existent_loop_spec recs o k j fuel f q :
  let size := PHC_size * Z.of_nat (length recs) in
  let offset := Z.quot size (N o) in
  Forall PHC_wf recs -> recs <> [] -> readable recs f -> Hash_wf (hash q) ->
  0 <= j -> j + Z.of_nat k = N o -> 0 < N o -> (k < fuel)%nat ->
  exists l, existent_loop fuel o size offset f q (j * offset) j = Ok (concat (emit o <$> l)) /\
    length l = k /\ forall m, (m < k)%nat -> l !! m = picked recs offset (j + Z.of_nat m).
Proof.
  intros size offset Hwf Hne. assert (0 < size) as Hsize.
  { unfold size, PHC_size. destruct recs; [done|]. simpl. lia. }
  revert j fuel f q. induction k as [|k IH]; intros j fuel f q Hf Hq Hj Hk Hn Hfuel;
    (destruct fuel as [|fuel]; [lia|]); cbn [existent_loop].
  { rewrite (proj2 (Z.ltb_ge j (N o))) by lia. rewrite andb_false_r. exists []. split; [done|]. split; [done|lia]. }
  destruct (existent_pos size (N o) j) as [Hp0 Hp1]; [lia..|]. fold offset in Hp0, Hp1.
  rewrite !(proj2 (Z.ltb_lt _ _)) by lia. cbn [andb]. rewrite Z.rem_mod_nonneg by (done || lia).
  set (m := j * offset / PHC_size). assert (0 <= m /\ m < Z.of_nat (length recs)) as [Hm0 Hm1].
  { unfold m, size, PHC_size in *. split; dlia. }
  replace (j * offset - (j * offset) mod PHC_size) with (PHC_size * Z.of_nat (Z.to_nat m))
    by (unfold m, PHC_size; dlia).
  destruct (recs !! Z.to_nat m) as [p|] eqn:Hp; [|apply lookup_ge_None in Hp; lia].
  rewrite Forall_forall in Hwf. pose proof (Hwf p ltac:(by eapply list_elem_of_lookup_2)) as Hpwf.
  destruct Hf as (pos & Hpos & Hat). unfold PHC_read_at.
  rewrite (PHC_read_ok recs (Z.to_nat m) p q); [|by eapply seekg_good; [|unfold PHC_size; lia]|done|done].
  set (f' := IStream _ _ _ _ _ _). replace (j * offset + offset) with ((j + 1) * offset) by lia.
  destruct (IH (j + 1) fuel f' (read_into q p)) as (l & -> & Hl & Hlk).
  - exists (PHC_size * Z.of_nat (S (Z.to_nat m))). split; [unfold PHC_size; lia|done].
  - apply Hpwf.
  - lia.
  - lia.
  - done.
  - lia.
  - exists (p :: l). split; [done|]. split; [simpl; lia|]. intros [|i] Hi; cbn [lookup list_lookup].
    + rewrite Z.add_0_r. symmetry. exact Hp.
    + rewrite Hlk by lia. f_equal. lia.
Qed.

(** Positions at least a record apart are in different records, in their order. *)
Lemma picked_sorted recs offset l :
  lookup_file recs -> PHC_size <= offset ->
  (forall m, (m < length l)%nat -> l !! m = picked recs offset (Z.of_nat m)) -> StronglySorted hash_lt l.
Proof.
  intros Hf Ho Hl. apply StronglySorted_by_lookup. intros i j p q Hp Hq Hij.
  pose proof (lookup_lt_Some _ _ _ Hq). pose proof (lookup_lt_Some _ _ _ Hp).
  rewrite Hl in Hp, Hq by lia. unfold picked in Hp, Hq. eapply (StronglySorted_lookup hash_lt recs); [apply Hf|exact Hp|exact Hq|].
  apply Z2Nat.inj_lt; [unfold PHC_size in *; apply Z.div_pos; nia..|].
  pose proof (Z.mul_le_mono_nonneg_r (Z.of_nat i + 1) (Z.of_nat j) offset ltac:(unfold PHC_size in *; lia) ltac:(lia)).
  unfold PHC_size in *. dlia.
Qed.

(** What [main] comes to in the two modes: in the second it writes exactly those of the hashes it
    draws that the file does not count, in the order in which it draws them. *)
Lemma main_existent recs fuel b files writable o :
  lookup_file recs -> extracts o -> onlyNonExistent o = false -> N o <> 0 ->
  files (inputFilename o) = Some (FileEntry (phc_file recs) true) -> writable (outputFilename o) = true ->
  test_set_main fuel b files writable o =
    Done <$> (let size := PHC_size * Z.of_nat (length recs) in
              existent_loop fuel o size (Z.quot size (N o)) (open_stream (phc_file recs)) PHC_default 0 0).
Proof.
  intros Hf (Hh & Hw & Hl & Hi & Ho) Hmode Hn Hfile Hwr. pose proof (lf_size _ Hf) as Hsz.
  unfold test_set_main. rewrite Hh, Hw, Hl. rewrite decide_False by tauto. rewrite Hfile. cbn [fbytes fopen freadable].
  rewrite length_phc_file, i64_small by (unfold PHC_size in *; lia).
  rewrite (proj2 (Z.eqb_neq _ _)) by done. cbn [negb]. by rewrite Hwr, Hmode.
Qed.

Lemma main_nonexistent recs fuel b files writable o :
  let hs := drawn b (Z.to_nat (N o)) (mt_seed 31337) in
  lookup_file recs -> extracts o -> onlyNonExistent o = true -> N o <> 0 ->
  files (inputFilename o) = Some (FileEntry (phc_file recs) true) -> writable (outputFilename o) = true ->
  Forall (fun h => exists p, p ∈ recs /\ hval h <= hval (hash p)) hs ->
  test_set_main fuel b files writable o =
    Ok (Done (concat ((fun h => emit o (MkPHC h 0)) <$> filter (fun h => count_of recs (hval h) = 0) hs))).
Proof.
  intros hs Hf (Hh & Hw & Hl & Hi & Ho) Hmode Hn Hfile Hwr Hbelow.
  unfold test_set_main. rewrite Hh, Hw, Hl. rewrite decide_False by tauto. rewrite Hfile. cbn [fopen freadable].
  rewrite (proj2 (Z.eqb_neq _ _)) by lia. cbn [negb]. rewrite Hwr, Hmode. cbn [negb].
  destruct (open_opened recs Hf) as (i & -> & Hopen).
  by rewrite (nonexistent_loop_spec fuel b o recs) by (done || apply mt_seed_wf).
Qed.

(** ** Properties *)

(** in a file of records, however many, the extractor writes exactly the [N] records it was
    asked for, the [j]-th being the one that holds the byte [j * (size / N)]; as long as there
    are that many records they are different and in order, so the output is itself a file the
    other tools can search. *)
Theorem test_set_existent recs fuel b files writable o :
  lookup_file recs -> recs <> [] -> extracts o -> onlyNonExistent o = false -> 0 < N o -> N o < Z.of_nat fuel ->
  files (inputFilename o) = Some (FileEntry (phc_file recs) true) -> writable (outputFilename o) = true ->
  exists l,
    test_set_main fuel b files writable o = Ok (Done (concat (emit o <$> l))) /\
    Z.of_nat (length l) = N o /\
    (forall j, 0 <= j < N o -> l !! Z.to_nat j = picked recs (PHC_size * Z.of_nat (length recs) / N o) j) /\
    (N o <= Z.of_nat (length recs) -> lookup_file l).
Proof.
  intros Hf Hne Ho Hmode Hn Hfuel Hfile Hwr. pose proof (lf_size _ Hf) as Hsz.
  set (size := PHC_size * Z.of_nat (length recs)). rewrite (main_existent recs) by (done || lia).
  destruct (existent_loop_spec recs o (Z.to_nat (N o)) 0 fuel (open_stream (phc_file recs)) PHC_default)
    as (l & El & Hlen & Hlk); [apply Hf|done|by exists 0|done|lia|lia|lia|lia|]. rewrite Z.mul_0_l in El.
  rewrite Z.quot_div_nonneg in Hlk by (unfold PHC_size; lia).
  assert (forall m, (m < length l)%nat -> l !! m = picked recs (size / N o) (Z.of_nat m)) as Hat.
  { intros m Hm. by rewrite Hlk by lia. }
  exists l. split; [|split; [lia|split]].
  - cbv zeta. by rewrite El.
  - intros j Hj. rewrite Hat by lia. f_equal. lia.
  - intros Hle. split.
    + apply Forall_lookup. intros i p Hp. rewrite Hat in Hp by (by eapply lookup_lt_Some). unfold picked in Hp.
      eapply Forall_lookup_1; [apply Hf|exact Hp].
    + apply (picked_sorted recs (size / N o)); [done| |done]. apply Z.div_le_lower_bound; unfold size, PHC_size; lia.
    + unfold PHC_size in *. lia.
Qed.

Definition demo_test_options (urls nonexistent : bool) (n : Z) : Options :=
  MkOptions false false false (bs "in.md5") (bs "out.md5") DefaultURI urls n nonexistent.

Lemma test_set_existent_witness :
  exists l,
    test_set_main 5 true (fun _ => Some (FileEntry (phc_file demo_recs) true)) (fun _ => true)
      (demo_test_options false false 2) = Ok (Done (concat (emit (demo_test_options false false 2) <$> l))) /\
    Z.of_nat (length l) = 2 /\
    (forall j, 0 <= j < 2 -> l !! Z.to_nat j = picked demo_recs (PHC_size * Z.of_nat (length demo_recs) / 2) j) /\
    (2 <= Z.of_nat (length demo_recs) -> lookup_file l).
Proof.
  apply (test_set_existent demo_recs 5 true (fun _ => Some (FileEntry (phc_file demo_recs) true)) (fun _ => true)
    (demo_test_options false false 2)); [apply demo_lookup_file|discriminate| |reflexivity|reflexivity|reflexivity|reflexivity|reflexivity].
  split_and!; try reflexivity; discriminate.
Defined.

(** A file with a record above every hash that can be drawn. *)
Definition top_recs : list PHC :=
  [MkPHC (MkHash 1 0xaaaa false) 7; MkPHC (MkHash (2 ^ 64 - 1) (2 ^ 64 - 1) false) 1].

Lemma top_lookup_file : lookup_file top_recs.
Proof.
  split; [repeat constructor; simpl; lia| |done].
  repeat constructor; unfold hash_lt, hval; simpl; lia.
Qed.

Lemma top_above hs : Forall Hash_wf hs -> Forall (fun h => exists p, p ∈ top_recs /\ hval h <= hval (hash p)) hs.
Proof.
  intros Hhs. eapply Forall_impl; [exact Hhs|]. intros h [Hu Hl]. exists (MkPHC (MkHash (2 ^ 64 - 1) (2 ^ 64 - 1) false) 1).
  split; [right; left|]. unfold hval in *. simpl. lia.
Qed.

(** Hashes outside the file as URLs. *)
Example demo_nonexistent :
  test_set_main 0 true (fun _ => Some (FileEntry (phc_file top_recs) true)) (fun _ => true) (demo_test_options true true 2) =
    Ok (Done (concat ((fun h => DefaultURI ++ toString false h ++ [x0a]) <$> drawn true 2 (mt_seed 31337)))).
Proof. vm_compute. reflexivity. Qed.

(** A file of less than one record: with more to write than bytes the loop stays at its start
    and never ends. *)
Lemma existent_loop_short fuel o bytes f q i :
  (length bytes < 20)%nat -> (0 < length bytes)%nat -> i < N o -> Hash_wf (hash q) -> failbit f = true \/ at_pos bytes 0 f ->
  existent_loop fuel o (Z.of_nat (length bytes)) 0 f q 0 i = OutOfFuel.
Proof.
  intros Hlt Hpos Hi. revert f q. induction fuel as [|fuel IH]; intros f q Hq Hf; [done|]. cbn [existent_loop].
  rewrite !(proj2 (Z.ltb_lt _ _)) by lia. cbn [andb]. change (0 - Z.rem 0 PHC_size) with 0.
  unfold PHC_read_at. destruct Hf as [Hf|Hf].
  - rewrite seekg_failed by done. rewrite PHC_read_failed by done. apply IH; [done|by left].
  - assert (has_rest (seekg f 0) bytes) as Hrest by (rewrite Hf; apply open_stream_rest).
    unfold PHC_read. destruct (decide (length bytes < 16)%nat) as [Hs|Hs].
    + unfold read at 1. destruct Hrest as (Hg & _ & Hr). rewrite Hg, Hr. rewrite take_ge by (unfold Hash_size; lia).
      rewrite (proj2 (Nat.eqb_neq _ _)) by (unfold Hash_size; lia). cbn [negb].
      apply IH; [apply store_wf|]. left. simpl. apply Nat.ltb_lt. unfold Hash_size. lia.
    + destruct (read_rest _ (take 16 bytes) (drop 16 bytes) Hash_size ltac:(by rewrite take_drop)
        ltac:(rewrite length_take; unfold Hash_size; lia)) as (f' & -> & Hg & _ & Hr).
      rewrite length_take, (proj2 (Nat.eqb_eq _ _)) by (unfold Hash_size; lia). cbn [negb].
      unfold read. rewrite Hg, Hr. rewrite take_ge by (rewrite length_drop; lia).
      rewrite (proj2 (Nat.eqb_neq _ _)) by (rewrite length_drop; lia).
      apply IH; [apply store_wf|]. left. simpl. apply Nat.ltb_lt. rewrite length_drop. lia.
Qed.
