(* ===== verification/Units.v ===== *)
(** * pwned-lib/util.cpp: readable sizes and times

    The two functions that print sizes and times for people, in the arithmetic of [double]. *)

From Stdlib Require Import Floats.SpecFloat.
From S2P Require Import Prelude Decimal Stream Util Regex.
From stdpp Require Import options.

(** ** [double] *)

Definition d_of_Z (z : Z) : spec_float := binary_normalize 53 1024 z 0 false.
Definition d_sub : spec_float -> spec_float -> spec_float := SFsub 53 1024.
Definition d_div : spec_float -> spec_float -> spec_float := SFdiv 53 1024.
Definition d_gtb (a b : spec_float) : bool := SFltb b a.

(** The integer part, and the nearest integer with ties away from zero; [None] for what is no
    number. *)
Definition d_trunc (x : spec_float) : option Z :=
  match x with
  | S754_zero _ => Some 0
  | S754_finite s m e =>
      let v := if 0 <=? e then Zpos m * 2 ^ e else Zpos m / 2 ^ (- e) in Some (if s then - v else v)
  | _ => None
  end.
Definition d_round (x : spec_float) : option Z :=
  match x with
  | S754_zero _ => Some 0
  | S754_finite s m e =>
      let v := if 0 <=? e then Zpos m * 2 ^ e else (2 * Zpos m + 2 ^ (- e)) / (2 * 2 ^ (- e)) in Some (if s then - v else v)
  | _ => None
  end.

(** A value as an [int]; one that does not fit is undefined. *)
Definition as_int (v : option Z) : outcome Z :=
  match v with
  | Some z => if (- 2 ^ 31 <=? z) && (z <? 2 ^ 31) then Ok z else Undefined
  | None => Undefined
  end.

Definition formatted (fmt_size : Z) (text : list byte) : outcome (list byte) :=
  match string_format fmt_size text with Some t => Ok t | None => OutOfFuel end.

(** ** [readableSize] *)

Definition readableSize (size : Z) : outcome (list byte) :=
  let sz := d_of_Z size in
  let by1024 x := d_div x (d_of_Z 1024) in
  if d_gtb sz (d_of_Z (1024 * 1024 * 1024 * 1024)) then
    formatted 7 (fixed 1 (by1024 (by1024 (by1024 (by1024 sz)))) ++ bs " TB")
  else if 1024 * 1024 * 1024 <? size then formatted 7 (fixed 1 (by1024 (by1024 (by1024 sz))) ++ bs " GB")
  else if 1024 * 1024 <? size then formatted 7 (fixed 1 (by1024 (by1024 sz)) ++ bs " MB")
  else if 1024 <? size then formatted 7 (fixed 1 (by1024 sz) ++ bs " KB")
  else formatted 5 (to_string (i64 size) ++ bs " B").

(** ** [readableTime] *)

(** The product of [int]s: overflow is undefined. *)
Definition int_mul (a b : Z) : outcome Z := as_int (Some (a * b)).

Definition readableTime (t : spec_float) : outcome (list byte) :=
  let over k x := d_div x (d_of_Z k) in
  let x := t in
  days ← as_int (d_trunc (over 24 (over 60 (over 60 x))));
  d ← int_mul days 60; d ← int_mul d 60; d ← int_mul d 24;
  let x := d_sub x (d_of_Z d) in
  hours ← as_int (d_trunc (over 60 (over 60 x)));
  h ← int_mul hours 60; h ← int_mul h 60;
  let x := d_sub x (d_of_Z h) in
  mins ← as_int (d_trunc (over 60 x));
  m ← int_mul mins 60;
  let x := d_sub x (d_of_Z m) in
  let secs := x in
  isecs ← as_int (d_round secs);
  if d_gtb t (d_of_Z (60 * 60 * 24)) then
    formatted 15 (to_string days ++ bs "d " ++ to_string hours ++ bs "h " ++ to_string mins ++ bs "m " ++
      to_string isecs ++ bs "s")
  else if d_gtb t (d_of_Z (60 * 60)) then
    formatted 11 (to_string hours ++ bs "h " ++ to_string mins ++ bs "m " ++ to_string isecs ++ bs "s")
  else if d_gtb t (d_of_Z 60) then formatted 7 (to_string mins ++ bs "m " ++ to_string isecs ++ bs "s")
  else formatted 5 (fixed 4 secs ++ bs "s").

(** The three lengths for which the largest unit is not printed, and a rounding that carries
    over no further than the seconds. *)
Example readableTime_boundaries :
  readableTime (d_of_Z 60) = Ok (bs "0.0000s") /\ readableTime (d_of_Z 3600) = Ok (bs "0m 0s") /\
  readableTime (d_of_Z 86400) = Ok (bs "0h 0m 0s") /\
  readableTime (binary_normalize 53 1024 479 (-2) false) = Ok (bs "1m 60s").
Proof. vm_compute. split_and!; reflexivity. Qed.

(** ** Lemmas: whole numbers as [double]s *)

Lemma digits2_pos_spec p : 2 ^ (Zpos (digits2_pos p) - 1) <= Zpos p < 2 ^ Zpos (digits2_pos p).
Proof.
  assert (forall n, 2 ^ (Zpos (Pos.succ n) - 1) = 2 * 2 ^ (Zpos n - 1) /\ 2 ^ Zpos (Pos.succ n) = 2 * 2 ^ Zpos n) as Hs.
  { intros n. rewrite Pos2Z.inj_succ. split; rewrite <- Z.pow_succ_r by lia; f_equal; lia. }
  induction p as [p IH|p IH|]; cbn [digits2_pos]; [destruct (Hs (digits2_pos p)) as [-> ->]; lia..|simpl; lia].
Qed.

Lemma digits2_pos_unique p d : 2 ^ (Zpos d - 1) <= Zpos p < 2 ^ Zpos d -> digits2_pos p = d.
Proof.
  intros [H1 H2]. destruct (digits2_pos_spec p) as [H3 H4].
  assert (Zpos d - 1 < Zpos (digits2_pos p)) by (apply (Z.pow_lt_mono_r_iff 2); lia).
  assert (Zpos (digits2_pos p) - 1 < Zpos d) by (apply (Z.pow_lt_mono_r_iff 2); lia). lia.
Qed.

(** A rounding that has nothing to round, of 53 digits and of 54 the last of which is zero. *)
Lemma round_aux_53 m e : digits2_pos m = 53%positive -> - 1074 <= e <= 971 ->
  binary_round_aux 53 1024 false (Zpos m) e loc_Exact = S754_finite false m e.
Proof.
  intros Hm He. unfold binary_round_aux, shr_fexp, fexp. cbn [Zdigits2]. rewrite Hm.
  change (emin 53 1024) with (-1074).
  assert (Z.max (53 + e - 53) (-1074) - e = 0) as -> by lia. cbn [shr shr_record_of_loc shr_m loc_of_shr_record].
  cbn [round_nearest_even Zdigits2]. rewrite Hm.
  assert (Z.max (53 + e - 53) (-1074) - e = 0) as -> by lia. cbn [shr shr_m].
  by rewrite (proj2 (Z.leb_le _ _)) by lia.
Qed.

Lemma round_aux_54 m e : digits2_pos m = 53%positive -> - 1074 <= e <= 900 ->
  binary_round_aux 53 1024 false (Zpos m~0) e loc_Exact = S754_finite false m (e + 1).
Proof.
  intros Hm He. unfold binary_round_aux, shr_fexp, fexp. cbn [Zdigits2 digits2_pos]. rewrite Hm.
  change (emin 53 1024) with (-1074). change (Zpos (Pos.succ 53)) with 54.
  assert (Z.max (54 + e - 53) (-1074) - e = 1) as -> by lia. cbn [shr shr_record_of_loc SpecFloat.iter_pos shr_1 orb].
  cbn [shr_m loc_of_shr_record round_nearest_even].
  cbn [Zdigits2]. rewrite Hm.
  assert (Z.max (53 + (e + 1) - 53) (-1074) - (e + 1) = 0) as -> by lia. cbn [shr shr_m].
  by rewrite (proj2 (Z.leb_le _ _)) by lia.
Qed.

(** [x] is [z / 2 ^ k], exactly. *)
Definition dyadic (z k : Z) (x : spec_float) : Prop :=
  exists m e, x = S754_finite false m e /\ digits2_pos m = 53%positive /\ - 52 - k <= e /\ e + k <= 0 /\
    Zpos m = z * 2 ^ (- e - k).

Lemma iter_xO p n : Zpos (Pos.iter xO p n) = Zpos p * 2 ^ Zpos n.
Proof.
  revert p. induction n as [|n IH] using Pos.peano_ind; intros p.
  - change (Pos.iter xO p 1) with (xO p). lia.
  - rewrite Pos.iter_succ, Pos2Z.inj_succ, Z.pow_succ_r by lia.
    change (Zpos (?a~0)) with (2 * Zpos a). rewrite IH, Z.mul_shuffle3. done.
Qed.

Lemma shl_align_exact p n : 0 <= n -> exists q, shl_align p 0 (- n) = (q, - n) /\ Zpos q = Zpos p * 2 ^ n.
Proof.
  intros Hn. destruct n as [|n|]; [|exists (Pos.iter xO p n); split; [done|apply iter_xO]|lia].
  exists p. split; [done|]. lia.
Qed.

Lemma d_of_Z_dyadic z : 0 < z < 2 ^ 53 -> dyadic z 0 (d_of_Z z).
Proof.
  intros [Hz Hz53]. destruct z as [|p|]; [lia| |lia]. unfold d_of_Z, binary_normalize, binary_round.
  pose proof (digits2_pos_spec p) as [Hd1 Hd2]. set (d := Zpos (digits2_pos p)) in *.
  assert (d <= 53). { assert (d - 1 < 53) by (apply (Z.pow_lt_mono_r_iff 2); lia). lia. }
  unfold fexp. change (emin 53 1024) with (-1074). assert (1 <= d) by (unfold d; lia).
  assert (Z.max (d + 0 - 53) (-1074) = - (53 - d)) as -> by lia.
  destruct (shl_align_exact p (53 - d) ltac:(lia)) as (q & -> & Hshift).
  assert (digits2_pos q = 53%positive) as Hdig.
  { apply digits2_pos_unique. rewrite Hshift.
    replace (53 - 1) with ((d - 1) + (53 - d)) by lia. replace (2 ^ 53) with (2 ^ (d + (53 - d))) by (f_equal; lia).
    rewrite !Z.pow_add_r by lia. assert (0 < 2 ^ (53 - d)) by (apply Z.pow_pos_nonneg; lia). nia. }
  rewrite round_aux_53 by (done || lia).
  exists q, (- (53 - d)). split_and!; [done|done|lia|lia|]. rewrite Hshift. do 2 f_equal. lia.
Qed.

Lemma div_1024 z k x : 0 <= k <= 100 -> dyadic z k x -> dyadic z (k + 10) (d_div x (d_of_Z 1024)).
Proof.
  intros Hk (m & e & -> & Hm & He & Hek & Hval). unfold d_div, SFdiv.
  change (d_of_Z 1024) with (S754_finite false 4503599627370496 (-42)). cbn iota.
  unfold SFdiv_core_binary. change (Zdigits2 4503599627370496) with 53. cbn [Zdigits2]. rewrite Hm.
  unfold fexp. change (emin 53 1024) with (-1074).
  assert (Z.max (53 + e - (53 + -42) - 53) (-1074) `min` (e - -42) = e - 11) as -> by lia.
  assert (e - -42 - (e - 11) = 53) as -> by lia.
  assert (Z.div_eucl (Zpos m ≪ 53) 4503599627370496 = (2 * Zpos m, 0)) as ->.
  { pose proof (Z.div_mod (Zpos m ≪ 53) 4503599627370496 ltac:(lia)) as Hdm.
    rewrite Z.shiftl_mul_pow2 in * by lia.
    assert (Zpos m * 2 ^ 53 = 2 * Zpos m * 4503599627370496) as Heq by lia.
    unfold Z.div, Z.modulo in Hdm. pose proof (Z_div_mod_eq_full (Zpos m * 2 ^ 53) 4503599627370496).
    pose proof (Z.div_mul (2 * Zpos m) 4503599627370496 ltac:(lia)) as H1.
    pose proof (Z.mod_mul (2 * Zpos m) 4503599627370496 ltac:(lia)) as H2.
    rewrite <- Heq in H1, H2. unfold Z.div in H1. unfold Z.modulo in H2.
    destruct (Z.div_eucl (Zpos m * 2 ^ 53) 4503599627370496) as [q r]. by rewrite H1, H2. }
  change (new_location 4503599627370496 0) with loc_Exact. change (2 * Zpos m) with (Zpos m~0). cbn [xorb].
  rewrite round_aux_54 by (done || lia).
  exists m, (e - 10). split_and!; [f_equal; lia|done|lia|lia|]. rewrite Hval. do 2 f_equal. lia.
Qed.

Lemma d_gtb_2_40 z : 0 < z < 2 ^ 53 -> d_gtb (d_of_Z z) (d_of_Z (2 ^ 40)) = (2 ^ 40 <? z).
Proof.
  intros Hz. destruct (d_of_Z_dyadic z Hz) as (m & e & -> & Hm & He & Hek & Hval).
  change (d_of_Z (2 ^ 40)) with (S754_finite false 4503599627370496 (-12)). unfold d_gtb, SFltb, SFcompare.
  pose proof (digits2_pos_spec m) as [Hm1 Hm2]. rewrite Hm in Hm1, Hm2. rewrite Z.add_0_r in Hek. rewrite Z.sub_0_r in Hval.
  change (2 ^ (53 - 1)) with (2 ^ 52) in Hm1.
  destruct (Z.compare_spec (-12) e) as [<-|Hlt|Hgt].
  - change (2 ^ (- -12)) with 4096 in Hval.
    change (Pos.compare_cont Eq 4503599627370496 m) with (2 ^ 52 ?= Zpos m).
    change (2 ^ 40) with 1099511627776. change (2 ^ 52) with 4503599627370496 in *.
    destruct (Z.compare_spec 4503599627370496 (Zpos m)) as [Hc|Hc|Hc]; symmetry.
    + apply Z.ltb_ge. lia.
    + apply Z.ltb_lt. lia.
    + lia.
  - symmetry. apply Z.ltb_lt. assert (2 ^ (- e) <= 2 ^ 11) by (apply Z.pow_le_mono_r; lia). nia.
  - symmetry. apply Z.ltb_ge. assert (2 ^ 13 <= 2 ^ (- e)) by (apply Z.pow_le_mono_r; lia). nia.
Qed.

(** Exact values are printed to the nearest tenth. *)
Lemma fixed_dyadic z k x : 0 < z -> 0 < k -> dyadic z k x ->
  exists q, fixed 1 x = with_point 1 q /\ 2 * Z.abs (q * 2 ^ k - 10 * z) <= 2 ^ k.
Proof.
  intros Hz Hk (m & e & -> & Hm & He & Hek & Hval). exists (scaled 1 (Zpos m) e). split; [done|].
  assert (e < 0) as He0 by lia. pose proof (scaled_near 1 (Zpos m) e ltac:(lia) He0) as Hnear.
  set (q := scaled 1 (Zpos m) e) in *. rewrite Hval in Hnear. change (10 ^ Z.of_nat 1) with 10 in Hnear.
  replace (- e) with (k + (- e - k)) in Hnear at 1 3 by lia. rewrite Z.pow_add_r in Hnear by lia.
  assert (0 < 2 ^ (- e - k)) as Hp by (apply Z.pow_pos_nonneg; lia). set (t := 2 ^ (- e - k)) in *.
  replace (q * (2 ^ k * t) - z * t * 10) with ((q * 2 ^ k - 10 * z) * t) in Hnear by lia.
  rewrite Z.abs_mul, (Z.abs_eq t) in Hnear by lia. nia.
Qed.

Lemma formatted_ok n text : 0 <= n -> x00 ∉ text -> formatted n text = Ok text.
Proof. intros Hn Ht. unfold formatted. by rewrite string_format_total. Qed.

(** The unit of a size, and its number of bits. *)
Definition unit_of (size : Z) : Z * list byte :=
  if 2 ^ 40 <? size then (40, bs " TB") else if 2 ^ 30 <? size then (30, bs " GB")
  else if 2 ^ 20 <? size then (20, bs " MB") else (10, bs " KB").

Lemma with_unit_no_nul x size : x00 ∉ fixed 1 x ++ snd (unit_of size).
Proof.
  rewrite elem_of_app. intros [Hin|Hin]; [by apply fixed_no_nul in Hin|]. revert Hin. unfold unit_of.
  repeat case_match; apply (bool_decide_unpack _); vm_compute; exact I.
Qed.

(** ** Properties *)

(** C38: a size of more than 1024 bytes is printed in the largest unit it exceeds, to the
    nearest tenth of the exact quotient, and a smaller one as its number of bytes. *)
Theorem readableSize_nearest size :
  0 <= size < 2 ^ 53 ->
  if 1024 <? size then
    let '(k, unit) := unit_of size in
    exists q, readableSize size = Ok (with_point 1 q ++ unit) /\ 2 * Z.abs (q * 2 ^ k - 10 * size) <= 2 ^ k
  else readableSize size = Ok (to_string size ++ bs " B").
Proof.
  intros Hs. unfold readableSize. change (1024 * 1024 * 1024 * 1024) with (2 ^ 40).
  change (1024 * 1024 * 1024) with (2 ^ 30). change (1024 * 1024) with (2 ^ 20).
  destruct (Z.ltb_spec 1024 size) as [Hbig|Hsmall].
  - pose proof (d_of_Z_dyadic size ltac:(lia)) as H0. rewrite d_gtb_2_40 by lia.
    pose proof (div_1024 size 0 _ ltac:(lia) H0) as H1. pose proof (div_1024 size 10 _ ltac:(lia) H1) as H2.
    pose proof (div_1024 size 20 _ ltac:(lia) H2) as H3. pose proof (div_1024 size 30 _ ltac:(lia) H3) as H4.
    assert (forall k x unit, 0 < k -> dyadic size k x -> snd (unit_of size) = unit ->
      exists q, formatted 7 (fixed 1 x ++ unit) = Ok (with_point 1 q ++ unit) /\ 2 * Z.abs (q * 2 ^ k - 10 * size) <= 2 ^ k) as Hgen.
    { intros k x unit Hk Hx <-. destruct (fixed_dyadic size k x ltac:(lia) Hk Hx) as (q & Hq & Hnear).
      exists q. split; [|done]. rewrite formatted_ok by (lia || apply with_unit_no_nul). by rewrite Hq. }
    unfold unit_of in *. destruct (2 ^ 40 <? size); [by apply Hgen|]. destruct (2 ^ 30 <? size); [by apply Hgen|].
    destruct (2 ^ 20 <? size); [by apply Hgen|]. by apply Hgen.
  - assert (forall k, 10 <= k -> (2 ^ k <? size) = false) as Hk.
    { intros k Hk. apply Z.ltb_ge. assert (2 ^ 10 <= 2 ^ k) by (apply Z.pow_le_mono_r; lia). lia. }
    rewrite (proj2 (Z.ltb_ge _ _)) by lia.
    assert (d_gtb (d_of_Z size) (d_of_Z (2 ^ 40)) = false) as ->.
    { destruct (decide (size = 0)) as [->|]; [reflexivity|]. rewrite d_gtb_2_40 by lia. apply Hk. lia. }
    rewrite !Hk by lia. rewrite i64_small by lia. apply formatted_ok; [lia|].
    rewrite elem_of_app. intros [Hin|Hin]; revert Hin.
    + apply to_string_chars; vm_compute; [discriminate|by intros []].
    + apply (bool_decide_unpack _). vm_compute. exact I.
Qed.

Lemma readableSize_nearest_witness :
  exists q, readableSize 3333333 = Ok (with_point 1 q ++ bs " MB") /\ 2 * Z.abs (q * 2 ^ 20 - 10 * 3333333) <= 2 ^ 20.
Proof. apply (readableSize_nearest 3333333). lia. Defined.
