(* ===== verification/Memory.v ===== *)
(** * pwned-lib/util.cpp: getMemoryStat

    The branch compiled for Linux: a loop over the lines of [/proc/meminfo] that looks for four
    keys and reads the values with a regular expression. *)

From S2P Require Import Prelude Decimal Stream Regex.
From stdpp Require Import options.

(** ** The data *)

Record MemorySection := MkSection { total : Z; avail : Z; used : Z; app : Z }.
Record MemoryStat := MkStat { virt : MemorySection; phys : MemorySection }.

(** The four members the table of the code points to. *)
Inductive MemField := PhysTotal | PhysAvail | VirtTotal | VirtUsed.

Definition set_field (f : MemField) (v : Z) (m : MemoryStat) : MemoryStat :=
  let 'MkStat (MkSection vt va vu vp) (MkSection pt pa pu pp) := m in
  match f with
  | PhysTotal => MkStat (MkSection vt va vu vp) (MkSection v pa pu pp)
  | PhysAvail => MkStat (MkSection vt va vu vp) (MkSection pt v pu pp)
  | VirtTotal => MkStat (MkSection v va vu vp) (MkSection pt pa pu pp)
  | VirtUsed => MkStat (MkSection vt va v vp) (MkSection pt pa pu pp)
  end.

(** [memTable], in the order of its keys. *)
Definition memTable : list (list byte * MemField) :=
  [(bs "MemAvailable", PhysAvail); (bs "MemTotal", PhysTotal); (bs "VmallocTotal", VirtTotal); (bs "VmallocUsed", VirtUsed)].

(** ** The expression [\w+:\s+(\d+)\s+(\w+)] *)

Definition is_space (c : byte) : bool := bool_decide (c ∈ [x20; x09; x0a; x0b; x0c; x0d]).
Definition is_digit (c : byte) : bool := (48 <=? byte.unsigned c) && (byte.unsigned c <=? 57).
Definition is_word (c : byte) : bool :=
  is_digit c || ((65 <=? byte.unsigned c) && (byte.unsigned c <=? 90)) ||
  ((97 <=? byte.unsigned c) && (byte.unsigned c <=? 122)) || bool_decide (c = x5f).

Definition reFields : regex :=
  Seq (Plus true (Class is_word)) (Seq (Chr x3a) (Seq (Plus true (Class is_space))
    (Seq (Group 1 (Plus true (Class is_digit))) (Seq (Plus true (Class is_space)) (Group 2 (Plus true (Class is_word))))))).

(** ** The code *)

(** [std::stoull] of digits. *)
Definition stoull (l : list byte) : outcome Z :=
  let v := digits_value l in if v <? 2 ^ 64 then Ok v else Throws (bs "out_of_range").

(** [line.size() >= key.size() && std::equal(key.begin(), key.end(), line.begin())] *)
Definition begins_with (key line : list byte) : bool :=
  (length key <=? length line)%nat && bool_decide (take (length key) line = key).

(** What the number is multiplied with; another unit is ignored. *)
Definition unit_factor (u : list byte) : option Z :=
  if decide (u = bs "GB") then Some (1024 * 1024 * 1024)
  else if decide (u = bs "MB") then Some (1024 * 1024)
  else if decide (u = bs "kB") then Some 1024
  else if decide (u = bs "B") then Some 1 else None.

(** One line against one entry of the table. *)
Definition read_field (line key : list byte) (f : MemField) (m : MemoryStat) : outcome MemoryStat :=
  if begins_with key line then
    match regex_match reFields line with
    | Some fields =>
        match unit_factor (sub_match fields 2) with
        | Some k => v ← stoull (sub_match fields 1); Ok (set_field f (u64 (v * k)) m)
        | None => Ok m
        end
    | None => Ok m
    end
  else Ok m.

Fixpoint read_fields (table : list (list byte * MemField)) (line : list byte) (m : MemoryStat) : outcome MemoryStat :=
  match table with
  | [] => Ok m
  | (key, f) :: table => m ← read_field line key f m; read_fields table line m
  end.

(** [while (!meminfo.eof())] *)
Fixpoint meminfo_loop (fuel : nat) (meminfo : istream) (m : MemoryStat) : outcome MemoryStat :=
  match fuel with
  | O => OutOfFuel
  | S fuel =>
      if eof meminfo then Ok m
      else
        let '(line, meminfo) := getline meminfo [] in
        m ← read_fields memTable line m;
        meminfo_loop fuel meminfo m
  end.

Definition getMemoryStat (fuel : nat) (meminfo : istream) (m : MemoryStat) : outcome (Z * MemoryStat) :=
  m ← meminfo_loop fuel meminfo m;
  let 'MkStat (MkSection vt va vu vp) (MkSection pt pa pu pp) := m in
  Ok (0, MkStat (MkSection vt (u64 (vt - vu)) vu vp) (MkSection pt pa (u64 (pt - pa)) pp)).

(** ** The branch for macOS

    The system's answers are arguments, [None] where a call fails.  The sizes are 64-bit, the
    numbers of pages ([natural_t]) and the size of a page 32-bit integers. *)

Record xsw_usage := MkXsw { xsu_total : Z; xsu_avail : Z; xsu_used : Z; xsu_pagesize : Z }.
Record vm_statistics := MkVm { free_count : Z; active_count : Z; inactive_count : Z; wire_count : Z }.
Record task_basic_info := MkTaskInfo { virtual_size : Z; resident_size : Z }.

(** What is set before a call that fails stays set; the result of the call for the physical
    memory is not looked at. *)
Definition getMemoryStat_apple (swapusage : option xsw_usage) (memsize : option Z)
    (host_statistics : option vm_statistics) (task_info : option task_basic_info) (m : MemoryStat) : Z * MemoryStat :=
  match swapusage with
  | None => (-1, m)
  | Some vmusage =>
      let virt' := MkSection (xsu_total vmusage) (xsu_avail vmusage) (xsu_used vmusage) (app (virt m)) in
      let total' := default (total (phys m)) memsize in
      let m := MkStat virt' (MkSection total' (avail (phys m)) (used (phys m)) (app (phys m))) in
      match host_statistics with
      | None => (-2, m)
      | Some vmstat =>
          let avail' := u32 (free_count vmstat * xsu_pagesize vmusage) in
          let used' := u32 (u32 (active_count vmstat + inactive_count vmstat + wire_count vmstat) * xsu_pagesize vmusage) in
          let m := MkStat virt' (MkSection total' avail' used' (app (phys m))) in
          match task_info with
          | None => (-3, m)
          | Some t_info =>
              (0, MkStat (MkSection (xsu_total vmusage) (xsu_avail vmusage) (xsu_used vmusage) (virtual_size t_info))
                (MkSection total' avail' used' (resident_size t_info)))
          end
      end
  end.

(** ** What the file says *)

Record MemEntry := MkEntry { me_name : list byte; me_gap : list byte; me_digits : list byte; me_space : list byte; me_unit : list byte }.

Definition entry_line (e : MemEntry) : list byte :=
  me_name e ++ x3a :: me_gap e ++ me_digits e ++ me_space e ++ me_unit e.
Definition meminfo_text (es : list MemEntry) : list byte := concat ((fun e => entry_line e ++ [x0a]) <$> es).

Definition run_of (p : byte -> bool) (l : list byte) : Prop := l <> [] /\ forallb p l = true.
Definition blank (c : byte) : bool := is_space c && negb (bool_decide (c = x0a)).
Definition entry_ok (e : MemEntry) : Prop :=
  run_of is_word (me_name e) /\ run_of blank (me_gap e) /\ run_of is_digit (me_digits e) /\ run_of blank (me_space e) /\
  run_of is_word (me_unit e) /\ digits_value (me_digits e) < 2 ^ 64.

(** The bytes an entry stands for, and the last entry for a key that has a known unit. *)
Definition entry_bytes (key : list byte) (e : MemEntry) : option Z :=
  if begins_with key (me_name e) then (fun k => u64 (digits_value (me_digits e) * k)) <$> unit_factor (me_unit e) else None.
Definition entry_value (key : list byte) (old : Z) (es : list MemEntry) : Z :=
  default old (last (omap (entry_bytes key) es)).

(** ** Lemmas *)

Lemma colon_head s a : head (x3a :: s) = Some a -> is_word a = false.
Proof. by intros [= <-]. Qed.

Lemma space_not_digit c : is_space c = true -> is_digit c = false /\ is_word c = false /\ c <> x3a.
Proof.
  unfold is_space. intros Hc%bool_decide_eq_true. rewrite !elem_of_cons in Hc.
  destruct Hc as [->|[->|[->|[->|[->|[->|Hc]]]]]]; [by split_and!..|by apply not_elem_of_nil in Hc].
Qed.

Lemma digit_not_space c : is_digit c = true -> is_space c = false.
Proof. intros Hd. apply not_true_iff_false. intros Hs. apply space_not_digit in Hs as [Hs _]. congruence. Qed.

Lemma word_not_space c : is_word c = true -> is_space c = false.
Proof. intros Hd. apply not_true_iff_false. intros Hs. apply space_not_digit in Hs as (_ & Hs & _). congruence. Qed.

Lemma run_head (p q : byte -> bool) l s :
  run_of p l -> (forall c, p c = true -> q c = false) -> forall a, head (l ++ s) = Some a -> q a = false.
Proof.
  intros [Hne Hl] Hpq a. destruct l as [|b l]; [done|]. simpl in *. intros [= <-]. apply Hpq.
  by apply andb_true_iff in Hl as [? _].
Qed.

Lemma blank_run l : run_of blank l -> run_of is_space l.
Proof.
  intros [Hne Hl]. split; [done|]. rewrite forallb_forall in Hl |- *. intros c Hc. specialize (Hl c Hc).
  by apply andb_true_iff in Hl as [? _].
Qed.

Lemma reFields_parts s m : ([], m) ∈ matches reFields s ∅ ->
  exists name gap digits space unit, s = name ++ x3a :: gap ++ digits ++ space ++ unit /\
    run_of is_word name /\ run_of is_space gap /\ run_of is_digit digits /\ run_of is_space space /\ run_of is_word unit /\
    m !! 1%nat = Some digits /\ m !! 2%nat = Some unit.
Proof.
  unfold reFields. intros Hin.
  remember (Plus true (Class is_word)) as W eqn:HW. remember (Plus true (Class is_space)) as S eqn:HS.
  remember (Plus true (Class is_digit)) as D eqn:HD. remember (Chr x3a) as K eqn:HK.
  apply matches_Seq in Hin as (s1 & c1 & H1 & Hin). apply matches_Seq in Hin as (s2 & c2 & H2 & Hin).
  apply matches_Seq in Hin as (s3 & c3 & H3 & Hin). apply matches_Seq in Hin as (s4 & c4 & H4 & Hin).
  apply matches_Seq in Hin as (s5 & c5 & H5 & Hin).
  apply matches_Group in Hin as (c6 & unit & H6 & -> & Hunit & ->). apply matches_Group in H4 as (c7 & digits & H4 & -> & Hdig & ->).
  assert (c6 !! 1%nat = Some digits) as Hc6.
  { rewrite (matches_keeps 1 W _ _ _ _ ltac:(by subst; vm_compute; apply not_elem_of_nil) H6).
    rewrite (matches_keeps 1 S _ _ _ _ ltac:(by subst; vm_compute; apply not_elem_of_nil) H5). apply lookup_insert_eq. }
  apply matches_sound in H1 as (name & -> & Hname), H2 as (colon & -> & Hcolon), H3 as (gap & Heq3 & Hgap), H5 as (space & -> & Hspace).
  subst W S D K. apply lang_Chr in Hcolon as ->. rewrite Heq3.
  apply lang_Plus_Class in Hname, Hgap, Hdig, Hspace, Hunit.
  exists name, gap, digits, space, unit. rewrite app_nil_r. split_and!; try done.
  - rewrite lookup_insert_ne by done. exact Hc6.
  - apply lookup_insert_eq.
Qed.

Lemma reFields_match e : entry_ok e ->
  exists m, regex_match reFields (entry_line e) = Some m /\ sub_match m 1 = me_digits e /\ sub_match m 2 = me_unit e.
Proof.
  intros (Hname & Hgap%blank_run & Hdig & Hspace%blank_run & Hunit & _).
  destruct (proj2 (regex_match_lang reFields (entry_line e))) as [m Hm].
  { unfold entry_line, reFields. change (x3a :: ?l) with ([x3a] ++ l).
    repeat constructor; by apply lang_Plus_Class || apply lang_Chr. }
  exists m. split; [done|]. apply regex_match_in in Hm. unfold sub_match.
  apply reFields_parts in Hm as (name & gap & digits & space & unit & Heq & Hn & Hg & Hd & Hs & Hu & -> & ->).
  unfold entry_line in Heq. simpl.
  destruct (run_unique is_word (me_name e) name _ _ (proj2 Hname) (proj2 Hn) (colon_head _) (colon_head _) Heq)
    as [_ Heq2]. injection Heq2 as Heq2.
  destruct (run_unique is_space _ _ _ _ (proj2 Hgap) (proj2 Hg)
    (run_head _ _ _ _ Hdig digit_not_space) (run_head _ _ _ _ Hd digit_not_space) Heq2) as [_ Heq3].
  destruct (run_unique is_digit _ _ _ _ (proj2 Hdig) (proj2 Hd)
    (run_head _ _ _ _ Hspace (fun c H => proj1 (space_not_digit c H)))
    (run_head _ _ _ _ Hs (fun c H => proj1 (space_not_digit c H))) Heq3) as [-> Heq4].
  split; [done|].
  destruct (run_unique is_space (me_space e) space (me_unit e ++ []) (unit ++ []) (proj2 Hspace) (proj2 Hs)
    (run_head _ _ _ _ Hunit word_not_space) (run_head _ _ _ _ Hu word_not_space) ltac:(by rewrite !app_nil_r)) as [_ Heq5].
  by rewrite !app_nil_r in Heq5.
Qed.

Lemma begins_with_spec key line : begins_with key line = true <-> exists r, line = key ++ r.
Proof.
  unfold begins_with. rewrite andb_true_iff, bool_decide_eq_true, Nat.leb_le. split.
  - intros [_ Hk]. exists (drop (length key) line). rewrite <- Hk at 1. by rewrite take_drop.
  - intros [r ->]. rewrite length_app, take_app_length. split; [lia|done].
Qed.

Lemma begins_with_name key e : x3a ∉ key -> begins_with key (entry_line e) = begins_with key (me_name e).
Proof.
  intros Hk. apply eq_true_iff_eq. rewrite !begins_with_spec. unfold entry_line. split.
  - intros [r Heq]. symmetry in Heq. destruct (app_eq_app _ _ _ _ Heq) as [l [[-> Hl]|[-> _]]]; [|by exists l].
    destruct l as [|c l]; [exists []; by rewrite !app_nil_r|]. injection Hl as <- _.
    exfalso. apply Hk. rewrite elem_of_app. right. left.
  - intros [r ->]. rewrite <- app_assoc. by eexists.
Qed.

(** What one line does to the statistics. *)
Definition entry_step (m : MemoryStat) (e : MemEntry) : MemoryStat :=
  foldl (fun m kf => match entry_bytes (fst kf) e with Some v => set_field (snd kf) v m | None => m end) m memTable.

Lemma read_field_ok key f e m : x3a ∉ key -> entry_ok e ->
  read_field (entry_line e) key f m = Ok (match entry_bytes key e with Some v => set_field f v m | None => m end).
Proof.
  intros Hk He. unfold read_field, entry_bytes. rewrite begins_with_name by done.
  destruct (begins_with key (me_name e)); [|done]. destruct (reFields_match e He) as (fields & -> & -> & ->).
  destruct (unit_factor (me_unit e)) as [k|]; [|done]. unfold stoull.
  by rewrite (proj2 (Z.ltb_lt _ _)) by apply He.
Qed.

Lemma read_fields_ok e m : entry_ok e -> read_fields memTable (entry_line e) m = Ok (entry_step m e).
Proof.
  intros He. unfold entry_step. assert (Forall (fun kf => x3a ∉ fst kf) memTable) as Hkeys.
  { apply (bool_decide_unpack _). vm_compute. exact I. }
  revert m. induction Hkeys as [|[key f] table Hkey _ IH]; intros m; [done|]. cbn [read_fields foldl fst snd] in *.
  rewrite read_field_ok by done. apply IH.
Qed.

Lemma entry_line_newline e : entry_ok e -> x0a ∉ entry_line e.
Proof.
  intros (Hname & Hgap & Hdig & Hspace & Hunit & _).
  assert (forall p l, p x0a = false -> run_of p l -> x0a ∉ l) as Hrun.
  { intros p l Hp [_ Hl] Hin%list_elem_of_In. rewrite forallb_forall in Hl. apply Hl in Hin. congruence. }
  unfold entry_line. rewrite !elem_of_app, elem_of_cons, !elem_of_app.
  apply Hrun in Hname, Hgap, Hdig, Hspace, Hunit; try done.
  intros [?|[?|[?|[?|[?|?]]]]]; done.
Qed.

Lemma meminfo_lines es : Forall entry_ok es -> lines (meminfo_text es) = (entry_line <$> es) ++ [[]].
Proof.
  induction 1 as [|e es He _ IH]; [done|]. unfold meminfo_text. csimpl. rewrite <- app_assoc. change ([x0a] ++ ?t) with (x0a :: t).
  rewrite lines_app by by apply entry_line_newline. f_equal. exact IH.
Qed.

Lemma meminfo_loop_ok es f m fuel :
  has_lines f ((entry_line <$> es) ++ [[]]) -> Forall entry_ok es -> (length es + 1 < fuel)%nat ->
  meminfo_loop fuel f m = Ok (foldl entry_step m es).
Proof.
  intros Hf Hes. revert f m fuel Hf. induction Hes as [|e es He Hes IH]; intros f m fuel Hf Hfuel;
    (destruct fuel as [|fuel]; [lia|]); cbn [meminfo_loop]; rewrite (has_lines_eof _ _ Hf), bool_decide_false by done.
  - destruct (getline_lines f [] [] [] Hf) as (f' & -> & Hf' & _). change (read_fields memTable [] m) with (Ok m).
    cbn [mbind outcome_bind foldl]. simpl in Hfuel. destruct fuel as [|fuel]; [lia|]. cbn [meminfo_loop].
    by rewrite (has_lines_eof _ _ Hf'), bool_decide_true.
  - csimpl in Hf. destruct (getline_lines f _ _ [] Hf) as (f' & -> & Hf' & _). rewrite read_fields_ok by done.
    cbn [mbind outcome_bind foldl]. apply IH; [done|]. simpl in Hfuel. lia.
Qed.

(** The fields of the statistics. *)
Definition get_field (f : MemField) (m : MemoryStat) : Z :=
  match f with
  | PhysTotal => total (phys m) | PhysAvail => avail (phys m) | VirtTotal => total (virt m) | VirtUsed => used (virt m)
  end.
Definition key_of (f : MemField) : list byte :=
  match f with
  | PhysTotal => bs "MemTotal" | PhysAvail => bs "MemAvailable" | VirtTotal => bs "VmallocTotal" | VirtUsed => bs "VmallocUsed"
  end.

Lemma entry_step_field f m e : get_field f (entry_step m e) = default (get_field f m) (entry_bytes (key_of f) e).
Proof.
  unfold entry_step, memTable. cbn [foldl fst snd]. destruct m as [[] []]. destruct f; cbn [key_of];
    repeat (match goal with |- context [entry_bytes ?k e] => destruct (entry_bytes k e) end); reflexivity.
Qed.

Lemma entry_step_rest m e : avail (virt (entry_step m e)) = avail (virt m) /\ app (virt (entry_step m e)) = app (virt m) /\
  used (phys (entry_step m e)) = used (phys m) /\ app (phys (entry_step m e)) = app (phys m).
Proof.
  unfold entry_step, memTable. cbn [foldl fst snd]. destruct m as [[] []].
  repeat (match goal with |- context [entry_bytes ?k e] => destruct (entry_bytes k e) end); done.
Qed.

Lemma entry_steps_field f m es : get_field f (foldl entry_step m es) = entry_value (key_of f) (get_field f m) es.
Proof.
  unfold entry_value. revert m. induction es as [|e es IH]; intros m; [done|]. cbn [foldl]. rewrite IH, entry_step_field.
  cbn [omap list_omap]. destruct (entry_bytes (key_of f) e) as [v|]; [|done]. rewrite last_cons.
  by destruct (last (omap _ es)).
Qed.

Lemma entry_steps_app m es : app (virt (foldl entry_step m es)) = app (virt m) /\ app (phys (foldl entry_step m es)) = app (phys m).
Proof.
  revert m. induction es as [|e es IH]; intros m; [done|]. cbn [foldl]. destruct (IH (entry_step m e)) as [-> ->].
  destruct (entry_step_rest m e) as (_ & -> & _ & ->). done.
Qed.

(** ** Properties *)

(** the statistics are what [/proc/meminfo] says: every total and the available and used
    amounts are those of the last line whose name begins with the key and whose unit is known,
    in bytes, the two others are differences, and the amounts of the program are not set. *)
Theorem getMemoryStat_reads es m :
  Forall entry_ok es ->
  let value f := entry_value (key_of f) (get_field f m) es in
  getMemoryStat (length es + 2) (open_stream (meminfo_text es)) m =
    Ok (0, MkStat
      (MkSection (value VirtTotal) (u64 (value VirtTotal - value VirtUsed)) (value VirtUsed) (app (virt m)))
      (MkSection (value PhysTotal) (value PhysAvail) (u64 (value PhysTotal - value PhysAvail)) (app (phys m)))).
Proof.
  intros Hes value. unfold getMemoryStat. rewrite (meminfo_loop_ok es); [|rewrite <- meminfo_lines by done; apply open_stream_lines|done|lia].
  cbn [mbind outcome_bind]. unfold value. rewrite <- !entry_steps_field. destruct (entry_steps_app m es) as [<- <-].
  by destruct (foldl entry_step m es) as [[] []].
Qed.

Definition demo_entries : list MemEntry :=
  [MkEntry (bs "MemTotal") (bs "       ") (bs "16334540") (bs " ") (bs "kB");
   MkEntry (bs "MemFree") (bs "        ") (bs "884") (bs " ") (bs "kB");
   MkEntry (bs "MemAvailable") (bs "   ") (bs "8167270") (bs " ") (bs "kB");
   MkEntry (bs "VmallocTotal") (bs "   ") (bs "32") (bs " ") (bs "GB");
   MkEntry (bs "VmallocUsed") (bs "   ") (bs "4") (bs " ") (bs "MB")].

Lemma getMemoryStat_reads_witness :
  getMemoryStat 7 (open_stream (meminfo_text demo_entries)) (MkStat (MkSection 0 0 0 7) (MkSection 0 0 0 9)) =
    Ok (0, MkStat (MkSection 34359738368 34355544064 4194304 7) (MkSection 16726568960 8363284480 8363284480 9)).
Proof.
  apply (getMemoryStat_reads demo_entries (MkStat (MkSection 0 0 0 7) (MkSection 0 0 0 9))).
  repeat constructor; discriminate.
Defined.

(** When the file cannot be opened the loop never sees its end. *)
Lemma getMemoryStat_unopened fuel m : getMemoryStat fuel unopened m = OutOfFuel.
Proof.
  unfold getMemoryStat. assert (forall f, sopen f = false -> eofbit f = false -> failbit f = true -> meminfo_loop fuel f m = OutOfFuel) as Hgen.
  { induction fuel as [|fuel IH]; intros f Ho He Hf; [done|]. cbn [meminfo_loop]. unfold eof. rewrite He.
    unfold getline, good. rewrite He, Hf. cbn [orb negb]. change (read_fields memTable [] m) with (Ok m).
    cbn [mbind outcome_bind]. by apply IH. }
  by rewrite Hgen.
Qed.

(** on macOS the free memory is computed in 32 bits: with 4 GB or more of it the result is
    less than that. *)
Theorem getMemoryStat_apple_wraps swapusage memsize vmstat t_info m code m' :
  getMemoryStat_apple (Some swapusage) memsize (Some vmstat) t_info m = (code, m') ->
  0 <= free_count vmstat -> 0 <= xsu_pagesize swapusage ->
  (code = 0 <-> is_Some t_info) /\
  (avail (phys m') = free_count vmstat * xsu_pagesize swapusage <-> free_count vmstat * xsu_pagesize swapusage < 2 ^ 32).
Proof.
  unfold getMemoryStat_apple. intros H Hf Hp. set (free := free_count vmstat * xsu_pagesize swapusage) in *.
  assert (0 <= free) by (apply Z.mul_nonneg_nonneg; done).
  assert (u32 free = free <-> free < 2 ^ 32) as Hu.
  { split; [intros <-; apply u32_range|intros; by apply u32_small]. }
  destruct t_info; simplify_eq/=; (split; [|done]); split; try done; by intros [].
Qed.

(** Eight million free pages of 4 KB. *)
Lemma getMemoryStat_apple_wraps_witness :
  let m := MkStat (MkSection 0 0 0 0) (MkSection 0 0 0 0) in
  avail (phys (snd (getMemoryStat_apple (Some (MkXsw 0 0 0 4096)) (Some (2 ^ 36)) (Some (MkVm 8388608 0 0 0))
    (Some (MkTaskInfo 0 0)) m))) <> 2 ^ 35.
Proof.
  intros m Heq. destruct (getMemoryStat_apple_wraps (MkXsw 0 0 0 4096) (Some (2 ^ 36)) (MkVm 8388608 0 0 0) (Some (MkTaskInfo 0 0))
    m _ _ eq_refl ltac:(simpl; lia) ltac:(simpl; lia)) as [_ Hw]. cbn [free_count xsu_pagesize] in Hw.
  apply Hw in Heq. revert Heq. vm_compute. discriminate.
Defined.
