(* ===== verification/Benchmark.v ===== *)
(** * extras/pwned-benchmark: timing lookups

    The benchmark looks every hash of a test set up, several times over, with a fresh inspector
    each time, and counts what it found.  The seconds a run takes are a parameter; what
    [readableTime] makes of them is in [Units]. *)

From Stdlib Require Import Floats.SpecFloat.
From S2P Require Import Prelude Stream Util Hash Phc Inspector Index Random TestSet Units.
From stdpp Require Import options.

Definition AlgoBinSearch : list byte := bs "binsearch".
Definition AlgoSmartBinSearch : list byte := bs "smart".
Definition AlgoList : list (list byte) := [AlgoBinSearch; AlgoSmartBinSearch].

(** What one run prints. *)
Record Report := MkReport { nReads : Z; found : Z; notFound : Z }.

(** ** The runs *)

Section runs.
Context (search : Inspector -> Hash -> option (PHC * Z * Inspector)).

(** The loop over the test set; [extra] is what every lookup adds to the reads. *)
Fixpoint lookup_loop (extra : Z) (phcs : list PHC) (inspector : Inspector) (r : Report) : option Report :=
  match phcs with
  | [] => Some r
  | phc :: phcs =>
      match search inspector (hash phc) with
      | None => None
      | Some (result, readCount, inspector) =>
          let reads := nReads r + extra + readCount in
          lookup_loop extra phcs inspector
            (if 0 <? count result then MkReport reads (found r + 1) (notFound r)
             else MkReport reads (found r) (notFound r + 1))
      end
  end.

(** The loop over the runs: what is printed, and [runTimes].  [inspector] is what the
    constructor gives, [None] when it throws. *)
Fixpoint run_loop (extra : Z) (inspector : option Inspector) (phcs : list PHC) (seconds : list spec_float)
    : outcome (list Report * list spec_float) :=
  match seconds with
  | [] => Ok ([], [])
  | t :: seconds =>
      match inspector with
      | None => Throws (bs "file_size")
      | Some i =>
          match lookup_loop extra phcs i (MkReport 0 0 0) with
          | None => OutOfFuel
          | Some r => '(rs, ts) ← run_loop extra inspector phcs seconds; Ok (r :: rs, t :: ts)
          end
      end
  end.
End runs.

(** [time r] is the duration of run [r]. *)
Definition benchmarkWithoutIndex (nRuns : Z) (time : Z -> spec_float) (inputFile : option file_entry) (phcs : list PHC)
    (searchCallable : Inspector -> Hash -> option (PHC * Z * Inspector)) : outcome (list Report * list spec_float) :=
  run_loop searchCallable 0 (PasswordInspector inputFile) phcs (time <$> seqZ 1 nRuns).

Definition benchmarkWithIndex (fuel : nat) (nRuns : Z) (time : Z -> spec_float) (inputFile : option file_entry)
    (phcs : list PHC) (indexFile : option file_entry) : outcome (list Report * list spec_float) :=
  run_loop (binsearch fuel) 1 (PasswordInspector_indexed inputFile (Some indexFile)) phcs (time <$> seqZ 1 nRuns).

(** ** [main] *)

Record Options := MkOptions {
  help : bool; opt_warranty : bool; opt_license : bool;
  inputFilename : list byte; testsetFilename : list byte; nRuns : Z;
  algorithm : list byte; indexFilename : list byte }.

Definition DefaultNumberOfRuns : Z := 5.

(** [best], [median] and [average] are the times printed at the end. *)
Inductive Exit :=
  | Usage (ok : bool) | Warranty | License
  | InvalidAlgorithm | NoInput | NoTestset
  | Done (reports : list Report) (best median average : spec_float).

Definition d_add : spec_float -> spec_float -> spec_float := SFadd 53 1024.

(** The last statement: [front] of an empty vector is undefined. *)
Definition overall (reports : list Report) (runTimes : list spec_float) : outcome Exit :=
  let runTimes := std_sort SFltb runTimes in
  match runTimes with
  | [] => Undefined
  | best :: _ =>
      match runTimes !! (length runTimes / 2)%nat with
      | None => Throws (bs "out_of_range")
      | Some median =>
          Ok (Done reports best median
            (d_div (foldl d_add (d_of_Z 0) runTimes) (d_of_Z (Z.of_nat (length runTimes)))))
      end
  end.

(** The search the name of an algorithm stands for. *)
Definition searchCallable (fuel : nat) (algorithm : list byte)
    : option (Inspector -> Hash -> option (PHC * Z * Inspector)) :=
  if decide (algorithm = AlgoBinSearch) then Some (binsearch fuel)
  else if decide (algorithm = AlgoSmartBinSearch) then Some (smart_binsearch fuel)
  else None.

(** [main] after the options are parsed; [files] gives the file a name stands for.  A test set
    that cannot be read is empty. *)
Definition benchmark_main (fuel : nat) (files : list byte -> option file_entry) (time : Z -> spec_float) (o : Options)
    : outcome Exit :=
  if help o then Ok (Usage true)
  else if opt_warranty o then Ok Warranty
  else if opt_license o then Ok License
  else
    match searchCallable fuel (algorithm o) with
    | None => Ok InvalidAlgorithm
    | Some search =>
        if decide (inputFilename o = [] \/ testsetFilename o = []) then Ok (Usage false)
        else
          match files (inputFilename o), files (testsetFilename o) with
          | None, _ => Ok NoInput
          | Some _, None => Ok NoTestset
          | Some input, Some test =>
              let nRuns := if nRuns o <? 1 then DefaultNumberOfRuns else nRuns o in
              let testset := snd (fopen test) in
              let phcs := read_all (S (length (src testset))) PHC_default testset in
              '(reports, runTimes) ←
                (if decide (indexFilename o = []) then benchmarkWithoutIndex nRuns time (Some input) phcs search
                 else
                   match files (indexFilename o) with
                   | None => Throws (bs "file_size")
                   | Some index =>
                       if Z.of_nat (length (fbytes index)) mod index_key_size =? 0
                       then benchmarkWithIndex fuel nRuns time (Some input) phcs (Some index)
                       else Ok ([], [])
                   end);
              overall reports runTimes
          end
    end.

(** ** Lemmas: counting *)

(** How many of the hashes the file counts. *)
Definition hits (recs : list PHC) (hs : list Hash) : Z :=
  Z.of_nat (length (filter (fun h => 0 < count_of recs (hval h)) hs)).

Section counting.
Context (search : Inspector -> Hash -> option (PHC * Z * Inspector)).
Context (recs : list PHC) (serves : Inspector -> Prop) (domain : Hash -> Prop).
Context (search_ok : forall h i, serves i -> Hash_wf h -> domain h ->
  exists q n i', search i h = Some (q, n, i') /\ answers recs (hval h) q /\ serves i').

Lemma lookup_loop_counts extra (phcs : list PHC) (i : Inspector) (r : Report) :
  serves i -> Forall (fun p => Hash_wf (hash p) /\ domain (hash p)) phcs ->
  exists n, lookup_loop search extra phcs i r =
    Some (MkReport n (found r + hits recs (hash <$> phcs))
      (notFound r + (Z.of_nat (length phcs) - hits recs (hash <$> phcs)))).
Proof using search_ok.
  intros Hi Hp. revert i r Hi. induction Hp as [|p phcs [Hw Hd] Hp IH]; intros i r Hi; cbn [lookup_loop].
  { exists (nReads r). destruct r. unfold hits. simpl. by rewrite !Z.add_0_r. }
  destruct (search_ok (hash p) i Hi Hw Hd) as (q & n & i' & -> & [Hc _] & Hi'). rewrite Hc.
  match goal with |- context [lookup_loop _ _ _ i' ?x] => set (r' := x) end.
  destruct (IH i' r' Hi') as (m & ->). exists m. f_equal. unfold hits.
  rewrite fmap_cons, filter_cons. unfold r'.
  destruct (Z.ltb_spec 0 (count_of recs (hval (hash p)))); [rewrite decide_True by done|rewrite decide_False by lia];
    simpl; f_equal; lia.
Qed.

Lemma run_loop_counts extra (i : Inspector) (phcs : list PHC) (ts : list spec_float) :
  serves i -> Forall (fun p => Hash_wf (hash p) /\ domain (hash p)) phcs ->
  exists rs, run_loop search extra (Some i) phcs ts = Ok (rs, ts) /\ length rs = length ts /\
    Forall (fun r => found r = hits recs (hash <$> phcs) /\
      notFound r = Z.of_nat (length phcs) - hits recs (hash <$> phcs)) rs.
Proof using search_ok.
  intros Hi Hp. induction ts as [|t ts IH]; cbn [run_loop]; [by exists []|].
  destruct (lookup_loop_counts extra phcs i (MkReport 0 0 0) Hi Hp) as (n & ->).
  destruct IH as (rs & -> & Hl & Hrs). cbn [mbind outcome_bind]. eexists. split; [done|].
  split; [simpl; by rewrite Hl|]. constructor; [|done]. by cbn.
Qed.
End counting.

(** The overall times of one run or more. *)
Lemma overall_done reports ts : ts <> [] -> exists b m a, overall reports ts = Ok (Done reports b m a).
Proof.
  intros Hne. unfold overall. pose proof (Permutation_length (std_sort_perm SFltb ts)) as Hl.
  destruct (std_sort SFltb ts) as [|b l] eqn:E; [destruct ts; [done|simpl in Hl; lia]|].
  destruct (lookup_lt_is_Some_2 (b :: l) (length (b :: l) / 2)%nat) as (m & ->); [|eauto].
  apply Nat.div_lt; simpl; lia.
Qed.

(** The file of a test set is read as it is. *)
Lemma read_testset (l : list PHC) : Forall PHC_wf l ->
  read_all (S (length (phc_file l))) PHC_default (open_stream (phc_file l)) = read_into PHC_default <$> l.
Proof.
  intros Hl. rewrite (read_all_from l 0); [|done|done|by split|].
  - by rewrite drop_0.
  - pose proof (length_phc_file l). unfold PHC_size in *. lia.
Qed.

(** What the flag [isValid] is does not matter to the count. *)
Lemma hits_read recs (l : list PHC) q : hits recs (hash <$> (read_into q <$> l)) = hits recs (hash <$> l).
Proof.
  unfold hits. f_equal. induction l as [|p l IH]; [done|]. rewrite !fmap_cons, !filter_cons.
  change (hval (hash (read_into q p))) with (hval (hash p)). case_decide; cbn [length]; [by rewrite IH|exact IH].
Qed.

Lemma hits_all recs hs : Forall (fun h => 0 < count_of recs (hval h)) hs -> hits recs hs = Z.of_nat (length hs).
Proof. intros Hall. unfold hits. induction Hall as [|h hs Hh _ IH]; [done|]. rewrite filter_cons, decide_True by done. simpl. lia. Qed.

Lemma hits_none recs hs : Forall (fun h => count_of recs (hval h) = 0) hs -> hits recs hs = 0.
Proof. intros Hall. unfold hits. rewrite filter_none; [done|]. eapply Forall_impl; [exact Hall|]. simpl. lia. Qed.

(** The number of runs made. *)
Definition runs_made (o : Options) : Z := if nRuns o <? 1 then DefaultNumberOfRuns else nRuns o.

(** Options that lead to the runs. *)
Definition benchmarks (files : list byte -> option file_entry) (recs tests : list PHC) (o : Options) : Prop :=
  help o = false /\ opt_warranty o = false /\ opt_license o = false /\
  inputFilename o <> [] /\ testsetFilename o <> [] /\
  files (inputFilename o) = Some (FileEntry (phc_file recs) true) /\
  files (testsetFilename o) = Some (FileEntry (phc_file tests) true).

(** All runs counted what the records say. *)
Definition counted (recs tests : list PHC) (runs : Z) (rs : list Report) : Prop :=
  Z.of_nat (length rs) = runs /\
  Forall (fun r => found r = hits recs (hash <$> tests) /\
    notFound r = Z.of_nat (length tests) - hits recs (hash <$> tests)) rs.

(** The runs of a search that is right on what it serves. *)
Lemma runs_counted search recs (serves : Inspector -> Prop) (domain : Hash -> Prop) extra i tests time o :
  (forall h i, serves i -> Hash_wf h -> domain h ->
    exists q n i', search i h = Some (q, n, i') /\ answers recs (hval h) q /\ serves i') ->
  serves i -> Forall PHC_wf tests -> Forall (fun p => domain (hash (read_into PHC_default p))) tests ->
  exists rs b m a,
    ('(reports, runTimes) ← run_loop search extra (Some i) (read_into PHC_default <$> tests) (time <$> seqZ 1 (runs_made o));
     overall reports runTimes) = Ok (Done rs b m a) /\ counted recs tests (runs_made o) rs.
Proof.
  intros Hs Hi Hwf Hd.
  destruct (run_loop_counts search recs serves domain Hs extra i (read_into PHC_default <$> tests)
    (time <$> seqZ 1 (runs_made o)) Hi) as (rs & -> & Hl & Hrs).
  { apply Forall_fmap. rewrite Forall_forall in Hwf, Hd |- *. intros p Hp. split; [|by apply Hd].
    destruct (Hwf p Hp) as [[] _]. by split. }
  assert (1 <= runs_made o) by (unfold runs_made, DefaultNumberOfRuns; bool_cases).
  cbn [mbind outcome_bind]. destruct (overall_done rs (time <$> seqZ 1 (runs_made o))) as (b & m & a & ->).
  { intros E%(f_equal length). rewrite length_fmap, length_seqZ in E. simpl in E. lia. }
  exists rs, b, m, a. split; [done|]. split.
  - rewrite Hl, length_fmap, length_seqZ. lia.
  - rewrite hits_read in Hrs. by rewrite length_fmap in Hrs.
Qed.

Lemma benchmark_main_runs fuel files time o recs tests search :
  benchmarks files recs tests o -> Forall PHC_wf tests -> searchCallable fuel (algorithm o) = Some search ->
  benchmark_main fuel files time o =
    ('(reports, runTimes) ←
      (if decide (indexFilename o = []) then
         benchmarkWithoutIndex (runs_made o) time (Some (FileEntry (phc_file recs) true)) (read_into PHC_default <$> tests) search
       else
         match files (indexFilename o) with
         | None => Throws (bs "file_size")
         | Some index =>
             if Z.of_nat (length (fbytes index)) mod index_key_size =? 0
             then benchmarkWithIndex fuel (runs_made o) time (Some (FileEntry (phc_file recs) true))
               (read_into PHC_default <$> tests) (Some index)
             else Ok ([], [])
         end);
     overall reports runTimes).
Proof.
  intros (Hh & Hw & Hl & Hi & Ht & Hfi & Hft) Hwf Hs. unfold benchmark_main. rewrite Hh, Hw, Hl, Hs.
  rewrite decide_False by tauto. rewrite Hfi, Hft. cbn [fopen freadable fbytes snd src open_stream].
  change (IStream true (phc_file tests) 0 false false false) with (open_stream (phc_file tests)).
  by rewrite read_testset by done.
Qed.

(** The position [smart_binsearch] starts at is in the file, or not a whole record behind it. *)
Definition interpolates (recs : list PHC) (h : Hash) : bool :=
  let size := PHC_size * Z.of_nat (length recs) in
  match interpolate size (upper h) with Some P => (0 <=? P) && (P <? size + PHC_size) | None => false end.

(** The hashes that the algorithm of the options finds, if they are there. *)
Definition searchable (recs : list PHC) (o : Options) (h : Hash) : Prop :=
  (exists p, p ∈ recs /\ hval h <= hval (hash p)) /\ (algorithm o = AlgoSmartBinSearch -> interpolates recs h = true).

Lemma search_opened fuel recs o search : lookup_file recs -> recs <> [] -> searchCallable fuel (algorithm o) = Some search ->
  forall h i, opened recs i -> Hash_wf h -> searchable recs o h ->
  exists q n i', search i h = Some (q, n, i') /\ answers recs (hval h) q /\ opened recs i'.
Proof.
  intros Hf Hne Hs h i Hi Hh [(p & Hp & Hle) Hsmart].
  assert (~ Forall (fun p => hval (hash p) < hval h) recs) as Hno.
  { rewrite Forall_forall. intros Hall. specialize (Hall p Hp). lia. }
  unfold searchCallable in Hs. case_decide as Hb; [|case_decide as Hsm; [|done]]; injection Hs as <-.
  - destruct (binsearch_opened recs fuel i h Hf Hi Hh) as (q & n & i' & E & Hq & _ & Hnext).
    exists q, n, i'. auto.
  - specialize (Hsmart Hsm). unfold interpolates in Hsmart. rewrite <- (op_size _ _ Hi) in Hsmart.
    destruct (interpolate (mFileSize i) (upper h)) as [P|] eqn:HP; [|done].
    destruct (smart_binsearch_opened recs fuel i h P Hf Hne Hi Hh HP) as (q & n & i' & E & Hq & Hnext); [lia|].
    exists q, n, i'. auto.
Qed.

(** Without an index every run counts as found exactly the hashes the file counts, provided the
    algorithm can find them. *)
Lemma benchmark_plain fuel files time o recs tests :
  lookup_file recs -> recs <> [] -> benchmarks files recs tests o -> algorithm o ∈ AlgoList -> indexFilename o = [] ->
  Forall PHC_wf tests -> Forall (fun t => searchable recs o (hash t)) tests ->
  exists rs b m a,
    benchmark_main fuel files time o = Ok (Done rs b m a) /\ counted recs tests (runs_made o) rs.
Proof.
  intros Hf Hne Hb Ha Hx Hwf Hbelow.
  assert (exists search, searchCallable fuel (algorithm o) = Some search) as [search Hs].
  { unfold AlgoList in Ha. apply elem_of_cons in Ha as [-> | ->%list_elem_of_singleton]; by eexists. }
  rewrite (benchmark_main_runs fuel files time o recs tests search) by done. rewrite decide_True by done. unfold benchmarkWithoutIndex.
  destruct (open_opened recs Hf) as (i & -> & Hi).
  apply (runs_counted search recs (opened recs) (searchable recs o)); try done. by eapply search_opened.
Qed.

(** ** Properties *)

(** with the index the index tool wrote, the benchmark counts the same, for hashes between
    the keys that occur. *)
Theorem benchmark_indexed_counts bits fuel files time o recs tests out search :
  1 <= bits <= 60 -> lookup_file recs -> recs <> [] -> 2 ^ bits <= Z.of_nat fuel -> (length recs < fuel)%nat ->
  benchmarks files recs tests o -> searchCallable fuel (algorithm o) = Some search -> indexFilename o <> [] ->
  index_main fuel bits (open_stream (phc_file recs)) = Ok out ->
  files (indexFilename o) = Some (FileEntry out true) ->
  Forall PHC_wf tests -> Forall (fun t => bracketed bits recs (hash t)) tests ->
  exists rs b m a,
    benchmark_main fuel files time o = Ok (Done rs b m a) /\ counted recs tests (runs_made o) rs.
Proof.
  intros Hbits Hf Hne Hfuel Hlen Hb Hs Hx Hout Hfx Hwf Hbr.
  rewrite (benchmark_main_runs fuel files time o recs tests search) by done. rewrite decide_False by done. rewrite Hfx.
  apply index_main_written in Hout as ->; [|done..]. cbn [fbytes].
  change (concat (le_split 8 <$> table bits recs)) with (index_file bits recs).
  rewrite length_index_file by lia. rewrite (proj2 (Z.eqb_eq _ _)) by (unfold index_key_size; dlia).
  unfold benchmarkWithIndex. destruct (open_indexed_ok bits recs Hbits Hf) as (i & Ho & Hi).
  rewrite Ho. apply (runs_counted (binsearch fuel) recs (indexed bits recs) (bracketed bits recs)); try done.
  intros h j Hj Hh Hd. by apply (indexed_binsearch bits).
Qed.

(** C23: what the test set extractor takes from a file is found in it by the benchmark, hash by
    hash, and what it draws outside the file is not: in every run, with either algorithm, when
    no index is used.  The test set is one of records, and at least one is asked for.  The file is one for lookups and all its counts are positive (the
    benchmark takes a count of 0 for not found); none of the hashes drawn is above its last
    record, and for the algorithm [smart] the interpolated positions of the hashes are not
    behind the file ([interpolates]).  [benchmark_indexed_counts] is the benchmark with an
    index. *)
Theorem test_set_benchmark fuel first_is_upper files time writable o o' recs :
  lookup_file recs -> recs <> [] -> Forall (fun p => 0 < count p) recs ->
  TestSet.extracts o -> TestSet.writeLoadTestUrls o = false -> 0 < TestSet.N o -> TestSet.N o < Z.of_nat fuel ->
  files (TestSet.inputFilename o) = Some (FileEntry (phc_file recs) true) -> writable (TestSet.outputFilename o) = true ->
  Forall (searchable recs o')
    (if TestSet.onlyNonExistent o then drawn first_is_upper (Z.to_nat (TestSet.N o)) (mt_seed 31337) else hash <$> recs) ->
  algorithm o' ∈ AlgoList -> indexFilename o' = [] ->
  exists tests,
    test_set_main fuel first_is_upper files writable o = Ok (TestSet.Done (phc_file tests)) /\
    forall files', benchmarks files' recs tests o' ->
      exists rs b m a,
        benchmark_main fuel files' time o' = Ok (Done rs b m a) /\ Z.of_nat (length rs) = runs_made o' /\
        Forall (fun r => if TestSet.onlyNonExistent o then found r = 0 /\ notFound r = Z.of_nat (length tests)
                         else found r = TestSet.N o /\ notFound r = 0) rs.
Proof.
  intros Hf Hne Hpos He Hurl Hn Hfuel Hfile Hwr Hdrawn Ha Hx.
  assert (forall l, concat (emit o <$> l) = phc_file l) as Hemit.
  { intros l. unfold phc_file. f_equal. apply list_fmap_ext. intros j p _. unfold emit. by rewrite Hurl. }
  destruct (TestSet.onlyNonExistent o) eqn:Hmode.
  - pose proof (drawn_wf first_is_upper (Z.to_nat (TestSet.N o)) _ (mt_seed_wf 31337)) as Hdwf.
    set (hs := drawn _ _ _) in *.
    assert (Forall (fun h => exists p, p ∈ recs /\ hval h <= hval (hash p)) hs) as Hbelow
      by (eapply Forall_impl; [exact Hdrawn|]; by intros h []).
    set (tests := (fun h => MkPHC h 0) <$> filter (fun h => count_of recs (hval h) = 0) hs). exists tests. split.
    { rewrite (main_nonexistent recs) by (done || lia). fold hs. rewrite <- Hemit. unfold tests. by rewrite <- list_fmap_compose. }
    assert (forall P : PHC -> Prop, Forall (fun h => P (MkPHC h 0)) hs -> Forall P tests) as Htests.
    { intros P HP. apply Forall_fmap, Forall_forall. intros h (_ & Hh)%list_elem_of_filter. rewrite Forall_forall in HP. by apply HP. }
    intros files' Hb. destruct (benchmark_plain fuel files' time o' recs tests) as (rs & b & m & a & E & Hlen & Hrs); try done.
    { apply Htests. eapply Forall_impl; [exact Hdwf|]. intros h Hh. by split. }
    { by apply Htests. }
    exists rs, b, m, a. split; [done|]. split; [done|]. eapply Forall_impl; [exact Hrs|]. intros r.
    rewrite hits_none; [by rewrite Z.sub_0_r|]. unfold tests. rewrite <- list_fmap_compose. apply Forall_fmap, Forall_forall.
    intros h (Hh & _)%list_elem_of_filter. exact Hh.
  - destruct (existent_loop_spec recs o (Z.to_nat (TestSet.N o)) 0 fuel (open_stream (phc_file recs)) PHC_default)
      as (tests & El & Hlen & Hlk); [apply Hf|done|by exists 0|done|lia|lia|lia|lia|]. rewrite Z.mul_0_l in El.
    assert (Forall (fun p => p ∈ recs) tests) as Hin.
    { apply Forall_lookup. intros j p Hp. pose proof (lookup_lt_Some _ _ _ Hp). rewrite Hlk in Hp by lia.
      by eapply list_elem_of_lookup_2. }
    exists tests. split; [rewrite (main_existent recs) by (done || lia); cbv zeta; by rewrite El, <- Hemit|].
    intros files' Hb. destruct (benchmark_plain fuel files' time o' recs tests) as (rs & b & m & a & E & Hl & Hrs); try done.
    { eapply Forall_impl; [exact Hin|]. intros p Hp. pose proof (lf_wf _ Hf) as Hwf. rewrite Forall_forall in Hwf. auto. }
    { rewrite Forall_fmap, Forall_forall in Hdrawn. eapply Forall_impl; [exact Hin|]. intros p Hp. by apply Hdrawn. }
    exists rs, b, m, a. split; [done|]. split; [done|]. eapply Forall_impl; [exact Hrs|]. intros r.
    rewrite hits_all, length_fmap; [intros [-> ->]; split; lia|]. apply Forall_fmap. eapply Forall_impl; [exact Hin|].
    intros p (k & Hp)%list_elem_of_lookup. cbn. rewrite (sorted_count_found recs k p) by (done || apply Hf).
    rewrite Forall_lookup in Hpos. by apply (Hpos k).
Qed.

(** ** Witnesses *)

Definition demo_benchmark_options (index : list byte) : Options :=
  MkOptions false false false (bs "in.md5") (bs "tests.md5") 2 AlgoSmartBinSearch index.

Lemma test_set_benchmark_witness :
  exists tests,
    test_set_main 5 true (fun _ => Some (FileEntry (phc_file top_recs) true)) (fun _ => true)
      (demo_test_options false true 3) = Ok (TestSet.Done (phc_file tests)) /\
    forall files', benchmarks files' top_recs tests (demo_benchmark_options []) ->
      exists rs b m a,
        benchmark_main 5 files' (fun _ => d_of_Z 1) (demo_benchmark_options []) = Ok (Done rs b m a) /\
        Z.of_nat (length rs) = 2 /\ Forall (fun r => found r = 0 /\ notFound r = Z.of_nat (length tests)) rs.
Proof.
  apply (test_set_benchmark 5 true (fun _ => Some (FileEntry (phc_file top_recs) true)) (fun _ => d_of_Z 1) (fun _ => true)
    (demo_test_options false true 3) (demo_benchmark_options []) top_recs).
  - apply top_lookup_file.
  - discriminate.
  - repeat constructor.
  - split_and!; try reflexivity; discriminate.
  - reflexivity.
  - reflexivity.
  - reflexivity.
  - reflexivity.
  - reflexivity.
  - assert (Forall (fun h => interpolates top_recs h = true) (drawn true 3 (mt_seed 31337))) as Hi
      by (apply (bool_decide_unpack _); vm_compute; exact I).
    pose proof (top_above _ (drawn_wf true 3 _ (mt_seed_wf 31337))) as Ha.
    rewrite Forall_forall in Ha, Hi |- *. intros h Hh. split; [apply Ha; exact Hh|intros _; apply Hi; exact Hh].
  - right. left.
  - reflexivity.
Defined.

Definition demo_files (index : list byte) (n : list byte) : option file_entry :=
  if decide (n = bs "in.md5") then Some (FileEntry (phc_file quad_recs) true)
  else if decide (n = bs "tests.md5") then Some (FileEntry (phc_file (take 4 quad_recs)) true)
  else Some (FileEntry index true).

Lemma benchmark_indexed_counts_witness :
  exists rs b m a,
    benchmark_main 6 (demo_files (index_file 2 quad_recs)) (fun _ => d_of_Z 1) (demo_benchmark_options (bs "in.index")) =
      Ok (Done rs b m a) /\ counted quad_recs (take 4 quad_recs) 2 rs.
Proof.
  apply (benchmark_indexed_counts 2 6 (demo_files (index_file 2 quad_recs)) (fun _ => d_of_Z 1)
    (demo_benchmark_options (bs "in.index")) quad_recs (take 4 quad_recs) (index_file 2 quad_recs) (smart_binsearch 6)).
  - lia.
  - apply quad_lookup_file.
  - discriminate.
  - lia.
  - simpl. lia.
  - split_and!; try reflexivity; discriminate.
  - reflexivity.
  - discriminate.
  - vm_compute. reflexivity.
  - reflexivity.
  - apply Forall_take, quad_lookup_file.
  - assert (forall h, 0 <= hkey 2 h < 3 -> bracketed 2 quad_recs h) as Hbr.
    { intros h Hh. split.
      - exists (MkPHC (MkHash 5 0 false) 1). split; [left|]. change (key 2 _) with 0. lia.
      - exists (MkPHC (MkHash (2 ^ 63 + 2 ^ 62) 0 false) 4). split; [do 4 right; left|]. change (key 2 _) with 3. lia. }
    repeat constructor; apply Hbr; vm_compute; split; congruence.
Defined.

(** An index of a size that is no multiple of eight is reported, and then the first of no
    times is taken. *)
Example benchmark_bad_index :
  benchmark_main 6 (demo_files [x00]) (fun _ => d_of_Z 1) (demo_benchmark_options (bs "in.index")) = Undefined.
Proof. vm_compute. reflexivity. Qed.
