(* ===== verification/LoadTest.v ===== *)
(** * pwned-server/loadtest: the client of the web service

    An [HttpClientWorker] asks the service for hashes it draws from a file, one request after
    the other, driven by the completion of its asynchronous operations; [loadtest.cpp] starts
    the workers and adds their counts up.  Boost (asio, beast, the JSON reader) and OpenSSL are
    not part of the repository: what they decide is in the events or a parameter. *)

From Stdlib Require Import Floats.SpecFloat.
From S2P Require Import Prelude Decimal Stream Util Hash Phc Inspector Random Regex Uri Units.
From stdpp Require Import options.

(** ** httpclientworker.cpp *)

Definition ExpiresAfterSecs : Z := 30.

(** An error code, as far as the worker tells them apart. *)
Inductive Ec := EcNone | EcEof | EcTruncated | EcNotConnected | EcOther.

(** The request [mReq]. *)
Record ClientRequest := MkClientRequest {
  cr_version : Z;
  cr_target : list byte;
  cr_fields : list (list byte * list byte) }.

(** The asynchronous operation under way. *)
Inductive CPending := CNone | CResolve (host service : list byte) | CConnect | CHandshake | CWrite | CRead | CShutdown.

(** What completes next; the clock readings are those of the handler. *)
Inductive CEvent :=
  | CResolved (ok : bool) (results : list (list byte))
  | CConnected (ok : bool)
  | CHandshook (ok : bool)
  | CWritten (ok : bool)
  | CReadDone (ok : bool) (body : list byte) (shutdown : Ec) (t_rtt t_restart t_start : Z)
  | CShutdownDone (ec : Ec) (t_restart t_start : Z).

(** [HttpClientWorker]; times in nanoseconds. *)
Record Client := MkClient {
  mResolverResults : list (list byte);
  mSSLStream : bool;                    (** whether the optional holds a stream *)
  mReq : option ClientRequest;
  mRes : list byte;                     (** the body *)
  mGen : mt_state;
  mInputOpen : bool;
  mInputFile : istream;
  mInputSize : Z;
  mT0 : Z; mT1 : Z; mTStop : Z;
  mRequestCount : Z;
  mRTTt0 : Z;
  mRTT : list Z;
  mURI : URI;
  cpending : CPending }.

(** The accessors. *)
Module ClientAccessors.
Definition requestCount (c : Client) : Z := mRequestCount c.
Definition rtts (c : Client) : list Z := mRTT c.
Definition dt (c : Client) : Z := mTStop c - mT0 c.
Definition t0 (c : Client) : Z := mT0 c.
Definition t1 (c : Client) : Z := mT1 c.
Definition tStop (c : Client) : Z := mTStop c.
End ClientAccessors.

(** Assignments to the members. *)
Definition set_pending (p : CPending) (c : Client) : Client :=
  MkClient (mResolverResults c) (mSSLStream c) (mReq c) (mRes c) (mGen c) (mInputOpen c) (mInputFile c) (mInputSize c)
    (mT0 c) (mT1 c) (mTStop c) (mRequestCount c) (mRTTt0 c) (mRTT c) (mURI c) p.
Definition set_ssl (b : bool) (c : Client) : Client :=
  MkClient (mResolverResults c) b (mReq c) (mRes c) (mGen c) (mInputOpen c) (mInputFile c) (mInputSize c)
    (mT0 c) (mT1 c) (mTStop c) (mRequestCount c) (mRTTt0 c) (mRTT c) (mURI c) (cpending c).
Definition set_input (gen : mt_state) (f : istream) (c : Client) : Client :=
  MkClient (mResolverResults c) (mSSLStream c) (mReq c) (mRes c) gen (mInputOpen c) f (mInputSize c)
    (mT0 c) (mT1 c) (mTStop c) (mRequestCount c) (mRTTt0 c) (mRTT c) (mURI c) (cpending c).
Definition set_request (r : ClientRequest) (now : Z) (c : Client) : Client :=
  MkClient (mResolverResults c) (mSSLStream c) (Some r) (mRes c) (mGen c) (mInputOpen c) (mInputFile c) (mInputSize c)
    (mT0 c) (mT1 c) (mTStop c) (mRequestCount c) now (mRTT c) (mURI c) (cpending c).
Definition set_results (results : list (list byte)) (c : Client) : Client :=
  MkClient results (mSSLStream c) (mReq c) (mRes c) (mGen c) (mInputOpen c) (mInputFile c) (mInputSize c)
    (mT0 c) (mT1 c) (mTStop c) (mRequestCount c) (mRTTt0 c) (mRTT c) (mURI c) (cpending c).
Definition set_response (body : list byte) (c : Client) : Client :=
  MkClient (mResolverResults c) (mSSLStream c) (mReq c) body (mGen c) (mInputOpen c) (mInputFile c) (mInputSize c)
    (mT0 c) (mT1 c) (mTStop c) (mRequestCount c) (mRTTt0 c) (mRTT c) (mURI c) (cpending c).
Definition set_stop (now : Z) (c : Client) : Client :=
  MkClient (mResolverResults c) (mSSLStream c) (mReq c) (mRes c) (mGen c) (mInputOpen c) (mInputFile c) (mInputSize c)
    (mT0 c) (mT1 c) now (mRequestCount c) (mRTTt0 c) (mRTT c) (mURI c) (cpending c).
Definition push_rtt (rtt : Z) (c : Client) : Client :=
  MkClient (mResolverResults c) (mSSLStream c) (mReq c) (mRes c) (mGen c) (mInputOpen c) (mInputFile c) (mInputSize c)
    (mT0 c) (mT1 c) (mTStop c) (u64 (mRequestCount c + 1)) (mRTTt0 c) (mRTT c ++ [rtt]) (mURI c) (cpending c).

(** The worker gives up: nothing is under way any more. *)
Definition stop : Client -> Client := set_pending CNone.

Section client.
Context (split : list byte -> byte -> list (list byte)).
(** Whether [SSL_set_tlsext_host_name] accepts a host, and [read_json] a text. *)
Context (set_tlsext_host_name : list byte -> bool) (read_json : list byte -> bool).

(** The constructor: a missing file makes [file_size] throw. *)
Definition HttpClientWorker (address : list byte) (inputFile : option file_entry) (runtimeSecs id now : Z) : outcome Client :=
  match inputFile with
  | None => Throws (bs "file_size")
  | Some e =>
      let '(is_open, f) := fopen e in
      uri ← URI_ctor split address;
      Ok (MkClient [] false None [] (mt_seed (u64 id)) is_open f (Z.of_nat (length (fbytes e)))
        now (now + runtimeSecs * 10 ^ 9) 0 0 0 [] uri CNone)
  end.

(** [void connect()], up to the completion. *)
Definition connect (c : Client) : Client := set_pending CConnect c.

Definition is_https (c : Client) : bool := bool_decide (Accessors.scheme (mURI c) = bs "https").

(** The request for the record drawn. *)
Definition request_for (uri : URI) (phc : PHC) : ClientRequest :=
  MkClientRequest 11 (Accessors.path uri ++ bs "?hash=" ++ toString false (hash phc))
    [(bs "Host", Accessors.host uri); (bs "User-Agent", bs "#pwned load test")].

(** [void start()]; the remainder by a size of zero is undefined. *)
Definition start (now : Z) (c : Client) : outcome Client :=
  if negb (mInputOpen c) then Ok (stop c)
  else
    let c := if is_https c then set_ssl true c else c in
    if is_https c && negb (set_tlsext_host_name (Accessors.host (mURI c))) then Ok (stop c)
    else if mInputSize c =? 0 then Undefined
    else
      let '(r, gen) := mt_next (mGen c) in
      let pos := i64 (r mod mInputSize c) in
      let idx := pos - Z.rem pos PHC_size in
      let '(ok, phc, f) := PHC_read_at PHC_default (mInputFile c) idx in
      let c := set_input gen f c in
      if negb ok then Ok (stop c)
      else
        let c := set_request (request_for (mURI c) phc) now c in
        if (0 <? length (mResolverResults c))%nat then Ok (connect c)
        else Ok (set_pending (CResolve (Accessors.host (mURI c)) (to_string (Accessors.port (mURI c)))) c).

(** [void restart()] *)
Definition restart (t_restart t_start : Z) (c : Client) : outcome Client :=
  let c := set_response [] c in
  let c := set_stop t_restart c in
  if t_restart <? mT1 c then start t_start (set_ssl false c) else Ok (stop c).

Definition onResolve (ok : bool) (results : list (list byte)) (c : Client) : Client :=
  if negb ok then stop c else connect (set_results results c).
Definition onConnect (ok : bool) (c : Client) : Client :=
  if negb ok then stop c else if mSSLStream c then set_pending CHandshake c else set_pending CWrite c.
Definition onHandshake (ok : bool) (c : Client) : Client :=
  if negb ok then stop c else set_pending CWrite c.
Definition onWrite (ok : bool) (c : Client) : Client :=
  if negb ok then stop c else set_pending CRead c.

Definition onRead (ok : bool) (body : list byte) (shutdown : Ec) (t_rtt t_restart t_start : Z) (c : Client) : outcome Client :=
  if negb ok then Ok (stop c)
  else
    let c := set_response body c in
    if negb (read_json body) then Ok (stop c)
    else
      let c := push_rtt (t_rtt - mRTTt0 c) c in
      if mSSLStream c then Ok (set_pending CShutdown c)
      else
        match shutdown with
        | EcNone | EcNotConnected => restart t_restart t_start c
        | _ => Ok (stop c)
        end.

Definition onShutdown (ec : Ec) (t_restart t_start : Z) (c : Client) : outcome Client :=
  match ec with
  | EcNone | EcEof | EcTruncated => restart t_restart t_start c
  | _ => Ok (stop c)
  end.

(** The completion handlers; [None]: no such operation is under way. *)
Definition client_handle (e : CEvent) (c : Client) : option (outcome Client) :=
  match e, cpending c with
  | CResolved ok results, CResolve _ _ => Some (Ok (onResolve ok results c))
  | CConnected ok, CConnect => Some (Ok (onConnect ok c))
  | CHandshook ok, CHandshake => Some (Ok (onHandshake ok c))
  | CWritten ok, CWrite => Some (Ok (onWrite ok c))
  | CReadDone ok body sh t1 t2 t3, CRead => Some (onRead ok body sh t1 t2 t3 c)
  | CShutdownDone ec t2 t3, CShutdown => Some (onShutdown ec t2 t3 c)
  | _, _ => None
  end.

Fixpoint client_run (es : list CEvent) (c : Client) : option (outcome Client) :=
  match es with
  | [] => Some (Ok c)
  | e :: es => match client_handle e c with Some (Ok c) => client_run es c | r => r end
  end.
End client.

(** ** loadtest.cpp *)

(** [progress]: the text printed, and whether the timer is set again.  The factor 1e-9 is the
    [double] nearest to it. *)
Definition nano : spec_float := S754_finite false 4835703278458517 (-82).
Definition d_mul : spec_float -> spec_float -> spec_float := SFmul 53 1024.

Definition BufSize : nat := 20.

Definition progress (now : Z) (worker : Client) (timeoutSecs : spec_float) : outcome (list byte * bool) :=
  let dt := d_mul nano (d_of_Z (now - ClientAccessors.t0 worker)) in
  let tBuf := take (BufSize - 1) (fixed 2 dt) in
  pct ← as_int (d_round (d_div (d_mul (d_of_Z 100) dt) timeoutSecs));
  let pctBuf := take (BufSize - 1) (to_string pct) in
  Ok (x0d :: tBuf ++ bs "s (" ++ pctBuf ++ bs "%)", SFltb dt timeoutSecs).

Record Options := MkOptions {
  help : bool; inputFilename : list byte; serverAddress : list byte;
  runtimeSecs : Z; numWorkers : Z; numThreads : Z }.

Definition DefaultNumWorkers : Z := 64.
Definition DefaultRuntimeSecs : Z := 10.

(** The numbers of the last lines: the round trip times are left out when there is none. *)
Record Summary := MkSummary {
  totalRequests : Z;
  totalRuntime : Z;
  rtt_summary : option (Z * Z * Z * Z * nat) (** first, last, total, middle, number *) }.

Inductive Exit :=
  | ParserError | Usage | NoInput
  | Error                        (** an exception was caught *)
  | Done (s : Summary).

(** The addition of [int64_t]: an overflow is undefined. *)
Definition add_i64 (a b : Z) : outcome Z := defined_if ((- 2 ^ 63 <=? a + b) && (a + b <? 2 ^ 63)) (Ok (a + b)).
(** [totalRTT += rtt.count()] for all of them. *)
Fixpoint sum_rtts (total : Z) (rtts : list Z) : outcome Z :=
  match rtts with
  | [] => Ok total
  | rtt :: rtts => total ← add_i64 total rtt; sum_rtts total rtts
  end.

(** The two loops over the workers and the lines printed; [totalRequests] is added to as an
    unsigned number. *)
Definition summary (workers : list Client) : outcome Summary :=
  let total := foldl (fun n c => i64 (n + ClientAccessors.requestCount c)) 0 workers in
  let runtime := foldl (fun t c => if t <? ClientAccessors.dt c then ClientAccessors.dt c else t) 0 workers in
  let rtts := std_sort Z.ltb (concat (ClientAccessors.rtts <$> workers)) in
  totalRTT ← sum_rtts 0 rtts;
  Ok (MkSummary total runtime
    (match rtts with
     | [] => None
     | front :: _ =>
         Some (front, default front (last rtts), totalRTT, default front (rtts !! (length rtts / 2)%nat), length rtts)
     end)).

(** ** root_certificates.cpp

    The table is written by a script into a header of its own, a text literal without a zero
    byte; the context of OpenSSL and what it makes of the table are parameters. *)
Module RootCertificates.
Section root_certificates.
Context {SslContext : Type} (ROOT_CERTIFICATES : list byte).
Context (add_certificate_authority : list byte -> SslContext -> SslContext * Ec).

(** The overload with an error code. *)
Definition load_root_certificates_ec (ctx : SslContext) : SslContext * Ec :=
  let cert := ROOT_CERTIFICATES in add_certificate_authority cert ctx.

(** The overload that throws. *)
Definition load_root_certificates (ctx : SslContext) : outcome SslContext :=
  match load_root_certificates_ec ctx with
  | (ctx, EcNone) => Ok ctx
  | _ => Throws (bs "system_error")
  end.

Lemma load_root_certificates_ok ctx ctx' : load_root_certificates ctx = Ok ctx' <-> load_root_certificates_ec ctx = (ctx', EcNone).
Proof. unfold load_root_certificates. destruct (load_root_certificates_ec ctx) as [c []]; split; congruence. Qed.
End root_certificates.
End RootCertificates.

Section loadtest.
Context (split : list byte -> byte -> list (list byte)).
Context (set_tlsext_host_name : list byte -> bool) (read_json : list byte -> bool).
(** The clock, as the [k]-th worker made reads it in its constructor and in [start]. *)
Context (clock : nat -> Z * Z).

(** [for (int id = 0; id < numWorkers; ++id)] *)
Fixpoint make_workers (k : nat) (id : nat) (o : Options) (secs : Z) (files : list byte -> option file_entry) : outcome (list Client) :=
  match k with
  | O => Ok []
  | S k =>
      c ← HttpClientWorker split (serverAddress o) (files (inputFilename o)) secs (Z.of_nat id) (fst (clock id));
      c ← start set_tlsext_host_name (snd (clock id)) c;
      cs ← make_workers k (S id) o secs files;
      Ok (c :: cs)
  end.

(** [ioc.run()], in all threads: an event is the completion of the operation that worker [i] has
    under way; [None] is that it has no such operation. *)
Fixpoint ioc_run (es : list (nat * CEvent)) (cs : list Client) : option (outcome (list Client)) :=
  match es with
  | [] => Some (Ok cs)
  | (i, e) :: es =>
      match cs !! i with
      | None => None
      | Some c =>
          match client_handle set_tlsext_host_name read_json e c with
          | Some (Ok c) => ioc_run es (<[i := c]> cs)
          | Some r => Some (r ≫= fun _ => Ok cs)
          | None => None
          end
      end
  end.
(** It returns when nothing is under way. *)
Definition out_of_work (cs : list Client) : bool :=
  forallb (fun c => match cpending c with CNone => true | _ => false end) cs.

(** [threads.reserve(size_t(numThreads))]: the size of a negative number is more than a vector
    can have. *)
Definition reserve (numThreads : Z) : outcome unit :=
  if u64 numThreads <? 2 ^ 60 then Ok tt else Throws (bs "vector::reserve").

(** The body of the [try]. *)
Definition run_test (es : list (nat * CEvent)) (files : list byte -> option file_entry) (o : Options) (workers secs : Z) :
    option (outcome Summary) :=
  match (_ ← URI_ctor split (serverAddress o); make_workers (Z.to_nat workers) 0 o secs files) with
  | Ok cs =>
      match reserve (numThreads o) with
      | Ok _ =>
          match ioc_run es cs with
          | Some (Ok cs) => if out_of_work cs then Some (summary cs) else None
          | Some r => Some (r ≫= summary)
          | None => None
          end
      | r => Some (_ ← r; summary cs)
      end
  | r => Some (r ≫= summary)
  end.

(** [main] after the options are parsed; [parsed] is false when the parser failed.  [es] is
    what completes, in this order; [None] is that it cannot be all. *)
Definition loadtest_main (parsed : bool) (es : list (nat * CEvent)) (files : list byte -> option file_entry) (o : Options) :
    option (outcome Exit) :=
  if negb parsed then Some (Ok ParserError)
  else if help o then Some (Ok Usage)
  else if decide (inputFilename o = []) then Some (Ok NoInput)
  else
    let workers := if numWorkers o <? 1 then DefaultNumWorkers else numWorkers o in
    let secs := if runtimeSecs o <? 1 then DefaultRuntimeSecs else runtimeSecs o in
    match run_test es files o workers secs with
    | Some (Throws _) => Some (Ok Error)
    | Some r => Some (Done <$> r)
    | None => None
    end.
End loadtest.

(** ** What a worker keeps *)

(** A worker over the file of [recs] that asks the service at [uri]. *)
Record Supplied (recs : list PHC) (uri : URI) (c : Client) : Prop := {
  su_uri : mURI c = uri;
  su_open : mInputOpen c = true;
  su_size : mInputSize c = PHC_size * Z.of_nat (length recs);
  su_file : readable recs (mInputFile c);
  su_gen : mt_wf (mGen c);
  su_count : mRequestCount c = u64 (Z.of_nat (length (mRTT c))) }.

(** While something is under way, the request is for a record of the file, and the stream is
    encrypted exactly when the scheme says so. *)
Record Loading (recs : list PHC) (uri : URI) (c : Client) : Prop := {
  ld_supplied : Supplied recs uri c;
  ld_request : cpending c <> CNone -> exists p, p ∈ recs /\ mReq c = Some (request_for uri p);
  ld_ssl : cpending c <> CNone -> mSSLStream c = is_https c;
  ld_secure : cpending c = CHandshake \/ cpending c = CShutdown -> is_https c = true }.

(** ** Lemmas: one request *)

Section requests.
Context (set_tlsext_host_name : list byte -> bool) (read_json : list byte -> bool).
Context (recs : list PHC) (Hwf : Forall PHC_wf recs) (Hne : recs <> []) (Hsize : PHC_size * Z.of_nat (length recs) < 2 ^ 62).
#[local] Set Default Proof Using "All".

(** The record drawn is one of the file. *)
Lemma draw_record r f :
  0 <= r -> readable recs f ->
  let pos := i64 (r mod (PHC_size * Z.of_nat (length recs))) in
  exists p f', PHC_read_at PHC_default f (pos - Z.rem pos PHC_size) = (true, read_into PHC_default p, f') /\
    p ∈ recs /\ readable recs f'.
Proof.
  intros Hr (pos0 & Hpos0 & Hat) pos. set (size := PHC_size * Z.of_nat (length recs)) in *.
  assert (0 < size) as Hs by (unfold size, PHC_size; destruct recs; [done|simpl; lia]).
  pose proof (Z.mod_pos_bound r size Hs) as Hm. assert (pos = r mod size) as Hpos by (unfold pos; apply i64_small; lia).
  clearbody pos. subst pos. set (pos := r mod size) in *. rewrite Z.rem_mod_nonneg by (done || lia).
  set (m := pos / PHC_size). assert (0 <= m < Z.of_nat (length recs)) as Hmb.
  { unfold m, size, PHC_size in *. split; dlia. }
  replace (pos - pos mod PHC_size) with (PHC_size * Z.of_nat (Z.to_nat m)) by (unfold m, PHC_size; dlia).
  destruct (recs !! Z.to_nat m) as [p|] eqn:Hp; [|apply lookup_ge_None in Hp; lia].
  assert (PHC_wf p) as Hpwf by (rewrite Forall_forall in Hwf; by eapply Hwf, list_elem_of_lookup_2).
  unfold PHC_read_at. erewrite (PHC_read_ok recs (Z.to_nat m) p); [|by eapply seekg_good; [|unfold PHC_size; lia]|done|done].
  exists p. eexists. split; [done|]. split; [by eapply list_elem_of_lookup_2|].
  exists (PHC_size * Z.of_nat (S (Z.to_nat m))). split; [unfold PHC_size; lia|done].
Qed.

(** [start] never fails on a file with records; it waits for the resolver the first time, then
    for the connection, or gives up when the host name is refused. *)
Lemma start_loading uri now c :
  Supplied recs uri c -> mSSLStream c = false ->
  exists c', start set_tlsext_host_name now c = Ok c' /\ Loading recs uri c' /\
    (mRequestCount c' = mRequestCount c /\ mRTT c' = mRTT c /\ mResolverResults c' = mResolverResults c /\ mT1 c' = mT1 c) /\
    (is_https c = false -> cpending c' =
      if (0 <? length (mResolverResults c))%nat then CConnect
      else CResolve (Accessors.host uri) (to_string (Accessors.port uri))).
Proof.
  intros [Hu Ho Hs Hf Hg Hc] Hssl. unfold start. rewrite Ho. cbn [negb].
  set (c1 := if is_https c then set_ssl true c else c).
  assert (mGen c1 = mGen c /\ mInputFile c1 = mInputFile c /\ mInputSize c1 = mInputSize c /\ mURI c1 = uri /\
    mSSLStream c1 = is_https c1 /\ is_https c1 = is_https c /\ mResolverResults c1 = mResolverResults c /\
    mRequestCount c1 = mRequestCount c /\ mRTT c1 = mRTT c /\ mT1 c1 = mT1 c /\ mInputOpen c1 = true) as
    (E1 & E2 & E3 & E4 & E5 & E6 & E7 & E8 & E9 & E10 & E11).
  { unfold c1. destruct (is_https c) eqn:E; [|by rewrite Hssl, E]. split_and!; try done. }
  clearbody c1. rewrite E6. destruct (is_https c && negb _) eqn:Etls.
  { exists (stop c1). split; [done|]. apply andb_true_iff in Etls as [Eh _]. split; [|split; [done|by rewrite Eh]].
    split; [|done|done|by intros []]. split; cbn; congruence. }
  rewrite E3, Hs. pose proof (length_phc_file recs). rewrite (proj2 (Z.eqb_neq _ _)).
  2: { unfold PHC_size. destruct recs; [done|]. simpl. lia. }
  pose proof (mt_next_wf (mGen c) Hg) as [Hr Hgen]. rewrite E1. destruct (mt_next (mGen c)) as [r gen]. cbn [fst snd] in *.
  destruct (draw_record r (mInputFile c) ltac:(lia) Hf) as (p & f' & Hread & Hp & Hf'). rewrite E2.
  cbv zeta in Hread |- *. rewrite Hread. cbn [negb]. cbn [mResolverResults set_request set_input].
  assert (Supplied recs uri (set_request (request_for uri p) now (set_input gen f' c1))) as Hsup.
  { split; cbn; try done; congruence. }
  change (request_for (mURI (set_input gen f' c1)) (read_into PHC_default p)) with (request_for (mURI c1) p).
  rewrite E4, E7. destruct (0 <? length (mResolverResults c))%nat; eexists; (split; [done|]); cbn.
  all: split; [|split; [by split_and!|intros _; by rewrite ?E4]]; split; [|by eauto|done|by intros []].
  all: destruct Hsup; by split.
Qed.

(** Every handler keeps the worker loading, and none is undefined. *)
Lemma client_handle_loading uri e c : Loading recs uri c ->
  match client_handle set_tlsext_host_name read_json e c with
  | Some (Ok c') => Loading recs uri c' | Some _ => False | None => True
  end.
Proof.
  intros [Hs Hr Hl Hsec]. assert (forall c', Supplied recs uri c' -> Loading recs uri (stop c')) as Hstop.
  { intros c' []. split; [by split|done|done|by intros []]. }
  assert (forall c' t1 t2, Supplied recs uri c' ->
    match restart set_tlsext_host_name t1 t2 c' with Ok c'' => Loading recs uri c'' | _ => False end) as Hrestart.
  { intros c' t1 t2 Hs'. unfold restart. assert (Supplied recs uri (set_stop t1 (set_response [] c'))) as Hs1 by (destruct Hs'; by split).
    destruct (t1 <? _); [|by apply Hstop].
    destruct (start_loading uri t2 (set_ssl false (set_stop t1 (set_response [] c')))) as (c2 & -> & Hc2 & _);
      [destruct Hs1; by split|done|done]. }
  destruct e as [ok results|ok|ok|ok|ok body sh t1 t2 t3|ec t2 t3]; cbn [client_handle]; destruct (cpending c) eqn:Ep; try done;
    specialize (Hr ltac:(done)); specialize (Hl ltac:(done)).
  - unfold onResolve. destruct ok; [|by apply Hstop]. split; [destruct Hs; by split|done|done|by intros []].
  - unfold onConnect. destruct ok; [|by apply Hstop]. cbn [negb]. destruct (mSSLStream c) eqn:E.
    + split; [destruct Hs; by split|done|intros _; exact (eq_trans E Hl)|intros _; exact (eq_sym Hl)].
    + split; [destruct Hs; by split|done|intros _; exact (eq_trans E Hl)|by intros []].
  - unfold onHandshake. destruct ok; [|by apply Hstop]. split; [destruct Hs; by split|done|done|by intros []].
  - unfold onWrite. destruct ok; [|by apply Hstop]. split; [destruct Hs; by split|done|done|by intros []].
  - unfold onRead. destruct ok; [|by apply Hstop]. cbn [negb].
    assert (Supplied recs uri (set_response body c)) as Hs1 by (destruct Hs; by split).
    destruct (read_json body); [|by apply Hstop]. cbn [negb].
    set (c1 := push_rtt _ _). assert (Supplied recs uri c1) as Hs2.
    { destruct Hs1 as [? ? ? ? ? Hc]. split; try done. cbn. cbn in Hc. rewrite Hc, length_app. unfold u64.
      rewrite Zplus_mod_idemp_l. f_equal. cbn. lia. }
    change (mSSLStream c1) with (mSSLStream c). destruct (mSSLStream c) eqn:E.
    + split; [destruct Hs2; by split|done|intros _; exact (eq_trans E Hl)|intros _; exact (eq_sym Hl)].
    + destruct sh; first [apply Hrestart; done | by apply Hstop].
  - unfold onShutdown. destruct ec; first [apply Hrestart; done | by apply Hstop].
Qed.

Lemma client_run_loading uri es c : Loading recs uri c ->
  match client_run set_tlsext_host_name read_json es c with
  | Some (Ok c') => Loading recs uri c' | Some _ => False | None => True
  end.
Proof.
  revert c. induction es as [|e es IH]; intros c Hc; [done|]. cbn [client_run]. pose proof (client_handle_loading uri e c Hc) as He.
  destruct (client_handle _ _ e c) as [[]|]; try done. by apply IH.
Qed.
End requests.

(** ** Lemmas: the summary *)

Lemma sort_le (l : list Z) : StronglySorted Z.le (std_sort Z.ltb l).
Proof.
  assert (forall x k, StronglySorted Z.le k -> StronglySorted Z.le (insert_by Z.ltb x k)) as Hins.
  { intros x k Hk. induction Hk as [|y k Hk IH Hy]; cbn [insert_by]; [by repeat constructor|].
    destruct (Z.ltb_spec y x) as [Hlt|Hge].
    - constructor; [done|]. rewrite (insert_by_perm Z.ltb x k). constructor; [lia|done].
    - constructor; [by constructor|]. constructor; [lia|]. eapply Forall_impl; [exact Hy|]. simpl. lia. }
  induction l as [|x l IH]; cbn [std_sort]; [constructor|by apply Hins].
Qed.

Lemma sum_requests cs n :
  Forall (fun c => mRequestCount c = u64 (Z.of_nat (length (mRTT c)))) cs -> 0 <= n ->
  n + Z.of_nat (length (concat (mRTT <$> cs))) < 2 ^ 63 ->
  foldl (fun n c => i64 (n + ClientAccessors.requestCount c)) n cs = n + Z.of_nat (length (concat (mRTT <$> cs))).
Proof.
  intros Hc. revert n. induction Hc as [|c cs Hc _ IH]; intros n Hn Hlt; [cbn; lia|].
  rewrite fmap_cons in Hlt |- *. cbn [concat foldl] in *. rewrite length_app in Hlt |- *. unfold ClientAccessors.requestCount at 2.
  rewrite Hc, u64_small, i64_small by lia. rewrite IH by lia. lia.
Qed.

Lemma sum_rtts_ok l n : Z.abs n + sum_Z (Z.abs <$> l) < 2 ^ 63 -> sum_rtts n l = Ok (n + sum_Z l).
Proof.
  revert n. induction l as [|x l IH]; intros n Hb; [cbn; by rewrite Z.add_0_r|]. cbn [fmap list_fmap sum_Z foldr] in Hb. fold (sum_Z (Z.abs <$> l)) in Hb.
  assert (0 <= sum_Z (Z.abs <$> l)) by (clear; induction l; [done|]; cbn [fmap list_fmap sum_Z foldr]; fold (sum_Z (Z.abs <$> l)); lia).
  cbn [sum_rtts]. unfold add_i64. rewrite (proj2 (Z.leb_le _ _)), (proj2 (Z.ltb_lt _ _)) by lia. cbn [andb defined_if mbind outcome_bind].
  rewrite IH by lia. cbn [sum_Z foldr]. fold (sum_Z l). f_equal. lia.
Qed.

(** What the lines printed say, for workers whose counts are those of their round trips. *)
Definition summary_right (cs : list Client) (s : Summary) : Prop :=
  let rtts := concat (mRTT <$> cs) in
  totalRequests s = Z.of_nat (length rtts) /\
  match rtt_summary s with
  | None => rtts = []
  | Some (first, last, total, middle, number) =>
      first ∈ rtts /\ last ∈ rtts /\ middle ∈ rtts /\ Forall (fun t => first <= t <= last) rtts /\
      total = sum_Z rtts /\ number = length rtts
  end.

Lemma summary_ok cs :
  Forall (fun c => mRequestCount c = u64 (Z.of_nat (length (mRTT c)))) cs ->
  Z.of_nat (length (concat (mRTT <$> cs))) < 2 ^ 63 -> sum_Z (Z.abs <$> concat (mRTT <$> cs)) < 2 ^ 63 ->
  exists s, summary cs = Ok s /\ summary_right cs s.
Proof.
  intros Hc Hlt Hsum. unfold summary_right, summary. rewrite sum_requests by (done || lia).
  change (ClientAccessors.rtts <$> cs) with (mRTT <$> cs). set (l := concat (mRTT <$> cs)) in *.
  pose proof (std_sort_perm Z.ltb l) as Hperm. pose proof (sort_le l) as Hsorted.
  rewrite sum_rtts_ok by by rewrite (sum_Z_perm _ _ (fmap_Permutation Z.abs _ _ Hperm)).
  rewrite (sum_Z_perm _ _ Hperm). cbn [mbind outcome_bind]. eexists. split; [done|]. cbn [totalRequests rtt_summary]. split; [done|].
  destruct (std_sort Z.ltb l) as [|front k] eqn:E; [by apply Permutation_nil_l in Hperm|].
  rewrite Z.add_0_l, (Permutation_length Hperm). assert (forall x, x ∈ front :: k -> x ∈ l) as Hin by (intros x; by rewrite Hperm).
  destruct (@exists_last _ (front :: k)) as (l' & b & Hlast); [done|].
  assert (last (front :: k) = Some b /\ b ∈ front :: k) as [-> Hb] by (rewrite Hlast, last_snoc; set_solver).
  assert (Forall (fun t => front <= t <= b) (front :: k)) as Hall.
  { apply Forall_forall. intros x Hx. split.
    - apply StronglySorted_inv in Hsorted as [_ Hf]. apply elem_of_cons in Hx as [->|Hx]; [lia|].
      rewrite Forall_forall in Hf. by apply Hf.
    - rewrite Hlast in Hx, Hsorted. apply elem_of_app in Hx as [Hx| ->%list_elem_of_singleton]; [|lia].
      eapply StronglySorted_app_1_elem_of; [exact Hsorted|exact Hx|set_solver]. }
  destruct (lookup_lt_is_Some_2 (front :: k) (length l / 2)%nat) as (m & Hm).
  { rewrite <- (Permutation_length Hperm). apply Nat.div_lt; simpl; lia. }
  rewrite Hm. cbn [default from_option id]. split_and!; [apply Hin; left|by apply Hin|by apply Hin; eapply list_elem_of_lookup_2| |done|done].
  by rewrite <- Hperm.
Qed.

(** ** Lemmas: the threads *)

Lemma reserve_negative k : - 2 ^ 31 <= k < 0 -> reserve k = Throws (bs "vector::reserve").
Proof.
  intros Hk. unfold reserve. rewrite (proj2 (Z.ltb_ge _ _)); [done|].
  assert (u64 k = k + 2 ^ 64) as ->; [|lia]. unfold u64. symmetry. apply (Z.mod_unique_pos _ _ (-1)); lia.
Qed.
Lemma reserve_ok k : 0 <= k < 2 ^ 31 -> reserve k = Ok tt.
Proof. intros Hk. unfold reserve. by rewrite u64_small, (proj2 (Z.ltb_lt _ _)) by lia. Qed.

(** ** Properties *)

Section properties.
Context (split : list byte -> byte -> list (list byte)).
Context (set_tlsext_host_name : list byte -> bool) (read_json : list byte -> bool).
Context (recs : list PHC) (Hwf : Forall PHC_wf recs) (Hne : recs <> []) (Hsize : PHC_size * Z.of_nat (length recs) < 2 ^ 62).
#[local] Set Default Proof Using "All".

Lemma make_workers_loading clock k id o secs files uri :
  URI_ctor split (serverAddress o) = Ok uri -> files (inputFilename o) = Some (FileEntry (phc_file recs) true) ->
  exists cs, make_workers split set_tlsext_host_name clock k id o secs files = Ok cs /\ length cs = k /\
    Forall (Loading recs uri) cs.
Proof.
  intros Huri Hfile. revert id. induction k as [|k IH]; intros id; cbn [make_workers]; [by exists []|].
  rewrite Hfile. unfold HttpClientWorker. cbn [fopen freadable fbytes]. rewrite Huri. cbn [mbind outcome_bind].
  set (c := MkClient _ _ _ _ _ _ _ _ _ _ _ _ _ _ _ _). assert (Supplied recs uri c) as Hs.
  { split; cbn; try done; [apply length_phc_file|by exists 0|apply mt_seed_wf]. }
  destruct (start_loading set_tlsext_host_name read_json recs Hwf Hne Hsize uri (snd (clock id)) c Hs) as (c' & -> & Hc' & _); [done|].
  cbn [mbind outcome_bind]. destruct (IH (S id)) as (cs & -> & Hl & Hcs). cbn [mbind outcome_bind].
  eexists. split; [done|]. split; [cbn; by rewrite Hl|by constructor].
Qed.

(** The workers' handlers, in any order, keep all of them loading. *)
Lemma ioc_run_loading uri es cs : Forall (Loading recs uri) cs ->
  match ioc_run set_tlsext_host_name read_json es cs with
  | Some (Ok cs') => Forall (Loading recs uri) cs' /\ length cs' = length cs
  | Some _ => False
  | None => True
  end.
Proof.
  revert cs. induction es as [|[i e] es IH]; intros cs Hcs; [done|]. cbn [ioc_run]. destruct (cs !! i) as [c|] eqn:Hi; [|done].
  pose proof (Forall_lookup_1 _ _ _ _ Hcs Hi) as Hc.
  pose proof (client_handle_loading set_tlsext_host_name read_json recs Hwf Hne Hsize uri e c Hc) as Hh.
  destruct (client_handle set_tlsext_host_name read_json e c) as [[c'| | |]|]; try done.
  assert (Forall (Loading recs uri) (<[i := c']> cs)) as Hcs' by by apply Forall_insert.
  specialize (IH _ Hcs'). rewrite length_insert in IH. exact IH.
Qed.

(** C25: on a file with records, for a service whose address can be parsed.  With a negative
    number of threads the load test ends with an error.  Otherwise, whatever completes for its
    workers and in whatever order: no handler is undefined or throws, and what a worker asks
    for is always a hash of the file.  When nothing is under way any more, and the times
    measured add up to less than 2^63 nanoseconds, the load test prints as many requests as it
    timed round trips, and the first, last and middle time printed are times measured, between
    which all others lie. *)
Theorem loadtest_counts clock files o uri :
  URI_ctor split (serverAddress o) = Ok uri -> files (inputFilename o) = Some (FileEntry (phc_file recs) true) ->
  help o = false -> inputFilename o <> [] ->
  (- 2 ^ 31 <= numThreads o < 0 -> forall es,
    loadtest_main split set_tlsext_host_name read_json clock true es files o = Some (Ok Error)) /\
  (0 <= numThreads o < 2 ^ 31 -> exists cs0,
    make_workers split set_tlsext_host_name clock (Z.to_nat (if numWorkers o <? 1 then DefaultNumWorkers else numWorkers o)) 0 o
      (if runtimeSecs o <? 1 then DefaultRuntimeSecs else runtimeSecs o) files = Ok cs0 /\
    Z.of_nat (length cs0) = (if numWorkers o <? 1 then DefaultNumWorkers else numWorkers o) /\
    forall es, match ioc_run set_tlsext_host_name read_json es cs0 with
    | None => loadtest_main split set_tlsext_host_name read_json clock true es files o = None
    | Some (Ok cs) => Forall (Loading recs uri) cs /\ length cs = length cs0 /\
        (out_of_work cs = true -> Z.of_nat (length (concat (mRTT <$> cs))) < 2 ^ 63 ->
          sum_Z (Z.abs <$> concat (mRTT <$> cs)) < 2 ^ 63 ->
          exists s, loadtest_main split set_tlsext_host_name read_json clock true es files o = Some (Ok (Done s)) /\
            summary_right cs s)
    | Some _ => False
    end).
Proof.
  intros Huri Hfile Hhelp Hin. set (n := if numWorkers o <? 1 then DefaultNumWorkers else numWorkers o).
  set (secs := if runtimeSecs o <? 1 then DefaultRuntimeSecs else runtimeSecs o).
  destruct (make_workers_loading clock (Z.to_nat n) 0 o secs files uri Huri Hfile) as (cs0 & Hmk & Hlen & Hcs).
  assert (forall es, loadtest_main split set_tlsext_host_name read_json clock true es files o =
    match run_test split set_tlsext_host_name read_json clock es files o n secs with
    | Some (Throws _) => Some (Ok Error) | Some r => Some (Done <$> r) | None => None end) as Hmain.
  { intros es. unfold loadtest_main. cbn [negb]. by rewrite Hhelp, decide_False. }
  unfold run_test in Hmain. rewrite Huri in Hmain. cbn [mbind outcome_bind] in Hmain. rewrite Hmk in Hmain. split.
  - intros Hneg es. by rewrite Hmain, reserve_negative.
  - intros Hth. rewrite reserve_ok in Hmain by done.
    exists cs0. split; [exact Hmk|]. split; [rewrite Hlen; unfold n, DefaultNumWorkers; bool_cases|]. intros es. rewrite Hmain.
    pose proof (ioc_run_loading uri es cs0 Hcs) as Hrun.
    destruct (ioc_run set_tlsext_host_name read_json es cs0) as [[cs| | |]|]; try done. destruct Hrun as [Hcs1 Hl].
    split; [done|]. split; [done|]. intros Hout Hlt Hsum. rewrite Hout.
    destruct (summary_ok cs) as (s & -> & Hs); [|done..|by exists s].
    eapply Forall_impl; [exact Hcs1|]. intros c [[]]. done.
Qed.
End properties.

Definition demo_load_options : Options :=
  MkOptions false (bs "in.md5") (bs "http://127.0.0.1:31337/v1/pwned/api/lookup") 10 2 1.

Definition demo_uri : URI :=
  MkURI false (bs "http") [] [] (bs "127.0.0.1") 31337 (bs "/v1/pwned/api/lookup") ∅ [].

Lemma demo_uri_parsed : URI_ctor split_on (serverAddress demo_load_options) = Ok demo_uri.
Proof. vm_compute. reflexivity. Qed.

(** The second worker does not find the service; the first one asks it once, and the answer
    comes when the time is over. *)
Definition demo_completions : list (nat * CEvent) :=
  [(0%nat, CResolved true [bs "127.0.0.1"]); (1%nat, CResolved false []); (0%nat, CConnected true); (0%nat, CWritten true);
   (0%nat, CReadDone true (bs "{}") EcNone 700 10000000001 10000000002)].

Definition demo_clients : list Client :=
  match make_workers split_on (fun _ => true) (fun _ => (0, 200)) 2 0 demo_load_options 10
    (fun _ => Some (FileEntry (phc_file demo_recs) true)) with Ok cs => cs | _ => [] end.
Lemma demo_clients_made : make_workers split_on (fun _ => true) (fun _ => (0, 200)) 2 0 demo_load_options 10
  (fun _ => Some (FileEntry (phc_file demo_recs) true)) = Ok demo_clients.
Proof. vm_compute. reflexivity. Qed.
Definition demo_clients_end : list Client :=
  match ioc_run (fun _ => true) (fun _ => true) demo_completions demo_clients with Some (Ok cs) => cs | _ => [] end.
Lemma demo_clients_run : ioc_run (fun _ => true) (fun _ => true) demo_completions demo_clients = Some (Ok demo_clients_end).
Proof. vm_compute. reflexivity. Qed.
Lemma demo_clients_timed : out_of_work demo_clients_end = true /\ mRTT <$> demo_clients_end = [[500]; []].
Proof. split; vm_compute; reflexivity. Qed.

Lemma loadtest_counts_witness : exists s,
  loadtest_main split_on (fun _ => true) (fun _ => true) (fun _ => (0, 200)) true demo_completions
    (fun _ => Some (FileEntry (phc_file demo_recs) true)) demo_load_options = Some (Ok (Done s)) /\
  Forall (Loading demo_recs demo_uri) demo_clients_end /\ mRTT <$> demo_clients_end = [[500]; []] /\
  summary_right demo_clients_end s.
Proof.
  destruct (loadtest_counts split_on (fun _ => true) (fun _ => true) demo_recs (lf_wf _ demo_lookup_file) ltac:(discriminate)
    ltac:(reflexivity) (fun _ => (0, 200)) (fun _ => Some (FileEntry (phc_file demo_recs) true)) demo_load_options demo_uri
    demo_uri_parsed eq_refl eq_refl ltac:(discriminate)) as [_ H].
  destruct H as (cs0 & Hmk & _ & H); [split; discriminate || reflexivity|].
  pose proof (Ok_inj (eq_trans (eq_sym Hmk) demo_clients_made)) as ->. clear Hmk.
  specialize (H demo_completions). rewrite demo_clients_run in H. destruct H as (Hl & _ & H).
  destruct demo_clients_timed as [Hout Hrtt]. destruct (H Hout) as (s & Hs & Hr).
  - rewrite Hrtt. reflexivity.
  - rewrite Hrtt. reflexivity.
  - exists s. split; [exact Hs|]. split; [exact Hl|]. split; [exact Hrtt|exact Hr].
Defined.

(** Ten seconds, two thirds of the time over. *)
Example demo_progress :
  progress 6670000000 (set_pending CNone (MkClient [] false None [] [] true unopened 0 0 0 0 0 0 [] demo_uri CNone)) (d_of_Z 10) =
    Ok (x0d :: bs "6.67s (67%)", true).
Proof. vm_compute. reflexivity. Qed.
