(* ===== verification/ClientServer.v ===== *)
(** * The load test against the service

    A client of [loadtest] and a worker of [pwned-server], each driven by the completion of its
    own operations, joined by a connection that carries the request and the response as they
    are: the client's requests are lookups of the service, and the responses are what the
    client's JSON reader accepts. *)

From S2P Require Import Prelude Decimal Stream Util Hash Phc Inspector Random Regex Uri Server LoadTest.
From stdpp Require Import options.

(** What the documentation of boost says of [read_json]: it reads an object of texts that need
    no escape and of numbers. *)
Definition json_number (t : list byte) : Prop :=
  exists n, 0 <= n /\ (t = to_string n \/ exists d, d <> [] /\ forallb digit d = true /\ t = to_string n ++ x2e :: d).
Definition json_value (t : list byte) : Prop :=
  json_number t \/ exists s, forallb json_plain s = true /\ t = quoted s.
Definition read_json_law (read_json : list byte -> bool) : Prop :=
  forall l, l <> [] -> Forall (fun e => forallb json_plain (fst e) = true /\ json_value (snd e)) l ->
    read_json (json_object l) = true.

(** The request the server gets. *)
Definition server_request (r : ClientRequest) : request := MkRequest get (bs "GET") (cr_target r).

(** What one round reads off clocks and prints into texts. *)
Record Timing := MkTiming {
  t_accept : Z; t_line : list byte; t_duration : list byte; t_rtt : Z; t_restart : Z; t_start : Z }.

Section exchange.
Context {I : Type} `{LookupService I}.
Context (split : list byte -> byte -> list (list byte)).
Context (write_json : list (list byte * list byte) -> list byte) (replace_all : list byte -> list byte -> list byte -> list byte).
Context (set_tlsext_host_name : list byte -> bool) (read_json : list byte -> bool).

Definition succeeded {A} (r : option (outcome A)) : option A := match r with Some (Ok a) => Some a | _ => None end.

(** One round over an unencrypted connection: the client connects, both handle what comes next,
    the response is what the server's worker was writing. *)
Definition exchange (t : Timing) (s : Client * Worker I) : option (response * (Client * Worker I)) :=
  let '(c, w) := s in
  c ← succeeded (client_run set_tlsext_host_name read_json [CConnected true; CWritten true] c);
  req ← mReq c;
  w ← succeeded (Server.run split write_json replace_all
        [EAccepted true (t_accept t); ERead (Some (server_request req)) [] (Some (t_line t)) (t_duration t)] w);
  r ← mResponse w;
  w ← succeeded (Server.run split write_json replace_all [EWritten] w);
  c ← succeeded (client_run set_tlsext_host_name read_json
        [CReadDone true (res_body r) EcNone (t_rtt t) (t_restart t) (t_start t)] c);
  Some (r, (c, w)).

Fixpoint exchanges (ts : list Timing) (s : Client * Worker I) : option (list response * (Client * Worker I)) :=
  match ts with
  | [] => Some ([], s)
  | t :: ts => '(r, s) ← exchange t s; '(rs, s) ← exchanges ts s; Some (r :: rs, s)
  end.
End exchange.

(** ** Lemmas *)

Lemma toString_plain u h : Hash_wf h -> plain (toString u h).
Proof.
  intros Hh. rewrite toString_encode by done. unfold plain, hexEncode.
  assert (forall d, 0 <= d < 16 -> among (bs "?#&=") (hexDigit u d) = false) as Hd.
  { intros d Hd. apply negb_true_iff. apply (Z_range_check (fun d => negb (among (bs "?#&=") (hexDigit u d))) 16); [|done].
    destruct u; vm_compute; reflexivity. }
  set (l := _ ++ _). clearbody l. induction l as [|b l IH]; [by constructor|]. csimpl. pose proof (byte.unsigned_range b).
  constructor; [apply Hd; dlia|]. constructor; [apply Hd; dlia|exact IH].
Qed.

Section rounds.
Context {I : Type} `{LookupService I}.
Context (split : list byte -> byte -> list (list byte)) (split_ok : split_law split).
Context (write_json : list (list byte * list byte) -> list byte) (write_json_ok : write_json_law write_json).
Context (replace_all : list byte -> list byte -> list byte -> list byte) (replace_ok : replace_law replace_all).
Context (set_tlsext_host_name : list byte -> bool).
Context (read_json : list byte -> bool) (read_json_ok : read_json_law read_json).
Context (base : list byte) (Hbase : plain base) (recs : list PHC) (Hwf : Forall PHC_wf recs) (Hne : recs <> []).
Context (Hsize : PHC_size * Z.of_nat (length recs) < 2 ^ 62).
(** the service can look up every hash of its file, as it is read from a request *)
Context (Hdom : forall p, p ∈ recs -> svc_domain recs (MkHash (upper (hash p)) (lower (hash p)) true)).
Context (uri : URI) (Hhttp : Accessors.scheme uri <> bs "https") (Hpath : Accessors.path uri = base ++ bs "/lookup").
#[local] Set Default Proof Using "All".

(** What the service answers for a record of the file. *)
Definition answer_for (duration : list byte) (p : PHC) : response :=
  expected recs (MkHash (upper (hash p)) (lower (hash p)) true) duration.

Lemma response_read duration p : json_number duration -> Forall PHC_wf recs -> p ∈ recs ->
  read_json (res_body (answer_for duration p)) = true.
Proof.
  intros Hd Hr Hp. unfold answer_for, expected, makeResponse. cbn [res_body]. apply read_json_ok; [done|].
  assert (PHC_wf p) as [Hh _] by (rewrite Forall_forall in Hr; by apply Hr).
  rewrite !Forall_cons, Forall_nil. cbn [fst snd]. split_and!; try done.
  - right. eexists. split; [|done]. by apply json_safe_text, toString_safe.
  - left. exists (count_of recs (hval (MkHash (upper (hash p)) (lower (hash p)) true))). split; [|by left].
    unfold count_of. clear - Hr. induction Hr as [|q l [_ Hq] _ IH]; [done|]. rewrite filter_cons. case_decide; [|done].
    rewrite fmap_cons. unfold sum_Z in *. cbn [foldr]. lia.
  - by left.
Qed.

(** The request of the client is a lookup of its record. *)
Lemma target_lookup p : PHC_wf p ->
  let u := parseTarget split (cr_target (request_for uri p)) URI_default in
  Accessors.path u = base ++ bs "/lookup" /\ Accessors.query u !! bs "hash" = Some (toString false (hash p)).
Proof.
  intros [Hh _]. cbn [request_for cr_target]. rewrite Hpath.
  change (bs "?hash=" ++ toString false (hash p)) with (x3f :: param (bs "hash", toString false (hash p))).
  rewrite (parseTarget_one split split_ok).
  - split; [done|]. apply lookup_insert_eq.
  - apply Forall_app. split; [done|]. by repeat constructor.
  - by repeat constructor.
  - by apply toString_plain.
Qed.

(** The server's half of a round. *)
Lemma server_round now line duration p w :
  Serving base recs w -> pending w = PAccept -> p ∈ recs ->
  exists w1 w2, Server.run split write_json replace_all
      [EAccepted true now; ERead (Some (server_request (request_for uri p))) [] (Some line) duration] w = Some (Ok w1) /\
    mResponse w1 = Some (answer_for duration p) /\
    Server.run split write_json replace_all [EWritten] w1 = Some (Ok w2) /\ Serving base recs w2 /\ pending w2 = PAccept.
Proof.
  intros Hw Hacc Hin. assert (PHC_wf p) as Hpw by (rewrite Forall_forall in Hwf; by apply Hwf).
  destruct (target_lookup p Hpw) as [Hpa Hq].
  destruct (lookup_round split split_ok write_json write_json_ok replace_all replace_ok base recs
    (toString false (hash p)) (cr_target (request_for uri p)) now line duration w) as (w1 & Hrun & Hres & Hpe & Hsv); try done.
  { rewrite fromHex_of_toString by apply Hpw. by apply Hdom. }
  rewrite fromHex_of_toString in Hres by apply Hpw. exists w1. eexists. split; [exact Hrun|]. split; [done|].
  cbn [Server.run handle]. rewrite Hpe. split; [done|]. split; [|done].
  destruct Hsv as [_ _ Hb1 _ _ Hs1]. by split.
Qed.

(** One round: the client gets the answer for a record of the file, and either waits for its
    next connection or is done. *)
Lemma exchange_round t c w :
  Loading recs uri c -> cpending c = CConnect -> (0 < length (mResolverResults c))%nat ->
  Serving base recs w -> pending w = PAccept -> json_number (t_duration t) ->
  exists p c' w', exchange split write_json replace_all set_tlsext_host_name read_json t (c, w) =
      Some (answer_for (t_duration t) p, (c', w')) /\ p ∈ recs /\
    Loading recs uri c' /\ Serving base recs w' /\ pending w' = PAccept /\
    mRTT c' = mRTT c ++ [t_rtt t - mRTTt0 c] /\ mT1 c' = mT1 c /\ mResolverResults c' = mResolverResults c /\
    cpending c' = if t_restart t <? mT1 c then CConnect else CNone.
Proof.
  intros Hc Hconn Hres Hw Hacc Hd. pose proof Hc as [Hs Hreq Hssl _].
  destruct (Hreq ltac:(by rewrite Hconn)) as (p & Hp & Hreq1). specialize (Hssl ltac:(by rewrite Hconn)).
  assert (is_https c = false) as Hno by (unfold is_https; apply bool_decide_eq_false; by rewrite (su_uri _ _ _ Hs)).
  rewrite Hno in Hssl. destruct (server_round (t_accept t) (t_line t) (t_duration t) p w Hw Hacc Hp)
    as (w1 & w2 & Hrun1 & Hresp & Hrun2 & Hw2 & Hacc2).
  unfold exchange. cbn [client_run client_handle]. rewrite Hconn. unfold onConnect. cbn [negb]. rewrite Hssl.
  cbn [client_run client_handle cpending set_pending]. unfold onWrite. cbn [negb succeeded mbind option_bind mReq set_pending].
  rewrite Hreq1. cbn [mbind option_bind]. rewrite Hrun1. cbn [succeeded mbind option_bind]. rewrite Hresp. cbn [mbind option_bind].
  rewrite Hrun2. cbn [succeeded mbind option_bind client_run client_handle cpending set_pending]. unfold onRead. cbn [negb].
  rewrite response_read by done. cbn [negb]. set (c1 := set_pending CRead _). set (c2 := push_rtt _ _).
  assert (mSSLStream c2 = false) as -> by exact Hssl.
  unfold restart. set (c3 := set_stop _ _).
  assert (Supplied recs uri c3) as Hc3.
  { destruct Hs as [? ? ? ? ? Hcount]. split; try done. cbn. rewrite Hcount, length_app. unfold u64.
    rewrite Zplus_mod_idemp_l. f_equal. cbn. lia. }
  change (mT1 c3) with (mT1 c). destruct (t_restart t <? mT1 c) eqn:Et.
  - destruct (start_loading set_tlsext_host_name read_json recs Hwf Hne Hsize uri (t_start t) (set_ssl false c3))
      as (c4 & -> & Hc4 & (_ & Hrtt & Hresults & HT1) & Hpend); [destruct Hc3; by split|done|].
    cbn [succeeded]. exists p, c4, w2. split_and!; try done.
    rewrite Hpend by exact Hno. by rewrite (proj2 (Nat.ltb_lt _ _)).
  - cbn [succeeded]. exists p, (stop c3), w2. split_and!; try done. split; [destruct Hc3; by split|done|done|by intros []].
Qed.

(** Rounds one after the other, all but the last within the time. *)
Lemma exchanges_rounds ts t c w :
  Loading recs uri c -> cpending c = CConnect -> (0 < length (mResolverResults c))%nat ->
  Serving base recs w -> pending w = PAccept ->
  Forall (fun t => json_number (t_duration t)) (ts ++ [t]) ->
  Forall (fun t => t_restart t < mT1 c) ts -> mT1 c <= t_restart t ->
  exists ps c' w', exchanges split write_json replace_all set_tlsext_host_name read_json (ts ++ [t]) (c, w) =
      Some (zip_with answer_for (t_duration <$> ts ++ [t]) ps, (c', w')) /\
    length ps = length (ts ++ [t]) /\ Forall (fun p => p ∈ recs) ps /\
    Loading recs uri c' /\ cpending c' = CNone /\ length (mRTT c') = (length (mRTT c) + length (ts ++ [t]))%nat /\
    Serving base recs w' /\ pending w' = PAccept.
Proof.
  revert c w. induction ts as [|t0 ts IH]; intros c w Hc Hconn Hres Hw Hacc Hnum Hin Hlast; cbn [app exchanges] in *.
  - apply Forall_cons in Hnum as [Hn _].
    destruct (exchange_round t c w Hc Hconn Hres Hw Hacc Hn) as (p & c' & w' & -> & Hp & Hc' & Hw' & Hacc' & Hrtt & _ & _ & Hpend).
    rewrite (proj2 (Z.ltb_ge _ _)) in Hpend by done. exists [p], c', w'. cbn. rewrite Hrtt, length_app. split_and!; try done. by repeat constructor.
  - apply Forall_cons in Hnum as [Hn Hnum]. apply Forall_cons in Hin as [Hin0 Hin].
    destruct (exchange_round t0 c w Hc Hconn Hres Hw Hacc Hn) as (p & c' & w' & -> & Hp & Hc' & Hw' & Hacc' & Hrtt & HT1 & Hres' & Hpend).
    rewrite (proj2 (Z.ltb_lt _ _)) in Hpend by done. cbn [mbind option_bind].
    destruct (IH c' w') as (ps & c2 & w2 & -> & Hl & Hps & Hc2 & Hp2 & Hr2 & Hw2 & Ha2); try done; [by rewrite Hres'|by rewrite HT1|by rewrite HT1|].
    cbn [mbind option_bind]. exists (p :: ps), c2, w2. cbn. rewrite Hr2, Hrtt, Hl.
    split_and!; try done; [by constructor|rewrite !length_app; cbn; lia].
Qed.

(** C16: a client of the load test and a worker of the service, over the same file, go on as long
    as the time of the test: every request the client makes is answered with the count of a
    record of the file, the client reads every answer, and in the end it has counted its
    requests, has nothing under way, and the worker waits for the next connection. *)
Theorem client_served address secs id now now' results ts t w :
  URI_ctor split address = Ok uri -> (0 < length results)%nat -> Serving base recs w -> pending w = PAccept ->
  Forall (fun t => json_number (t_duration t)) (ts ++ [t]) ->
  Forall (fun t => t_restart t < now + secs * 10 ^ 9) ts -> now + secs * 10 ^ 9 <= t_restart t ->
  exists c0 c1 c2 ps c w',
    HttpClientWorker split address (Some (FileEntry (phc_file recs) true)) secs id now = Ok c0 /\
    LoadTest.start set_tlsext_host_name now' c0 = Ok c1 /\
    client_run set_tlsext_host_name read_json [CResolved true results] c1 = Some (Ok c2) /\
    exchanges split write_json replace_all set_tlsext_host_name read_json (ts ++ [t]) (c2, w) =
      Some (zip_with answer_for (t_duration <$> ts ++ [t]) ps, (c, w')) /\
    length ps = length (ts ++ [t]) /\ Forall (fun p => p ∈ recs) ps /\
    mRequestCount c = u64 (Z.of_nat (length (ts ++ [t]))) /\ cpending c = CNone /\
    Serving base recs w' /\ pending w' = PAccept.
Proof.
  intros Huri Hres Hw Hacc Hnum Hin Hlast. unfold HttpClientWorker. cbn [fopen freadable fbytes]. rewrite Huri. cbn [mbind outcome_bind].
  set (c0 := MkClient _ _ _ _ _ _ _ _ _ _ _ _ _ _ _ _). assert (Supplied recs uri c0) as Hs.
  { split; cbn; try done; [apply length_phc_file|by exists 0|apply mt_seed_wf]. }
  assert (is_https c0 = false) as Hno by (unfold is_https; by apply bool_decide_eq_false).
  destruct (start_loading set_tlsext_host_name read_json recs Hwf Hne Hsize uri now' c0 Hs) as (c1 & Hstart & Hc1 & (_ & Hrtt & _ & HT1) & Hpend); [done|].
  specialize (Hpend Hno). cbn in Hpend. pose proof (client_handle_loading set_tlsext_host_name read_json recs Hwf Hne Hsize uri (CResolved true results) c1 Hc1) as Hc2.
  cbn [client_handle] in Hc2. rewrite Hpend in Hc2. unfold onResolve in Hc2. cbn [negb] in Hc2.
  destruct (exchanges_rounds ts t (connect (set_results results c1)) w) as (ps & c & w' & Hex & Hl & Hps & Hc & Hpc & Hr & Hw' & Ha'); try done.
  { cbn. by rewrite HT1. }
  { cbn. by rewrite HT1. }
  exists c0, c1, (connect (set_results results c1)), ps, c, w'. split; [done|]. split; [exact Hstart|].
  split; [cbn [client_run client_handle]; by rewrite Hpend|]. split_and!; try done.
  rewrite (su_count _ _ _ (ld_supplied _ _ _ Hc)), Hr. cbn. by rewrite Hrtt.
Qed.
End rounds.

(** A reader that looks at the brace. *)
Definition demo_read_json (l : list byte) : bool := bool_decide (head l = Some x7b).

Lemma demo_read_json_law : read_json_law demo_read_json.
Proof. by intros l _ _. Qed.

Definition demo_timing (t : Z) : Timing := MkTiming t (bs "now") (to_string 0 ++ x2e :: bs "01") t t t.

Definition demo_service_uri : URI :=
  MkURI false (bs "http") [] [] (bs "localhost") 80 (bs "/api/lookup") ∅ [].

Lemma client_served_witness :
  exists c0 c1 c2 ps c w',
    HttpClientWorker split_on (bs "http://localhost/api/lookup") (Some (FileEntry (phc_file demo_recs) true)) 10 3 0 = Ok c0 /\
    LoadTest.start (fun _ => true) 5 c0 = Ok c1 /\
    client_run (fun _ => true) demo_read_json [CResolved true [bs "127.0.0.1"]] c1 = Some (Ok c2) /\
    exchanges split_on demo_write_json demo_replace_all (fun _ => true) demo_read_json
      ([demo_timing 7; demo_timing 8] ++ [demo_timing 10000000000]) (c2, Server.start 0 demo_worker) =
      Some (zip_with (answer_for demo_recs) (t_duration <$> [demo_timing 7; demo_timing 8] ++ [demo_timing 10000000000]) ps, (c, w')) /\
    length ps = 3%nat /\ Forall (fun p => p ∈ demo_recs) ps /\
    mRequestCount c = u64 3 /\ cpending c = CNone /\ Serving (bs "/api") demo_recs w' /\ pending w' = PAccept.
Proof.
  apply (client_served split_on split_on_law demo_write_json demo_write_json_law demo_replace_all demo_replace_law
    (fun _ => true) demo_read_json demo_read_json_law (bs "/api") ltac:(by repeat constructor) demo_recs (lf_wf _ demo_lookup_file)
    ltac:(discriminate) ltac:(reflexivity)) with (uri := demo_service_uri).
  - intros p Hp. exists p. by split.
  - discriminate.
  - reflexivity.
  - vm_compute. reflexivity.
  - simpl. lia.
  - exact demo_serving.
  - reflexivity.
  - repeat constructor; exists 0; (split; [lia|]); right; exists (bs "01"); (split; [discriminate|]); split; reflexivity.
  - repeat constructor.
  - simpl. lia.
Defined.
