(* ===== verification/Tools.v ===== *)
(** * The small programs and the front ends

    [pwned-lib/uuid.*], [deprecated/be2le], and what the [main]s of the index tool, the merger
    and the server do before they call the components: options, file selection, defaults.
    Each part is a module; the command line arrives parsed, because parsing it is
    boost::program_options' work. *)

From Stdlib Require Import Floats.SpecFloat.
From S2P Require Import Prelude Stream Util Hash Phc Inspector Index Regex Uri Server PriorityQueue Merge Merger.
From stdpp Require Import options.

(** ** uuid.cpp *)

Module Uuid.
Record UUID := MkUUID { uuid0 : Z; uuid1 : Z }.

(** The constructor takes two numbers of the generator, whose state is threaded. *)
Definition UUID_ctor {G} (rng : G -> Z * G) (g : G) : UUID * G :=
  let '(a, g) := rng g in
  let '(b, g) := rng g in
  (MkUUID a b, g).

Definition UUID_eqb (u o : UUID) : bool := (uuid0 u =? uuid0 o) && (uuid1 u =? uuid1 o).

(** [operator<<] *)
Definition uuid_text (u : UUID) : list byte :=
  let a := u32 (Z.shiftr (uuid0 u) 32) in
  let b := Z.land (u32 (Z.shiftr (uuid0 u) 16)) 0xffff in
  let c := Z.land (u32 (uuid0 u)) 0xffff in
  let d := Z.land (u32 (Z.shiftr (uuid0 u) 48)) 0xffff in
  let e := Z.land (u32 (Z.shiftr (uuid0 u) 32)) 0xffff in
  let f := Z.land (u32 (uuid0 u)) 0xffffffff in
  hexOut 8 true a ++ bs "-" ++ hexOut 4 true b ++ bs "-" ++ hexOut 4 true c ++ bs "-" ++
  hexOut 4 true d ++ bs "-" ++ hexOut 4 true e ++ hexOut 8 true f.

Lemma hexFixed_inj w u x y : 0 <= x < 16 ^ Z.of_nat w -> 0 <= y < 16 ^ Z.of_nat w ->
  hexFixed w u x = hexFixed w u y -> x = y.
Proof.
  revert x y. induction w as [|w IH]; intros x y Hx Hy Heq; [simpl in *; lia|].
  rewrite Nat2Z.inj_succ, Z.pow_succ_r in Hx, Hy by lia. cbn [hexFixed] in Heq.
  apply app_inj_2 in Heq as [Hd Hm]; [|done]. injection Hm as Hm.
  apply (f_equal decodeHex) in Hm. rewrite !decodeHex_hexDigit in Hm by dlia.
  apply IH in Hd; dlia.
Qed.

Lemma land_ones_mod a k : 0 <= k -> Z.land a (Z.ones k) = a mod 2 ^ k.
Proof. intros. by apply Z.land_ones. Qed.

(** The fields of the text, as numbers. *)
Lemma uuid_text_fields u : in_u64 (uuid0 u) ->
  let x := uuid0 u in
  uuid_text u = hexFixed 8 true (x / 2 ^ 32) ++ bs "-" ++ hexFixed 4 true (x / 2 ^ 16 mod 2 ^ 16) ++ bs "-" ++
    hexFixed 4 true (x mod 2 ^ 16) ++ bs "-" ++ hexFixed 4 true (x / 2 ^ 48) ++ bs "-" ++
    hexFixed 4 true (x / 2 ^ 32 mod 2 ^ 16) ++ hexFixed 8 true (x mod 2 ^ 32).
Proof.
  intros Hu x. unfold uuid_text. fold x in Hu |- *.
  change 0xffff with (Z.ones 16). change 0xffffffff with (Z.ones 32).
  rewrite !land_ones_mod, !Z.shiftr_div_pow2 by lia. unfold u32.
  rewrite !hexOut_fixed by (split; simpl; (lia || dlia)).
  assert (x / 2 ^ 32 mod 2 ^ 32 = x / 2 ^ 32) as -> by dlia.
  assert (x / 2 ^ 16 mod 2 ^ 32 mod 2 ^ 16 = x / 2 ^ 16 mod 2 ^ 16) as -> by dlia.
  assert (x mod 2 ^ 32 mod 2 ^ 16 = x mod 2 ^ 16) as -> by dlia.
  assert (x / 2 ^ 48 mod 2 ^ 32 mod 2 ^ 16 = x / 2 ^ 48) as -> by dlia.
  assert (x / 2 ^ 32 = x / 2 ^ 32 mod 2 ^ 32) as Hx by dlia.
  assert (x mod 2 ^ 32 mod 2 ^ 32 = x mod 2 ^ 32) as -> by dlia. done.
Qed.
End Uuid.

(** ** be2le.cpp *)

Module Be2le.
(** The record with its hash in the other byte order. *)
Definition swap (p : PHC) : PHC := MkPHC (toHostByteOrder (hash p)) (count p).

(** [while (!in.eof())] *)
Fixpoint convert_loop (fuel : nat) (phc : PHC) (f : istream) (out : list byte) : outcome (list byte) :=
  match fuel with
  | O => OutOfFuel
  | S fuel =>
      if eof f then Ok out
      else
        let '(_, phc, f) := PHC_read phc f in
        let phc := swap phc in
        convert_loop fuel phc f (out ++ dump phc)
  end.

(** [main] with two file names, the input and whether the output can be written: the bytes
    of the output file. *)
Definition be2le_main (fuel : nat) (input : file_entry) (out_open : bool) : outcome (list byte) :=
  let '(ok, f) := fopen input in
  if ok && out_open then convert_loop fuel PHC_default f [] else Ok [].

Lemma swap_wf p : Hash_wf (hash (swap p)).
Proof. apply toHostByteOrder_wf. Qed.

Lemma dump_flag p q : upper (hash p) = upper (hash q) -> lower (hash p) = lower (hash q) -> count p = count q ->
  dump p = dump q.
Proof. intros Hu Hl Hc. unfold dump, data. by rewrite Hu, Hl, Hc. Qed.

Lemma convert_loop_spec l i q f fuel out :
  at_pos (phc_file l) (PHC_size * Z.of_nat i) f -> Forall PHC_wf l -> Hash_wf (hash q) ->
  (length l - i + 1 < fuel)%nat ->
  convert_loop fuel q f out = Ok (out ++ phc_file (swap <$> drop i l) ++ dump (swap (match last (drop i l) with
    | Some p => swap p | None => q end))).
Proof.
  revert i q f out. induction fuel as [|fuel IH]; intros i q f out Hf Hl Hq Hfuel; [lia|]. cbn [convert_loop].
  assert (eof f = false) as -> by by rewrite Hf.
  destruct (l !! i) as [p|] eqn:Hi.
  - assert (PHC_wf p) as Hp by (rewrite Forall_forall in Hl; eapply Hl, list_elem_of_lookup_2; done).
    rewrite (PHC_read_ok l i p q f Hf Hi Hp). pose proof (lookup_lt_Some _ _ _ Hi).
    rewrite (IH (S i)); [|done|done|apply swap_wf|lia]. rewrite (dump_flag (swap (read_into q p)) (swap p)) by reflexivity.
    rewrite (drop_S l p i) by done. rewrite fmap_cons. unfold phc_file. cbn [fmap list_fmap concat].
    rewrite <- !app_assoc. do 3 f_equal. rewrite last_cons. destruct (last (drop (S i) l)); [reflexivity|].
    refine (f_equal (app _) _). apply dump_flag; reflexivity.
  - apply lookup_ge_None in Hi. rewrite drop_ge by lia. cbn.
    rewrite (PHC_read_eof l (PHC_size * Z.of_nat i) q f Hf) by (unfold PHC_size; done || lia).
    destruct fuel as [|fuel]; [lia|]. by cbn.
Qed.
End Be2le.

(** ** pwned-index/index.cpp: the options *)

Module IndexCli.
Record Options := MkOptions {
  help : bool; opt_warranty : bool; opt_license : bool;
  inputFilename : list byte; outputFilename : list byte; bits : Z }.

Inductive Exit :=
  | Usage | Warranty | License   (** printed, successful *)
  | NoInput | NoOutput           (** errors *)
  | Done (index : list byte).    (** the bytes written *)

(** [main] after the options are parsed; an error of the parser is reported and ignored.
    [files] opens the input. *)
Definition index_cli (fuel : nat) (files : list byte -> istream) (o : Options) : outcome Exit :=
  if help o then Ok Usage
  else if opt_warranty o then Ok Warranty
  else if opt_license o then Ok License
  else if decide (inputFilename o = []) then Ok NoInput
  else if decide (outputFilename o = []) then Ok NoOutput
  else Done <$> index_main fuel (bits o) (files (inputFilename o)).
End IndexCli.

(** ** pwned-merger-cli.cpp: the files to merge *)

Module MergerCli.
Record Options := MkOptions {
  help : bool; opt_warranty : bool;
  srcDirectory : option (list byte); input_given : option (list (list byte));
  dstFile : list byte; tmpDirectory : list byte; maxFilesAtOnce : Z }.

Definition DefaultOutputExt : list byte := bs ".md5".

Inductive Exit :=
  | Usage (ok : bool) | Warranty | NotOverwritten | NoTmpDirectory
  | Merged (fs : files).

(** [ba::ends_with] *)
Definition ends_with (s suffix : list byte) : bool :=
  (length suffix <=? length s)%nat && bool_decide (drop (length s - length suffix) s = suffix).

Section merger.
Context {Q : Type} `{PQ : PriorityQueue MergerInput SmallestHashFirst Q}.
(** The files below a directory and whether they are regular; whether a path exists and
    whether the working directory can be made; the answer to the question; the unique
    paths. *)
Context (tree : list byte -> list (list byte * bool)) (exists_ can_create : list byte -> bool).
Context (answer : byte) (tmp : nat -> list byte).

(** The loop over the source directory. *)
Definition scan (fs : files) (dir : list byte) : list (list byte) :=
  fst <$> filter (fun f => ends_with (fst f) DefaultOutputExt && snd f &&
    match fs !! fst f with Some b => (0 <? length b)%nat | None => false end = true) (tree dir).

(** The comparison of [std::sort(..., InputFileLess)], for files that exist. *)
Definition larger (fs : files) (a b : list byte) : bool :=
  match InputFileLess fs (InputFile_ctor a) (InputFile_ctor b) with Ok r => r | _ => false end.

(** The names given and found. *)
Definition filenames (fs : files) (o : Options) : list (list byte) :=
  default [] (input_given o) ++ match srcDirectory o with Some (c :: d) => scan fs (c :: d) | _ => [] end.

(** They are sorted, larger files first.  Sorting compares every one of two or more names, and
    comparing a missing file throws. *)
Definition input_files (fs : files) (o : Options) : outcome (list (list byte)) :=
  let filenames := filenames fs o in
  if (1 <? length filenames)%nat && negb (forallb (fun f => bool_decide (is_Some (fs !! f))) filenames)
  then Throws (bs "file_size")
  else Ok (std_sort (larger fs) filenames).

(** [main] up to its loop: it exits, or has its input files. *)
Definition merger_prepare (fs : files) (o : Options) : outcome (Exit + list (list byte)) :=
  if opt_warranty o then Ok (inl Warranty)
  else if help o then Ok (inl (Usage true))
  else
    match srcDirectory o, input_given o with
    | None, None => Ok (inl (Usage false))
    | _, _ =>
        if decide (dstFile o = []) then Ok (inl (Usage false))
        else if exists_ (dstFile o) && negb (bool_decide (answer = "y"%byte)) then Ok (inl NotOverwritten)
        else if negb (exists_ (tmpDirectory o)) && negb (can_create (tmpDirectory o)) then Ok (inl NoTmpDirectory)
        else inr <$> input_files fs o
    end.

Definition merger_main (fuel : nat) (c : Cancelled) (fs : files) (o : Options) : outcome Exit :=
  prepared ← merger_prepare fs o;
  match prepared with
  | inl e => Ok e
  | inr inputFiles =>
      '(fs, intermediateFilenames) ←
        main_loop (Q := Q) fuel c 0 (maxFilesAtOnce o) (dstFile o) tmp [] inputFiles fs;
      Ok (Merged (remove_files fs intermediateFilenames))
  end.
End merger.
End MergerCli.

(** ** pwned-server.cpp *)

Module ServerMain.
Import Uri.Accessors.

(** [Counter] and its [validate]: how often a flag was given. *)
Record Counter := MkCounter { level : Z }.
Definition validate (v : option Counter) : option Counter :=
  match v with None => Some (MkCounter 1) | Some c => Some (MkCounter (level c + 1)) end.

Definition DefaultAddress : list byte := bs "http://127.0.0.1:31337/v1/pwned/api".
Definition DefaultNumWorkers : Z := 64.

Record Options := MkOptions {
  help : bool; inputFilename : list byte; indexFilename : list byte; address : list byte;
  numWorkers : Z; numThreads : Z; verbosity : Counter }.

Inductive Exit (I : Type) :=
  | Usage | NoInput
  | Error                                              (** an exception was caught *)
  | Serve (workers : list (Worker I)) (host : list byte) (port : Z).
Arguments Usage {I}. Arguments NoInput {I}. Arguments Error {I}. Arguments Serve {I}.

Section server.
Context {I : Type} `{LookupService I}.
Context (split : list byte -> byte -> list (list byte)).
(** asio's parser of addresses, and binding to one; the constructor of an inspector, which
    throws when a file is missing; the time of the last write. *)
Context (make_address : list byte -> bool) (can_bind : list byte -> Z -> bool).
Context (open : list byte -> list byte -> outcome I) (last_write_time : list byte -> Z).

(** The loop that makes the workers. *)
Fixpoint make_workers (n : nat) (o : Options) (base : list byte) (now : Z) : outcome (list (Worker I)) :=
  match n with
  | O => Ok []
  | S n =>
      i ← open (inputFilename o) (indexFilename o);
      ws ← make_workers n o base now;
      Ok (start now (HttpWorker base i true (last_write_time (inputFilename o))) :: ws)
  end.

(** [main] up to [ioc.run()]. *)
Definition server_main (now : Z) (o : Options) : outcome (Exit I) :=
  if help o then Ok Usage
  else if decide (inputFilename o = []) then Ok NoInput
  else
    let numWorkers := if numWorkers o <? 1 then DefaultNumWorkers else numWorkers o in
    let served :=
      uri ← URI_ctor split (address o);
      if negb (make_address (host uri)) || negb (can_bind (host uri) (port uri)) then Throws (bs "address")
      else
        ws ← make_workers (Z.to_nat numWorkers) o (path uri) now;
        if numThreads o <? 0 then Throws (bs "length_error")
        else Ok (Serve ws (host uri) (port uri)) in
    match served with
    | Throws _ => Ok Error
    | r => r
    end.
End server.
End ServerMain.

(** ** Lemmas: the front ends *)

Module FrontLemmas.
Import MergerCli ServerMain.

Lemma make_workers_spec {I} `{LookupService I} open lwt n o base now ws :
  make_workers (I := I) open lwt n o base now = Ok ws ->
  length ws = n /\ Forall (fun w => exists i, open (ServerMain.inputFilename o) (indexFilename o) = Ok i /\
    w = start now (HttpWorker base i true (lwt (ServerMain.inputFilename o)))) ws.
Proof.
  revert ws. induction n as [|n IH]; intros ws Hw; cbn in Hw; [by injection Hw as <-|].
  destruct (open (ServerMain.inputFilename o) (indexFilename o)) as [i| | |] eqn:Ho; try done. cbn [mbind outcome_bind] in Hw.
  destruct (make_workers open lwt n o base now) as [ws'| | |]; try done. injection Hw as <-.
  destruct (IH ws' eq_refl) as [Hl Hws]. split; [by cbn; rewrite Hl|]. constructor; [by exists i|].
  eapply Forall_impl; [exact Hws|]. intros w (i' & ? & ->). eauto.
Qed.

Lemma make_workers_total {I} `{LookupService I} open lwt n o base now i :
  open (ServerMain.inputFilename o) (indexFilename o) = Ok i ->
  exists ws, make_workers (I := I) open lwt n o base now = Ok ws.
Proof.
  intros Ho. induction n as [|n [ws IH]]; [by eexists|]. cbn [make_workers]. rewrite Ho.
  cbn [mbind outcome_bind]. rewrite IH. by eexists.
Qed.
End FrontLemmas.

(** ** Properties *)

(** the text of a UUID is a function of its first word only, which it shows twice: two
    UUIDs print alike exactly when their first words are equal, whatever the second ones. *)
Theorem uuid_text_first_word u v :
  in_u64 (Uuid.uuid0 u) -> in_u64 (Uuid.uuid0 v) ->
  Uuid.uuid_text u = Uuid.uuid_text v <-> Uuid.uuid0 u = Uuid.uuid0 v.
Proof.
  intros Hu Hv. split; [|by intros Heq; unfold Uuid.uuid_text; rewrite Heq].
  rewrite !Uuid.uuid_text_fields by done. cbv zeta. intros Heq.
  apply app_inj_1 in Heq as [Hhi Heq]; [|by rewrite !length_hexFixed].
  do 8 (apply app_inj_1 in Heq as [_ Heq]; [|by rewrite ?length_hexFixed]).
  apply Uuid.hexFixed_inj in Hhi; [|split; simpl; (lia || dlia)..].
  apply Uuid.hexFixed_inj in Heq; [|split; simpl; (lia || dlia)..]. dlia.
Qed.

Lemma uuid_text_first_word_witness :
  Uuid.uuid_text (Uuid.MkUUID 0x0123456789abcdef 1) = Uuid.uuid_text (Uuid.MkUUID 0x0123456789abcdef 2).
Proof. apply uuid_text_first_word; [simpl; lia..|reflexivity]. Defined.

(** [be2le] swaps the hash of every record, and then writes one record more: the end of
    file is only seen after a read that fails, and the last record is swapped back and
    written again. *)
Theorem be2le_extra_record recs :
  Forall PHC_wf recs ->
  Be2le.be2le_main (length recs + 2) (FileEntry (phc_file recs) true) true =
    Ok (phc_file (Be2le.swap <$> recs) ++ dump (default PHC_default (last recs))).
Proof.
  intros Hwf. unfold Be2le.be2le_main. cbn [fopen freadable fbytes andb].
  rewrite (Be2le.convert_loop_spec recs 0) by (done || apply open_stream_at || lia).
  rewrite drop_0. cbn [app]. do 2 f_equal. destruct (last recs) as [p|] eqn:Hl; [|by vm_compute].
  apply last_Some_elem_of in Hl. rewrite Forall_forall in Hwf. destruct (Hwf p Hl) as [[Hu Hlo] _].
  apply Be2le.dump_flag; cbn; by rewrite ?ntohll_involutive.
Qed.

Lemma be2le_extra_record_witness :
  Be2le.be2le_main 4 (FileEntry (phc_file demo_recs) true) true =
    Ok (phc_file (Be2le.swap <$> demo_recs) ++ dump (default PHC_default (last demo_recs))).
Proof. apply (be2le_extra_record demo_recs). apply demo_lookup_file. Defined.

Section merger.
Import MergerCli.
Context {Q : Type} `{PQ : PriorityQueue MergerInput SmallestHashFirst Q}.
Context (tree : list byte -> list (list byte * bool)) (exists_ can_create : list byte -> bool).
Context (answer : byte) (tmp : nat -> list byte).
#[local] Set Default Proof Using "Type*".

(** With these options and this surrounding [main] gets to its loop. *)
Record starts (o : Options) : Prop := {
  st_help : help o = false;
  st_warranty : MergerCli.opt_warranty o = false;
  st_given : is_Some (srcDirectory o) \/ is_Some (input_given o);
  st_dst : dstFile o <> [];
  st_answer : exists_ (dstFile o) = true -> answer = "y"%byte;
  st_tmp : exists_ (tmpDirectory o) = false -> can_create (tmpDirectory o) = true }.

Lemma merger_prepare_inputs fs o rs : starts o -> Forall2 (holds fs) (filenames tree fs o) rs ->
  merger_prepare tree exists_ can_create answer fs o = Ok (inr (std_sort (larger fs) (filenames tree fs o))).
Proof.
  clear tmp. intros [] Hps. unfold merger_prepare. rewrite st_warranty0, st_help0, decide_False by done.
  assert (exists_ (dstFile o) && negb (bool_decide (answer = "y"%byte)) = false) as ->.
  { destruct (exists_ (dstFile o)); [|done]. rewrite bool_decide_true; [done|auto]. }
  assert (negb (exists_ (tmpDirectory o)) && negb (can_create (tmpDirectory o)) = false) as ->.
  { destruct (exists_ (tmpDirectory o)); [done|]. by rewrite st_tmp0. }
  assert (input_files tree fs o = Ok (std_sort (larger fs) (filenames tree fs o))) as ->.
  { unfold input_files. assert (forallb (fun f => bool_decide (is_Some (fs !! f))) (filenames tree fs o) = true) as ->.
    { rewrite forallb_forall. intros f Hf%list_elem_of_In. apply bool_decide_eq_true.
      apply list_elem_of_lookup in Hf as [i Hi]. destruct (Forall2_lookup_l _ _ _ _ _ Hps Hi) as (r & _ & [Hr _]).
      by eexists. }
    by rewrite andb_false_r. }
  destruct (srcDirectory o), (input_given o); try done. by destruct st_given0 as [[]|[]].
Qed.

Lemma merger_main_loop fuel c fs o rs : starts o -> Forall2 (holds fs) (filenames tree fs o) rs ->
  merger_main (Q := Q) tree exists_ can_create answer tmp fuel c fs o =
    ('(fs, intermediateFilenames) ← main_loop (Q := Q) fuel c 0 (maxFilesAtOnce o) (dstFile o) tmp []
        (std_sort (larger fs) (filenames tree fs o)) fs;
     Ok (Merged (remove_files fs intermediateFilenames))).
Proof. intros Ho Hps. unfold merger_main. by rewrite (merger_prepare_inputs fs o rs Ho Hps). Qed.

(** The fuel does not matter. *)
Lemma merger_main_same fuel fuel' c fs o r r' :
  merger_main (Q := Q) tree exists_ can_create answer tmp fuel c fs o = Ok r ->
  merger_main (Q := Q) tree exists_ can_create answer tmp fuel' c fs o = Ok r' -> r = r'.
Proof.
  unfold merger_main. intros Hr Hr'. apply bind_Ok in Hr as (p & Hp & Hr). rewrite Hp in Hr'. cbn [mbind outcome_bind] in Hr'.
  destruct p as [e|inputs]; [congruence|].
  apply bind_Ok in Hr as ([f1 i1] & H1 & [= <-]). apply bind_Ok in Hr' as ([f2 i2] & H2 & [= <-]).
  apply (main_loop_fuel _ (fuel + fuel')) in H1; [|lia]. apply (main_loop_fuel _ (fuel + fuel')) in H2; [|lia]. congruence.
Qed.

(** All files at once: what becomes of the merge, and of one that is cancelled. *)
Lemma merger_once fs o rs : starts o -> Forall2 (holds fs) (filenames tree fs o) rs -> filenames tree fs o <> [] ->
  dstFile o ∉ filenames tree fs o -> Z.of_nat (length (filenames tree fs o)) <= maxFilesAtOnce o -> PHC_size * Z.of_nat (length (concat rs)) < 2 ^ 64 ->
  exists ps' rs' out, rs' ≡ₚ rs /\ Forall2 (holds fs) ps' rs' /\ merged (zip ps' rs') out /\
    merger_main (Q := Q) tree exists_ can_create answer tmp 1 not_cancelled fs o =
      Ok (Merged (<[dstFile o := phc_file out]> fs)) /\
    forall c, (after_wait c 0 = true -> at_head c 1 = true) -> exists fs',
      merger_main (Q := Q) tree exists_ can_create answer tmp 1 c fs o = Ok (Merged fs') /\
      (fs' = fs \/ exists m, fs' = <[dstFile o := phc_file (take m out)]> fs).
Proof.
  intros Ho Hps Hne Hdst Hmax Hb. destruct (std_sort_Forall2 (larger fs) (holds fs) _ rs Hps) as (rs' & Hrs' & Hps').
  pose proof (std_sort_perm (larger fs) (filenames tree fs o)) as Hperm.
  assert (std_sort (larger fs) (filenames tree fs o) <> []) as Hne'.
  { intros Hnil. apply Hne, Permutation_nil. by rewrite <- Hnil. }
  destruct (run_merge_merged (Q := Q) fs (std_sort (larger fs) (filenames tree fs o)) rs' (dstFile o) Hps' Hne')
    as (out & Hrun & Hm & Hc); [by rewrite std_sort_perm|by rewrite Hrs'|].
  exists (std_sort (larger fs) (filenames tree fs o)), rs', out. do 3 (split; [done|]).
  apply Permutation_length in Hperm. rewrite <- Hperm in Hmax.
  pose proof (fun c => merger_main_loop 1 c fs o rs Ho Hps) as Hmain.
  set (qs := std_sort (larger fs) (filenames tree fs o)) in *. split.
  { rewrite Hmain, main_loop_last by done. no_cancel 0%nat. by rewrite Hrun. }
  intros c Hac. rewrite Hmain, main_loop_last by done. destruct (at_head c 0); [exists fs; by split; [|left]|].
  destruct (Hc (in_merge c 0)) as [->|(m & ->)].
  all: cbn [mbind outcome_bind]; destruct (after_wait c 0); try rewrite main_loop_stopped by auto.
  all: eexists; (split; [reflexivity|]); first [by left|right; by exists m].
Qed.

(** C19: the merger merges all files it collects from [--input] and [--src] into the destination,
    in ascending order and without repetitions, and leaves every other file as it was: the
    intermediate files of its rounds are gone, too.  For this [--max-files-at-once] must be
    two or more ([Merger.merger_loop_one_diverges]), there must be input files (all of them
    readable, sorted and not empty, of less than 2^64 bytes in all), the destination must not be one of them, the names of
    the intermediate files must be new, outputs can be opened, and nobody presses a key. *)
Theorem merger_main_merges fs o rs :
  let names := filenames tree fs o in
  starts o -> 2 <= maxFilesAtOnce o ->
  (forall i j, tmp i = tmp j -> i = j) -> (forall j, tmp j ∉ names /\ tmp j <> dstFile o /\ fs !! tmp j = None) -> dstFile o ∉ names ->
  Forall2 (holds fs) names rs -> names <> [] -> PHC_size * Z.of_nat (length (concat rs)) < 2 ^ 64 ->
  exists out,
    merger_main (Q := Q) tree exists_ can_create answer tmp (length names) not_cancelled fs o =
      Ok (Merged (<[dstFile o := phc_file out]> fs)) /\
    StronglySorted hash_lt out /\
    forall v, v ∈ hval ∘ hash <$> out <-> v ∈ hval ∘ hash <$> concat rs.
Proof.
  intros names Ho Hmax Hinj Hfresh Hdst Hholds Hne Hsize. rewrite (merger_main_loop _ _ fs o rs Ho Hholds).
  destruct (std_sort_Forall2 (larger fs) (holds fs) names rs Hholds) as (rs' & Hrs' & Hholds').
  destruct (main_loop_ok (Q := Q) (maxFilesAtOnce o) (dstFile o) tmp (length names) 0 []
    (std_sort (larger fs) names) rs' fs) as (fs' & k & out & Hloop & Hout & Hother & Hsorted & _ & Hset); try done.
  - intros j _. rewrite std_sort_perm. apply Hfresh.
  - by rewrite std_sort_perm.
  - intros j. apply Hfresh.
  - intros Hnil. apply Hne, Permutation_nil. rewrite <- Hnil. apply std_sort_perm.
  - by rewrite Hrs'.
  - by rewrite std_sort_perm.
  - cbn [app length] in Hother, Hloop. exists out. split_and!; [|done|intros v; rewrite Hset; by rewrite Hrs'].
    fold names. rewrite Hloop. cbn [mbind outcome_bind]. do 2 f_equal. apply map_eq. intros p. rewrite remove_files_lookup.
    destruct (decide (p = dstFile o)) as [->|Hp].
    + rewrite lookup_insert_eq, decide_False; [done|]. intros (j & Hj & _)%list_elem_of_fmap. by destruct (Hfresh j) as (_ & ? & _).
    + rewrite lookup_insert_ne by done. case_decide as Hin; [|by apply Hother].
      apply list_elem_of_fmap in Hin as (j & -> & _). by destruct (Hfresh j) as (_ & _ & ->).
Qed.

(** pressing q while all files are merged at once: the merger ends as if nothing had
    happened, with the exit code of success, but the destination is what it was, or it has
    only the first records of the complete result. *)
Theorem merger_cancelled fs o rs c :
  starts o -> dstFile o ∉ filenames tree fs o -> Z.of_nat (length (filenames tree fs o)) <= maxFilesAtOnce o ->
  Forall2 (holds fs) (filenames tree fs o) rs -> filenames tree fs o <> [] ->
  PHC_size * Z.of_nat (length (concat rs)) < 2 ^ 64 -> (after_wait c 0 = true -> at_head c 1 = true) ->
  exists out fs',
    merger_main (Q := Q) tree exists_ can_create answer tmp 1 not_cancelled fs o =
      Ok (Merged (<[dstFile o := phc_file out]> fs)) /\
    merger_main (Q := Q) tree exists_ can_create answer tmp 1 c fs o = Ok (Merged fs') /\
    (fs' = fs \/ exists m, fs' = <[dstFile o := phc_file (take m out)]> fs).
Proof.
  intros Ho Hdst Hmax Hps Hne Hb Hc. destruct (merger_once fs o rs Ho Hps Hne Hdst Hmax Hb) as (ps' & rs' & out & _ & _ & _ & Hrun & Hall).
  destruct (Hall c Hc) as (fs' & ? & ?). by exists out, fs'.
Qed.
End merger.

Section server.
Import Uri.Accessors ServerMain.
Context {I : Type} `{LookupService I}.
Context (split : list byte -> byte -> list (list byte)).
Context (make_address : list byte -> bool) (can_bind : list byte -> Z -> bool).
Context (open : list byte -> list byte -> outcome I) (last_write_time : list byte -> Z).
#[local] Set Default Proof Using "Type*".

(** The workers [main] starts. *)
Lemma server_main_starts now o uri i :
  help o = false -> inputFilename o <> [] -> 0 <= numThreads o ->
  URI_ctor split (address o) = Ok uri -> make_address (host uri) = true -> can_bind (host uri) (port uri) = true ->
  open (inputFilename o) (indexFilename o) = Ok i ->
  exists ws, server_main split make_address can_bind open last_write_time now o = Ok (Serve ws (host uri) (port uri)) /\
    Z.of_nat (length ws) = (if numWorkers o <? 1 then 64 else numWorkers o) /\
    Forall (fun w => w = start now (HttpWorker (path uri) i true (last_write_time (inputFilename o)))) ws.
Proof.
  intros Hh Hin Hth Huri Hma Hcb Ho. unfold server_main. rewrite Hh, decide_False by done. rewrite Huri.
  cbn [mbind outcome_bind]. rewrite Hma, Hcb. cbn [negb orb].
  destruct (FrontLemmas.make_workers_total open last_write_time
    (Z.to_nat (if numWorkers o <? 1 then DefaultNumWorkers else numWorkers o)) o (path uri) now i Ho) as [ws Hws].
  rewrite Hws. cbn [mbind outcome_bind]. rewrite (proj2 (Z.ltb_ge _ _)) by done.
  apply FrontLemmas.make_workers_spec in Hws as [Hlen Hall]. exists ws. split; [done|]. split.
  - rewrite Hlen. unfold DefaultNumWorkers. destruct (Z.ltb_spec (numWorkers o) 1); lia.
  - eapply Forall_impl; [exact Hall|]. intros w (j & Hj & ->). rewrite Ho in Hj. by injection Hj as <-.
Qed.

(** with a readable input file and an address that can be parsed and bound, the server
    listens on the host and the port of the address with the number of workers asked for, or
    64 when that is not positive; every worker has an inspector of the input file and the
    path of the address as its base path, and waits for a connection. *)
Theorem server_main_workers now o uri i :
  help o = false -> inputFilename o <> [] -> 0 <= numThreads o ->
  URI_ctor split (address o) = Ok uri -> make_address (host uri) = true -> can_bind (host uri) (port uri) = true ->
  open (inputFilename o) (indexFilename o) = Ok i ->
  exists ws, server_main split make_address can_bind open last_write_time now o = Ok (Serve ws (host uri) (port uri)) /\
    Z.of_nat (length ws) = (if numWorkers o <? 1 then 64 else numWorkers o) /\
    Forall (fun w => mInspector w = i /\ mBasePath w = path uri /\ Server.pending w = PAccept) ws.
Proof.
  intros Hh Hin Hth Huri Hma Hcb Ho. destruct (server_main_starts now o uri i Hh Hin Hth Huri Hma Hcb Ho) as (ws & Hr & Hlen & Hall).
  exists ws. split; [exact Hr|]. split; [exact Hlen|]. eapply Forall_impl; [exact Hall|]. intros w ->.
  unfold start, checkTimeout. by cbn.
Qed.
End server.

(** Two files, one in each of the ways to name them; the larger one is merged first. *)
Definition demo_merger : MergerCli.Options :=
  MergerCli.MkOptions false false (Some (bs "dir")) (Some [bs "a.md5"]) (bs "all.md5") (bs "/tmp") 2.
Definition demo_tree (_ : list byte) : list (list byte * bool) :=
  [(bs "b.md5", true); (bs "c.txt", true); (bs "d.md5", false)].

Lemma demo_scan fs : fs !! bs "b.md5" = demo_files !! bs "b.md5" -> MergerCli.scan demo_tree fs (bs "dir") = [bs "b.md5"].
Proof.
  intros Hfs. assert (exists b, fs !! bs "b.md5" = Some b /\ (0 <? length b)%nat = true) as (b & Hb & Hl).
  { rewrite Hfs. pose proof demo_holds as Hd. apply Forall2_cons in Hd as [_ Hd]. apply Forall2_cons in Hd as [[Hb _] _].
    eexists. split; [exact Hb|]. reflexivity. }
  unfold MergerCli.scan, demo_tree. rewrite filter_cons_True by (cbn [fst snd]; rewrite Hb, Hl; reflexivity).
  by rewrite !filter_cons_False by (cbn [fst snd]; rewrite ?andb_false_r; discriminate).
Qed.

Lemma demo_filenames : MergerCli.filenames demo_tree demo_files demo_merger = demo_paths.
Proof.
  change (MergerCli.filenames demo_tree demo_files demo_merger) with
    (bs "a.md5" :: MergerCli.scan demo_tree demo_files (bs "dir")).
  by rewrite demo_scan.
Qed.

Lemma demo_starts : starts (fun _ => true) (fun _ => false) "y"%byte demo_merger.
Proof. split; try done. left. by eexists. Qed.

(** A third file; two rounds are needed. *)
Definition demo_files3 : files := <[bs "c.md5" := phc_file (demo_contents !!! 0%nat)]> demo_files.
Definition demo_rounds : MergerCli.Options :=
  MergerCli.MkOptions false false (Some (bs "dir")) (Some [bs "a.md5"; bs "c.md5"]) (bs "all.md5") (bs "/tmp") 2.

Lemma demo_files3_names : MergerCli.filenames demo_tree demo_files3 demo_rounds = [bs "a.md5"; bs "c.md5"; bs "b.md5"].
Proof.
  change (MergerCli.filenames demo_tree demo_files3 demo_rounds) with
    (bs "a.md5" :: bs "c.md5" :: MergerCli.scan demo_tree demo_files3 (bs "dir")).
  rewrite demo_scan; [reflexivity|]. unfold demo_files3. by rewrite lookup_insert_ne.
Qed.

Lemma demo_files3_holds : Forall2 (holds demo_files3) [bs "a.md5"; bs "c.md5"; bs "b.md5"]
  [demo_contents !!! 0%nat; demo_contents !!! 0%nat; demo_contents !!! 1%nat].
Proof.
  pose proof demo_holds as Hd. apply Forall2_cons in Hd as [[Ha Hga] Hd]. apply Forall2_cons in Hd as [[Hb Hgb] _].
  unfold demo_files3. constructor; [|constructor; [|constructor; [|constructor]]]; (split; [|assumption]).
  - by rewrite lookup_insert_ne.
  - apply lookup_insert_eq.
  - by rewrite lookup_insert_ne.
Qed.

Lemma demo_files3_free j : demo_tmp j ∉ [bs "a.md5"; bs "c.md5"; bs "b.md5"] /\ demo_tmp j <> bs "all.md5" /\ demo_files3 !! demo_tmp j = None.
Proof.
  unfold demo_files3, demo_files, demo_tmp. split; [|split; [discriminate|]].
  - rewrite !not_elem_of_cons. repeat split; try discriminate. by intros ?%elem_of_nil.
  - rewrite !lookup_insert_ne by discriminate. apply lookup_empty.
Qed.

Lemma merger_main_merges_witness :
  exists out,
    MergerCli.merger_main (Q := list MergerInput) demo_tree (fun _ => true) (fun _ => false) "y"%byte demo_tmp
      3 not_cancelled demo_files3 demo_rounds = Ok (MergerCli.Merged (<[bs "all.md5" := phc_file out]> demo_files3)) /\
    StronglySorted hash_lt out.
Proof.
  pose proof (merger_main_merges (Q := list MergerInput) demo_tree (fun _ => true) (fun _ => false)
    "y"%byte demo_tmp demo_files3 demo_rounds [demo_contents !!! 0%nat; demo_contents !!! 0%nat; demo_contents !!! 1%nat]) as H.
  rewrite demo_files3_names in H. destruct H as (out & Hrun & Hs & _).
  - split; try done. left. by eexists.
  - simpl. lia.
  - apply demo_tmp_inj.
  - apply demo_files3_free.
  - apply (bool_decide_unpack _). vm_compute. exact I.
  - apply demo_files3_holds.
  - discriminate.
  - vm_compute. reflexivity.
  - exists out. split; [exact Hrun|exact Hs].
Defined.

(** q is pressed while the merge is at its third record. *)
Definition demo_q : Cancelled := MkCancelled (fun _ => false) (fun _ => false) (fun _ k => (4 <=? k)%nat).

(** How many records the destination has. *)
Definition demo_merged (c : Cancelled) : option Z :=
  match MergerCli.merger_main (Q := list MergerInput) demo_tree (fun _ => true) (fun _ => false) "y"%byte demo_tmp
    2 c demo_files demo_merger with
  | Ok (MergerCli.Merged fs') => (fun b => Z.of_nat (length b) / PHC_size) <$> fs' !! bs "all.md5"
  | _ => None
  end.

Example demo_q_truncates : (demo_merged not_cancelled, demo_merged demo_q) = (Some 3, Some 1).
Proof. vm_compute. reflexivity. Qed.

Lemma merger_cancelled_witness : exists out fs',
  MergerCli.merger_main (Q := list MergerInput) demo_tree (fun _ => true) (fun _ => false) "y"%byte demo_tmp
    1 not_cancelled demo_files demo_merger = Ok (MergerCli.Merged (<[bs "all.md5" := phc_file out]> demo_files)) /\
  MergerCli.merger_main (Q := list MergerInput) demo_tree (fun _ => true) (fun _ => false) "y"%byte demo_tmp
    1 demo_q demo_files demo_merger = Ok (MergerCli.Merged fs') /\
  (fs' = demo_files \/ exists m, fs' = <[bs "all.md5" := phc_file (take m out)]> demo_files).
Proof.
  pose proof (merger_cancelled (Q := list MergerInput) demo_tree (fun _ => true) (fun _ => false)
    "y"%byte demo_tmp demo_files demo_merger demo_contents demo_q) as H.
  rewrite demo_filenames in H. apply H.
  - apply demo_starts.
  - apply (bool_decide_unpack _). vm_compute. exact I.
  - simpl. lia.
  - apply demo_holds.
  - discriminate.
  - unfold PHC_size. simpl. lia.
  - discriminate.
Defined.

(** The server's default address, with no number of workers. *)
Definition demo_server : ServerMain.Options :=
  ServerMain.MkOptions false (bs "db.md5") [] ServerMain.DefaultAddress 0 8 (ServerMain.MkCounter 0).

Lemma server_main_workers_witness :
  exists ws, ServerMain.server_main split_on (fun _ => true) (fun _ p => 1024 <=? p) (fun _ _ => Ok Inspector_default)
      (fun _ => 0) 0 demo_server = Ok (ServerMain.Serve ws (bs "127.0.0.1") 31337) /\
    Z.of_nat (length ws) = 64 /\
    Forall (fun w : Worker Inspector => mInspector w = Inspector_default /\ mBasePath w = bs "/v1/pwned/api" /\ Server.pending w = PAccept) ws.
Proof.
  destruct (URI_ctor split_on ServerMain.DefaultAddress) as [uri| | |] eqn:Hu; [|vm_compute in Hu; discriminate..].
  assert (Accessors.host uri = bs "127.0.0.1" /\ Accessors.port uri = 31337 /\ Accessors.path uri = bs "/v1/pwned/api") as (Hh & Hp & Hpath).
  { vm_compute in Hu. injection Hu as <-. by split_and!. }
  rewrite <- Hh, <- Hp, <- Hpath.
  apply (server_main_workers split_on (fun _ => true) (fun _ p => 1024 <=? p) (fun _ _ => Ok Inspector_default) (fun _ => 0)
    0 demo_server uri Inspector_default).
  - reflexivity.
  - discriminate.
  - simpl. lia.
  - exact Hu.
  - reflexivity.
  - rewrite Hp. reflexivity.
  - reflexivity.
Defined.
