(* ===== verification/MergerProgram.v ===== *)
(** * pwned-merger-cli: the program, with its threads and its files

    [Merger] has the rounds of [main] with the answers of [isCancelled] as an argument, and
    [Queue] the threads.  Here the two are one system: [main] adds one operation per round and
    waits for the queue, the thread of the operation takes the steps of
    [MergeOperation::execute], and keys may be pressed at any moment. *)

From S2P Require Import Prelude Stream Util Hash Phc Inspector PriorityQueue Merge Merger Queue QueueCancel Converter Tools.
From stdpp Require Import options.

(** ** One merge *)

(** Where [MergeOperation::execute] is. *)
Inductive MergePc :=
  | MEntry                  (** before the first look at [isCancelled] *)
  | MLoop (current : PHC)   (** about to test [!isCancelled] *)
  | MClose                  (** after the loop *)
  | MDone.

Section task.
Context {QM : Type} `{PM : PriorityQueue MergerInput SmallestHashFirst QM}.

(** The operation: its private members and where it is. *)
Record MergeTask := MkMergeTask {
  k_slice : list (list byte);
  k_target : list byte;
  k_bar : ProgressBar;
  k_total : Z;              (** [totalEntries] *)
  k_state : MergeState QM;
  k_pc : MergePc }.

(** The constructor. *)
Definition MergeOperation (fs : files) (slice : list (list byte)) (target : list byte) (bar : ProgressBar) : MergeTask :=
  let '(s, totalEntries) := merge_init (entry_of fs <$> slice) in MkMergeTask slice target bar totalEntries s MEntry.

Definition merge_done (t : MergeTask) : bool := match k_pc t with MDone => true | _ => false end.

Definition k_goto (pc : MergePc) (t : MergeTask) : MergeTask :=
  MkMergeTask (k_slice t) (k_target t) (k_bar t) (k_total t) (k_state t) pc.
(** What was written is in the file. *)
Definition k_save (s : MergeState QM) (pc : MergePc) (t : MergeTask) (fs : files) : MergeTask * files :=
  (MkMergeTask (k_slice t) (k_target t) (k_bar t) (k_total t) s pc, <[k_target t := ms_out s]> fs).

Definition updateAfterEntries (t : MergeTask) : Z := Z.max (k_total t / 1000) 1.

(** The body of the loop; the loop ends with [None]. *)
Definition merge_body (progressed : option (Z -> outcome unit)) (updateAfterEntries : Z) (current : PHC)
    (s : MergeState QM) : outcome (MergeState QM * option PHC) :=
  let '(p, s) := merge_next false s in
  if negb (pq_is_empty (ms_pq s)) then
    _ ← (if ms_entriesProcessed s mod updateAfterEntries =? 0
         then progress progressed (ms_entriesProcessed s) else Ok tt);
    let s := MkMerge (ms_pq s) (ms_out s) (u64 (ms_entriesProcessed s + 1)) (ms_removed s) (ms_deleted s) in
    if Hash_eqb (hash current) (hash p)
    then Ok (s, Some (MkPHC (hash current) (u32 (count current + count p))))
    else Ok (merge_dump current s, Some p)
  else Ok (merge_dump current s, None).

(** The next step of [execute]; [cancelled] is the operation's flag, [None] is after the end. *)
Definition merge_step (cancelled : bool) (t : MergeTask) (fs : files) : option (outcome (MergeTask * files)) :=
  match k_pc t with
  | MEntry =>
      if cancelled then Some (Ok (k_goto MDone t, fs))
      else
        match pq_top (ms_pq (k_state t)) with
        | None => Some (Ok (k_goto MDone t, fs))
        | Some top =>
            Some (defined_if (negb (bool_decide (k_target t ∈ k_slice t))) (Ok (k_save (k_state t) (MLoop (phc top)) t fs)))
        end
  | MLoop current =>
      if cancelled then Some (Ok (k_goto MClose t, fs))
      else Some ((fun '(s, current) => k_save s match current with Some p => MLoop p | None => MClose end t fs) <$>
        merge_body (bar_callback (k_bar t)) (updateAfterEntries t) current (k_state t))
  | MClose => Some ((fun _ => (k_goto MDone t, fs)) <$> progress (bar_callback (k_bar t)) (ms_entriesProcessed (k_state t)))
  | MDone => None
  end.
End task.
Arguments MergeTask QM : clear implicits.

(** ** The program *)

(** Where [main] is; [next] are the input files of the next round unless it was cancelled. *)
Inductive MainAt :=
  | AtHead                                (** about to test the condition of the loop *)
  | AtAdd (next : list (list byte))       (** about to call [add] *)
  | AtExecute (next : list (list byte))   (** about to call [execute] *)
  | AtWait (next : list (list byte))      (** in [execute(true)] and [waitForFinished] *)
  | AtAfter (next : list (list byte))     (** about to test [isCancelled] *)
  | AtRemove                              (** after the loop *)
  | AtEnd.

Section system.
Context {Q : Type} `{PQ : PriorityQueue OpPtr opGreaterPriority Q}.
Context {QM : Type} `{PM : PriorityQueue MergerInput SmallestHashFirst QM}.

Record System := MkSystem {
  y_queue : State Q;
  y_at : MainAt;
  y_op : option (MergeTask QM);          (** the operation, until it is deleted *)
  y_round : nat;
  y_inputFiles : list (list byte);
  y_intermediateFilenames : list (list byte);
  y_files : files }.

Definition at_main (a : MainAt) (s : System) : System :=
  MkSystem (y_queue s) a (y_op s) (y_round s) (y_inputFiles s) (y_intermediateFilenames s) (y_files s).
Definition with_queue (q : State Q) (s : System) : System :=
  MkSystem q (y_at s) (y_op s) (y_round s) (y_inputFiles s) (y_intermediateFilenames s) (y_files s).
Definition with_task (t : MergeTask QM) (fs : files) (s : System) : System :=
  MkSystem (y_queue s) (y_at s) (Some t) (y_round s) (y_inputFiles s) (y_intermediateFilenames s) fs.

(** The options, and the unique paths. *)
Context (maxFilesAtOnce : Z) (dstFile : list byte) (tmp : nat -> list byte).

(** The pointer to the operation of a round. *)
Definition round_op (s : System) : OpPtr := MkPtr (y_round s) 0.

(** The next step of [main] itself; [None] is that it has to wait or has ended. *)
Definition main_next (s : System) : option (outcome System) :=
  match y_at s with
  | AtHead =>
      match y_inputFiles s with
      | [] => Some (Ok (at_main AtRemove s))
      | inputFiles =>
          if isCancelled (y_queue s) then Some (Ok (at_main AtRemove s))
          else Some (defined_if (0 <=? maxFilesAtOnce) (
            let slice := take (Z.to_nat maxFilesAtOnce) inputFiles in
            let isLastChunk := (length slice =? length inputFiles)%nat in
            let intermediateFilenames := y_intermediateFilenames s in
            let targetFilename := if isLastChunk then dstFile else tmp (length intermediateFilenames) in
            let intermediateFilenames :=
              if isLastChunk then intermediateFilenames else intermediateFilenames ++ [targetFilename] in
            chunkInputSize ← chunk_size 0 (y_files s) (InputFile_ctor <$> slice);
            let bar := setHi (ProgressBar_ctor 32 0) (chunkInputSize / PHC_size) in
            let op := MergeOperation (y_files s) slice targetFilename bar in
            let left := drop (Z.to_nat maxFilesAtOnce) inputFiles in
            Ok (MkSystem (y_queue s) (AtAdd (if isLastChunk then left else left ++ [targetFilename])) (Some op)
              (y_round s) inputFiles intermediateFilenames (y_files s))))
      end
  | AtAdd next =>
      match mtx (y_queue s) with
      | Some _ => None
      | None => Some (Ok (at_main (AtExecute next) (with_queue (refill (round_op s) (y_queue s)) s)))
      end
  | AtExecute next => Some (Ok (at_main (AtWait next) (with_queue (execute (y_queue s)) s)))
  | AtWait next =>
      match mainThread (y_queue s) with Returned => Some (Ok (at_main (AtAfter next) s)) | _ => None end
  | AtAfter next =>
      let inputFiles := if isCancelled (y_queue s) then y_inputFiles s else next in
      Some (Ok (MkSystem (y_queue s) AtHead None (S (y_round s)) inputFiles (y_intermediateFilenames s) (y_files s)))
  | AtRemove =>
      Some (Ok (MkSystem (y_queue s) AtEnd (y_op s) (y_round s) (y_inputFiles s) (y_intermediateFilenames s)
        (remove_files (y_files s) (y_intermediateFilenames s))))
  | AtEnd => None
  end.

Inductive SystemLabel :=
  | SQueue (l : Label)   (** a step of the queue's threads, of [waitForFinished] or the keyboard *)
  | SWork (i : nat)      (** a step of the [execute] that thread [i] is in *)
  | SMain.               (** a step of [main] itself *)

(** [waitForFinished] takes steps when [main] is in it; [execute] returns at its end only. *)
Definition allowed (l : Label) (s : System) : bool :=
  match l with
  | LMain => match y_at s with AtWait _ => true | _ => false end
  | LOp false i =>
      match executing (y_queue s) i, y_op s with Some _, Some t => merge_done t | _, _ => true end
  | _ => true
  end.

Definition system_step (l : SystemLabel) (s : System) : option (outcome System) :=
  match l with
  | SQueue l => if allowed l s then lift (fun q => with_queue q s) (step l (y_queue s)) else None
  | SWork i =>
      match executing (y_queue s) i with
      | None => None
      | Some op =>
          match heap (y_queue s) !! op_id op, y_op s with
          | Some o, Some t => lift (fun '(t, fs) => with_task t fs s) (merge_step (op_isCancelled o) t (y_files s))
          | _, _ => Some Undefined
          end
      end
  | SMain => main_next s
  end.

Fixpoint system_run (ls : list SystemLabel) (s : System) : option (outcome System) :=
  match ls with
  | [] => Some (Ok s)
  | l :: ls => match system_step l s with Some (Ok s) => system_run ls s | r => r end
  end.

(** [main] before its loop. *)
Definition start_system (hardware_concurrency : Z) (inputFiles : list (list byte)) (fs : files) : System :=
  MkSystem (set_main Returned (queue_ctor hardware_concurrency)) AtHead None 0 inputFiles [] fs.

(** Wake-ups without a notification are left out, and runs without keys are told apart. *)
Definition notified_label (l : SystemLabel) : bool := match l with SQueue l => notified l | _ => true end.
Inductive keyless : SystemLabel -> Prop :=
  | keyless_queue l : worker l -> keyless (SQueue l)
  | keyless_work i : keyless (SWork i)
  | keyless_main : keyless SMain.

Definition system_moves (s s' : System) : Prop := exists l, notified_label l = true /\ system_step l s = Some (Ok s').
Definition keyless_moves (s s' : System) : Prop := exists l, keyless l /\ system_step l s = Some (Ok s').
End system.
Arguments System : clear implicits.

(** ** Lemmas: one merge *)

(** The looks at [isCancelled]: from the [m]th on it is set, or it never is. *)
Definition cut (m : option nat) (k : nat) : bool := match m with Some m => (m <=? k)%nat | None => false end.

(** A sorted file of records, an empty one perhaps. *)
Definition sorted_file (recs : list PHC) : Prop := Forall PHC_wf recs /\ StronglySorted hash_lt recs.
Definition stored (fs : files) (p : list byte) : Prop := exists recs, fs !! p = Some (phc_file recs) /\ sorted_file recs.

Lemma sorted_file_take m recs : sorted_file recs -> sorted_file (take m recs).
Proof.
  intros [Hw Hs]. split; [by apply Forall_take|]. rewrite <- (take_drop m recs) in Hs. clear Hw.
  induction (take m recs) as [|p l IH]; [constructor|]. cbn in Hs. apply StronglySorted_inv in Hs as [Hs Hp].
  apply Forall_app in Hp as [Hp _]. constructor; auto.
Qed.

Lemma phc_prefix out e d : phc_file out = phc_file e ++ phc_file d -> phc_file e = phc_file (take (length e) out).
Proof.
  intros Heq. rewrite <- phc_file_take, Heq. rewrite take_app_le, take_ge by (pose proof (length_phc_file e); lia). done.
Qed.

Section one_merge.
Context {QM : Type} `{PM : PriorityQueue MergerInput SmallestHashFirst QM}.
#[local] Set Default Proof Using "Type*".

Lemma merge_loop_unfold f progressed cancelled upd k current (s : MergeState QM) :
  merge_loop (S f) false progressed cancelled upd k current s =
    if cancelled k then Ok s
    else '(s, c) ← merge_body progressed upd current s;
      match c with Some p => merge_loop f false progressed cancelled upd (S k) p s | None => Ok s end.
Proof.
  cbn [merge_loop]. destruct (cancelled k); [done|]. unfold merge_body. destruct (merge_next false s) as [p s1].
  destruct (negb _); [|done]. destruct (ms_entriesProcessed s1 mod upd =? 0); [destruct (progress progressed _); try done|];
    cbn [mbind outcome_bind]; by destruct (Hash_eqb _ _).
Qed.

Lemma merge_body_quiet progressed upd current (s : MergeState QM) r :
  merge_body progressed upd current s = Ok r -> merge_body None upd current s = Ok r.
Proof.
  unfold merge_body. destruct (merge_next false s) as [p s1]. destruct (negb _); [|done].
  destruct (_ =? 0); [|done]. destruct (progress progressed _); try done.
Qed.

Lemma merge_body_appends progressed upd current (s s1 : MergeState QM) c :
  merge_body progressed upd current s = Ok (s1, c) -> exists d, ms_out s1 = ms_out s ++ phc_file d.
Proof.
  unfold merge_body. destruct (merge_next false s) as [p s2] eqn:Hn. apply merge_next_out in Hn as ->.
  destruct (negb _); [|intros [= <- <-]; exists [current]; cbn; by rewrite app_nil_r].
  intros Hr. apply bind_Ok in Hr as (_ & _ & Hr). revert Hr.
  destruct (Hash_eqb _ _); intros [= <- <-]; [exists []; by rewrite app_nil_r|exists [current]; cbn; by rewrite app_nil_r].
Qed.

(** The merge the program runs in one go ([Merger.run_merge]). *)
Definition merge_of (fs : files) (t : MergeTask QM) (cancelled : nat -> bool) : outcome (option (MergeState QM)) :=
  merge_execute (op_fuel (entry_of fs <$> k_slice t)) false (bar_callback (k_bar t)) cancelled true (entry_of fs <$> k_slice t).

(** The steps taken so far, from the files [fs], are the beginning of that merge; [P] holds
    when [isCancelled] was set. *)
Definition task_ok (P : Prop) (fs : files) (t : MergeTask QM) (files : files) : Prop :=
  let s := k_state t in
  let writes := k_target t ∉ k_slice t /\ files = <[k_target t := ms_out s]> fs in
  Forall (stored fs) (k_slice t) /\
  match k_pc t with
  | MEntry => files = fs /\ merge_init (entry_of fs <$> k_slice t) = (s, k_total t)
  | MLoop current => writes /\
      exists k f s' e out,
        merge_loop f false None (fun _ => false) (updateAfterEntries t) k current s = Ok s' /\
        ms_out s = phc_file e /\ ms_out s' = phc_file out /\ sorted_file out /\
        forall cancelled, (forall j, (j < k)%nat -> cancelled j = false) ->
          merge_of fs t cancelled =
            (s ← merge_loop f false (bar_callback (k_bar t)) cancelled (updateAfterEntries t) k current s;
             _ ← progress (bar_callback (k_bar t)) (ms_entriesProcessed s); Ok (Some s))
  | MClose => writes /\
      exists a e, (a <> None -> P) /\ ms_out s = phc_file e /\ sorted_file e /\
        forall cancelled, (forall j, cancelled j = cut a j) ->
          merge_of fs t cancelled = (_ ← progress (bar_callback (k_bar t)) (ms_entriesProcessed s); Ok (Some s))
  | MDone =>
      exists a, (a <> None -> P) /\
        ((files = fs /\ forall cancelled, (forall j, cancelled j = cut a j) -> merge_of fs t cancelled = Ok None) \/
         (writes /\ (exists e, ms_out s = phc_file e /\ sorted_file e) /\
          forall cancelled, (forall j, cancelled j = cut a j) -> merge_of fs t cancelled = Ok (Some s)))
  end.

Lemma task_weaken (P P' : Prop) fs t files : (P -> P') -> task_ok P fs t files -> task_ok P' fs t files.
Proof.
  intros HP [Hst Ht]. split; [done|]. destruct (k_pc t); try done.
  - destruct Ht as (? & a & e & ? & ?). split; [done|]. exists a, e. naive_solver.
  - destruct Ht as (a & ? & ?). exists a. naive_solver.
Qed.

Lemma stored_entries fs slice : Forall (stored fs) slice ->
  exists inputs, entry_of fs <$> slice = src_of <$> inputs /\ length inputs = length slice /\
    Forall (fun e => Forall PHC_wf (snd e) /\ StronglySorted hash_lt (snd e)) inputs.
Proof.
  induction 1 as [|p slice (recs & Hp & Hr) _ (inputs & He & Hl & Hf)]; [by exists []|].
  exists ((p, recs) :: inputs). csimpl. split; [|split; [by rewrite Hl|by constructor]]. rewrite He. f_equal.
  unfold entry_of, src_of. by rewrite Hp.
Qed.

Lemma plain_fuel inputs : (merge_fuel inputs <= op_fuel (src_of <$> inputs))%nat.
Proof.
  unfold merge_fuel, all_records. induction inputs as [|[p recs] inputs IH]; [done|]. csimpl.
  rewrite length_app. pose proof (length_phc_file recs). unfold PHC_size in *. lia.
Qed.

(** There is a top only when there are inputs. *)
Lemma merge_init_top (srcs : list (list byte * file_entry)) (s : MergeState QM) tot top : merge_init srcs = (s, tot) -> pq_top (ms_pq s) = Some top -> srcs <> [].
Proof.
  intros Hinit Htop ->. cbn in Hinit. injection Hinit as Hs _. rewrite <- Hs in Htop. cbn in Htop.
  assert (pq_top (pq_empty (Q := QM)) = None) by (apply pq_top_none, pq_elems_empty). congruence.
Qed.

Lemma task_entry (P : Prop) c fs t files t' files' : k_pc t = MEntry -> task_ok P fs t files -> (c = true -> P) ->
  merge_step c t files = Some (Ok (t', files')) -> task_ok P fs t' files'.
Proof.
  intros Hpc [Hst Ht] Hc Hr. unfold merge_step in Hr. rewrite Hpc in Ht, Hr.
  destruct Ht as [-> Hinit]. destruct c.
  { injection Hr as <- <-. split; [done|]. cbn. exists (Some 0%nat). split; [auto|]. left. split; [done|].
    intros cancelled Hcut. unfold merge_of, merge_execute. cbn [k_slice k_goto]. rewrite Hinit. by rewrite Hcut. }
  destruct (pq_top (ms_pq (k_state t))) as [top|] eqn:Htop.
  + destruct (bool_decide (k_target t ∈ k_slice t)) eqn:Hb; [done|]. apply bool_decide_eq_false in Hb.
    cbn in Hr. injection Hr as <- <-. split; [done|]. cbn. split; [done|].
    destruct (stored_entries fs (k_slice t) Hst) as (inputs & He & Hl & Hf).
    rewrite He in Hinit. assert (inputs <> []) as Hne by (intros ->; by apply (merge_init_top _ _ _ _ Hinit Htop)).
    destruct (merge_loop_sorted (Q := QM) (op_fuel (src_of <$> inputs)) false 1 inputs (updateAfterEntries t)
      (plain_fuel inputs) Hne Hf) as (top' & s' & out & Htop' & Ho & Hrun & Hout & Hs & Hw).
    rewrite Hinit in Htop', Ho, Hrun. cbn [fst] in *. rewrite Htop in Htop'. injection Htop' as <-.
    exists 1%nat, (op_fuel (src_of <$> inputs)), s', [], out. split; [exact Hrun|]. split; [exact Ho|]. split; [done|].
    split; [done|]. intros cancelled Hcan. unfold merge_of, merge_execute. cbn [k_slice k_bar]. rewrite He, Hinit.
    rewrite Hcan by lia. rewrite Htop. done.
  + injection Hr as <- <-. split; [done|]. cbn. exists None. split; [done|]. left. split; [done|].
    intros cancelled Hcut. unfold merge_of, merge_execute. cbn [k_slice k_goto]. rewrite Hinit, Hcut. cbn. by rewrite Htop.
Qed.

Lemma task_turn (P : Prop) c fs t files t' files' current : k_pc t = MLoop current -> task_ok P fs t files -> (c = true -> P) ->
  merge_step c t files = Some (Ok (t', files')) -> task_ok P fs t' files'.
Proof.
  intros Hpc [Hst Ht] Hc Hr. unfold merge_step in Hr. rewrite Hpc in Ht, Hr.
  destruct Ht as ([Hni ->] & k & f & s' & e & out & Hrun & He & Hout & Hso & Heq). destruct c.
  { injection Hr as <- <-. split; [done|]. cbn. split; [done|]. exists (Some k), (take (length e) out). split; [auto|].
    destruct (merge_loop_appends _ _ _ _ _ _ _ _ _ Hrun) as (d & Hd). rewrite Hout, He in Hd. apply phc_prefix in Hd.
    split; [by rewrite He|]. split; [by apply sorted_file_take|]. intros cancelled Hcut.
    change (merge_of fs (k_goto MClose t) cancelled) with (merge_of fs t cancelled).
    rewrite Heq by (intros j Hj; rewrite Hcut; cbn; apply Nat.leb_gt; lia).
    destruct f as [|f]; [done|]. rewrite merge_loop_unfold, Hcut. cbn. by rewrite Nat.leb_refl. }
  destruct (merge_body _ _ _ _) as [[s1 c]| | |] eqn:Hb; try done. injection Hr as <- <-.
  destruct f as [|f]; [done|]. rewrite merge_loop_unfold, (merge_body_quiet _ _ _ _ _ Hb) in Hrun. cbn [mbind outcome_bind] in Hrun.
  destruct (merge_body_appends _ _ _ _ _ _ Hb) as (d & Hd). rewrite He in Hd.
  assert (ms_out s1 = phc_file (e ++ d)) as Hs1 by (rewrite Hd; unfold phc_file; by rewrite fmap_app, concat_app).
  split; [by destruct c|]. destruct c as [p|]; cbn.
  + split; [by rewrite insert_insert_eq|]. exists (S k), f, s', (e ++ d), out. split_and!; try done.
    intros cancelled Hcan. change (merge_of fs _ cancelled) with (merge_of fs t cancelled). rewrite Heq by (intros; apply Hcan; lia).
    rewrite merge_loop_unfold, Hcan, Hb by lia. done.
  + split; [by rewrite insert_insert_eq|]. injection Hrun as ->. exists None, out. split_and!; try done.
    intros cancelled Hcut. change (merge_of fs _ cancelled) with (merge_of fs t cancelled).
    rewrite Heq by (intros; by rewrite Hcut). by rewrite merge_loop_unfold, Hcut, Hb.
Qed.

Lemma task_step (P : Prop) c fs t files t' files' : task_ok P fs t files -> (c = true -> P) ->
  merge_step c t files = Some (Ok (t', files')) -> task_ok P fs t' files'.
Proof.
  intros Ht Hc Hr. destruct (k_pc t) as [|current| |] eqn:Hpc;
    [by eapply task_entry|by eapply task_turn| |unfold merge_step in Hr; by rewrite Hpc in Hr].
  destruct Ht as [Hst Ht]. unfold merge_step in Hr. rewrite Hpc in Ht, Hr.
  destruct Ht as ([Hni ->] & a & e & Ha & He & Hso & Heq).
  destruct (progress _ _) as [[]| | |] eqn:Hp; try done. injection Hr as <- <-. split; [done|]. cbn.
  exists a. split; [done|]. right. split; [done|]. split; [by exists e|]. intros cancelled Hcut.
  change (merge_of fs _ cancelled) with (merge_of fs t cancelled). rewrite (Heq cancelled Hcut). done.
Qed.
End one_merge.

(** ** Lemmas: the system follows the loop of [Merger] *)

Section follows.
Context {Q : Type} `{PQ : PriorityQueue OpPtr opGreaterPriority Q}.
Context {QM : Type} `{PM : PriorityQueue MergerInput SmallestHashFirst QM}.
Context (n : Z) (n_u32 : in_u32 n) (maxFilesAtOnce : Z) (dstFile : list byte) (tmp : nat -> list byte).
Context (inputs0 : list (list byte)) (fs0 : files).
#[local] Set Default Proof Using "Type*".

(** What the head of a round makes of the input files [ps] and the intermediate files [ims]. *)
Definition chunk (ps : list (list byte)) : list (list byte) := take (Z.to_nat maxFilesAtOnce) ps.
Definition is_last (ps : list (list byte)) : bool := (length (chunk ps) =? length ps)%nat.
Definition target_of (ims ps : list (list byte)) : list byte := if is_last ps then dstFile else tmp (length ims).
Definition ims_of (ims ps : list (list byte)) : list (list byte) := if is_last ps then ims else ims ++ [target_of ims ps].
Definition next_of (ims ps : list (list byte)) : list (list byte) :=
  let left := drop (Z.to_nat maxFilesAtOnce) ps in if is_last ps then left else left ++ [target_of ims ps].

(** The answers of [isCancelled] in the rounds so far: in the merge and after it. *)
Abbreviation answers := (list (option nat * bool)).

Definition agrees (c : Cancelled) (l : answers) : Prop :=
  forall i a b, l !! i = Some (a, b) -> at_head c i = false /\ after_wait c i = b /\ forall k, in_merge c i k = cut a k.
Definition quiet (l : answers) : Prop := forall x, x ∈ l -> snd x = false.
(** After a cancelled round [h] is what the head of the loop sees. *)
Definition coherent (l : answers) (h : bool) : Prop :=
  quiet l \/ exists l0 a, l = l0 ++ [(a, true)] /\ quiet l0 /\ h = true.
Definition any_cut (l : answers) : Prop := exists x, x ∈ l /\ fst x <> None.

Abbreviation loop fuel c round ims ps fs := (main_loop (Q := QM) fuel c round maxFilesAtOnce dstFile tmp ims ps fs).

Definition reaches (l : answers) (ims inputs : list (list byte)) (fs : files) : Prop :=
  forall c fuel, agrees c l -> loop (length l + fuel)%nat c 0%nat [] inputs0 fs0 = loop fuel c (length l) ims inputs fs.
Definition in_round (l : answers) (ims inputs next : list (list byte)) (fs1 : files) (t : MergeTask QM) : Prop :=
  forall c fuel, agrees c l -> at_head c (length l) = false ->
    loop (length l + S fuel)%nat c 0%nat [] inputs0 fs0 =
      (fs2 ← run_merge (Q := QM) (in_merge c (length l)) fs1 (k_slice t) (k_target t);
       loop fuel c (S (length l)) ims (if after_wait c (length l) then inputs else next) fs2).
Definition ended (l : answers) (h : bool) (ims ps : list (list byte)) (fs : files) : Prop :=
  coherent l h /\ (any_cut l -> quiet l /\ h = false) /\
  forall c fuel, agrees c l -> ps = [] \/ at_head c (length l) = h -> loop (length l + fuel)%nat c 0%nat [] inputs0 fs0 = Ok (fs, ims).

(** What a client keeps from round to round: the answers, the input files and the intermediate
    ones, and the files at the head of the loop. *)
Context (R : answers -> list (list byte) -> list (list byte) -> files -> Prop).
Context (R_start : R [] inputs0 [] fs0).
Context (R_round : forall l ps ims fs a b fs', R l ps ims fs -> ps <> [] ->
  run_merge (Q := QM) (cut a) fs (chunk ps) (target_of ims ps) = Ok fs' ->
  R (l ++ [(a, b)]) (if b then ps else next_of ims ps) (ims_of ims ps) fs').

(** Every file is what it was, or a sorted file. *)
Definition files_ok (fs : files) : Prop := forall p, fs !! p = fs0 !! p \/ stored fs p.
Definition inputs_ok (fs : files) (ps : list (list byte)) : Prop := forall p, p ∈ ps -> fs !! p = None \/ stored fs p.

Record Round (s : System Q QM) (l : answers) (fs1 : files) (next : list (list byte)) (t : MergeTask QM) : Prop := {
  rd_op : y_op s = Some t;
  rd_loop : in_round l (y_intermediateFilenames s) (y_inputFiles s) next fs1 t;
  rd_quiet : quiet l;
  rd_task : task_ok (Spent (y_queue s)) fs1 t (y_files s);
  rd_bar : exists sz, chunk_size 0 fs1 (InputFile_ctor <$> k_slice t) = Ok sz /\ k_bar t = setHi (ProgressBar_ctor 32 0) (sz / PHC_size);
  rd_cut : any_cut l -> Spent (y_queue s);
  rd_length : length l = y_round s;
  rd_files : files_ok fs1;
  rd_inputs : inputs_ok fs1 (y_inputFiles s);
  rd_next : forall p, p ∈ next -> p ∈ y_inputFiles s \/ exists j, p = tmp j;
  rd_start : exists ims, R l (y_inputFiles s) ims fs1 /\ y_inputFiles s <> [] /\ k_slice t = chunk (y_inputFiles s) /\
    k_target t = target_of ims (y_inputFiles s) /\ y_intermediateFilenames s = ims_of ims (y_inputFiles s) /\
    next = next_of ims (y_inputFiles s) }.

(** Who cancelled was the key thread. *)
Definition from_key (l : answers) (h : bool) (q : State Q) : Prop :=
  (any_cut l -> Spent q) /\ (h = true -> _isCancelled q = true).

Definition system_ok (s : System Q QM) : Prop :=
  let q := y_queue s in
  match y_at s with
  | AtHead => Resting n q /\ files_ok (y_files s) /\ inputs_ok (y_files s) (y_inputFiles s) /\
      exists l, reaches l (y_intermediateFilenames s) (y_inputFiles s) (y_files s) /\ length l = y_round s /\
        (any_cut l -> Spent q /\ quiet l) /\ coherent l (_isCancelled q) /\
        R l (y_inputFiles s) (y_intermediateFilenames s) (y_files s)
  | AtAdd next => Resting n q /\ exists l fs1 t, Round s l fs1 next t /\ k_pc t = MEntry
  | AtExecute next => Filled n (round_op s) q /\ exists l fs1 t, Round s l fs1 next t /\ k_pc t = MEntry
  | AtWait next => Executed n [round_op s] q /\ exists l fs1 t, Round s l fs1 next t /\ (round_op s ∈ log q -> merge_done t = true)
  | AtAfter next => Resting n q /\ exists l fs1 t, Round s l fs1 next t /\ merge_done t = true
  | AtRemove => Resting n q /\ files_ok (y_files s) /\ exists l h,
      ended l h (y_intermediateFilenames s) (y_inputFiles s) (y_files s) /\
      R l (y_inputFiles s) (y_intermediateFilenames s) (y_files s) /\ from_key l h q
  | AtEnd => Resting n q /\ exists l h fs1, files_ok fs1 /\ ended l h (y_intermediateFilenames s) (y_inputFiles s) fs1 /\
      R l (y_inputFiles s) (y_intermediateFilenames s) fs1 /\ from_key l h q /\ y_files s = remove_files fs1 (y_intermediateFilenames s)
  end.

Lemma round_queue s q l fs1 next t : Round s l fs1 next t -> (Spent (y_queue s) -> Spent q) -> Round (with_queue q s) l fs1 next t.
Proof. intros [] Hq. split; cbn; try done; [by eapply task_weaken|auto]. Qed.

Lemma coherent_mono l b b' : coherent l b -> (b = true -> b' = true) -> coherent l b'.
Proof. intros [?|(l0 & a & ? & ? & ?)] Hb; [by left|]. right. exists l0, a. auto. Qed.

(** A step of the queue. *)
Lemma queue_ok l s q : system_ok s -> notified l = true -> allowed l s = true -> step l (y_queue s) = Some (Ok q) ->
  system_ok (with_queue q s).
Proof.
  intros Hs Hl Hal Hst. unfold system_ok in *. cbn [y_at with_queue y_queue].
  assert (Inv n (y_queue s) -> Spent (y_queue s) -> Spent q) as Hsp by (intros Hi Hsp; by eapply spent_step).
  destruct (y_at s) eqn:Hat.
  - destruct Hs as (Hr & Hf & Hin & ll & H1 & H2 & H3 & H4 & H5). destruct (resting_stays n n_u32 l _ _ Hr Hl Hst) as [Hr' Hc].
    split; [done|]. split; [done|]. split; [done|]. exists ll. split_and!; try done.
    + intros Hc'. destruct (H3 Hc'). split; [|done]. apply Hsp; [apply Hr|done].
    + by eapply coherent_mono.
  - destruct Hs as (Hr & ll & fs1 & t & Hrd & Hpc). destruct (resting_stays n n_u32 l _ _ Hr Hl Hst) as [Hr' _].
    split; [done|]. exists ll, fs1, t. split; [|done]. apply round_queue; [done|]. apply Hsp, Hr.
  - destruct Hs as (Hr & ll & fs1 & t & Hrd & Hpc). split.
    + apply (filled_stays n n_u32 _ l (y_queue s)); try done. intros ->. cbn in Hal. by rewrite Hat in Hal.
    + exists ll, fs1, t. split; [|done]. apply round_queue; [done|]. apply Hsp, Hr.
  - destruct Hs as (Hx & ll & fs1 & t & Hrd & Hlog).
    assert (NoDup (op_id <$> [round_op s])) as Hnd by (csimpl; apply NoDup_singleton).
    pose proof (executed_step n n_u32 _ Hnd (y_queue s) q Hx (ex_intro _ l (conj Hl Hst))) as Hx'. split; [done|].
    exists ll, fs1, t. split; [apply round_queue; [done|]; apply Hsp, Hx|].
    intros Hin. destruct (step_frame n l _ _ (ex_inv _ _ _ Hx) Hl Hst) as [_ [E|(i & op & -> & Hi & E)]]; [rewrite E in Hin; auto|].
    cbn in Hal. unfold executing in Hal. rewrite Hi, (rd_op _ _ _ _ _ Hrd) in Hal. done.
  - destruct Hs as (Hr & ll & fs1 & t & Hrd & Hpc). destruct (resting_stays n n_u32 l _ _ Hr Hl Hst) as [Hr' _].
    split; [done|]. exists ll, fs1, t. split; [|done]. apply round_queue; [done|]. apply Hsp, Hr.
  - destruct Hs as (Hr & Hf & ll & h & He & HR & Hk1 & Hk2). destruct (resting_stays n n_u32 l _ _ Hr Hl Hst) as [Hr' Hc].
    split; [done|]. split; [done|]. exists ll, h. do 2 (split; [done|]). split; [|auto]. intros Hcu. apply Hsp; [apply Hr|auto].
  - destruct Hs as (Hr & ll & h & fs1 & Hf & He & HR & [Hk1 Hk2] & ?). destruct (resting_stays n n_u32 l _ _ Hr Hl Hst) as [Hr' Hc].
    split; [done|]. exists ll, h, fs1. do 3 (split; [done|]). split; [|done]. split; [|auto]. intros Hcu. apply Hsp; [apply Hr|auto].
Qed.

(** A step of the merge. *)
Lemma system_work_ok i s s' : system_ok s -> system_step maxFilesAtOnce dstFile tmp (SWork i) s = Some (Ok s') -> system_ok s'.
Proof.
  intros Hs Hst. cbn in Hst. destruct (executing (y_queue s) i) as [op|] eqn:Hex; [|done].
  assert (opThreads (y_queue s) !! i = Some (op, TExecute)) as Hi.
  { unfold executing in Hex. destruct (opThreads _ !! i) as [[? []]|]; try done. by injection Hex as ->. }
  destruct (heap (y_queue s) !! op_id op) as [o|] eqn:Ho; [|done]. destruct (y_op s) as [t|] eqn:Ht; [|done].
  destruct (merge_step _ _ _) as [[[t' fs]| | |]|] eqn:Hm; try done. cbn in Hst. injection Hst as <-.
  unfold system_ok in *. cbn [y_at with_task y_queue]. destruct (y_at s) eqn:Hat.
  - destruct Hs as ([_ _ _ Hth] & _). by rewrite Hth in Hi.
  - destruct Hs as ([_ _ _ Hth] & _). by rewrite Hth in Hi.
  - destruct Hs as ([_ _ _ Hth _ _ _] & _). by rewrite Hth in Hi.
  - destruct Hs as (Hx & l & fs1 & t1 & Hrd & Hlog). split; [done|]. exists l, fs1, t'.
    pose proof (rd_op _ _ _ _ _ Hrd) as E. rewrite Ht in E. injection E as <-.
    assert (op = round_op s) as ->.
    { apply list_elem_of_singleton, (ex_sub _ _ _ Hx). left. by eapply thread_known. }
    split.
    + assert (op_isCancelled o = true -> Spent (y_queue s)) as Hsp.
      { intros Hc. eapply executing_spent; [done|apply Hx|apply Hx|exact Hi|done|exact Ho|done]. }
      assert (k_slice t' = k_slice t /\ k_target t' = k_target t /\ k_bar t' = k_bar t) as (E1 & E2 & E3).
      { unfold merge_step in Hm. destruct (k_pc t); [..|done].
        - destruct (op_isCancelled o); [by injection Hm as <- <-|]. destruct (pq_top _); [|by injection Hm as <- <-].
          destruct (bool_decide _); [done|]. by injection Hm as <- <-.
        - destruct (op_isCancelled o); [by injection Hm as <- <-|]. destruct (merge_body _ _ _ _) as [[? ?]| | |]; try done.
          by injection Hm as <- <-.
        - destruct (progress _ _); try done. by injection Hm as <- <-. }
      pose proof (task_step _ _ _ _ _ _ _ (rd_task _ _ _ _ _ Hrd) Hsp Hm) as Htask.
      destruct Hrd. split; cbn; try done; unfold in_round; rewrite ?E1, ?E2, ?E3; done.
    + cbn [y_round with_task y_queue round_op]. intros Hin. specialize (Hlog Hin). unfold merge_done in Hlog.
      destruct (k_pc t) eqn:Hpc; try done. unfold merge_step in Hm. by rewrite Hpc in Hm.
  - destruct Hs as ([_ _ _ Hth] & _). by rewrite Hth in Hi.
  - destruct Hs as ([_ _ _ Hth] & _). by rewrite Hth in Hi.
  - destruct Hs as ([_ _ _ Hth] & _). by rewrite Hth in Hi.
Qed.

(** *** The steps of [main] *)

Context (tmp_fresh : forall j, fs0 !! tmp j = None).
#[local] Set Default Proof Using "All".

Lemma chunk_size_present acc fs ps sz : chunk_size acc fs (InputFile_ctor <$> ps) = Ok sz -> Forall (fun p => is_Some (fs !! p)) ps.
Proof.
  clear. revert acc. induction ps as [|p ps IH]; intros acc Hc; [constructor|]. revert Hc. csimpl.
  unfold InputFile_ctor at 1. cbn [inputSize]. unfold lazy_value, lazy_init, lazy_ctor, file_size. cbn [lazy_state createValue].
  destruct (fs !! p) eqn:E; [|done]. cbn [mbind outcome_bind lazy_state]. intros Hc. constructor; [by eexists|]. by eapply IH.
Qed.

Lemma inputs_stored fs ps slice : inputs_ok fs ps -> (forall p, p ∈ slice -> p ∈ ps) -> Forall (fun p => is_Some (fs !! p)) slice ->
  Forall (stored fs) slice.
Proof.
  clear. intros Hin Hsub Hall. rewrite Forall_forall in Hall |- *. intros p Hp.
  destruct (Hin p (Hsub p Hp)) as [E|?]; [|done]. destruct (Hall p Hp) as [b Hb]. congruence.
Qed.

(** A merge that has ended is the one of this round. *)
Lemma run_merge_done P fs1 t fs : task_ok P fs1 t fs -> merge_done t = true ->
  (exists sz, chunk_size 0 fs1 (InputFile_ctor <$> k_slice t) = Ok sz /\ k_bar t = setHi (ProgressBar_ctor 32 0) (sz / PHC_size)) ->
  exists a, (a <> None -> P) /\
    (fs = fs1 \/ exists e, sorted_file e /\ fs = <[k_target t := phc_file e]> fs1) /\
    forall cancelled, (forall j, cancelled j = cut a j) -> run_merge (Q := QM) cancelled fs1 (k_slice t) (k_target t) = Ok fs.
Proof.
  clear. intros [_ Ht] Hd (sz & Hsz & Hbar). unfold merge_done in Hd. destruct (k_pc t); try done.
  destruct Ht as (a & Ha & Hcase). exists a. split; [done|].
  assert (forall cancelled, run_merge (Q := QM) cancelled fs1 (k_slice t) (k_target t) =
    match merge_of fs1 t cancelled with
    | Ok None => Ok fs1
    | Ok (Some s) => defined_if (negb (bool_decide (k_target t ∈ k_slice t))) (Ok (<[k_target t := ms_out s]> fs1))
    | Throws _ => Ok fs1 | OutOfFuel => OutOfFuel | Undefined => Undefined end) as Hrm.
  { intros cancelled. unfold run_merge, merge_of. rewrite Hsz. cbn [mbind outcome_bind]. by rewrite Hbar. }
  destruct Hcase as [[-> Hm]|([Hni ->] & (e & He & Hs) & Hm)].
  - split; [by left|]. intros cancelled Hc. by rewrite Hrm, Hm.
  - split; [right; exists e; by rewrite He|]. intros cancelled Hc. rewrite Hrm, Hm by done. by rewrite bool_decide_false.
Qed.

Lemma files_ok_insert fs p e : files_ok fs -> sorted_file e -> files_ok (<[p := phc_file e]> fs).
Proof.
  intros Hf He q. destruct (decide (q = p)) as [->|Hne].
  - right. exists e. by rewrite lookup_insert_eq.
  - unfold stored. rewrite lookup_insert_ne by done. apply Hf.
Qed.

Lemma inputs_ok_insert fs p e ps : inputs_ok fs ps -> sorted_file e -> inputs_ok (<[p := phc_file e]> fs) ps.
Proof.
  intros Hf He q Hq. destruct (decide (q = p)) as [->|Hne].
  - right. exists e. by rewrite lookup_insert_eq.
  - unfold stored. rewrite lookup_insert_ne by done. by apply Hf.
Qed.

Lemma agrees_app c l l' : agrees c (l ++ l') -> agrees c l.
Proof. intros H i a b Hi. apply H. by apply lookup_app_l_Some. Qed.

Lemma next_inputs ims ps p : p ∈ next_of ims ps -> p ∈ ps \/ exists j, p = tmp j.
Proof.
  assert (forall p, p ∈ drop (Z.to_nat maxFilesAtOnce) ps -> p ∈ ps) as Hsub.
  { intros q Hq. rewrite <- (take_drop (Z.to_nat maxFilesAtOnce) ps). apply elem_of_app. by right. }
  unfold next_of, target_of. destruct (is_last ps); [by left; auto|]. rewrite elem_of_app, list_elem_of_singleton.
  intros [?| ->]; [left; auto|right; by exists (length ims)].
Qed.

Lemma head_ok s s' : system_ok s -> y_at s = AtHead -> main_next maxFilesAtOnce dstFile tmp s = Some (Ok s') -> system_ok s'.
Proof.
  intros Hs Hat Hst. unfold system_ok in Hs. rewrite Hat in Hs. destruct Hs as (Hr & Hf & Hin & l & Hre & Hlen & Hcut & Hcoh & HR).
  unfold main_next, isCancelled in Hst. rewrite Hat in Hst.
  assert (forall b, (y_inputFiles s = [] \/ b = true) -> b = _isCancelled (y_queue s) -> system_ok (at_main AtRemove s)) as Hend.
  { intros b Hor Hb. split; [done|]. split; [done|]. exists l, b. split; [|split; [done|split; [intros H; by apply Hcut|by intros ->]]]. split; [by rewrite Hb|]. split.
    - intros Hc. destruct (Hcut Hc) as [[_ Hsp] Hq]. split; [done|]. rewrite (rs_main _ _ Hr) in Hsp. destruct Hsp. congruence.
    - intros c fuel Hag Hh. cbn [y_files y_inputFiles y_intermediateFilenames at_main] in *. rewrite (Hre c fuel Hag).
      assert (forall ps, ps = [] -> loop fuel c (length l) (y_intermediateFilenames s) ps (y_files s) =
        Ok (y_files s, y_intermediateFilenames s)) as Hnil by (intros ps ->; by destruct fuel).
      destruct Hh as [E|Hh]; [by apply Hnil|]. destruct Hor as [E| ->]; [by apply Hnil|by apply main_loop_stopped]. }
  destruct (y_inputFiles s) as [|p0 ps0] eqn:Hps; [injection Hst as <-; by eapply Hend; [left|]|].
  destruct (_isCancelled (y_queue s)) eqn:Hcan; [injection Hst as <-; by eapply (Hend true); [right|]|].
  clear Hend. destruct (0 <=? maxFilesAtOnce) eqn:Hmax; [|done]. cbn [defined_if] in Hst.
  set (ps := p0 :: ps0) in *. fold (chunk ps) in Hst. set (slice := chunk ps) in *.
  destruct (chunk_size 0 (y_files s) (InputFile_ctor <$> slice)) as [sz| | |] eqn:Hsz; try done. cbn [mbind outcome_bind] in Hst.
  fold (is_last ps) in Hst. fold (target_of (y_intermediateFilenames s) ps) in Hst. set (ims := y_intermediateFilenames s) in *.
  fold (ims_of ims ps) in Hst. fold (next_of ims ps) in Hst. set (target := target_of ims ps) in *. injection Hst as <-. split; [done|].
  set (op := MergeOperation _ _ _ _).
  assert (k_slice op = slice /\ k_target op = target /\ k_bar op = setHi (ProgressBar_ctor 32 0) (sz / PHC_size) /\ k_pc op = MEntry /\
    merge_init (entry_of (y_files s) <$> slice) = (k_state op, k_total op)) as (E1 & E2 & E3 & E4 & E5).
  { unfold op, MergeOperation. by destruct (merge_init _). }
  exists l, (y_files s), op. split; [|done].
  assert (quiet l) as Hq by (destruct Hcoh as [?|(? & ? & ? & ? & ?)]; done).
  split; try done.
  - intros c fuel Hag Hh. rewrite (Hre c (S fuel) Hag), E1, E2. cbn [main_loop]. by rewrite Hh, Hmax.
  - split; [|by rewrite E4, E1]. rewrite E1. eapply inputs_stored; [exact Hin| |by eapply chunk_size_present].
    intros p Hp. unfold slice, chunk in Hp. rewrite <- (take_drop (Z.to_nat maxFilesAtOnce) ps). apply elem_of_app. by left.
  - exists sz. by rewrite E1.
  - intros Hc. by destruct (Hcut Hc).
  - intros p Hp. by eapply next_inputs.
  - exists ims. by rewrite E1, E2.
Qed.

Lemma after_ok s s' next : system_ok s -> y_at s = AtAfter next -> main_next maxFilesAtOnce dstFile tmp s = Some (Ok s') -> system_ok s'.
Proof.
  intros Hs Hat Hst. unfold system_ok in Hs. rewrite Hat in Hs. destruct Hs as (Hr & l & fs1 & t & Hrd & Hd).
  unfold main_next, isCancelled in Hst. rewrite Hat in Hst. injection Hst as <-.
  destruct (run_merge_done _ _ _ _ (rd_task _ _ _ _ _ Hrd) Hd (rd_bar _ _ _ _ _ Hrd)) as (a & Ha & Hfs & Hrun).
  set (b := _isCancelled (y_queue s)).
  assert (forall fs, y_files s = fs -> (fs = fs1 \/ exists e, sorted_file e /\ fs = <[k_target t := phc_file e]> fs1) ->
    files_ok fs /\ inputs_ok fs (y_inputFiles s)) as Hfiles.
  { intros fs _ [->|(e & He & ->)]; [split; [apply Hrd|apply Hrd]|].
    split; [apply files_ok_insert|apply inputs_ok_insert]; [apply Hrd|done..|apply Hrd|done]. }
  destruct (Hfiles _ eq_refl Hfs) as [Hf Hin].
  split; [done|]. split; [done|]. cbn [y_files y_inputFiles y_queue y_intermediateFilenames y_round]. split.
  { fold b. destruct b; [done|]. intros p Hp. destruct (rd_next _ _ _ _ _ Hrd p Hp) as [Hp'|(j & ->)]; [by apply Hin|].
    destruct (Hf (tmp j)) as [E|?]; [|by right]. left. by rewrite E. }
  assert (any_cut (l ++ [(a, b)]) -> Spent (y_queue s)) as Hsp.
  { intros (x & Hx & Hne). apply elem_of_app in Hx as [Hx| ->%list_elem_of_singleton].
    - apply (rd_cut _ _ _ _ _ Hrd). by exists x.
    - by apply Ha. }
  exists (l ++ [(a, b)]). split; [|split; [|split]].
  - intros c fuel Hag. rewrite length_app. cbn [length].
    assert ((l ++ [(a, b)]) !! length l = Some (a, b)) as Hlast by by apply list_lookup_middle.
    destruct (Hag _ _ _ Hlast) as (Hh & Haf & Him). replace (length l + 1 + fuel)%nat with (length l + S fuel)%nat by lia.
    rewrite (rd_loop _ _ _ _ _ Hrd c fuel (agrees_app _ _ _ Hag) Hh). rewrite (Hrun _ Him). cbn [mbind outcome_bind].
    rewrite Haf, Nat.add_1_r. done.
  - rewrite length_app, (rd_length _ _ _ _ _ Hrd). cbn [length]. lia.
  - intros Hc. specialize (Hsp Hc). split; [done|]. destruct Hsp as [_ Hsp]. rewrite (rs_main _ _ Hr) in Hsp. destruct Hsp as [_ Hsp].
    intros x [Hx| ->%list_elem_of_singleton]%elem_of_app; [by apply (rd_quiet _ _ _ _ _ Hrd)|exact Hsp].
  - split; [|destruct (rd_start _ _ _ _ _ Hrd) as (ims & HR & Hne & E1 & E2 & -> & ->); apply (R_round l _ _ fs1); try done;
      rewrite <- E1, <- E2; by apply Hrun]. fold b. destruct b eqn:Hb; [right; exists l, a; split_and!; [done|apply Hrd|done]|].
    left. intros x [Hx| ->%list_elem_of_singleton]%elem_of_app; [by apply (rd_quiet _ _ _ _ _ Hrd)|done].
Qed.

Lemma main_ok_step s s' : system_ok s -> main_next maxFilesAtOnce dstFile tmp s = Some (Ok s') -> system_ok s'.
Proof.
  intros Hs Hst. destruct (y_at s) eqn:Hat; [by eapply head_ok| | | |by eapply after_ok| |];
    unfold system_ok in Hs; rewrite Hat in Hs; unfold main_next in Hst; rewrite Hat in Hst.
  - destruct Hs as (Hr & l & fs1 & t & Hrd & Hpc). destruct (mtx (y_queue s)) eqn:Hm; [done|]. injection Hst as <-.
    split; [by apply refill_filled|]. exists l, fs1, t. split; [|done].
    destruct Hrd. split; try done.
    + cbn. eapply task_weaken; [|exact rd_task0]. intros [Hp _]. by split.
    + intros Hc. destruct (rd_cut0 Hc) as [Hp _]. by split.
  - destruct Hs as (Hr & l & fs1 & t & Hrd & Hpc). injection Hst as <-.
    split; [by apply executed_filled|]. exists l, fs1, t. split.
    + by destruct Hrd.
    + cbn. rewrite (fl_log _ _ _ Hr). by intros ?%elem_of_nil.
  - destruct Hs as (Hx & l & fs1 & t & Hrd & Hlog). destruct (mainThread (y_queue s)) eqn:Hm; try done. injection Hst as <-.
    destruct (executed_resting n n_u32 _ _ Hx Hm) as [Hr Hin]. split; [done|]. exists l, fs1, t. split; [|auto]. by destruct Hrd.
  - destruct Hs as (Hr & Hf & l & h & He). destruct He as (He & HR & Hkey). injection Hst as <-.
    split; [done|]. by exists l, h, (y_files s).
  - done.
Qed.

Lemma system_step_ok s s' : system_ok s -> system_moves maxFilesAtOnce dstFile tmp s s' -> system_ok s'.
Proof.
  intros Hs (l & Hl & Hst). destruct l as [l|i|]; cbn [system_step notified_label] in *.
  - destruct (allowed l s) eqn:Hal; [|done]. destruct (step l (y_queue s)) as [[q| | |]|] eqn:E; try done.
    injection Hst as <-. by eapply queue_ok.
  - by eapply system_work_ok.
  - by apply (main_ok_step s).
Qed.

Lemma system_start_ok : inputs_ok fs0 inputs0 -> system_ok (start_system n inputs0 fs0).
Proof.
  intros Hin. split; [apply resting_start; done|]. split; [by intros p; left|]. split; [done|]. exists []. split; [by intros c fuel _|].
  split; [done|]. split; [by intros (x & Hx%elem_of_nil & _)|]. split; [|done]. left. by intros x Hx%elem_of_nil.
Qed.

Lemma system_reach s : inputs_ok fs0 inputs0 -> rtc (system_moves maxFilesAtOnce dstFile tmp) (start_system n inputs0 fs0) s -> system_ok s.
Proof.
  intros Hin Hr. pose proof (system_start_ok Hin) as Hs. induction Hr as [s|s s1 s2 Hst _ IH]; [done|]. apply IH. by eapply system_step_ok.
Qed.
End follows.

(** ** Lemmas: the answers of [isCancelled] *)

Lemma holds_inputs_ok fs1 ps rs : Forall2 (holds fs1) ps rs -> inputs_ok fs1 ps.
Proof.
  intros Hps p Hp. apply list_elem_of_lookup in Hp as [i Hi].
  destruct (Forall2_lookup_l _ _ _ _ _ Hps Hi) as (recs & _ & [Hf (Hw & Hs & _)]). right. by exists recs.
Qed.

Definition answers_of (l : list (option nat * bool)) (h : bool) : Cancelled :=
  MkCancelled (fun r => bool_decide (r = length l) && h)
    (fun r => match l !! r with Some (_, b) => b | None => false end)
    (fun r k => match l !! r with Some (a, _) => cut a k | None => false end).

Lemma answers_agree l h : agrees (answers_of l h) l.
Proof.
  intros i a b Hi. unfold answers_of. cbn. rewrite Hi. split; [|done].
  rewrite bool_decide_false; [done|]. apply lookup_lt_Some in Hi. lia.
Qed.

(** What the threads make of [isCancelled]: the flag of an operation stays set; a cancelled
    queue stays cancelled until the next round; and there is one [cancel] only, which an
    operation notices or the loop, but not both. *)
Record consistent (c : Cancelled) : Prop := {
  cs_after : forall r, after_wait c r = true -> at_head c (S r) = true;
  cs_merge : forall r k k', (k <= k')%nat -> in_merge c r k = true -> in_merge c r k' = true;
  cs_once : forall r k, in_merge c r k = true -> forall r', at_head c r' = false /\ after_wait c r' = false }.

Lemma answers_consistent l h : coherent l h -> (any_cut l -> quiet l /\ h = false) -> consistent (answers_of l h).
Proof.
  intros Hc Hq. split; unfold answers_of; cbn.
  - intros r. destruct (l !! r) as [[a b]|] eqn:Hr; [|done]. intros ->. destruct Hc as [Hc|(l0 & a' & -> & Hc & ->)].
    { specialize (Hc (a, true) (list_elem_of_lookup_2 _ _ _ Hr)). discriminate Hc. }
    rewrite andb_true_r. apply bool_decide_eq_true. rewrite length_app. cbn [length].
    apply lookup_app_Some in Hr as [Hr|[Hle Hr]].
    + specialize (Hc (a, true) (list_elem_of_lookup_2 _ _ _ Hr)). discriminate Hc.
    + apply list_lookup_singleton_Some in Hr as [? _]. lia.
  - intros r k k' Hk. destruct (l !! r) as [[[m|] b]|]; try done. cbn. rewrite !Nat.leb_le. lia.
  - intros r k Hr r'. destruct (l !! r) as [[[m|] b]|] eqn:E; try done.
    destruct Hq as [Hq ->]; [exists (Some m, b); split; [by eapply list_elem_of_lookup_2|done]|]. split; [by rewrite andb_false_r|].
    destruct (l !! r') as [[a' b']|] eqn:E'; [|done]. apply (Hq (a', b')). by eapply list_elem_of_lookup_2.
Qed.

Section properties.
Import MergerCli.
Context {Q : Type} `{PQ : PriorityQueue OpPtr opGreaterPriority Q}.
Context {QM : Type} `{PM : PriorityQueue MergerInput SmallestHashFirst QM}.
Context (n : Z) (n_u32 : in_u32 n).
Context (tree : list byte -> list (list byte * bool)) (exists_ can_create : list byte -> bool).
Context (answer : byte) (tmp : nat -> list byte).
Context (fs : files) (o : Options) (tmp_fresh : forall j, fs !! tmp j = None).
#[local] Set Default Proof Using "All".

(** The program with these options, after it has prepared its input files. *)
Abbreviation moves := (system_moves (Q := Q) (QM := QM) (maxFilesAtOnce o) (dstFile o) tmp).

Lemma ended_main inputs s : merger_prepare tree exists_ can_create answer fs o = Ok (inr inputs) -> inputs_ok fs inputs ->
  rtc moves (start_system n inputs fs) s -> y_at s = AtEnd ->
  (exists fuel c, consistent c /\
    merger_main (Q := QM) tree exists_ can_create answer tmp fuel c fs o = Ok (Merged (y_files s))) /\
  forall p, y_files s !! p = None \/ y_files s !! p = fs !! p \/ stored (y_files s) p.
Proof.
  intros Hp Hin Hr Hat.
  pose proof (system_reach n n_u32 (maxFilesAtOnce o) (dstFile o) tmp inputs fs (fun _ _ _ _ => True) I
    (fun _ _ _ _ _ _ _ _ _ _ => I) tmp_fresh s Hin Hr) as Hs.
  unfold system_ok in Hs. rewrite Hat in Hs. destruct Hs as (_ & l & h & fs1 & Hf & (Hc & Hq & He) & _ & _ & ->). split.
  - exists (length l + 0)%nat, (answers_of l h). split; [by apply answers_consistent|]. unfold merger_main. rewrite Hp. cbn [mbind outcome_bind].
    rewrite He; [done|apply answers_agree|right]. unfold answers_of. cbn. by rewrite bool_decide_true.
  - intros p. unfold stored. rewrite remove_files_lookup. case_decide; [by left|right]. apply Hf.
Qed.

(** C4: whatever the threads do and whatever keys are pressed, in a run in which nothing undefined
    happens ([Queue.queue_safe] says what can) and no condition variable wakes up by itself,
    when the merger ends its files are those of the loop of [main], for some answers of
    [isCancelled]: an operation that has noticed that it is cancelled goes on noticing, the
    head of the loop sees what [main] saw after the round before, and the only [cancel] there
    is, is noticed by an operation or by the loop, never by both: a merge that was cancelled
    is taken for complete.  Every file is what it was, or a sorted one, or removed.  The
    input files are sorted ones or cannot be opened, the names of intermediate files are new,
    and the outputs can be opened. *)
Theorem merger_program_refines inputs s :
  merger_prepare tree exists_ can_create answer fs o = Ok (inr inputs) -> inputs_ok fs inputs ->
  rtc moves (start_system n inputs fs) s -> y_at s = AtEnd ->
  (exists fuel c, consistent c /\
    merger_main (Q := QM) tree exists_ can_create answer tmp fuel c fs o = Ok (Merged (y_files s))) /\
  forall p, y_files s !! p = None \/ y_files s !! p = fs !! p \/ stored (y_files s) p.
Proof. apply ended_main. Qed.

Lemma prepared rs : starts exists_ can_create answer o -> Forall2 (holds fs) (filenames tree fs o) rs ->
  let inputs := std_sort (larger fs) (filenames tree fs o) in
  merger_prepare tree exists_ can_create answer fs o = Ok (inr inputs) /\
  exists rs', rs' ≡ₚ rs /\ Forall2 (holds fs) inputs rs' /\ inputs_ok fs inputs.
Proof.
  intros Ho Hps. cbv zeta. split; [by apply (merger_prepare_inputs tree exists_ can_create answer fs o rs)|].
  destruct (std_sort_Forall2 (larger fs) (holds fs) _ rs Hps) as (rs' & Hrs' & Hps'). exists rs'. split; [done|].
  split; [done|]. by eapply holds_inputs_ok.
Qed.

(** C7: all files at once (readable, sorted, not empty, the destination not among them), whatever
    the threads do and whatever keys are pressed, in a run in which nothing undefined happens
    ([Queue.queue_safe] says what can) and no condition variable wakes up by itself: when the
    merger ends, with the exit code of success, the destination is what it was, or it has the
    first records of the complete result, all of them perhaps; every other file is what it
    was.  (The destination can be opened.) *)
Theorem merger_program_cancelled rs s :
  starts exists_ can_create answer o -> dstFile o ∉ filenames tree fs o ->
  Z.of_nat (length (filenames tree fs o)) <= maxFilesAtOnce o ->
  Forall2 (holds fs) (filenames tree fs o) rs -> filenames tree fs o <> [] ->
  PHC_size * Z.of_nat (length (concat rs)) < 2 ^ 64 ->
  rtc moves (start_system n (std_sort (larger fs) (filenames tree fs o)) fs) s -> y_at s = AtEnd ->
  exists out,
    merger_main (Q := QM) tree exists_ can_create answer tmp 1 not_cancelled fs o =
      Ok (Merged (<[dstFile o := phc_file out]> fs)) /\
    (y_files s = fs \/ exists m, y_files s = <[dstFile o := phc_file (take m out)]> fs).
Proof.
  intros Ho Hdst Hmax Hps Hne Hb Hr Hat. destruct (prepared rs Ho Hps) as [Hp (rs1 & _ & _ & Hin)].
  destruct (ended_main _ s Hp Hin Hr Hat) as [(fuel & c & Hc & Hmain) _].
  destruct (merger_once (Q := QM) tree exists_ can_create answer tmp fs o rs Ho Hps Hne Hdst Hmax Hb)
    as (ps' & rs' & out & _ & _ & _ & Hrun & Hall).
  destruct (Hall c (cs_after c Hc 0%nat)) as (fs' & Hfs' & Hcase). exists out. split; [done|].
  assert (y_files s = fs') as ->; [|done]. by injection (merger_main_same tree exists_ can_create answer tmp _ _ _ _ _ _ _ Hmain Hfs').
Qed.
End properties.

(** ** Witnesses: three files, two at once *)

(** The first step that can be taken, again and again. *)
Section schedule.
Context {Q : Type} `{PQ : PriorityQueue OpPtr opGreaterPriority Q}.
Context {QM : Type} `{PM : PriorityQueue MergerInput SmallestHashFirst QM}.
Context (maxFilesAtOnce : Z) (dstFile : list byte) (tmp : nat -> list byte).

Fixpoint first_step (ls : list SystemLabel) (s : System Q QM) : option (System Q QM) :=
  match ls with
  | [] => None
  | l :: ls =>
      match system_step maxFilesAtOnce dstFile tmp l s with Some (Ok s') => Some s' | _ => first_step ls s end
  end.
Fixpoint greedy (fuel : nat) (ls : list SystemLabel) (s : System Q QM) : System Q QM :=
  match fuel with
  | O => s
  | S fuel => match first_step ls s with Some s' => greedy fuel ls s' | None => s end
  end.

Lemma first_step_in ls s s' : first_step ls s = Some s' -> exists l, l ∈ ls /\ system_step maxFilesAtOnce dstFile tmp l s = Some (Ok s').
Proof.
  induction ls as [|l ls IH]; [done|]. cbn [first_step].
  destruct (system_step _ _ _ l s) as [[s1| | |]|] eqn:E; intros H; try (destruct (IH H) as (l' & ? & ?); exists l'; split; [by right|done]).
  injection H as <-. exists l. split; [left|done].
Qed.

Lemma greedy_reach fuel ls s : forallb notified_label ls = true -> rtc (system_moves maxFilesAtOnce dstFile tmp) s (greedy fuel ls s).
Proof.
  intros Hls. revert s. induction fuel as [|fuel IH]; intros s; [constructor|]. cbn [greedy].
  destruct (first_step ls s) as [s'|] eqn:E; [|constructor]. apply first_step_in in E as (l & Hl & Hst).
  eapply rtc_l; [|apply IH]. exists l. split; [|done]. rewrite forallb_forall in Hls. by apply Hls, list_elem_of_In.
Qed.
End schedule.

Definition demo_thread_labels : list SystemLabel :=
  [SQueue LKeyStep; SMain; SQueue LExe; SQueue (LOp false 0); SWork 0; SQueue LMain].
Lemma demo_thread_labels_notified : forallb notified_label demo_thread_labels = true.
Proof. reflexivity. Qed.

(** [q] is pressed after so many steps. *)
Definition demo_quit_after (k : nat) (m : Z) (s : System (list OpPtr) (list MergerInput)) : System (list OpPtr) (list MergerInput) :=
  let s1 := greedy m (bs "all.md5") demo_tmp k demo_thread_labels s in
  match system_step m (bs "all.md5") demo_tmp (SQueue (LKey Quit_key)) s1 with
  | Some (Ok s2) => greedy m (bs "all.md5") demo_tmp 300 demo_thread_labels s2
  | _ => s1
  end.

Lemma demo_quit_reach k m s : rtc (system_moves m (bs "all.md5") demo_tmp) s (demo_quit_after k m s).
Proof.
  unfold demo_quit_after. cbv zeta. set (s1 := greedy _ _ _ k _ s).
  assert (rtc (system_moves m (bs "all.md5") demo_tmp) s s1) as H1 by apply greedy_reach, demo_thread_labels_notified.
  destruct (system_step _ _ _ (SQueue (LKey Quit_key)) s1) as [[s2| | |]|] eqn:E; [|done..].
  etransitivity; [exact H1|]. eapply rtc_l; [by exists (SQueue (LKey Quit_key))|].
  apply greedy_reach, demo_thread_labels_notified.
Qed.

Definition demo_three : list (list byte) := demo_paths ++ [bs "c.md5"].
Definition demo_three_files : files := <[bs "c.md5" := phc_file [MkPHC (MkHash 9 9 false) 5]]> demo_files.
Definition demo_three_options : MergerCli.Options :=
  MergerCli.MkOptions false false None (Some demo_three) (bs "all.md5") (bs "/tmp") 2.

Definition demo_three_start : System (list OpPtr) (list MergerInput) :=
  start_system 1 (std_sort (MergerCli.larger demo_three_files) demo_three) demo_three_files.
(** How many records the destination has at the end. *)
Definition demo_records (s : System (list OpPtr) (list MergerInput)) : MainAt * option Z :=
  (y_at s, (fun b => Z.of_nat (length b) / PHC_size) <$> y_files s !! bs "all.md5").

(** [q] in the first of the two rounds: the second one merges what there is, and the program ends
    as if it had merged everything. *)
Example cancelled_round_forgotten :
  demo_records (greedy 2 (bs "all.md5") demo_tmp 300 demo_thread_labels demo_three_start) = (AtEnd, Some 4) /\
  demo_records (demo_quit_after 13 2 demo_three_start) = (AtEnd, Some 2).
Proof. split; vm_compute; reflexivity. Qed.

Lemma demo_three_fresh j : demo_three_files !! demo_tmp j = None.
Proof.
  unfold demo_three_files, demo_files. rewrite !lookup_insert_ne by (unfold demo_tmp; discriminate). apply lookup_empty.
Qed.

Lemma demo_three_ok : inputs_ok demo_three_files (std_sort (MergerCli.larger demo_three_files) demo_three).
Proof.
  intros p Hp. rewrite std_sort_perm in Hp. apply elem_of_app in Hp as [Hp| ->%list_elem_of_singleton].
  - destruct (holds_inputs_ok demo_files demo_paths demo_contents demo_holds p Hp) as [E|(recs & E & Hs)]; [left|right; exists recs; split; [|done]];
      (unfold demo_three_files; rewrite lookup_insert_ne; [done|]; intros <-); revert Hp; apply (bool_decide_unpack _); vm_compute; exact I.
  - right. exists [MkPHC (MkHash 9 9 false) 5]. split; [apply lookup_insert_eq|]. split; [|by repeat constructor].
    repeat constructor; cbn; lia.
Qed.

Definition demo_three_end : System (list OpPtr) (list MergerInput) := demo_quit_after 13 2 demo_three_start.

Lemma merger_program_refines_witness : keyThread (y_queue demo_three_end) = CReturned /\
  (exists fuel c, consistent c /\
    MergerCli.merger_main (Q := list MergerInput) demo_tree (fun _ => true) (fun _ => true) "y"%byte demo_tmp fuel c demo_three_files
      demo_three_options = Ok (MergerCli.Merged (y_files demo_three_end))) /\
  forall p, y_files demo_three_end !! p = None \/ y_files demo_three_end !! p = demo_three_files !! p \/ stored (y_files demo_three_end) p.
Proof.
  split; [vm_compute; reflexivity|].
  apply (merger_program_refines (Q := list OpPtr) (QM := list MergerInput) 1 ltac:(lia) demo_tree (fun _ => true) (fun _ => true) "y"%byte
    demo_tmp demo_three_files demo_three_options demo_three_fresh (std_sort (MergerCli.larger demo_three_files) demo_three)).
  - vm_compute. reflexivity.
  - exact demo_three_ok.
  - apply demo_quit_reach.
  - vm_compute. reflexivity.
Defined.

(** Two files at once; [q] is pressed during the merge. *)
Definition demo_two_end : System (list OpPtr) (list MergerInput) :=
  demo_quit_after 13 2 (start_system 1 (std_sort (MergerCli.larger demo_files) demo_paths) demo_files).

Lemma demo_files_fresh j : demo_files !! demo_tmp j = None.
Proof. unfold demo_files. rewrite !lookup_insert_ne by (unfold demo_tmp; discriminate). apply lookup_empty. Qed.

Lemma merger_program_cancelled_witness : demo_records demo_two_end = (AtEnd, Some 1) /\
  exists out,
    MergerCli.merger_main (Q := list MergerInput) demo_tree (fun _ => true) (fun _ => false) "y"%byte demo_tmp 1 not_cancelled demo_files demo_merger =
      Ok (MergerCli.Merged (<[bs "all.md5" := phc_file out]> demo_files)) /\
    (y_files demo_two_end = demo_files \/ exists m, y_files demo_two_end = <[bs "all.md5" := phc_file (take m out)]> demo_files).
Proof.
  split; [vm_compute; reflexivity|].
  pose proof (merger_program_cancelled (Q := list OpPtr) (QM := list MergerInput) 1 ltac:(lia) demo_tree (fun _ => true) (fun _ => false) "y"%byte
    demo_tmp demo_files demo_merger demo_files_fresh demo_contents demo_two_end) as H.
  rewrite demo_filenames in H. apply H.
  - apply demo_starts.
  - apply (bool_decide_unpack _). vm_compute. exact I.
  - simpl. lia.
  - apply demo_holds.
  - discriminate.
  - unfold PHC_size. simpl. lia.
  - apply demo_quit_reach.
  - vm_compute. reflexivity.
Defined.
