(* ===== verification/MergerEnds.v ===== *)
(** * pwned-merger-cli: without keys the program ends

    [MergerProgram] says what the merger has done if it ends; here it ends, when nobody presses
    a key, in whatever order the threads take their steps. *)

From S2P Require Import Prelude Stream Util Hash Phc Inspector PriorityQueue Merge Merger Queue QueueCancel Converter Tools MergerProgram.
From stdpp Require Import options.

(** ** Lemmas: one round *)

(** A queue filled with one operation, and nobody cancelled. *)
Lemma working_filled `{PQ : PriorityQueue OpPtr opGreaterPriority Q} n op (s : State Q) : in_u32 n -> Filled n op s ->
  keyThread s = CIdle -> mtx s = None -> _isCancelled s = false -> map_Forall (fun _ o => op_isCancelled o = false) (heap s) ->
  Working n [op] (execute s) /\ weight (execute s) = 21%nat.
Proof.
  intros Hn Hf Hk Hm Hc Hh. destruct (execute_filled n Hn op s Hf) as (Hi & _). destruct Hf as [_ _ Hmain Hth _ Hu Hl]. split.
  - split; [done|done|]. cbn. rewrite Hmain. split; cbn; rewrite ?Hth, ?Hl; try done.
    + by intros t ?%elem_of_nil.
    + by rewrite app_nil_r.
    + constructor.
    + by intros x y ?%elem_of_nil.
  - unfold weight, threads_weight. cbn. by rewrite Hmain, Hth, Hu.
Qed.

Section task.
Context {QM : Type} `{PM : PriorityQueue MergerInput SmallestHashFirst QM}.
#[local] Set Default Proof Using "Type*".

(** Steps a merge has left, at most. *)
Definition task_left (fs : files) (t : MergeTask QM) (k : nat) : Prop :=
  match k_pc t with
  | MEntry => (op_fuel (entry_of fs <$> k_slice t) + 3 <= k)%nat
  | MLoop current => exists f i s', (f + 2 <= k)%nat /\
      merge_loop f false None (fun _ => false) (updateAfterEntries t) i current (k_state t) = Ok s'
  | MClose => (1 <= k)%nat
  | MDone => True
  end.

(** A merge of files with at least one record goes on to its end. *)
Lemma task_live (P : Prop) c fs1 t fs k : task_ok P fs1 t fs -> task_left fs t k -> bar_hi (k_bar t) <> 0 ->
  k_target t ∉ k_slice t -> merge_done t = false ->
  exists t' fs' k', merge_step c t fs = Some (Ok (t', fs')) /\ task_left fs' t' k' /\ (k' < k)%nat.
Proof.
  intros [Hst Ht] Hk Hb Hni Hd. unfold merge_done in Hd. unfold merge_step, task_left in *.
  assert (forall z, progress (bar_callback (k_bar t)) z = Ok tt) as Hprog by (intros z; by apply bar_progress).
  destruct (k_pc t) as [|current| |] eqn:Hpc; [..|done].
  - destruct Ht as [-> Hinit]. destruct c; [exists (k_goto MDone t), fs1, 0%nat; split; [done|]; split; [done|lia]|].
    destruct (pq_top (ms_pq (k_state t))) as [top|] eqn:Htop; [|exists (k_goto MDone t), fs1, 0%nat; split; [done|]; split; [done|lia]].
    rewrite bool_decide_false by done. cbn [negb defined_if]. eexists _, _, (k - 1)%nat. split; [reflexivity|]. split; [|lia].
    destruct (stored_entries fs1 (k_slice t) Hst) as (inputs & He & _ & Hf). rewrite He in Hk, Hinit.
    assert (inputs <> []) as Hne by (intros ->; by apply (merge_init_top _ _ _ _ Hinit Htop)).
    destruct (merge_loop_sorted (Q := QM) (op_fuel (src_of <$> inputs)) false 1 inputs (updateAfterEntries t)
      (plain_fuel inputs) Hne Hf) as (top' & s' & out & Htop' & _ & Hrun & _).
    rewrite Hinit in Htop', Hrun. cbn [fst] in *. rewrite Htop in Htop'. injection Htop' as <-.
    exists (op_fuel (src_of <$> inputs)), 1%nat, s'. split; [lia|exact Hrun].
  - destruct Hk as (f & i & s' & Hf & Hrun). destruct c.
    { exists (k_goto MClose t), fs, 1%nat. split; [done|]. cbn. lia. }
    destruct f as [|f]; [done|]. rewrite merge_loop_unfold in Hrun.
    assert (forall r, merge_body None (updateAfterEntries t) current (k_state t) = Ok r ->
      merge_body (bar_callback (k_bar t)) (updateAfterEntries t) current (k_state t) = Ok r) as Hloud.
    { intros r. unfold merge_body. destruct (merge_next false (k_state t)) as [p s1]. destruct (negb _); [|done].
      rewrite Hprog. by destruct (_ =? 0). }
    apply bind_Ok in Hrun as ([s1 o] & Hbody & Hrun). rewrite (Hloud _ Hbody).
    eexists _, _, (k - 1)%nat. split; [reflexivity|]. split; [|lia]. destruct o as [p|]; cbn; [|lia].
    exists f, (S i), s'. split; [lia|exact Hrun].
  - rewrite Hprog. eexists _, _, 0%nat. split; [reflexivity|]. split; [done|lia].
Qed.
End task.

Lemma main_loop_chunk ps rs fs k : Forall2 (holds fs) ps rs -> ps <> [] -> (0 < k)%nat -> PHC_size * Z.of_nat (length (concat rs)) < 2 ^ 64 ->
  exists sz, chunk_size 0 fs (InputFile_ctor <$> take k ps) = Ok sz /\ sz / PHC_size <> 0.
Proof.
  intros Hps Hne Hk Hb. assert (Forall2 (holds fs) (take k ps) (take k rs)) as Htake by by apply Forall2_take.
  assert (concat rs = concat (take k rs) ++ concat (drop k rs)) as Hsplit by (by rewrite <- concat_app, take_drop).
  rewrite Hsplit, length_app in Hb. exists (0 + PHC_size * Z.of_nat (length (concat (take k rs)))). split.
  - apply chunk_size_ok; [done|lia|unfold PHC_size in *; lia].
  - destruct Hps as [|p recs ps rs [_ (_ & _ & Hr)] _]; [done|]. destruct k as [|k]; [lia|]. cbn [take concat].
    rewrite length_app. destruct recs; [done|]. unfold PHC_size. cbn [length]. dlia.
Qed.

(** ** Lemmas: the whole program without keys *)

Section ends.
Context {Q : Type} `{PQ : PriorityQueue OpPtr opGreaterPriority Q}.
Context {QM : Type} `{PM : PriorityQueue MergerInput SmallestHashFirst QM}.
Context (n : Z) (n_u32 : in_u32 n) (n_pos : 0 < n).
Context (maxFilesAtOnce : Z) (dstFile : list byte) (tmp : nat -> list byte).
Context (max_two : 2 <= maxFilesAtOnce) (tmp_inj : forall i j, tmp i = tmp j -> i = j) (tmp_dst : forall j, tmp j <> dstFile).
Context (inputs0 : list (list byte)) (rs0 : list (list PHC)) (fs0 : files).
Context (inputs_hold : Forall2 (holds fs0) inputs0 rs0) (inputs_dst : dstFile ∉ inputs0) (inputs_tmp : forall j, tmp j ∉ inputs0).
Context (inputs_size : PHC_size * Z.of_nat (length (concat rs0)) < 2 ^ 64) (tmp_fresh : forall j, fs0 !! tmp j = None).
#[local] Set Default Proof Using "All".

(** The rounds so far were not cancelled. *)
Definition uncut (l : list (option nat * bool)) : Prop := forall x, x ∈ l -> x = (None, false).

Record sound (ims ps : list (list byte)) (fs : files) : Prop := {
  sd_holds : exists rs, Forall2 (holds fs) ps rs /\ PHC_size * Z.of_nat (length (concat rs)) < 2 ^ 64;
  sd_dst : dstFile ∉ ps;
  sd_tmp : forall j, (length ims <= j)%nat -> tmp j ∉ ps }.

Definition kept_sound (l : list (option nat * bool)) (ps ims : list (list byte)) (fs : files) : Prop :=
  uncut l -> (length l + length ps <= length inputs0)%nat /\ (ps = [] \/ sound ims ps fs).

Abbreviation next_of := (next_of maxFilesAtOnce dstFile tmp).
Abbreviation target_of := (target_of maxFilesAtOnce dstFile tmp).
Abbreviation ims_of := (ims_of maxFilesAtOnce dstFile tmp).
Abbreviation chunk := (chunk maxFilesAtOnce).
Abbreviation is_last := (is_last maxFilesAtOnce).

Lemma is_last_spec ps : if is_last ps then (length ps <= Z.to_nat maxFilesAtOnce)%nat else (Z.to_nat maxFilesAtOnce < length ps)%nat.
Proof using max_two.
  clear - max_two. unfold MergerProgram.is_last, MergerProgram.chunk. rewrite length_take.
  destruct (Nat.eqb_spec (Z.to_nat maxFilesAtOnce `min` length ps) (length ps)); lia.
Qed.

Lemma next_shorter ims ps : ps <> [] -> (length (next_of ims ps) < length ps)%nat.
Proof using max_two.
  clear - max_two. intros Hne. pose proof (is_last_spec ps) as Hl. unfold MergerProgram.next_of.
  destruct (is_last ps); [|rewrite length_app]; rewrite length_drop; cbn [length]; destruct ps; cbn [length] in *; try done; lia.
Qed.

Lemma sound_target ims ps fs : sound ims ps fs -> target_of ims ps ∉ ps.
Proof. intros [_ Hd Ht]. unfold MergerProgram.target_of. destruct (is_last ps); [done|by apply Ht]. Qed.

Lemma sound_round l ps ims fs a b fs' : kept_sound l ps ims fs -> ps <> [] ->
  run_merge (Q := QM) (cut a) fs (chunk ps) (target_of ims ps) = Ok fs' ->
  kept_sound (l ++ [(a, b)]) (if b then ps else next_of ims ps) (ims_of ims ps) fs'.
Proof.
  intros Hs Hne Hrun Hun.
  assert ((a, b) = (None, false)) as [= -> ->] by (apply Hun, elem_of_app; right; left).
  destruct Hs as [Hlen [?|Hs]]; [by intros x Hx; apply Hun, elem_of_app; left|done|].
  pose proof (next_shorter ims ps Hne) as Hsh. split; [rewrite length_app; cbn [length]; lia|].
  pose proof (is_last_spec ps) as Hl. pose proof (sound_target ims ps fs Hs) as Htgt. destruct Hs as [(rs & Hps & Hb) Hd Ht].
  unfold MergerProgram.next_of, MergerProgram.ims_of, MergerProgram.target_of in *.
  destruct (is_last ps); [left; apply drop_ge; lia|right].
  destruct (main_round (Q := QM) (Z.to_nat maxFilesAtOnce) fs ps rs (tmp (length ims)) Hps) as (out & Hrun' & Hh & Hlen' & _);
    [lia|done|done|done|].
  change (cut None) with (fun _ : nat => false) in Hrun. unfold MergerProgram.chunk in Hrun. rewrite Hrun' in Hrun. injection Hrun as <-.
  assert (forall p, p ∈ drop (Z.to_nat maxFilesAtOnce) ps -> p ∈ ps) as Hsub.
  { intros p Hp. rewrite <- (take_drop (Z.to_nat maxFilesAtOnce) ps). apply elem_of_app. by right. }
  split.
  - eexists. split; [exact Hh|]. unfold PHC_size in *. lia.
  - rewrite elem_of_app, list_elem_of_singleton. intros [Hin|Heq]; [auto|by apply (tmp_dst (length ims))].
  - intros j Hj. rewrite length_app in Hj. cbn [length] in Hj. rewrite elem_of_app, list_elem_of_singleton. intros [Hin|Heq].
    + apply (Ht j); [lia|auto].
    + apply tmp_inj in Heq. lia.
Qed.

Lemma sound_start : kept_sound [] inputs0 [] fs0.
Proof. intros _. split; [cbn; lia|right]. split; [by exists rs0|done|auto]. Qed.

Abbreviation ok := (system_ok n maxFilesAtOnce dstFile tmp inputs0 fs0 kept_sound).
Abbreviation round := (Round maxFilesAtOnce dstFile tmp inputs0 fs0 kept_sound).

(** Without keys nothing is cancelled. *)
Lemma not_spent (q : State Q) : keyThread q = CIdle -> ~ Spent q.
Proof using Type. intros Hk [Hp _]. by rewrite Hk in Hp. Qed.

Lemma uncut_quiet l (q : State Q) : keyThread q = CIdle -> (any_cut l -> Spent q) -> quiet l -> uncut l.
Proof using Type.
  intros Hk Hc Hq [a b] Hx. specialize (Hq _ Hx). cbn in Hq. subst b.
  destruct a as [m|]; [|done]. destruct (not_spent q Hk). apply Hc. by exists (Some m, false).
Qed.

Lemma resting_free (q : State Q) : Resting n q -> keyThread q = CIdle ->
  mtx q = None /\ _isCancelled q = false /\ (forall l, worker l -> l <> LMain -> step l q = None).
Proof using n_u32.
  intros Hr Hk. destruct (resting_empty n n_u32 q Hr) as (_ & _ & He & _). split_and!.
  - pose proof (i_key _ _ (rs_inv _ _ Hr)) as H1. pose proof (i_main _ _ (rs_inv _ _ Hr)) as H2.
    unfold main_ok in H2. rewrite (rs_main _ _ Hr) in H2. rewrite Hk in H1. cbn in H1. by destruct (mtx q) as [[]|].
  - apply not_true_iff_false. intros Hc. pose proof (resting_cancelled n n_u32 q Hr Hc) as H. by rewrite Hk in H.
  - intros l Hl Hm. destruct Hl as [| |i]; [|done|]; cbn; unfold exe_step, op_step; [by rewrite He|by rewrite (rs_threads _ _ Hr)].
Qed.

(** What is left of the run: rounds, and steps of this round. *)
Definition live (s : System Q QM) (m w : nat) : Prop :=
  ok s /\ keyThread (y_queue s) = CIdle /\
  let q := y_queue s in let rounds := (2 * length (y_inputFiles s))%nat in
  match y_at s with
  | AtHead => m = S rounds
  | AtAdd _ => m = rounds /\ exists t k, y_op s = Some t /\ task_left (y_files s) t k /\ w = (k + 24)%nat
  | AtExecute _ => m = rounds /\ (exists t k, y_op s = Some t /\ task_left (y_files s) t k /\ w = (k + 23)%nat) /\
      mtx q = None /\ _isCancelled q = false /\ map_Forall (fun _ o => op_isCancelled o = false) (heap q)
  | AtWait _ => m = rounds /\ (exists t k, y_op s = Some t /\ task_left (y_files s) t k /\ w = (k + weight q + 1)%nat) /\
      Working n [round_op s] q
  | AtAfter _ => m = rounds /\ w = 0%nat
  | AtRemove => y_inputFiles s = [] /\ m = 0%nat /\ w = 1%nat
  | AtEnd => y_inputFiles s = [] /\ m = 0%nat /\ w = 0%nat
  end.

Definition less (m' w' m w : nat) : Prop := (m' < m)%nat \/ (m' = m /\ (w' < w)%nat).
(** A step that goes well and leaves less to do. *)
Definition lives (s : System Q QM) (m w : nat) (r : outcome (System Q QM)) : Prop :=
  exists s' m' w', r = Ok s' /\ live s' m' w' /\ less m' w' m w.

(** What a round knows of its merge. *)
Lemma round_facts (s : System Q QM) l fs1 next t : round s l fs1 next t -> keyThread (y_queue s) = CIdle ->
  bar_hi (k_bar t) <> 0 /\ k_target t ∉ k_slice t /\ uncut l.
Proof.
  intros Hrd Hk. assert (uncut l) as Hun by (eapply uncut_quiet; [exact Hk|apply Hrd|apply Hrd]).
  destruct (rd_start _ _ _ _ _ _ _ _ _ _ _ Hrd) as (ims & HR & Hne & Hsl & Htg & _ & _).
  destruct (HR Hun) as [_ [?|Hs]]; [done|]. pose proof (sound_target _ _ _ Hs) as Htgt. destruct Hs as [(rs & Hps & Hb) _ _].
  destruct (rd_bar _ _ _ _ _ _ _ _ _ _ _ Hrd) as (sz & Hsz & ->). split; [|split; [|done]].
  - destruct (main_loop_chunk _ rs fs1 (Z.to_nat maxFilesAtOnce) Hps Hne ltac:(lia) Hb) as (sz' & Hsz' & Hnz).
    rewrite Hsl in Hsz. unfold MergerProgram.chunk in Hsz. rewrite Hsz' in Hsz. by injection Hsz as <-.
  - rewrite Hsl, Htg. intros Hin. apply Htgt. clear - Hin. revert Hin. unfold MergerProgram.chunk at 1.
    generalize (target_of ims (y_inputFiles s)) as p. intros p Hin.
    rewrite <- (take_drop (Z.to_nat maxFilesAtOnce) (y_inputFiles s)). apply elem_of_app. by left.
Qed.

Lemma ok_next s s' : ok s -> system_moves maxFilesAtOnce dstFile tmp s s' -> ok s'.
Proof.
  apply (system_step_ok n n_u32 maxFilesAtOnce dstFile tmp inputs0 fs0 kept_sound sound_start sound_round tmp_fresh).
Qed.

Lemma main_moves s s' : main_next maxFilesAtOnce dstFile tmp s = Some (Ok s') -> ok s -> ok s'.
Proof. intros Hm Hs. apply (ok_next s); [done|]. by exists SMain. Qed.

Lemma live_head s m w : live s m w -> y_at s = AtHead -> exists r, main_next maxFilesAtOnce dstFile tmp s = Some r /\ lives s m w r.
Proof.
  intros (Hs & Hk & Hm) Hat. rewrite Hat in Hm. pose proof Hs as Hs0. unfold system_ok in Hs0. rewrite Hat in Hs0.
  destruct Hs0 as (Hr & Hf & Hin & l & _ & _ & Hcut & Hcoh & HR). destruct (resting_free _ Hr Hk) as (Hmx & Hc & _).
  assert (uncut l) as Hun.
  { eapply uncut_quiet; [exact Hk|by intros H; destruct (Hcut H)|]. rewrite Hc in Hcoh. by destruct Hcoh as [?|(? & ? & ? & ? & ?)]. }
  destruct (HR Hun) as [Hlen HR'].
  assert (forall r, main_next maxFilesAtOnce dstFile tmp s = Some r -> (exists s' m' w', r = Ok s' /\
    (keyThread (y_queue s') = CIdle /\ match y_at s' with
      | AtRemove => y_inputFiles s' = [] /\ m' = 0%nat /\ w' = 1%nat
      | AtAdd _ => m' = (2 * length (y_inputFiles s'))%nat /\ exists t k, y_op s' = Some t /\ task_left (y_files s') t k /\ w' = (k + 24)%nat
      | _ => False end) /\ less m' w' m w) -> exists r, main_next maxFilesAtOnce dstFile tmp s = Some r /\ lives s m w r) as Hgo.
  { intros r Hr' (s' & m' & w' & -> & [Hk' Hl] & Hlt). exists (Ok s'). split; [done|]. exists s', m', w'. split; [done|]. split; [|done].
    split; [by eapply main_moves|]. split; [done|]. destruct (y_at s'); done. }
  unfold main_next, isCancelled in *. rewrite Hat in *. rewrite Hc in *. destruct (y_inputFiles s) as [|p0 ps0] eqn:Hps.
  { eapply Hgo; [reflexivity|]. eexists _, 0%nat, 1%nat. split; [reflexivity|]. split; [by cbn; rewrite Hps|]. left. lia. }
  destruct HR' as [?|Hsd]; [done|]. set (ps := p0 :: ps0) in *. destruct Hsd as [(rs & Hholds & Hb) _ _].
  destruct (main_loop_chunk ps rs (y_files s) (Z.to_nat maxFilesAtOnce) Hholds ltac:(done) ltac:(lia) Hb) as (sz & Hsz & _).
  rewrite Hsz in *. rewrite (proj2 (Z.leb_le 0 maxFilesAtOnce)) in * by lia. cbn [defined_if mbind outcome_bind] in *.
  eapply Hgo; [reflexivity|]. eexists _, _, _. split; [reflexivity|]. cbn [y_at y_queue y_inputFiles y_op y_files]. split.
  - split; [done|]. split; [done|]. eexists _, _. split; [reflexivity|]. split; [|reflexivity]. unfold MergeOperation.
    destruct (merge_init _) as [st tot]. unfold task_left. cbn [k_pc k_slice]. reflexivity.
  - left. rewrite Hm. cbn [length]. lia.
Qed.

Lemma live_main s m w : live s m w -> y_at s <> AtEnd -> (forall next, y_at s = AtWait next -> mainThread (y_queue s) = Returned) ->
  exists r, main_next maxFilesAtOnce dstFile tmp s = Some r /\ lives s m w r.
Proof.
  intros Hl Hne Hret. destruct (y_at s) eqn:Hat; [by apply live_head| | | | | |done]; clear Hne;
    pose proof Hl as (Hs & Hk & Hm); rewrite Hat in Hm; pose proof Hs as Hs0; unfold system_ok in Hs0; rewrite Hat in Hs0;
    unfold main_next; rewrite Hat.
  - destruct Hs0 as (Hr & _). destruct (resting_free _ Hr Hk) as (Hx & Hc & _). rewrite Hx.
    eexists. split; [reflexivity|]. destruct Hm as (-> & t & k & Hop & Ht & ->). eexists _, (2 * length (y_inputFiles s))%nat, (k + 23)%nat. split; [reflexivity|].
    split; [|right; cbn; lia]. split; [apply (main_moves s); [by unfold main_next; rewrite Hat, Hx|done]|]. cbn. split; [done|].
    split; [done|]. split; [by exists t, k|]. split; [done|]. split; [done|].
    destruct (resting_empty n n_u32 _ Hr) as (_ & _ & _ & Hh). rewrite Hh. by apply map_Forall_insert_2.
  - destruct Hs0 as (Hr & _). destruct Hm as (-> & (t & k & Hop & Ht & ->) & Hx & Hc & Hh).
    destruct (working_filled n _ (y_queue s) n_u32 Hr Hk Hx Hc Hh) as [Hw Hwt].
    eexists. split; [reflexivity|]. eexists _, (2 * length (y_inputFiles s))%nat, (k + 21 + 1)%nat. split; [reflexivity|]. split; [|right; cbn; lia].
    split; [apply (main_moves s); [by unfold main_next; rewrite Hat|done]|]. cbn [y_at at_main y_queue with_queue].
    split; [done|]. split; [done|]. split; [|exact Hw]. exists t, k. by rewrite Hwt.
  - rewrite (Hret _ eq_refl). destruct Hm as (-> & (t & k & Hop & Ht & ->) & Hw).
    eexists. split; [reflexivity|]. eexists _, (2 * length (y_inputFiles s))%nat, 0%nat. split; [reflexivity|]. split; [|right; cbn; lia].
    split; [apply (main_moves s); [by unfold main_next; rewrite Hat, (Hret _ eq_refl)|done]|]. done.
  - destruct Hs0 as (Hr & l & fs1 & t & Hrd & _). destruct (resting_free _ Hr Hk) as (_ & Hc & _). unfold isCancelled; rewrite Hc.
    destruct Hm as [-> ->]. eexists. split; [reflexivity|]. eexists _, _, 0%nat. split; [reflexivity|]. split.
    + split; [apply (main_moves s); [by unfold main_next, isCancelled; rewrite Hat, Hc|done]|]. split; [done|]. reflexivity.
    + left. destruct (rd_start _ _ _ _ _ _ _ _ _ _ _ Hrd) as (ims & _ & Hne & _ & _ & _ & ->).
      pose proof (next_shorter ims (y_inputFiles s) Hne). cbn. lia.
  - destruct Hm as (Hi & -> & ->). eexists. split; [reflexivity|]. eexists _, 0%nat, 0%nat. split; [reflexivity|]. split; [|right; lia].
    split; [apply (main_moves s); [by unfold main_next; rewrite Hat|done]|]. done.
Qed.

Lemma executing_wait i s op : ok s -> executing (y_queue s) i = Some op -> exists next, y_at s = AtWait next.
Proof.
  intros Hs Hex. assert (exists pc, opThreads (y_queue s) !! i = Some (op, pc)) as [pc Hi].
  { unfold executing in Hex. destruct (opThreads _ !! i) as [[? []]|]; try done. injection Hex as ->. by eexists. }
  unfold system_ok in Hs. destruct (y_at s); [..|eauto| | |]; destruct Hs as [[_ _ _ Hth] _]; by rewrite Hth in Hi.
Qed.

Lemma live_work i s m w : live s m w -> (exists op t, executing (y_queue s) i = Some op /\ y_op s = Some t /\ merge_done t = false) ->
  exists r, system_step maxFilesAtOnce dstFile tmp (SWork i) s = Some r /\ lives s m w r.
Proof.
  intros (Hs & Hk & Hm) (op & t & Hex & Ht & Hd). destruct (executing_wait i s op Hs Hex) as [next Hat].
  pose proof Hs as Hs0. unfold system_ok in Hs0. rewrite Hat in Hs0, Hm. destruct Hs0 as (Hx & l & fs1 & t1 & Hrd & _).
  pose proof (rd_op _ _ _ _ _ _ _ _ _ _ _ Hrd) as E. rewrite Ht in E. injection E as <-.
  destruct Hm as (-> & (t1 & k & E & Hleft & ->) & Hw). rewrite Ht in E. injection E as <-.
  assert (opThreads (y_queue s) !! i = Some (op, TExecute)) as Hi.
  { unfold executing in Hex. destruct (opThreads _ !! i) as [[? []]|]; try done. by injection Hex as ->. }
  destruct (live_op n n_u32 (y_queue s) op TExecute (ex_inv _ _ _ Hx) (list_elem_of_lookup_2 _ _ _ Hi) eq_refl) as [oo Hoo].
  destruct (round_facts s l fs1 next t Hrd Hk) as (Hb & Hni & _).
  destruct (task_live _ (op_isCancelled oo) _ _ _ _ (rd_task _ _ _ _ _ _ _ _ _ _ _ Hrd) Hleft Hb Hni Hd) as (t' & fs' & k' & Hst & Hl' & Hlt).
  assert (system_step maxFilesAtOnce dstFile tmp (SWork i) s = Some (Ok (with_task t' fs' s))) as Hstep.
  { cbn. rewrite Hex, Hoo, Ht, Hst. done. }
  eexists. split; [exact Hstep|]. eexists _, (2 * length (y_inputFiles s))%nat, (k' + weight (y_queue s) + 1)%nat. split; [reflexivity|]. split; [|right; cbn; lia].
  split; [apply (ok_next s); [done|by exists (SWork i)]|]. cbn [y_queue with_task y_at]. rewrite Hat. split; [done|]. split; [done|].
  split; [by exists t', k'|exact Hw].
Qed.

Lemma live_queue l s m w r : live s m w -> worker l -> system_step maxFilesAtOnce dstFile tmp (SQueue l) s = Some r -> lives s m w r.
Proof.
  intros (Hs & Hk & Hm) Hl Hst. pose proof Hs as Hs0. unfold system_ok in Hs0. cbn in Hst.
  destruct (allowed l s) eqn:Hal; [|done].
  assert (l = LMain -> exists next, y_at s = AtWait next) as Hlm.
  { intros ->. cbn in Hal. destruct (y_at s); try done. by eexists. }
  assert ((exists next, y_at s = AtWait next) \/ (step l (y_queue s) = None)) as [[next Hat]|Hn]; [|..|by rewrite Hn in Hst].
  { destruct (y_at s) eqn:Hat; [..|left; eauto| | |]; right; destruct Hs0 as [Hr _].
    1,2,4-6: destruct (resting_free _ Hr Hk) as (_ & _ & Hno); apply Hno; [done|]; intros ->; by destruct Hlm.
    destruct Hr as [_ _ _ Hth He _ _]. destruct Hl as [| |i]; [|by destruct Hlm|]; cbn; unfold exe_step, op_step; [by rewrite He|by rewrite Hth]. }
  rewrite Hat in Hs0, Hm. destruct Hs0 as (Hx & _). destruct Hm as (-> & (t & k & Ht & Hleft & ->) & Hw).
  destruct (step l (y_queue s)) as [r0|] eqn:Hr; [|done].
  destruct (step_defined n n_u32 l (y_queue s) r0) as (q & -> & _); [by destruct Hl..|apply Hx|done|]. injection Hst as <-.
  destruct (working_step n n_u32 [round_op s] l (y_queue s) q Hw Hl Hr) as [Hw' Hlt].
  eexists _, (2 * length (y_inputFiles s))%nat, (k + weight q + 1)%nat. split; [reflexivity|]. split; [|right; split; [reflexivity|lia]].
  split; [apply (ok_next s); [done|]; exists (SQueue l); split; [by destruct Hl|]; cbn; by rewrite Hal, Hr|].
  cbn [y_queue with_queue y_at]. rewrite Hat. split; [apply Hw'|]. split; [done|]. split; [by exists t, k|exact Hw'].
Qed.

Abbreviation moves := (keyless_moves maxFilesAtOnce dstFile tmp).

Lemma live_moves s m w s' : live s m w -> moves s s' -> exists m' w', live s' m' w' /\ less m' w' m w.
Proof.
  intros Hl (l & Hk & Hst). assert (lives s m w (Ok s')) as (s1 & m' & w' & [= <-] & ? & ?); [|eauto].
  destruct Hk as [l Hw|i|].
  - by eapply live_queue.
  - destruct (live_work i s m w Hl) as (r & Hr & ?); [|congruence]. cbn in Hst.
    destruct (executing (y_queue s) i) as [op|] eqn:Hex; [|done]. destruct (heap (y_queue s) !! op_id op) as [oo|]; [|done].
    destruct (y_op s) as [t|] eqn:Ht; [|done]. exists op, t. split; [done|]. split; [done|].
    unfold merge_done. destruct (k_pc t) eqn:Hpc; try done. unfold merge_step in Hst. by rewrite Hpc in Hst.
  - cbn in Hst. destruct (live_main s m w Hl) as (r & Hr & ?); [| |congruence]; unfold main_next in Hst.
    + intros E. by rewrite E in Hst.
    + intros next E. rewrite E in Hst. by destruct (mainThread (y_queue s)).
Qed.

Lemma live_sn s m w : live s m w -> sn moves s.
Proof.
  revert s w. induction m as [m IHm] using lt_wf_ind. intros s w. revert s. induction w as [w IHw] using lt_wf_ind. intros s Hl.
  constructor. intros s' Hst. destruct (live_moves s m w s' Hl Hst) as (m' & w' & Hl' & [Hlt|[-> Hlt]]); [by eapply IHm|by eapply IHw].
Qed.

Lemma live_progress s m w : live s m w -> y_at s <> AtEnd -> exists s', moves s s'.
Proof.
  intros Hl Hne.
  assert (forall l r, keyless l -> system_step maxFilesAtOnce dstFile tmp l s = Some r -> lives s m w r -> exists s', moves s s') as Hgo.
  { intros l r Hk Hr (s' & _ & _ & -> & _). exists s'. by exists l. }
  assert ((exists next, y_at s = AtWait next /\ mainThread (y_queue s) <> Returned) \/
    (forall next, y_at s = AtWait next -> mainThread (y_queue s) = Returned)) as [(next & Hat & Hret)|Hno].
  { destruct (y_at s) as [|?|?|next| ? | |]; try (by right). destruct (mainThread (y_queue s)); try (by right); left; by exists next. }
  2: { destruct (live_main s m w Hl Hne Hno) as (r & Hr & Hlv). by eapply (Hgo SMain); [constructor|exact Hr|]. }
  pose proof Hl as (Hs & Hk & Hm). rewrite Hat in Hm. destruct Hm as (_ & (t & k & Ht & _) & Hw).
  destruct (working_progress n n_u32 [round_op s] (y_queue s) n_pos Hw Hret) as (l & q & Hl1 & Hst).
  destruct (allowed l s) eqn:Hal.
  - eapply (Hgo (SQueue l)); [by constructor|cbn; by rewrite Hal, Hst|]. eapply live_queue; [exact Hl|exact Hl1|]. cbn. by rewrite Hal, Hst.
  - destruct Hl1 as [| |i]; cbn in Hal; [done|by rewrite Hat in Hal|].
    destruct (executing (y_queue s) i) as [op|] eqn:Hex; [|done]. rewrite Ht in Hal.
    destruct (live_work i s m w Hl) as (r & Hr & Hlv); [by exists op, t|]. by eapply (Hgo (SWork i)); [constructor|exact Hr|].
Qed.

Lemma live_start : live (start_system n inputs0 fs0) (S (2 * length inputs0)) 0.
Proof.
  split; [|done]. apply system_start_ok; try done; [exact sound_start|exact sound_round|by eapply holds_inputs_ok].
Qed.

Lemma live_reach s : rtc moves (start_system n inputs0 fs0) s -> exists m w, live s m w.
Proof.
  assert (forall s0 s, rtc moves s0 s -> forall m w, live s0 m w -> exists m w, live s m w) as Hgen.
  { intros s0 s1. induction 1 as [s1|s1 s2 s3 Hst _ IH]; intros m w Hl; [eauto|].
    destruct (live_moves _ _ _ _ Hl Hst) as (m' & w' & Hl' & _). by apply (IH m' w'). }
  intros Hr. apply (Hgen _ _ Hr _ _ live_start).
Qed.

Lemma live_end s m w : live s m w -> y_at s = AtEnd ->
  exists fs1, main_loop (Q := QM) (length inputs0) not_cancelled 0 maxFilesAtOnce dstFile tmp [] inputs0 fs0 =
    Ok (fs1, y_intermediateFilenames s) /\ y_files s = remove_files fs1 (y_intermediateFilenames s).
Proof.
  intros (Hs & Hk & Hm) Hat. unfold system_ok in Hs. rewrite Hat in Hs, Hm. destruct Hm as (Hi & _ & _).
  destruct Hs as (Hr & l & h & fs1 & _ & (Hc & Hq & He) & HR & [Hk1 Hk2] & Hf). exists fs1. split; [|done].
  destruct (resting_free _ Hr Hk) as (_ & Hcan & _).
  assert (uncut l) as Hun.
  { eapply uncut_quiet; [exact Hk|exact Hk1|]. destruct Hc as [?|(? & ? & ? & ? & E)]; [done|]. specialize (Hk2 E). congruence. }
  destruct (HR Hun) as [Hlen _]. replace (length inputs0) with (length l + (length inputs0 - length l))%nat by lia.
  apply He; [|by left]. intros i a b Hlk. specialize (Hun (a, b) (list_elem_of_lookup_2 _ _ _ Hlk)). injection Hun as -> ->.
  split_and!; done.
Qed.
End ends.

(** ** Properties *)

(** Every run of the merger without keys is finite, goes on until [main] returns, and leaves
    such files. *)
Definition always_ends {Q QM : Type} `{PQ : PriorityQueue OpPtr opGreaterPriority Q} `{PM : PriorityQueue MergerInput SmallestHashFirst QM}
    (n maxFilesAtOnce : Z) (dstFile : list byte) (tmp : nat -> list byte) (inputs : list (list byte)) (fs : files)
    (P : files -> Prop) : Prop :=
  let moves := keyless_moves (Q := Q) (QM := QM) maxFilesAtOnce dstFile tmp in
  let s0 := start_system n inputs fs in
  sn moves s0 /\
  forall s, rtc moves s0 s ->
    (y_at s <> AtEnd -> exists s', moves s s') /\ (y_at s = AtEnd -> P (y_files s)).

Section properties.
Import MergerCli.
Context {Q : Type} `{PQ : PriorityQueue OpPtr opGreaterPriority Q}.
Context {QM : Type} `{PM : PriorityQueue MergerInput SmallestHashFirst QM}.
Context (n : Z) (n_u32 : in_u32 n).
Context (tree : list byte -> list (list byte * bool)) (exists_ can_create : list byte -> bool).
Context (answer : byte) (tmp : nat -> list byte).
Context (fs : files) (o : Options) (tmp_fresh : forall j, fs !! tmp j = None).
#[local] Set Default Proof Using "All".

Lemma keyless_ends rs : 0 < n ->
  let names := filenames tree fs o in
  starts exists_ can_create answer o -> 2 <= maxFilesAtOnce o ->
  (forall i j, tmp i = tmp j -> i = j) -> (forall j, tmp j <> dstFile o) -> dstFile o ∉ names ->
  Forall2 (holds fs) names rs -> PHC_size * Z.of_nat (length (concat rs)) < 2 ^ 64 ->
  always_ends (Q := Q) (QM := QM) n (maxFilesAtOnce o) (dstFile o) tmp (std_sort (larger fs) names) fs (fun after =>
    merger_main (Q := QM) tree exists_ can_create answer tmp (length names) not_cancelled fs o = Ok (Merged after)).
Proof.
  intros Hn names Ho Hmax Hinj Htd Hdst Hps Hb.
  destruct (prepared n n_u32 tree exists_ can_create answer tmp fs o tmp_fresh rs Ho Hps) as [Hp (rs' & Hrs' & Hps' & _)].
  set (inputs := std_sort (larger fs) (filenames tree fs o)) in *.
  assert (inputs ≡ₚ names) as Hperm by apply std_sort_perm.
  assert (dstFile o ∉ inputs) as Hdst' by by rewrite Hperm.
  assert (forall j, tmp j ∉ inputs) as Htmp.
  { intros j Hin. apply list_elem_of_lookup in Hin as [i Hi]. destruct (Forall2_lookup_l _ _ _ _ _ Hps' Hi) as (r & _ & [Hr _]).
    by rewrite tmp_fresh in Hr. }
  assert (PHC_size * Z.of_nat (length (concat rs')) < 2 ^ 64) as Hb' by by rewrite Hrs'.
  split.
  - eapply (live_sn n n_u32 Hn (maxFilesAtOnce o) (dstFile o) tmp Hmax Hinj Htd inputs rs' fs Hps' Hdst' Htmp Hb' tmp_fresh).
    apply (live_start n n_u32 Hn (maxFilesAtOnce o) (dstFile o) tmp Hmax Hinj Htd inputs rs' fs Hps' Hdst' Htmp Hb' tmp_fresh).
  - intros s Hr.
    destruct (live_reach n n_u32 Hn (maxFilesAtOnce o) (dstFile o) tmp Hmax Hinj Htd inputs rs' fs Hps' Hdst' Htmp Hb' tmp_fresh s Hr)
      as (m & w & Hl). split.
    + by apply (live_progress n n_u32 Hn (maxFilesAtOnce o) (dstFile o) tmp Hmax Hinj Htd inputs rs' fs Hps' Hdst' Htmp Hb' tmp_fresh s m w).
    + intros Hat.
      destruct (live_end n n_u32 Hn (maxFilesAtOnce o) (dstFile o) tmp Hmax Hinj Htd inputs rs' fs Hps' Hdst' Htmp Hb' tmp_fresh s m w Hl Hat)
        as (fs1 & Hloop & Hfs). unfold merger_main. rewrite Hp. cbn [mbind outcome_bind].
      rewrite (Permutation_length Hperm) in Hloop. rewrite Hloop, Hfs. done.
Qed.

(** C5: with a processor, [--max-files-at-once] of two or more (with one it never ends:
    [Merger.merger_loop_one_diverges]), readable, sorted and not empty input files, a
    destination that is none of them, new names for the intermediate files, and outputs that
    can be opened, the whole merger ends, in whatever order its threads take their steps: every run without keys is
    finite and ends only when [main] returns, and then its files are those the loop of [main]
    leaves when nothing is cancelled. *)
Theorem merger_program_ends rs : 0 < n ->
  let names := filenames tree fs o in
  starts exists_ can_create answer o -> 2 <= maxFilesAtOnce o ->
  (forall i j, tmp i = tmp j -> i = j) -> (forall j, tmp j <> dstFile o) -> dstFile o ∉ names ->
  Forall2 (holds fs) names rs -> PHC_size * Z.of_nat (length (concat rs)) < 2 ^ 64 ->
  always_ends (Q := Q) (QM := QM) n (maxFilesAtOnce o) (dstFile o) tmp (std_sort (larger fs) names) fs (fun after =>
    merger_main (Q := QM) tree exists_ can_create answer tmp (length names) not_cancelled fs o = Ok (Merged after)).
Proof. apply keyless_ends. Qed.
End properties.

Lemma merger_program_ends_witness :
  always_ends (Q := list OpPtr) (QM := list MergerInput) 1 2 (bs "all.md5") demo_tmp
    (std_sort (MergerCli.larger demo_files) demo_paths) demo_files (fun after =>
      MergerCli.merger_main (Q := list MergerInput) demo_tree (fun _ => true) (fun _ => false) "y"%byte demo_tmp
        2 not_cancelled demo_files demo_merger = Ok (MergerCli.Merged after)).
Proof.
  pose proof (merger_program_ends (Q := list OpPtr) (QM := list MergerInput) 1 ltac:(lia) demo_tree (fun _ => true) (fun _ => false) "y"%byte
    demo_tmp demo_files demo_merger demo_files_fresh demo_contents) as H.
  cbv zeta in H. rewrite demo_filenames in H. apply H.
  - lia.
  - apply demo_starts.
  - simpl. lia.
  - apply demo_tmp_inj.
  - intros j. unfold demo_tmp. discriminate.
  - apply (bool_decide_unpack _). vm_compute. exact I.
  - apply demo_holds.
  - unfold PHC_size. simpl. lia.
Defined.
