(* ===== verification/Service.v ===== *)
(** * pwned-server: the whole process

    What runs after [main] ([Tools.ServerMain]) has started its workers: the threads of the
    [io_context] call the handlers of all workers in any order.  A worker has an inspector, a
    socket and a timer of its own, and the handlers of different workers share nothing but the
    acceptor and the log, so a schedule is a list of events, each of one worker.

    The specification is a row of machines without any state but the connection: one accepts,
    reads a request until its time is over, and writes what [answer] says to this request, or
    fails when the connection is gone.  [service_refines] shows that the process does this for
    every schedule.  A handler that fails ends the process: the exception leaves
    [io_context::run]. *)

From S2P Require Import Prelude Decimal Stream Util Hash Phc Inspector Regex Uri Server Tools.
From stdpp Require Import options.

(** ** The specification *)

(** A reading machine has the time when its connection is closed, unless it is closed. *)
Inductive Answering := AAccept | ARead (expiry : option Z) | AWrite (r : response).

Section spec.
Context (split : list byte -> byte -> list (list byte)) (base : list byte) (recs : list PHC) (last_updated : Z).

(** A [GET] is logged with the address of the other side, which is not known any more when the
    connection has been closed by the timer, or reset by the other side. *)
Definition spec_answer (req : request) (expiry : option Z) (logline : option (list byte)) (duration : list byte) : outcome Answering :=
  match req_method req, expiry, logline with
  | get, None, _ | get, _, None => Throws (bs "remote_endpoint")
  | _, _, _ => Ok (AWrite (answer split base recs last_updated req duration))
  end.

Definition spec_handle (e : Event) (a : Answering) : option (outcome Answering) :=
  match e, a with
  | EAccepted ok now, AAccept => Some (Ok (if ok then ARead (Some (now + Timeout)) else AAccept))
  | ERead (Some req) _ logline duration, ARead expiry => Some (spec_answer req expiry logline duration)
  | ERead None _ _ _, ARead _ => Some (Ok AAccept)
  | EWritten, AWrite _ => Some (Ok AAccept)
  | ETimer now, ARead (Some t) => Some (Ok (ARead (if t <=? now then None else Some t)))
  | ETimer _, a => Some (Ok a)
  | _, _ => None
  end.

Definition spec_step (i : nat) (e : Event) (s : list Answering) : option (outcome (list Answering)) :=
  match s !! i with
  | None => None
  | Some a => match spec_handle e a with None => None | Some r => Some ((fun a => <[i := a]> s) <$> r) end
  end.
Fixpoint spec_run (es : list (nat * Event)) (s : list Answering) : option (outcome (list Answering)) :=
  match es with
  | [] => Some (Ok s)
  | (i, e) :: es => match spec_step i e s with Some (Ok s) => spec_run es s | r => r end
  end.
End spec.

(** ** The process *)

Section service.
Context {I : Type} `{LookupService I}.
Context (split : list byte -> byte -> list (list byte)).
Context (write_json : list (list byte * list byte) -> list byte).
Context (replace_all : list byte -> list byte -> list byte -> list byte).

(** A handler of worker [i]. *)
Definition service_step (i : nat) (e : Event) (ws : list (Worker I)) : option (outcome (list (Worker I))) :=
  match ws !! i with
  | None => None
  | Some w =>
      match handle (I := I) split write_json replace_all e w with
      | None => None
      | Some r => Some ((fun w => <[i := w]> ws) <$> r)
      end
  end.
Fixpoint service_run (es : list (nat * Event)) (ws : list (Worker I)) : option (outcome (list (Worker I))) :=
  match es with
  | [] => Some (Ok ws)
  | (i, e) :: es => match service_step i e ws with Some (Ok ws) => service_run es ws | r => r end
  end.

(** What the other side of the connection can see of a worker. *)
Definition view (w : Worker I) : Answering :=
  match pending w with
  | PRead => ARead (mReqTimeout w)
  | PWrite => match mResponse w with Some r => AWrite r | None => AAccept end
  | PAccept | PNone => AAccept
  end.
End service.

(** ** Lemmas *)

Section proofs.
Context {I : Type} `{LookupService I}.
Context (split : list byte -> byte -> list (list byte)) (split_ok : split_law split).
Context (write_json : list (list byte * list byte) -> list byte) (write_json_ok : write_json_law write_json).
Context (replace_all : list byte -> list byte -> list byte -> list byte) (replace_ok : replace_law replace_all).
Context (base : list byte) (recs : list PHC) (last_updated : Z).
#[local] Set Default Proof Using "All".

(** A worker of a service over these records. *)
Definition working (w : Worker I) : Prop := Serving base recs w /\ mLastUpdated w = last_updated /\ is_Some (mLog w).

Ltac still_working := split; [split; [by split|by split]|done].

(** Both do the same: what [R] says of the results, or both fail alike. *)
Definition agree {A B} (R : A -> B -> Prop) (x : option (outcome A)) (y : option (outcome B)) : Prop :=
  match x, y with
  | Some (Ok a), Some (Ok b) => R a b
  | Some (Throws m), Some (Throws m') => m = m'
  | None, None => True
  | _, _ => False
  end.

(** The answer to a request. *)
Lemma read_refines req line duration w : working w -> pending w = PRead -> safe_request split base recs req ->
  agree (fun w' a => working w' /\ view w' = a) (Some (processRequest split write_json replace_all req line duration w))
    (Some (spec_answer split base recs last_updated req (mReqTimeout w) line duration)).
Proof.
  intros (Hw & Hu & log & Hlog) E Hreq. pose proof (sv_response _ _ _ Hw) as Hr. rewrite E in Hr. destruct Hr as [Hr _].
  pose proof (sv_open _ _ _ Hw E) as Hopen. assert ((req_method req = get -> connected line w) -> exists w',
    processRequest split write_json replace_all req line duration w = Ok w' /\ working w' /\
    view w' = AWrite (answer split base recs last_updated req duration)) as Hok.
  { intros Hc. destruct (processRequest_answer split split_ok write_json write_json_ok replace_all replace_ok base recs req line duration
      w Hw Hr Hreq Hc) as (w' & -> & Hw' & Hpe & Hres & Hu' & Hl'). exists w'. split; [done|]. split.
    - split; [done|]. split; [by rewrite Hu'|]. apply Hl'. by exists log.
    - unfold view. by rewrite Hpe, Hres, Hu. }
  unfold spec_answer. destruct (req_method req) eqn:Hm; [|by destruct Hok as (w' & -> & Hw')].
  destruct (connected_or_throws line w) as [Hc|Ht].
  - destruct (Hok (fun _ => Hc)) as (w' & -> & Hw'). destruct Hc as [?|[Hso [l ->]]]; [congruence|].
    rewrite Hso in Hopen. symmetry in Hopen. apply bool_decide_eq_true in Hopen as [t ->]. exact Hw'.
  - unfold processRequest, sendResponse. rewrite Hm, Ht. cbn [mbind outcome_bind].
    specialize (Ht []). unfold log_request, remote_endpoint in Ht. rewrite Hlog, Hopen in Ht.
    destruct (mReqTimeout w) as [t|]; [|done]. destruct line as [line|]; [|done]. by rewrite bool_decide_true in Ht.
Qed.

Lemma handle_refines e w : working w -> safe_event split base recs e ->
  agree (fun w' a => working w' /\ view w' = a) (handle (I := I) split write_json replace_all e w)
    (spec_handle split base recs last_updated e (view w)).
Proof.
  intros Hwk He. pose proof Hwk as (Hw & Hu & Hlog). pose proof Hw as [Hp Hr Hb Hso Hop Hs].
  destruct e as [ok now|req rest line duration| |now]; cbn [handle]; unfold view.
  - destruct (pending w) eqn:E; try done; [|by destruct Hr as [[r ->] _]]. destruct ok; still_working.
  - destruct (pending w) eqn:E; try done; [by destruct req| |by destruct Hr as [[r ->] _], req].
    destruct Hr as [Hr Hser]. destruct req as [req|]; [|still_working]. cbn [spec_handle].
    apply (read_refines req line duration (MkWorker _ rest _ _ _ _ _ _ _ _ _)); [|done|exact He].
    split; [by split|done].
  - destruct (pending w) eqn:E; try done. destruct Hr as [[r ->] _]. still_working.
  - assert (working (checkTimeout now w)) as Hc.
    { unfold checkTimeout. destruct (match mReqTimeout w with Some t => _ | None => _ end); [|done].
      split; [|done]. split; cbn; try done. intros Hpe. split; [done|]. by apply Hso. }
    destruct (pending w) eqn:E; try done.
    + split; [exact Hc|]. unfold view, checkTimeout. repeat case_match; cbn in *; congruence.
    + unfold spec_handle. destruct (mReqTimeout w) as [t|] eqn:Et; (split; [exact Hc|]);
        unfold view, checkTimeout; rewrite Et; [|by rewrite E, Et]. destruct (t <=? now); cbn; by rewrite E, ?Et.
    + destruct Hr as [[r Hr] Hser]. rewrite Hr. split; [exact Hc|]. unfold view, checkTimeout. repeat case_match; cbn in *; congruence.
Qed.

Lemma service_step_refines i e ws : Forall working ws -> safe_event split base recs e ->
  agree (fun ws' s => Forall working ws' /\ view <$> ws' = s) (service_step split write_json replace_all i e ws)
    (spec_step split base recs last_updated i e (view <$> ws)).
Proof.
  intros Hws He. unfold service_step, spec_step. rewrite list_lookup_fmap. destruct (ws !! i) as [w|] eqn:Hi; [|done].
  cbn [fmap option_fmap option_map mbind option_bind]. rewrite Forall_lookup in Hws.
  pose proof (handle_refines e w (Hws i w Hi) He) as Hr.
  destruct (handle (I := I) split write_json replace_all e w) as [[w'| | |]|], (spec_handle split base recs last_updated e (view w)) as [[a| | |]|];
    try done. destruct Hr as [Hw <-]. cbn. split; [|by rewrite list_fmap_insert].
  apply Forall_insert; [by apply Forall_lookup|done].
Qed.

Lemma service_run_refines es ws : Forall working ws -> Forall (fun e => safe_event split base recs (snd e)) es ->
  agree (fun ws' s => Forall working ws' /\ view <$> ws' = s) (service_run split write_json replace_all es ws)
    (spec_run split base recs last_updated es (view <$> ws)).
Proof.
  intros Hws Hes. revert ws Hws. induction Hes as [|[i e] es He Hes IH]; intros ws Hws; [done|]. cbn [service_run spec_run].
  pose proof (service_step_refines i e ws Hws He) as Hr.
  destruct (service_step split write_json replace_all i e ws) as [[ws'| | |]|], (spec_step split base recs last_updated i e (view <$> ws)) as [[s| | |]|];
    try done. destruct Hr as [Hws' <-]. by apply IH.
Qed.
End proofs.

(** ** Properties *)

Section properties.
Import Uri.Accessors ServerMain.
Context {I : Type} `{LookupService I}.
Context (split : list byte -> byte -> list (list byte)) (split_ok : split_law split).
Context (write_json : list (list byte * list byte) -> list byte) (write_json_ok : write_json_law write_json).
Context (replace_all : list byte -> list byte -> list byte -> list byte) (replace_ok : replace_law replace_all).
Context (make_address : list byte -> bool) (can_bind : list byte -> Z -> bool).
Context (open : list byte -> list byte -> outcome I) (last_write_time : list byte -> Z).
#[local] Set Default Proof Using "Type*".

(** C15: the service is as many answering machines as it has workers.  Whatever its handlers do in
    whatever order, for requests whose lookups the inspectors can do (with a plain inspector: of
    no hash above the last record): an operation completes in the service exactly when it can
    in the specification, and every worker accepts, reads or writes when its machine does; what
    it writes is [answer] of the request it read, whatever it or the other workers were asked
    before.  A handler fails in one case, in which the specification fails alike: a [GET] was
    read, and by then the timer had closed its connection, or the other side had reset it. *)
Theorem service_refines recs now o uri i :
  help o = false -> inputFilename o <> [] -> 0 <= numThreads o ->
  URI_ctor split (address o) = Ok uri -> make_address (host uri) = true -> can_bind (host uri) (port uri) = true ->
  open (inputFilename o) (indexFilename o) = Ok i -> svc_serves recs i ->
  exists ws, server_main split make_address can_bind open last_write_time now o = Ok (Serve ws (host uri) (port uri)) /\
    forall es, Forall (fun e => safe_event split (path uri) recs (snd e)) es ->
      agree (fun ws' s => view <$> ws' = s) (service_run split write_json replace_all es ws)
        (spec_run split (path uri) recs (last_write_time (inputFilename o)) es (replicate (length ws) AAccept)).
Proof.
  intros Hh Hin Hth Huri Hma Hcb Ho Hs.
  destruct (server_main_starts split make_address can_bind open last_write_time now o uri i Hh Hin Hth Huri Hma Hcb Ho)
    as (ws & Hr & _ & Hall).
  exists ws. split; [exact Hr|]. intros es Hes.
  set (w := start now (HttpWorker (path uri) i true (last_write_time (inputFilename o)))) in *.
  assert (ws = replicate (length ws) w) as Hws by (symmetry; apply replicate_as_Forall_2; [done|]; eapply Forall_impl; [exact Hall|]; by intros ? ->).
  assert (Forall (working (path uri) recs (last_write_time (inputFilename o))) ws) as Hw.
  { eapply Forall_impl; [exact Hall|]. intros w' ->. split; [by split|]. split; [done|by eexists]. }
  pose proof (service_run_refines split split_ok write_json write_json_ok replace_all replace_ok (path uri) recs
    (last_write_time (inputFilename o)) es ws Hw Hes) as Hrun.
  assert (view <$> ws = replicate (length ws) AAccept) as Hview by (rewrite Hws at 1; by rewrite fmap_replicate).
  rewrite Hview in Hrun. unfold agree in *. repeat case_match; first [done|by destruct Hrun].
Qed.
End properties.

(** ** Witness: two workers *)

Definition demo_service_options : ServerMain.Options :=
  ServerMain.MkOptions false (bs "db.md5") [] ServerMain.DefaultAddress 2 8 (ServerMain.MkCounter 0).
Definition demo_inspector : Inspector :=
  default Inspector_default (PasswordInspector (Some (FileEntry (phc_file demo_recs) true))).
Definition demo_request (target : list byte) : request := MkRequest get (bs "GET") (bs "/v1/pwned/api" ++ target).

(** The second connection is served while the first one is open. *)
Definition demo_schedule : list (nat * Event) :=
  [(0%nat, EAccepted true 5); (1%nat, EAccepted true 6);
   (1%nat, ERead (Some (demo_request (bs "/info"))) [] (Some (bs "now")) []);
   (0%nat, ERead (Some (demo_request (bs "/lookup?hash=00000000000000020000000000005555"))) [] (Some (bs "now")) (bs "0.01"));
   (1%nat, EWritten); (1%nat, EAccepted true 7); (0%nat, ETimer 70)].

Example demo_answers :
  spec_run split_on (bs "/v1/pwned/api") demo_recs 0 demo_schedule (replicate 2 AAccept) =
  Some (Ok [AWrite (expected demo_recs (fromHex demo_text) (bs "0.01")); ARead (Some 67)]).
Proof. vm_compute. reflexivity. Qed.

Lemma demo_schedule_safe :
  Forall (fun e => safe_event (I := Inspector) split_on (bs "/v1/pwned/api") demo_recs (snd e)) demo_schedule.
Proof.
  repeat constructor; cbn [snd safe_event]; intros t Ht; vm_compute in Ht; [discriminate Ht|].
  injection Ht as <-. exact demo_domain.
Qed.

Lemma service_refines_witness : exists ws ws',
  ServerMain.server_main split_on (fun _ => true) (fun _ p => 1024 <=? p) (fun _ _ => Ok demo_inspector) (fun _ => 0) 0
    demo_service_options = Ok (ServerMain.Serve ws (bs "127.0.0.1") 31337) /\
  service_run split_on demo_write_json demo_replace_all demo_schedule ws = Some (Ok ws') /\
  view <$> ws' = [AWrite (expected demo_recs (fromHex demo_text) (bs "0.01")); ARead (Some 67)].
Proof.
  destruct (URI_ctor split_on ServerMain.DefaultAddress) as [uri| | |] eqn:Hu; [|vm_compute in Hu; discriminate..].
  assert (Accessors.host uri = bs "127.0.0.1" /\ Accessors.port uri = 31337 /\ Accessors.path uri = bs "/v1/pwned/api") as (Hh & Hp & Hpath).
  { vm_compute in Hu. injection Hu as <-. by split_and!. }
  assert (svc_serves demo_recs demo_inspector) as Hs.
  { destruct (open_opened demo_recs demo_lookup_file) as (i & Ho & Hi). unfold demo_inspector. rewrite Ho.
    split; [apply demo_lookup_file|exact Hi]. }
  destruct (service_refines split_on split_on_law demo_write_json demo_write_json_law demo_replace_all demo_replace_law
    (fun _ => true) (fun _ p => 1024 <=? p) (fun _ _ => Ok demo_inspector) (fun _ => 0) demo_recs 0 demo_service_options uri
    demo_inspector eq_refl ltac:(discriminate) ltac:(simpl; lia) Hu eq_refl ltac:(rewrite Hp; reflexivity) eq_refl Hs)
    as (ws & Hr & Hrun).
  rewrite Hpath in Hrun. specialize (Hrun demo_schedule demo_schedule_safe).
  assert (length ws = 2%nat) as Hlen.
  { unfold ServerMain.server_main in Hr. cbn [ServerMain.help ServerMain.address demo_service_options] in Hr. rewrite Hu in Hr.
    cbn [mbind outcome_bind] in Hr. rewrite Hp in Hr. cbn in Hr. by injection Hr as <-. }
  rewrite Hlen in Hrun. change (ServerMain.inputFilename _) with (bs "db.md5") in Hrun. cbv beta in Hrun. rewrite demo_answers in Hrun.
  destruct (service_run split_on demo_write_json demo_replace_all demo_schedule ws) as [[ws'| | |]|] eqn:E; try contradiction.
  exists ws, ws'. split; [by rewrite Hr, Hh, Hp|]. split; [exact E|exact Hrun].
Defined.
