(* ===== verification/EndToEnd.v ===== *)
(** * From password lists to the answers of the service

    The programs one after the other, each on the files the one before it left: the converter
    with its threads ([Converter]), the merger ([Tools]), the service ([Server]). *)

From S2P Require Import Prelude Decimal Stream Util Hash Phc Inspector Regex UserPasswordReader Convert PriorityQueue Merge Merger Queue Converter Uri Server LoadTest ClientServer Tools QueueCancel MergerProgram MergerEnds.
From stdpp Require Import options.

(** ** Lemmas: counts *)

Lemma all_records_count out v : count_of (all_records out) v = sum_Z ((fun e => count_of (snd e) v) <$> out).
Proof.
  unfold all_records. induction out as [|e out IH]; [done|]. csimpl. change (count_of ?l v) with (total v l) at 1.
  rewrite total_app. unfold total. rewrite IH. done.
Qed.

Lemma all_records_length out : length (all_records out) = sum_list_with (fun e => length (snd e)) out.
Proof. unfold all_records. induction out as [|e out IH]; [done|]. csimpl. by rewrite length_app, IH. Qed.

(** How often a hash occurs in all lists. *)
Definition all_occurrences (MD5 : list byte -> list byte) (content : list byte -> file_entry)
    (ds : list ConvertOperationPrivate) (v : Z) : Z :=
  sum_Z ((fun d => occurrences (valid_hashes MD5 (new_reader (open_stream (text content d)) (options d))
    (lines (text content d))) v) <$> ds).
Definition all_lines (content : list byte -> file_entry) (ds : list ConvertOperationPrivate) : nat :=
  sum_list_with (fun d => length (lines (text content d))) ds.

Lemma all_occurrences_bound MD5 content ds v : 0 <= all_occurrences MD5 content ds v <= Z.of_nat (all_lines content ds).
Proof.
  unfold all_occurrences, all_lines. induction ds as [|d ds IH]; [done|]. csimpl.
  pose proof (occurrences_length (valid_hashes MD5 (new_reader (open_stream (text content d)) (options d)) (lines (text content d))) v).
  pose proof (valid_hashes_length MD5 (new_reader (open_stream (text content d)) (options d)) (lines (text content d))). lia.
Qed.

(** The options for merging these files, and no others, at once. *)
Record merges (exists_ can_create : list byte -> bool) (answer : byte) (tmp : nat -> list byte) (files : gmap (list byte) (list byte))
    (o : MergerCli.Options) (ps : list (list byte)) : Prop := {
  mg_starts : starts exists_ can_create answer o;
  mg_src : MergerCli.srcDirectory o = None;
  mg_input : MergerCli.input_given o = Some ps;
  mg_dst : MergerCli.dstFile o ∉ ps;
  mg_max : 2 <= MergerCli.maxFilesAtOnce o /\ Z.of_nat (length ps) <= MergerCli.maxFilesAtOnce o;
  mg_tmp : forall j, tmp j <> MergerCli.dstFile o /\ files !! tmp j = None }.

Lemma merges_filenames exists_ can_create answer tmp files tree fs o ps :
  merges exists_ can_create answer tmp files o ps -> MergerCli.filenames tree fs o = ps.
Proof. intros [_ Hsrc Hin _ _]. unfold MergerCli.filenames. rewrite Hsrc, Hin. apply app_nil_r. Qed.

(** ** Lemmas: a service over merged files *)

Lemma last_records_zip (ps : list (list byte)) (rs : list (list PHC)) : length ps = length rs ->
  last_records (zip ps rs) = omap last rs.
Proof.
  unfold last_records. revert rs. induction ps as [|p ps IH]; intros [|r rs] Hl; try done.
  cbn [zip zip_with omap list_omap snd]. destruct (last r); by rewrite IH by (by injection Hl).
Qed.

Lemma last_records_snd out : last_records out = omap last (snd <$> out).
Proof. unfold last_records. induction out as [|e out IH]; [done|]. csimpl. by rewrite IH. Qed.

(** Merging these files gives a file for lookups with these counts. *)
Lemma merged_file ps rs out v : Forall good_input (zip ps rs) -> length ps = length rs ->
  Z.of_nat (length (concat rs)) < 2 ^ 30 -> merged (zip ps rs) out ->
  lookup_file out /\
  (3 * count_of (concat rs) v < 2 ^ 32 ->
    count_of (concat rs) v <= count_of out v <= 3 * count_of (concat rs) v /\
    (v ∉ hval ∘ hash <$> omap last rs -> Exists (fun p => hval (hash p) < v) (concat rs) ->
      count_of out v = count_of (concat rs) v)).
Proof.
  intros Hgood Hlen Hb Hm. split.
  - pose proof Hm as (Hs & Hwf & Hset & _). split; [done|done|].
    assert (length out <= length (concat rs))%nat.
    { apply distinct_length; [done|]. intros w Hw. apply Hset in Hw. by rewrite zip_all_records in Hw. }
    unfold PHC_size. lia.
  - intros H3. rewrite <- (zip_all_records ps rs Hlen) in H3. destruct (merged_counts _ out v Hgood Hm H3) as [H1 H2].
    rewrite zip_all_records, last_records_zip in * by done. done.
Qed.

Lemma count_positive recs v : 0 < count_of recs v -> exists p, p ∈ recs /\ hval (hash p) = v.
Proof.
  intros Hc. destruct (decide (Exists (fun p => hval (hash p) = v) recs)) as [He|Hne].
  - apply Exists_exists in He as (p & Hp & Hv). by exists p.
  - rewrite count_of_absent in Hc; [lia|]. apply Forall_forall. intros p Hp Hv. apply Hne, Exists_exists. by exists p.
Qed.

(** ** Properties *)

Section properties.
Context (path_append : list byte -> list byte -> list byte) (path_stem : list byte -> list byte).
Context (MD5 : list byte -> list byte) (fuel : nat) (append_ok : append_law path_append).
Context {Q : Type} `{PQ : PriorityQueue OpPtr opGreaterPriority Q}.
Context {QM : Type} `{PM : PriorityQueue MergerInput SmallestHashFirst QM}.
Context (n : Z) (n_u32 : in_u32 n) (n_pos : 0 < n) (tree : list byte -> list (list byte * bool)) (o : ConverterOptions).
Context (content : list byte -> file_entry) (files : gmap (list byte) (list byte)).
Context (ds : list ConvertOperationPrivate) (ds_main : converter_main tree o = Some ds).
Context (ds_ok : forall d, d ∈ ds -> 0 < maxMem d < 2 ^ 38 /\ freadable (content (srcFilePath d)) = true /\
  Z.of_nat (length (lines (text content d))) < 2 ^ 31 /\ (length (lines (text content d)) < fuel)%nat).
Context (short : Z.of_nat (all_lines content ds) < 2 ^ 30).
Context (stems_differ : NoDup ((fun d => path_stem (srcFilePath d)) <$> ds)).
Context (stems_plain : forall d, d ∈ ds -> "/"%byte ∉ path_stem (srcFilePath d)).
Context (names_free : forall d k, d ∈ ds -> 1 <= k < 2 ^ 31 -> files !! out_name path_append path_stem d k = None).
(** The merger's surroundings, and the service's. *)
Context (exists_ can_create : list byte -> bool) (answer : byte) (tmp : nat -> list byte).
Context (tmp_inj : forall i j, tmp i = tmp j -> i = j).
Context (split : list byte -> byte -> list (list byte)) (split_ok : split_law split).
Context (write_json : list (list byte * list byte) -> list byte) (write_json_ok : write_json_law write_json).
Context (replace_all : list byte -> list byte -> list byte -> list byte) (replace_ok : replace_law replace_all).
Context (base : list byte) (Hbase : plain base).
#[local] Set Default Proof Using "All".

(** The request for a hash. *)
Definition lookup_request (h : Hash) : request :=
  MkRequest get (bs "GET") (base ++ bs "/lookup" ++ bs "?hash=" ++ toString false h).
(** The answer that it was found so many times. *)
Definition found (h : Hash) (times : Z) (duration : list byte) : response :=
  makeResponse (json_object [(bs "hash", quoted (toString false h)); (bs "found", to_string times);
    (bs "lookup-time-ms", duration)]).

(** A service over a file for lookups answers with its counts. *)
Lemma served recs h now lwt line duration : lookup_file recs -> Hash_wf h ->
  (exists p, p ∈ recs /\ hval h <= hval (hash p)) ->
  exists i w, PasswordInspector (Some (FileEntry (phc_file recs) true)) = Some i /\
    Server.run split write_json replace_all [EAccepted true now; ERead (Some (lookup_request h)) [] (Some line) duration]
      (Server.start now (HttpWorker base i true lwt)) = Some (Ok w) /\
    mResponse w = Some (found h (count_of recs (hval h)) duration).
Proof.
  intros Hf Hh Hdom. destruct (open_opened recs Hf) as (i & Ho & Hi).
  set (target := base ++ bs "/lookup" ++ bs "?hash=" ++ toString false h).
  assert (plain (base ++ bs "/lookup")) as Hpath by (apply Forall_app; split; [done|by repeat constructor]).
  assert (parseTarget split target URI_default = parseTarget split ((base ++ bs "/lookup") ++ x3f :: param (bs "hash", toString false h)) URI_default) as Ht
    by (unfold target; by rewrite <- app_assoc).
  rewrite (parseTarget_one split split_ok) in Ht; [|done|by repeat constructor|by apply toString_plain].
  destruct (lookup_round split split_ok write_json write_json_ok replace_all replace_ok base recs
    (toString false h) target now line duration (Server.start now (HttpWorker base i true lwt))) as (w & Hrun & Hres & _).
  - split; [done..|]. split; [done|exact Hi].
  - done.
  - by rewrite Ht.
  - rewrite Ht. apply lookup_insert_eq.
  - rewrite fromHex_of_toString by done. destruct Hdom as (p & Hp & Hle). by exists p.
  - exists i, w. split; [done|]. split; [exact Hrun|]. rewrite Hres, fromHex_of_toString by done. done.
Qed.

(** The merger with its threads ends, without keys, and only with these files. *)
Definition merger_ends (o : MergerCli.Options) (before after : gmap (list byte) (list byte)) : Prop :=
  always_ends (Q := Q) (QM := QM) n (MergerCli.maxFilesAtOnce o) (MergerCli.dstFile o) tmp
    (std_sort (MergerCli.larger before) (MergerCli.filenames tree before o)) before (eq after).

Lemma merges_end before mo ps rs : merges exists_ can_create answer tmp before mo ps -> Forall2 (holds before) ps rs ->
  ps <> [] -> Z.of_nat (length (concat rs)) < 2 ^ 30 ->
  exists ps' rs' recs, rs' ≡ₚ rs /\ Forall2 (holds before) ps' rs' /\ merged (zip ps' rs') recs /\
    merger_ends mo before (<[MergerCli.dstFile mo := phc_file recs]> before).
Proof.
  intros Hmo Hholds Hne Hb. pose proof (merges_filenames exists_ can_create answer tmp _ tree before mo ps Hmo) as Hnames.
  assert (PHC_size * Z.of_nat (length (concat rs)) < 2 ^ 64) as Hb' by (unfold PHC_size; lia).
  destruct Hmo as [Hst _ _ Hdst [Htwo Hmax] Htmp]. rewrite <- Hnames in Hholds, Hdst, Hmax, Hne.
  destruct (merger_once (Q := QM) tree exists_ can_create answer tmp before mo rs Hst Hholds)
    as (ps' & rs' & recs & Hrs & Hps & Hm & Hmain & _); [done..|]. exists ps', rs', recs. do 3 (split; [done|]).
  destruct (keyless_ends (Q := Q) (QM := QM) n n_u32 tree exists_ can_create answer tmp before mo (fun j => proj2 (Htmp j))
    rs n_pos Hst Htwo tmp_inj (fun j => proj1 (Htmp j)) Hdst Hholds Hb') as [Hsn Hrun].
  split; [exact Hsn|]. intros s Hs. destruct (Hrun s Hs) as [Hgo Hend]. split; [exact Hgo|]. intros Hat. specialize (Hend Hat).
  by injection (merger_main_same tree exists_ can_create answer tmp _ _ _ _ _ _ _ Hmain Hend).
Qed.

(** C2: from password lists to an answer over HTTP.  The conditions: there is a processor; the
    conversions have memory for at least one password; the lists can be read, have fewer than
    2^30 lines in all and names that differ in more than their directories (with two equal
    ones passwords can get lost, see [Converter.same_stem_lost]); the numbered names of the
    outputs are free, and all outputs can be opened; the merger is told to merge exactly the files the converter wrote, of
    which there is one at least, all at once (with [--max-files-at-once] of two or more), into
    a destination that is none of them; the service's base path has no special characters; boost's paths and strings and the JSON
    writer do what they document.  Then, when the converter has converted all lists, in
    whatever order its threads ran, the merger merges its files into one, in whatever order
    its threads run, and a service opens that file.  Over a connection that is
    open it answers the request for a hash of one
    of the passwords, and the number of times it says the hash was found is at least the
    number of lines with such a password in all lists and at most three times that; it is this
    number exactly unless the hash is the smallest of all or the last one of a file the
    converter wrote. *)
Theorem lists_served s0 s : converter_program (Q := Q) n tree content files o = Some s0 ->
  rtc (worker_run path_append path_stem MD5 fuel) s0 s -> mainThread (p_queue s) = Returned ->
  exists out : list (list byte * list PHC),
    p_files s = list_to_map (prod_map id phc_file <$> out) ∪ files /\
    forall mo, merges exists_ can_create answer tmp (p_files s) mo out.*1 -> out <> [] ->
      exists bytes, merger_ends mo (p_files s) (<[MergerCli.dstFile mo := bytes]> (p_files s)) /\
        forall h now lwt line duration, Hash_wf h -> 0 < all_occurrences MD5 content ds (hval h) ->
          exists i w times, PasswordInspector (Some (FileEntry bytes true)) = Some i /\
            Server.run split write_json replace_all [EAccepted true now; ERead (Some (lookup_request h)) [] (Some line) duration]
              (Server.start now (HttpWorker base i true lwt)) = Some (Ok w) /\
            mResponse w = Some (found h times duration) /\
            all_occurrences MD5 content ds (hval h) <= times <= 3 * all_occurrences MD5 content ds (hval h) /\
            (hval h ∉ hval ∘ hash <$> last_records out ->
              Exists (fun p => hval (hash p) < hval h) (all_records out) -> times = all_occurrences MD5 content ds (hval h)).
Proof.
  unfold converter_program. rewrite ds_main. intros [= <-] Hr Hret.
  pose proof (fun d d' => converter_main_directory tree o ds d d' ds_main) as Hdir.
  apply (worker_reach path_append path_stem MD5 fuel append_ok n n_u32 content ds files ds_ok Hdir stems_differ stems_plain names_free) in Hr.
  destruct (returned_files path_append path_stem MD5 fuel append_ok n n_u32 content ds files ds_ok Hdir stems_differ stems_plain names_free s Hr Hret)
    as (out & Hnd & Hfiles & Hall & Hlen & Hsum).
  exists out. split; [exact Hfiles|]. intros mo Hmo Hne.
  assert (Z.of_nat (length (concat (snd <$> out))) < 2 ^ 30) as Hshort.
  { change (concat (snd <$> out)) with (all_records out). rewrite all_records_length. unfold all_lines in short. lia. }
  assert (Forall2 (holds (p_files s)) out.*1 (snd <$> out)) as Hholds.
  { rewrite Hfiles. clear - Hnd Hall. assert ((prod_map id phc_file <$> out).*1 = out.*1) as Hfst.
    { clear. induction out as [|e l IH]; [done|]. csimpl. by rewrite IH. }
    apply Forall2_fmap, Forall_Forall2_diag. rewrite Forall_forall in Hall |- *. intros e He.
    destruct (Hall e He) as [[Hf Hnil] _]. split.
    - apply lookup_union_Some_l, elem_of_list_to_map_1; [by rewrite Hfst|]. apply list_elem_of_fmap. by exists e.
    - split; [apply Hf|]. split; [apply Hf|done]. }
  destruct (merges_end (p_files s) mo out.*1 (snd <$> out) Hmo Hholds) as (ps & rs & recs & Hrs & Hps & Hm & Hends);
    [by destruct out|done|]. exists (phc_file recs). split; [exact Hends|].
  intros h now lwt line duration Hh Hocc.
  pose proof (all_occurrences_bound MD5 content ds (hval h)) as Hob.
  assert (count_of (concat rs) (hval h) = all_occurrences MD5 content ds (hval h)) as Hcount.
  { change (total (hval h) (concat rs) = all_occurrences MD5 content ds (hval h)).
    rewrite (total_perm (hval h) (concat rs) (concat (snd <$> out))) by (by rewrite Hrs).
    change (count_of (all_records out) (hval h) = all_occurrences MD5 content ds (hval h)). rewrite all_records_count. apply Hsum. }
  destruct (merged_file ps rs recs (hval h) (zip_good _ _ _ Hps) (Forall2_length _ _ _ Hps)) as [Hf Hc]; [by rewrite Hrs|done|].
  destruct Hc as [Hc Hexact]; [lia|]. rewrite Hcount in Hc, Hexact.
  destruct (count_positive recs (hval h)) as (p & Hp & Hv); [lia|].
  destruct (served recs h now lwt line duration Hf Hh) as (i & w & Hi & Hrun & Hres); [exists p; split; [done|lia]|].
  exists i, w, (count_of recs (hval h)). do 3 (split; [done|]). split; [done|].
  intros Hlast Hex. apply Hexact; [|by rewrite Hrs]. rewrite Hrs. by rewrite <- last_records_snd.
Qed.
End properties.

(** ** Witness: two lists with three passwords *)

Definition demo_program : option (Program (Q := list OpPtr)) :=
  converter_program 2 demo_lists demo_lists_content ∅ demo_program_options.
(** One conversion writes its file while the other one looks for a name. *)
Definition demo_order : list nat := replicate 8 0%nat ++ replicate 6 1%nat ++ replicate 3 0%nat ++ replicate 4 1%nat.

Example demo_order_files : exists l, final demo_program demo_order = Some (true, l) /\ length l = 2%nat /\ bs "all.md5" ∉ l.*1 /\
  Forall (fun p => head p <> Some "/"%byte) l.*1.
Proof.
  eexists. split; [vm_compute; reflexivity|]. split; [reflexivity|]. split; apply (bool_decide_unpack _); vm_compute; exact I.
Qed.

(** What it ends with. *)
Lemma demo_ended : exists s0 s, demo_program = Some s0 /\ rtc (worker_run demo_append demo_file_stem toy_digest 9) s0 s /\
  mainThread (p_queue s) = Returned /\ p_files s <> ∅ /\ p_files s !! bs "all.md5" = None /\
  forall j, p_files s !! demo_tmp j = None.
Proof.
  destruct demo_order_files as (l & Hf & Hl & Hd & Hs). destruct (final_reach _ _ _ Hf) as (s0 & s & H0 & Hr & Hret & Hm).
  exists s0, s. split; [exact H0|]. split; [exact Hr|]. split; [exact Hret|]. split.
  - intros E. rewrite E, map_to_list_empty in Hm. subst l. discriminate Hl.
  - subst l. assert (forall p b, p_files s !! p = Some b -> p ∈ (map_to_list (p_files s)).*1) as Hin.
    { intros p b E. apply list_elem_of_fmap. exists (p, b). split; [done|]. by apply elem_of_map_to_list. }
    rewrite Forall_forall in Hs. split.
    + destruct (p_files s !! bs "all.md5") as [b|] eqn:E; [exfalso; exact (Hd (Hin _ _ E))|reflexivity].
    + intros j. destruct (p_files s !! demo_tmp j) as [b|] eqn:E; [exfalso; exact (Hs _ (Hin _ _ E) eq_refl)|reflexivity].
Qed.

Example demo_twice : all_occurrences toy_digest demo_lists_content demo_conversions (hval (Hash_of_string toy_digest (bs "x"))) = 2.
Proof. vm_compute. reflexivity. Qed.

Definition demo_merge_options (ps : list (list byte)) : MergerCli.Options :=
  MergerCli.MkOptions false false None (Some ps) (bs "all.md5") (bs "tmp") (2 `max` Z.of_nat (length ps)).

Lemma lists_served_witness : exists (s : Program (Q := list OpPtr)) out bytes i w times,
  p_files s = list_to_map (prod_map id phc_file <$> out) ∪ ∅ /\ out <> [] /\
  merger_ends (Q := list OpPtr) (QM := list MergerInput) 2 demo_lists demo_tmp (demo_merge_options out.*1) (p_files s)
    (<[bs "all.md5" := bytes]> (p_files s)) /\
  PasswordInspector (Some (FileEntry bytes true)) = Some i /\
  Server.run split_on demo_write_json demo_replace_all
    [EAccepted true 0; ERead (Some (lookup_request (bs "/api") (Hash_of_string toy_digest (bs "x")))) [] (Some (bs "now")) (bs "0.01")]
    (Server.start 0 (HttpWorker (bs "/api") i true 0)) = Some (Ok w) /\
  mResponse w = Some (found (Hash_of_string toy_digest (bs "x")) times (bs "0.01")) /\ 2 <= times <= 6.
Proof.
  destruct demo_ended as (s0 & s & H0 & Hr & Hret & Hne & Hd & Htmp).
  destruct (lists_served demo_append demo_file_stem toy_digest 9 demo_append_law (Q := list OpPtr) (QM := list MergerInput) 2 ltac:(lia) ltac:(lia)
    demo_lists demo_program_options demo_lists_content ∅ demo_conversions eq_refl demo_conversions_ok
    ltac:(apply (bool_decide_unpack _); vm_compute; exact I) ltac:(apply (bool_decide_unpack _); vm_compute; exact I)
    demo_stems_plain ltac:(intros; apply lookup_empty) (fun _ => true) (fun _ => true) "y"%byte demo_tmp demo_tmp_inj
    split_on split_on_law demo_write_json demo_write_json_law demo_replace_all demo_replace_law (bs "/api") ltac:(by repeat constructor)
    s0 s H0 Hr Hret) as (out & Hfiles & Hmerge).
  assert (out <> []) as Hout by (intros ->; apply Hne; rewrite Hfiles; reflexivity).
  destruct (Hmerge (demo_merge_options out.*1)) as (bytes & Hmain & Hserve); [|exact Hout|].
  { split; [split; [reflexivity|reflexivity|right; eexists; reflexivity|discriminate|reflexivity|discriminate]|reflexivity|reflexivity| | |].
    2: { cbn [MergerCli.maxFilesAtOnce demo_merge_options]. lia. }
    2: { intros j. split; [discriminate|exact (Htmp j)]. }
    rewrite Hfiles, map_union_empty in Hd.
    apply not_elem_of_list_to_map_2 in Hd. intros Hin. apply Hd. apply list_elem_of_fmap in Hin as (e & He & Hin).
    apply list_elem_of_fmap. exists (prod_map id phc_file e). split; [exact He|]. apply list_elem_of_fmap. by exists e. }
  destruct (Hserve (Hash_of_string toy_digest (bs "x")) 0 0 (bs "now") (bs "0.01")) as (i & w & times & Hi & Hw & Hres & Ht & _).
  - apply Hash_of_string_wf.
  - rewrite demo_twice. reflexivity.
  - rewrite demo_twice in Ht. exists s, out, bytes, i, w, times.
    split; [exact Hfiles|]. split; [exact Hout|]. split; [exact Hmain|]. split; [exact Hi|]. split; [exact Hw|].
    split; [exact Hres|exact Ht].
Defined.
