(* ===== verification/Extractor.v ===== *)
(** * extras/pwned-password-extractor: the passwords of the text files of a directory

    Every [.txt] file below the source directory that is not listed in [.ready] is read with a
    [UserPasswordReader]; its passwords go to the output, a line each, and its name to
    [.ready].  libbz2 is not part of the repository: a compressor is a parameter. *)

From S2P Require Import Prelude Stream Util Hash Regex UserPasswordReader Tools.
From stdpp Require Import options.

(** ** libbz2 *)

(** [BZ2_bzWriteOpen], [BZ2_bzWrite] and [BZ2_bzWriteClose], which leaves the bytes of the file;
    [None] when [bzError] is not [BZ_OK]. *)
Record Bz2 := MkBz2 {
  BZFILE : Type;
  bzWriteOpen : option BZFILE;
  bzWrite : BZFILE -> list byte -> option BZFILE;
  bzWriteClose : BZFILE -> option (list byte) }.

(** What is written piece by piece is what is read back. *)
Definition bz_law (bz : Bz2) (decompress : list byte -> list byte) : Prop :=
  exists content : BZFILE bz -> list byte,
    (forall s, bzWriteOpen bz = Some s -> content s = []) /\
    (forall s l s', bzWrite bz s l = Some s' -> content s' = content s ++ l) /\
    (forall s out, bzWriteClose bz s = Some out -> decompress out = content s).

Record Options := MkOptions {
  help : bool; opt_warranty : bool; opt_license : bool;
  srcDirectory : list byte; outputFilename : list byte; compress : bool; ignoreReady : bool }.

Inductive Exit :=
  | Usage | Warranty | License
  | NotOverwritten | NoFiles | NoOutput | NoCompressor
  | WriteError | CloseError
  | Done (out : list byte) (ready : option (list byte)).   (** the output, and [.ready] afterwards *)

Section extractor.
Context (bz : Bz2).

(** What the output goes to. *)
Inductive Sink := Plain (out : list byte) | Compressed (s : BZFILE bz).

Definition put (sink : Sink) (pwd : list byte) : option Sink :=
  match sink with
  | Plain out => Some (Plain (out ++ pwd))
  | Compressed s => Compressed <$> bzWrite bz s pwd
  end.

Definition finish (sink : Sink) : option (list byte) :=
  match sink with Plain out => Some out | Compressed s => bzWriteClose bz s end.

(** [while (!reader.eof())]; [None]: an error of the compressor. *)
Fixpoint extract_loop (fuel : nat) (reader : UserPasswordReader) (sink : Sink) : outcome (option Sink) :=
  match fuel with
  | O => OutOfFuel
  | S fuel =>
      if reader_eof reader then Ok (Some sink)
      else
        let '(pwd, reader) := nextPassword reader in
        let pwd := pwd ++ [x0a] in
        if decide (pwd = []) then extract_loop fuel reader sink
        else
          match put sink pwd with
          | None => Ok None
          | Some sink => extract_loop fuel reader sink
          end
  end.

(** [while (!readyFileIn.eof())]: the names of the map [alreadyProcessed]. *)
Fixpoint ready_loop (fuel : nat) (f : istream) (alreadyProcessed : gset (list byte)) : outcome (gset (list byte)) :=
  match fuel with
  | O => OutOfFuel
  | S fuel =>
      if eof f then Ok alreadyProcessed
      else let '(filename, f) := getline f [] in ready_loop fuel f ({[filename]} ∪ alreadyProcessed)
  end.

(** The loop over the input files: the output and what is added to [.ready]. *)
Fixpoint files_loop (fuel : nat) (files : list byte -> option file_entry) (alreadyProcessed : gset (list byte))
    (inputFilenames : list (list byte)) (sink : Sink) : outcome (option (Sink * list byte)) :=
  match inputFilenames with
  | [] => Ok (Some (sink, []))
  | inputFilename :: inputFilenames =>
      if decide (inputFilename ∈ alreadyProcessed) then files_loop fuel files alreadyProcessed inputFilenames sink
      else
        let '(is_open, inFile) := match files inputFilename with Some e => fopen e | None => (false, unopened) end in
        if negb is_open then files_loop fuel files alreadyProcessed inputFilenames sink
        else
          r ← extract_loop fuel (new_reader inFile [autoEvaluateHexEncodedPasswords]) sink;
          match r with
          | None => Ok None
          | Some sink =>
              r ← files_loop fuel files alreadyProcessed inputFilenames sink;
              Ok (match r with Some (sink, ready) => Some (sink, inputFilename ++ x0a :: ready) | None => None end)
          end
  end.

(** The scan of the source directory. *)
Definition scan (tree : list (list byte * bool)) : list (list byte) :=
  fst <$> filter (fun f => snd f && MergerCli.ends_with (fst f) (bs ".txt") = true) tree.

(** [main] after the options are parsed.  [tree] is what is below a directory and whether it is
    a regular file ([None]: the iterator throws), [answer] what [std::cin >> c] reads, [ready]
    the bytes of [.ready], which may or may not be writable. *)
Definition extractor_main (fuel : nat) (tree : list byte -> option (list (list byte * bool)))
    (exists_ writable : list byte -> bool) (files : list byte -> option file_entry) (answer : option byte)
    (ready : option (list byte)) (ready_writable : bool) (o : Options) : outcome Exit :=
  if help o then Ok Usage
  else if opt_warranty o then Ok Warranty
  else if opt_license o then Ok License
  else if decide (srcDirectory o = [] \/ outputFilename o = []) then Ok Usage
  else
    overwrite ← (if exists_ (outputFilename o) then
                   match answer with None => Undefined | Some c => Ok (bool_decide (c = "y"%byte)) end
                 else Ok true);
    if negb overwrite then Ok NotOverwritten
    else
      match tree (srcDirectory o) with
      | None => Throws (bs "recursive_directory_iterator")
      | Some entries =>
          let inputFilenames := scan entries in
          if decide (inputFilenames = []) then Ok NoFiles
          else if negb (writable (outputFilename o)) then Ok NoOutput
          else
            match (if compress o then Compressed <$> bzWriteOpen bz else Some (Plain [])) with
            | None => Ok NoCompressor
            | Some sink =>
                alreadyProcessed ←
                  (if ignoreReady o then Ok ∅
                   else match ready with Some text => ready_loop fuel (open_stream text) ∅ | None => Ok ∅ end);
                r ← files_loop fuel files alreadyProcessed inputFilenames sink;
                match r with
                | None => Ok WriteError
                | Some (sink, added) =>
                    match finish sink with
                    | None => Ok CloseError
                    | Some out =>
                        Ok (Done out
                          (if ready_writable then Some ((if ignoreReady o then [] else default [] ready) ++ added) else ready))
                    end
                end
            end
      end.
End extractor.

(** ** What should be written *)

Definition line_of_password (pwd : list byte) : list byte := pwd ++ [x0a].

(** The output for a file with this text. *)
Definition extracted (text : list byte) : list byte :=
  let sep := guessedSeparator (new_reader (open_stream text) [autoEvaluateHexEncodedPasswords]) in
  concat (line_of_password <$> (line_password sep <$> lines text)).

(** The text of a file that can be read. *)
Definition text_of (files : list byte -> option file_entry) (name : list byte) : option (list byte) :=
  match files name with Some e => if freadable e then Some (fbytes e) else None | None => None end.

(** The files the run reads. *)
Definition to_read (files : list byte -> option file_entry) (processed : gset (list byte)) (names : list (list byte))
    : list (list byte) :=
  filter (fun n => n ∉ processed /\ is_Some (text_of files n)) names.

(** The names a [.ready] file lists. *)
Definition ready_names (ready : option (list byte)) : gset (list byte) :=
  match ready with Some text => list_to_set (lines text) | None => ∅ end.

(** Options that lead to the extraction. *)
Definition extracts (exists_ writable : list byte -> bool) (answer : option byte) (o : Options) : Prop :=
  help o = false /\ opt_warranty o = false /\ opt_license o = false /\ srcDirectory o <> [] /\ outputFilename o <> [] /\
  (exists_ (outputFilename o) = true -> answer = Some "y"%byte) /\ writable (outputFilename o) = true.

(** ** Lemmas: the loops *)

Lemma ready_loop_lines ls fuel f acc :
  has_lines f ls -> (length ls < fuel)%nat -> ready_loop fuel f acc = Ok (list_to_set ls ∪ acc).
Proof.
  revert fuel f acc. induction ls as [|l ls IH]; intros fuel f acc Hf Hfuel; (destruct fuel as [|fuel]; [simpl in Hfuel; lia|]);
    cbn [ready_loop]; rewrite (has_lines_eof _ _ Hf).
  { rewrite bool_decide_true by done. f_equal. set_solver. }
  rewrite bool_decide_false by done. destruct (getline_lines f l ls [] Hf) as (f' & -> & Hf' & _).
  rewrite IH by (done || simpl in Hfuel; lia). f_equal. set_solver.
Qed.

Section loops.
Context (bz : Bz2).

(** What a sink holds, given what the compressor holds. *)
Definition holds (content : BZFILE bz -> list byte) (sink : Sink bz) : list byte :=
  match sink with Plain _ out => out | Compressed _ s => content s end.

Context (content : BZFILE bz -> list byte).
Context (write_ok : forall s l s', bzWrite bz s l = Some s' -> content s' = content s ++ l).

(** Whether a sink is a plain file; writing to one cannot fail. *)
Definition is_plain (sink : Sink bz) : bool := match sink with Plain _ _ => true | Compressed _ _ => false end.

Lemma put_holds sink pwd :
  match put bz sink pwd with
  | Some sink' => holds content sink' = holds content sink ++ pwd /\ is_plain sink' = is_plain sink
  | None => is_plain sink = false
  end.
Proof using write_ok.
  destruct sink as [out|s]; cbn [put]; [done|]. destruct (bzWrite bz s pwd) as [s'|] eqn:Hw; [|done].
  split; [by apply write_ok|done].
Qed.

(** The loop over a file: it ends, with the passwords of all lines or a failed compressor. *)
Lemma extract_loop_lines ls fuel r sink :
  has_lines (input r) ls -> (length ls < fuel)%nat ->
  exists res, extract_loop bz fuel r sink = Ok res /\
    match res with
    | Some sink' =>
        holds content sink' =
          holds content sink ++ concat (line_of_password <$> (line_password (guessedSeparator r) <$> ls)) /\
        is_plain sink' = is_plain sink
    | None => is_plain sink = false
    end.
Proof using write_ok.
  revert fuel r sink. induction ls as [|l ls IH]; intros fuel r sink Hl Hfuel;
    (destruct fuel as [|fuel]; [simpl in Hfuel; lia|]); cbn [extract_loop];
    unfold reader_eof; rewrite (has_lines_eof _ _ Hl).
  { rewrite bool_decide_true by done. exists (Some sink). split; [done|]. by rewrite app_nil_r. }
  rewrite bool_decide_false by done. destruct (nextPassword_line r l ls Hl) as (r' & -> & Hl' & (Hs & _) & _).
  cbv iota zeta. rewrite decide_False by (intros []%app_nil; done).
  pose proof (put_holds sink (line_password (guessedSeparator r) l ++ [x0a])) as Hput.
  destruct (put bz sink _) as [sink1|]; [|by exists None]. destruct Hput as [Hput Hkind].
  destruct (IH fuel r' sink1 Hl') as (res & -> & Hres); [simpl in Hfuel; lia|]. exists res. split; [done|].
  destruct res as [sink'|]; [|by rewrite <- Hkind]. destruct Hres as [-> ->]. split; [|done].
  rewrite Hput, Hs, !fmap_cons. cbn [concat]. by rewrite <- app_assoc.
Qed.

Lemma open_text files n :
  (match files n with Some e => fopen e | None => (false, unopened) end) =
  match text_of files n with Some t => (true, open_stream t) | None => (false, unopened) end.
Proof. unfold text_of. by destruct (files n) as [[? []]|]. Qed.

(** All names, in their order. *)
Lemma files_loop_spec fuel files processed names sink :
  Forall (fun n => forall t, text_of files n = Some t -> (length (lines t) < fuel)%nat) names ->
  exists res, files_loop bz fuel files processed names sink = Ok res /\
    match res with
    | Some (sink', ready) =>
        holds content sink' = holds content sink ++
          concat ((fun n => extracted (default [] (text_of files n))) <$> to_read files processed names) /\
        ready = concat (line_of_password <$> to_read files processed names) /\
        is_plain sink' = is_plain sink
    | None => is_plain sink = false
    end.
Proof using write_ok.
  intros Hn. revert sink. induction Hn as [|n names Hfuel Hn IH]; intros sink; cbn [files_loop].
  { eexists. split; [done|]. split; [|done]. cbn. by rewrite app_nil_r. }
  unfold to_read. rewrite filter_cons. destruct (decide (n ∈ processed)) as [Hin|Hin].
  { rewrite decide_False by tauto. apply IH. }
  rewrite open_text. destruct (text_of files n) as [text|] eqn:Htext; cbn [negb].
  2: { rewrite decide_False by (intros [_ []%is_Some_None]). apply IH. }
  rewrite decide_True by (split; by eauto).
  assert (has_lines (input (new_reader (open_stream text) [autoEvaluateHexEncodedPasswords])) (lines text)) as Hlines.
  { rewrite new_reader_input by done. apply open_stream_lines. }
  destruct (extract_loop_lines (lines text) fuel _ sink Hlines (Hfuel _ eq_refl)) as ([sink1|] & -> & Hres);
    cbn [mbind outcome_bind]; [|by exists None].
  destruct Hres as [Hres Hkind]. destruct (IH sink1) as (res & -> & Hres'). cbn [mbind outcome_bind]. eexists. split; [done|].
  destruct res as [[sink2 ready2]|]; [|by rewrite <- Hkind]. destruct Hres' as (-> & -> & ->). rewrite !fmap_cons. cbn [concat].
  split_and!; [|by unfold line_of_password at 2; rewrite <- app_assoc|done].
  by rewrite Hres, <- app_assoc, Htext.
Qed.
End loops.

(** ** Lemmas: one run *)

(** The names a run takes as processed. *)
Definition skipped (o : Options) (ready : option (list byte)) : gset (list byte) :=
  if ignoreReady o then ∅ else ready_names ready.

(** The lines of every text the run reads fit the fuel. *)
Definition fuel_enough (fuel : nat) (files : list byte -> option file_entry) (ready : option (list byte))
    (names : list (list byte)) : Prop :=
  (length (lines (default [] ready)) < fuel)%nat /\
  Forall (fun n => forall t, text_of files n = Some t -> (length (lines t) < fuel)%nat) names.

(** What a run leaves: the passwords of the files to read and their names, unless the
    compressor fails. *)
Definition run_result (decompress : list byte -> list byte) (files : list byte -> option file_entry)
    (ready : option (list byte)) (o : Options) (names : list (list byte)) (res : Exit) : Prop :=
  match res with
  | Done out ready' =>
      (if compress o then decompress out else out) =
        concat ((fun n => extracted (default [] (text_of files n))) <$> to_read files (skipped o ready) names) /\
      ready' = Some ((if ignoreReady o then [] else default [] ready) ++
        concat (line_of_password <$> to_read files (skipped o ready) names))
  | NoCompressor | WriteError | CloseError => compress o = true
  | _ => False
  end.

Section run.
Context (bz : Bz2) (decompress : list byte -> list byte) (bz_ok : bz_law bz decompress).

Lemma extractor_run fuel tree exists_ writable files answer ready o entries :
  extracts exists_ writable answer o -> tree (srcDirectory o) = Some entries -> scan entries <> [] ->
  fuel_enough fuel files ready (scan entries) ->
  exists res, extractor_main bz fuel tree exists_ writable files answer ready true o = Ok res /\
    run_result decompress files ready o (scan entries) res.
Proof using bz_ok.
  intros (Hh & Hw & Hl & Hs & Hout & Hans & Hwr) Htree Hne [Hfr Hfn]. unfold extractor_main.
  rewrite Hh, Hw, Hl, decide_False by tauto.
  assert ((if exists_ (outputFilename o) then
             match answer with None => Undefined | Some c => Ok (bool_decide (c = "y"%byte)) end
           else Ok true) = Ok true) as ->.
  { destruct (exists_ (outputFilename o)) eqn:E; [|done]. by rewrite (Hans eq_refl). }
  cbn [mbind outcome_bind negb]. rewrite Htree, decide_False, Hwr by done. cbn [negb].
  destruct bz_ok as (content & Hopen & Hwrite & Hclose).
  assert (match (if compress o then Compressed bz <$> bzWriteOpen bz else Some (Plain bz [])) with
          | None => compress o = true
          | Some sink => holds bz content sink = [] /\ is_plain bz sink = negb (compress o)
          end) as Hsink.
  { destruct (compress o); [|done]. destruct (bzWriteOpen bz) as [s|] eqn:E; cbn; eauto. }
  destruct (if compress o then _ else _) as [sink|]; [|by eexists].
  destruct Hsink as [Hempty Hkind].
  assert ((if ignoreReady o then Ok ∅
           else match ready with Some text => ready_loop fuel (open_stream text) ∅ | None => Ok ∅ end) =
    Ok (skipped o ready)) as ->.
  { unfold skipped. destruct (ignoreReady o); [done|]. destruct ready as [text|]; [|done].
    rewrite (ready_loop_lines (lines text)) by (apply open_stream_lines || done). cbn. f_equal. set_solver. }
  cbn [mbind outcome_bind].
  destruct (files_loop_spec bz content Hwrite fuel files (skipped o ready) (scan entries) sink Hfn)
    as ([[sink' added]|] & -> & Hres); cbn [mbind outcome_bind].
  2: { eexists. split; [done|]. cbn. rewrite Hkind in Hres. by destruct (compress o). }
  destruct Hres as (Hh' & -> & Hk). rewrite Hempty in Hh'. cbn [app] in Hh'. rewrite Hkind in Hk.
  destruct sink' as [out|s']; cbn [finish holds is_plain] in *; symmetry in Hk.
  - eexists. split; [done|]. cbn. apply negb_true_iff in Hk as ->. done.
  - apply negb_false_iff in Hk. destruct (bzWriteClose bz s') as [out|] eqn:Hc; (eexists; split; [done|]); cbn; [|done].
    rewrite Hk, (Hclose _ _ Hc). done.
Qed.
End run.

(** ** Lemmas: the names of [.ready] *)

Lemma lines_ready ns : Forall (fun n => x0a ∉ n) ns -> lines (concat (line_of_password <$> ns)) = ns ++ [[]].
Proof.
  induction 1 as [|n ns Hn _ IH]; [done|]. rewrite fmap_cons. cbn [concat]. unfold line_of_password at 1.
  rewrite <- app_assoc. cbn [app]. by rewrite lines_app, IH.
Qed.

Lemma to_read_skipped files P names ns :
  (forall n, n ∈ to_read files P names -> n ∈ ns) -> (forall n, n ∈ P -> n ∈ names -> n ∈ ns) ->
  to_read files (list_to_set ns) names = [].
Proof.
  intros Hr Hp. unfold to_read in *. apply filter_none, Forall_forall. intros n Hn [Hin Ht]. apply Hin, elem_of_list_to_set.
  destruct (decide (n ∈ P)) as [HP|HP]; [by apply Hp|]. apply Hr. by apply list_elem_of_filter.
Qed.

(** ** Properties *)

(** C24: the extractor writes the password of every line of every text file that can be read and
    is not listed in [.ready], a line each, in the order of the scan, compressed or not, and
    adds the names of these files to [.ready]; only the compressor can stop it.  Running it
    again extracts nothing and leaves [.ready] as it is. *)
Theorem extractor_resumes bz decompress fuel tree exists_ writable files answer listed o entries :
  bz_law bz decompress -> extracts exists_ writable answer o -> answer = Some "y"%byte ->
  tree (srcDirectory o) = Some entries -> scan entries <> [] ->
  Forall (fun n => x0a ∉ n) (scan entries) -> Forall (fun n => x0a ∉ n) listed -> ignoreReady o = false ->
  (S (length listed + length (scan entries)) < fuel)%nat ->
  fuel_enough fuel files (Some (concat (line_of_password <$> listed))) (scan entries) ->
  let ready := Some (concat (line_of_password <$> listed)) in
  let run ready := extractor_main bz fuel tree exists_ writable files answer ready true o in
  exists res, run ready = Ok res /\ run_result decompress files ready o (scan entries) res /\
    match res with
    | Done out ready' =>
        exists res', run ready' = Ok res' /\
          match res' with
          | Done out' ready'' => (if compress o then decompress out' else out') = [] /\ ready'' = ready'
          | _ => compress o = true
          end
    | _ => True
    end.
Proof.
  intros Hbz Ho Hans Htree Hne Hnl Hll Hign Hfuel Hfe ready run.
  destruct (extractor_run bz decompress Hbz fuel tree exists_ writable files answer ready o entries Ho Htree Hne Hfe)
    as (res & Hres & Hrr). exists res. split; [done|]. split; [done|]. destruct res; try done.
  destruct Hrr as [_ ->]. rewrite Hign. set (read := to_read files (skipped o ready) (scan entries)).
  assert (Forall (fun n => x0a ∉ n) read) as Hread.
  { apply Forall_forall. intros n (_ & Hn)%list_elem_of_filter. rewrite Forall_forall in Hnl. by apply Hnl. }
  set (ready' := Some (_ ++ _)).
  assert (ready' = Some (concat (line_of_password <$> listed ++ read))) as Hready'.
  { unfold ready', ready. by rewrite fmap_app, concat_app. }
  assert (to_read files (skipped o ready') (scan entries) = []) as Hnothing.
  { unfold skipped. rewrite Hign, Hready'. cbn [ready_names]. rewrite lines_ready by (by apply Forall_app).
    apply (to_read_skipped files (skipped o ready)).
    - intros n Hn. fold read in Hn. set_solver.
    - intros n HP Hn. unfold skipped in HP. rewrite Hign in HP. cbn [ready ready_names] in HP.
      rewrite lines_ready, elem_of_list_to_set in HP by done. set_solver. }
  destruct (extractor_run bz decompress Hbz fuel tree exists_ writable files answer ready' o entries Ho Htree Hne)
    as (res' & Hres' & Hrr').
  { destruct Hfe as [_ Hfn]. split; [|done]. rewrite Hready'. cbn [default from_option id].
    rewrite lines_ready by (by apply Forall_app). rewrite !length_app. cbn [length].
    pose proof (length_filter (fun n => n ∉ skipped o ready /\ is_Some (text_of files n)) (scan entries)) as Hl.
    unfold read, to_read. lia. }
  exists res'. split; [done|]. destruct res'; try done. cbn in Hrr'. rewrite Hnothing, Hign in Hrr'.
  destruct Hrr' as [Hout Hr]. split; [done|]. rewrite Hr. unfold ready'. cbn. by rewrite app_nil_r.
Qed.

(** A compressor that stores. *)
Definition demo_bz : Bz2 := MkBz2 (list byte) (Some []) (fun s l => Some (s ++ l)) (fun s => Some s).
Lemma demo_bz_law : bz_law demo_bz (fun l => l).
Proof. exists (fun s => s). split_and!; [by intros s [= <-]|by intros s l s' [= <-]|by intros s out [= <-]]. Qed.

Definition demo_tree (dir : list byte) : option (list (list byte * bool)) :=
  Some [(bs "d/a.txt", true); (bs "d/b.csv", true); (bs "d/c.txt", true); (bs "d/e.txt", false)].
Definition demo_texts (n : list byte) : option file_entry :=
  if decide (n = bs "d/a.txt") then Some (FileEntry (bs "alice:secret" ++ x0a :: bs "bob:pass:word") true)
  else if decide (n = bs "d/c.txt") then Some (FileEntry (bs "letmein") true) else None.
Definition demo_extractor_options (compress : bool) : Options :=
  MkOptions false false false (bs "d") (bs "out") compress false.

Lemma extractor_resumes_witness :
  let ready := Some (concat (line_of_password <$> [bs "d/c.txt"])) in
  let run ready := extractor_main demo_bz 8 demo_tree (fun _ => true) (fun _ => true) demo_texts (Some "y"%byte) ready true
    (demo_extractor_options true) in
  exists res, run ready = Ok res /\
    run_result (fun l => l) demo_texts ready (demo_extractor_options true) (scan (default [] (demo_tree (bs "d")))) res /\
    match res with
    | Done out ready' =>
        exists res', run ready' = Ok res' /\
          match res' with Done out' ready'' => out' = [] /\ ready'' = ready' | _ => true = true end
    | _ => True
    end.
Proof.
  apply (extractor_resumes demo_bz (fun l => l) 8 demo_tree (fun _ => true) (fun _ => true) demo_texts (Some "y"%byte)
    [bs "d/c.txt"] (demo_extractor_options true) (default [] (demo_tree (bs "d")))).
  - apply demo_bz_law.
  - split_and!; try reflexivity; discriminate.
  - reflexivity.
  - reflexivity.
  - discriminate.
  - apply (bool_decide_unpack _). vm_compute. exact I.
  - apply (bool_decide_unpack _). vm_compute. exact I.
  - reflexivity.
  - vm_compute. lia.
  - split; [vm_compute; lia|].
    assert (scan (default [] (demo_tree (bs "d"))) = [bs "d/a.txt"; bs "d/c.txt"]) as -> by (vm_compute; reflexivity).
    rewrite !Forall_cons, Forall_nil. split_and!; [| |done]; intros t [= <-]; vm_compute; lia.
Defined.

(** The test whether a line is empty is made after the newline is added, so a line without a
    password, such as the one after the last newline, gives an empty one. *)
Example demo_extracted :
  extracted (bs "alice:secret" ++ x0a :: bs "bob:pass:word" ++ [x0a]) =
    bs "secret" ++ x0a :: bs "pass:word" ++ [x0a; x0a].
Proof. vm_compute. reflexivity. Qed.
