(* ===== verification/Markov.v ===== *)
(** * pwned-lib/markovnode.hpp, markovchain.hpp: the Markov chain of passwords

    The chain counts first symbols and successors while it is trained, turns the counts into
    probabilities, and is saved to and loaded from a binary file.  Symbols are [wchar_t]
    (32 bits), probabilities are [double]s, represented by their 64 bits.  The containers of
    the code are unordered: the order they are iterated in is a parameter. *)

From Stdlib Require Import Floats.SpecFloat.
From S2P Require Import Prelude Stream Util.
From stdpp Require Import options.

(** ** [double]: IEEE binary64 *)

Abbreviation f64 := Z (only parsing).

Definition f64_val (z : f64) : spec_float :=
  let s := Z.testbit z 63 in
  let e := Z.shiftr z 52 mod 2 ^ 11 in
  let m := z mod 2 ^ 52 in
  if e =? 0 then match m with Zpos p => S754_finite s p (-1074) | _ => S754_zero s end
  else if e =? 2047 then if m =? 0 then S754_infinity s else S754_nan
  else match 2 ^ 52 + m with Zpos p => S754_finite s p (e - 1075) | _ => S754_nan end.

Definition f64_bits (x : spec_float) : f64 :=
  let sign (s : bool) := if s then 2 ^ 63 else 0 in
  u64 match x with
  | S754_zero s => sign s
  | S754_infinity s => sign s + 2047 * 2 ^ 52
  | S754_nan => 2047 * 2 ^ 52 + 2 ^ 51
  | S754_finite s m e =>
      if Zpos m <? 2 ^ 52 then sign s + Zpos m
      else sign s + (e + 1075) * 2 ^ 52 + (Zpos m - 2 ^ 52)
  end.

Definition f64_of_Z (z : Z) : f64 := f64_bits (binary_normalize 53 1024 z 0 false).
Definition f64_add (a b : f64) : f64 := f64_bits (SFadd 53 1024 (f64_val a) (f64_val b)).
Definition f64_mul (a b : f64) : f64 := f64_bits (SFmul 53 1024 (f64_val a) (f64_val b)).
Definition f64_div (a b : f64) : f64 := f64_bits (SFdiv 53 1024 (f64_val a) (f64_val b)).
Definition f64_ltb (a b : f64) : bool := SFltb (f64_val a) (f64_val b).

Example f64_half : f64_div (f64_of_Z 1) (f64_of_Z 2) = 0x3fe0000000000000.
Proof. vm_compute. reflexivity. Qed.

(** ** [Node] *)

Record Node := MkNode {
  mProbs : gmap Z f64;
  mCounts : gmap Z Z;
  mSortedProbs : list (Z * f64) }.

Definition Node_default : Node := MkNode ∅ ∅ [].

(** [std::unordered_map::at]: throws [std::out_of_range]. *)
Definition at_ {V} (m : gmap Z V) (c : Z) : outcome V :=
  match m !! c with Some v => Ok v | None => Throws (bs "out_of_range") end.

Definition probability (n : Node) (c : Z) : outcome f64 := at_ (mProbs n) c.
Definition node_count (n : Node) (c : Z) : outcome Z := at_ (mCounts n) c.
(** [++mCounts[c]] *)
Definition bump (m : gmap Z Z) (c : Z) : gmap Z Z := <[c := u64 (default 0 (m !! c) + 1)]> m.
Definition increment (n : Node) (c : Z) : Node := MkNode (mProbs n) (bump (mCounts n) c) (mSortedProbs n).
Definition addSuccessor (n : Node) (c : Z) (p : f64) : Node :=
  MkNode (<[c := p]> (mProbs n)) (mCounts n) (mSortedProbs n).
Definition node_size (n : Node) : nat := size (mCounts n).
Definition node_clear (n : Node) : Node := MkNode ∅ (mCounts n) [].

(** [probLess] *)
Definition probLess (a b : Z * f64) : bool := f64_ltb (snd a) (snd b).

(** The loop of [randomSuccessor] and [randomFirstSymbol], for the random number [p]. *)
Fixpoint random_loop (p acc : f64) (l : list (Z * f64)) : Z :=
  match l with
  | [] => 0
  | (c, q) :: l =>
      let acc := f64_add acc q in
      if f64_ltb acc p then c else random_loop p acc l
  end.

Definition randomSuccessor (p : f64) (n : Node) : Z := random_loop p 0 (mSortedProbs n).

Section order.
(** The iteration order of an [std::unordered_map]. *)
Context (order : forall V : Type, gmap Z V -> list (Z * V)).

Definition postprocess (n : Node) : Node :=
  MkNode (mProbs n) (mCounts n) (std_sort probLess (order _ (mProbs n))).

(** [std::accumulate(..., 0U, ...)]: the accumulator has the type of [0U]. *)
Definition sum_counts (m : gmap Z Z) : Z := foldl (fun a e => u32 (u64 (snd e + a))) 0 (order _ m).

(** [mProbs[p.first] = (double)p.second / (double)sum] for every count. *)
Definition to_probs (counts : gmap Z Z) (probs : gmap Z f64) : gmap Z f64 :=
  let sum := sum_counts counts in
  foldl (fun probs e => <[fst e := f64_div (f64_of_Z (snd e)) (f64_of_Z sum)]> probs) probs (order _ counts).

Definition node_update (n : Node) : Node :=
  postprocess (MkNode (to_probs (mCounts n) (mProbs n)) (mCounts n) (mSortedProbs n)).
End order.

(** ** [Chain] *)

Record Chain := MkChain {
  mNodes : gmap Z Node;
  mFirstSymbolCounts : gmap Z Z;
  mFirstSymbolProbs : gmap Z f64;
  mFirstSymbolSortedProbs : list (Z * f64) }.

Definition Chain_default : Chain := MkChain ∅ ∅ ∅ [].

Definition addFirst (ch : Chain) (symbol : Z) : Chain :=
  let counts := mFirstSymbolCounts ch in
  let counts := match counts !! symbol with None => <[symbol := 0]> counts | Some _ => counts end in
  MkChain (mNodes ch) (bump counts symbol) (mFirstSymbolProbs ch) (mFirstSymbolSortedProbs ch).

Definition addPair (ch : Chain) (current successor : Z) : Chain :=
  let nodes := mNodes ch in
  let nodes := match nodes !! current with None => <[current := Node_default]> nodes | Some _ => nodes end in
  let nodes := <[current := increment (default Node_default (nodes !! current)) successor]> nodes in
  MkChain nodes (mFirstSymbolCounts ch) (mFirstSymbolProbs ch) (mFirstSymbolSortedProbs ch).

(** The loop over adjacent symbols. *)
Fixpoint add_pairs (ch : Chain) (s : list Z) : Chain :=
  match s with
  | [] => ch
  | a :: s => match s with [] => ch | b :: _ => add_pairs (addPair ch a b) s end
  end.

(** [bool train(const std::string &pwd)]; [utf_to_utf] is boost's. *)
Definition train (utf_to_utf : list byte -> list Z) (ch : Chain) (pwd : list byte) : bool * Chain :=
  if decide (pwd = []) then (false, ch)
  else
    match utf_to_utf pwd with
    | [] => (false, ch)
    | c :: s => (true, add_pairs (addFirst ch c) (c :: s))
    end.

Definition chain_clear (ch : Chain) : Chain := MkChain (mNodes ch) (mFirstSymbolCounts ch) ∅ [].

Definition randomFirstSymbol (p : f64) (ch : Chain) : Z := random_loop p 0 (mFirstSymbolSortedProbs ch).

(** [totalProbability]: the loop over the symbols after the first. *)
Fixpoint total_loop (nodes : gmap Z Node) (node : option Node) (p : f64) (s : list Z) : outcome f64 :=
  match s with
  | [] => Ok p
  | c :: s =>
      match node with
      | None => Ok 0
      | Some n => q ← probability n c; total_loop nodes (nodes !! c) (f64_mul p q) s
      end
  end.

Definition totalProbability (ch : Chain) (pwd : list Z) : outcome f64 :=
  match pwd with
  | [] => Ok (f64_of_Z (-1))
  | s :: rest =>
      match list_find (fun p => fst p = s) (mFirstSymbolSortedProbs ch) with
      | None => Ok 0
      | Some (_, firstSymbol) =>
          total_loop (mNodes ch) (mNodes ch !! fst firstSymbol) (snd firstSymbol) rest
      end
  end.

(** *** The file format *)

Definition FileHeader : list byte := bs "MRKV".
Definition FileVersion : Z := 2.

(** [write<T>] for [wchar_t], [uint32_t], [double]. *)
Definition write_symbol (c : Z) : list byte := le_split 4 (u32 c).
Definition write_u32 (z : Z) : list byte := le_split 4 (u32 z).
Definition write_prob (p : f64) : list byte := le_split 8 p.
Definition write_pair (e : Z * f64) : list byte := write_symbol (fst e) ++ write_prob (snd e).

Section file.
Context (order : forall V : Type, gmap Z V -> list (Z * V)).

(** [void update()] *)
Definition chain_update (ch : Chain) : Chain :=
  let probs := to_probs order (mFirstSymbolCounts ch) (mFirstSymbolProbs ch) in
  MkChain (node_update order <$> mNodes ch) (mFirstSymbolCounts ch) probs (std_sort probLess (order _ probs)).

Definition save_node (e : Z * Node) : list byte :=
  write_symbol (fst e) ++ write_u32 (Z.of_nat (length (mSortedProbs (snd e)))) ++
  concat (write_pair <$> mSortedProbs (snd e)).

(** [void saveBinary(std::ostream &os)]: the bytes written. *)
Definition saveBinary (ch : Chain) : list byte :=
  if decide (mNodes ch = ∅) then []
  else FileHeader ++ [byte.of_Z FileVersion] ++
    write_u32 (Z.of_nat (length (mFirstSymbolSortedProbs ch))) ++
    concat (write_pair <$> mFirstSymbolSortedProbs ch) ++
    write_u32 (Z.of_nat (length (order _ (mNodes ch)))) ++
    concat (save_node <$> order _ (mNodes ch)).
End file.

Inductive ErrCode :=
  | OK | BAD_HEADER | BAD_HEADER_PREMATURE_EOF | BAD_VERSION | BAD_VERSION_PREMATURE_EOF
  | BAD_SYMBOL_COUNT | BAD_SYMBOL_COUNT_PREMATURE_EOF | BAD_SYMBOL | BAD_SYMBOL_PREMATURE_EOF
  | BAD_PROBABILITY | BAD_PROBABILITY_PREMATURE_EOF | BAD_NODE_COUNT | BAD_NODE_COUNT_PREMATURE_EOF.

#[export] Instance ErrCode_eq_decision : EqDecision ErrCode.
Proof. solve_decision. Defined.

Definition ErrCode_index (ec : ErrCode) : nat :=
  match ec with
  | OK => 0 | BAD_HEADER => 1 | BAD_HEADER_PREMATURE_EOF => 2 | BAD_VERSION => 3
  | BAD_VERSION_PREMATURE_EOF => 4 | BAD_SYMBOL_COUNT => 5 | BAD_SYMBOL_COUNT_PREMATURE_EOF => 6
  | BAD_SYMBOL => 7 | BAD_SYMBOL_PREMATURE_EOF => 8 | BAD_PROBABILITY => 9
  | BAD_PROBABILITY_PREMATURE_EOF => 10 | BAD_NODE_COUNT => 11 | BAD_NODE_COUNT_PREMATURE_EOF => 12
  end%nat.

(** The last two literals are adjacent in the source: the compiler joins them. *)
Definition mErrStrings : list (list byte) :=
  [bs "OK"; bs "BAD_HEADER"; bs "BAD_HEADER_PREMATURE_EOF"; bs "BAD_VERSION"; bs "BAD_VERSION_PREMATURE_EOF";
   bs "BAD_SYMBOL_COUNT"; bs "BAD_SYMBOL_COUNT_PREMATURE_EOF"; bs "BAD_SYMBOL"; bs "BAD_SYMBOL_PREMATURE_EOF";
   bs "BAD_PROBABILITY"; bs "BAD_PROBABILITY_PREMATURE_EOF"; bs "BAD_NODE_COUNT" ++ bs "BAD_NODE_COUNT_PREMATURE_EOF"].

(** [mErrStrings.at(ec)] *)
Definition errString (ec : ErrCode) : outcome (list byte) :=
  match mErrStrings !! ErrCode_index ec with Some s => Ok s | None => Throws (bs "out_of_range") end.

(** [read<T>] of [n] bytes; a short read leaves the value unspecified, and end of file set. *)
Definition read_value (n : nat) (f : istream) : Z * istream :=
  let '(got, f) := read f n in (le_combine got, f).
(** The value of a [wchar_t]. *)
Definition symbol_of (z : Z) : Z := (z + 2 ^ 31) mod 2 ^ 32 - 2 ^ 31.

(** A list of [n] symbols with probabilities. *)
Fixpoint load_pairs (n : nat) (f : istream) (acc : list (Z * f64)) : ErrCode * list (Z * f64) * istream :=
  match n with
  | O => (OK, acc, f)
  | S n =>
      let '(c, f) := read_value 4 f in
      if eof f then (BAD_SYMBOL_PREMATURE_EOF, acc, f)
      else
        let '(p, f) := read_value 8 f in
        if eof f then (BAD_PROBABILITY_PREMATURE_EOF, acc, f)
        else load_pairs n f (acc ++ [(symbol_of c, p)])
  end.

Fixpoint load_nodes (n : nat) (f : istream) (nodes : gmap Z Node) : ErrCode * gmap Z Node * istream :=
  match n with
  | O => (OK, nodes, f)
  | S n =>
      let '(c, f) := read_value 4 f in
      if eof f then (BAD_SYMBOL_PREMATURE_EOF, nodes, f)
      else
        let c := symbol_of c in
        match nodes !! c with
        | Some _ => (BAD_SYMBOL, nodes, f)
        | None =>
            let '(nodeCount, f) := read_value 4 f in
            if eof f then (BAD_NODE_COUNT_PREMATURE_EOF, <[c := Node_default]> nodes, f)
            else
              let '(ec, l, f) := load_pairs (Z.to_nat nodeCount) f [] in
              let nodes := <[c := foldl (fun n e => addSuccessor n (fst e) (snd e)) Node_default l]> nodes in
              if decide (ec = OK) then load_nodes n f nodes else (ec, nodes, f)
        end
  end.

Section load.
Context (order : forall V : Type, gmap Z V -> list (Z * V)).

(** [ErrCode loadBinary(std::istream &is, bool doClear)] *)
Definition loadBinary (doClear : bool) (ch : Chain) (f : istream) : ErrCode * Chain :=
  let ch := if doClear then Chain_default else ch in
  let with_first l := MkChain (mNodes ch) (mFirstSymbolCounts ch) (mFirstSymbolProbs ch)
    (mFirstSymbolSortedProbs ch ++ l) in
  let finish (ch : Chain) := (OK, MkChain (postprocess order <$> mNodes ch) (mFirstSymbolCounts ch)
    (mFirstSymbolProbs ch) (mFirstSymbolSortedProbs ch)) in
  if good f && negb (eof f) then
    let '(hdr, f) := read f 4 in
    if eof f then (BAD_HEADER_PREMATURE_EOF, ch)
    else if negb (bool_decide (hdr = FileHeader)) then (BAD_HEADER, ch)
    else
      let '(version, f) := read_value 1 f in
      if eof f then (BAD_VERSION_PREMATURE_EOF, ch)
      else if negb (version =? FileVersion) then (BAD_VERSION, ch)
      else
        let '(firstSymbolCount, f) := read_value 4 f in
        if eof f then (BAD_SYMBOL_COUNT_PREMATURE_EOF, ch)
        else
          let '(ec, l, f) := load_pairs (Z.to_nat firstSymbolCount) f [] in
          let ch := with_first l in
          if negb (bool_decide (ec = OK)) then (ec, ch)
          else
            let '(symbolCount, f) := read_value 4 f in
            if eof f then (BAD_SYMBOL_COUNT_PREMATURE_EOF, ch)
            else
              let '(ec, nodes, f) := load_nodes (Z.to_nat symbolCount) f (mNodes ch) in
              let ch := MkChain nodes (mFirstSymbolCounts ch) (mFirstSymbolProbs ch) (mFirstSymbolSortedProbs ch) in
              if negb (bool_decide (ec = OK)) then (ec, ch) else finish ch
  else finish ch.
End load.

(** ** What training means *)

Definition train_all (utf_to_utf : list byte -> list Z) (ch : Chain) (pwds : list (list byte)) : Chain :=
  foldl (fun ch p => snd (train utf_to_utf ch p)) ch pwds.

(** The symbols a password trains the chain with. *)
Definition symbols (utf_to_utf : list byte -> list Z) (pwd : list byte) : list Z :=
  if decide (pwd = []) then [] else utf_to_utf pwd.

(** How often [c] comes first, and how often [b] follows [a]. *)
Definition first_count (ss : list (list Z)) (c : Z) : Z :=
  sum_Z ((fun s => if decide (head s = Some c) then 1 else 0) <$> ss).
Fixpoint pair_count (s : list Z) (a b : Z) : Z :=
  match s with
  | [] => 0
  | x :: s => match s with
      | [] => 0
      | y :: _ => (if decide (x = a /\ y = b) then 1 else 0) + pair_count s a b
      end
  end.

(** The counters of a chain. *)
Definition first_of (ch : Chain) (c : Z) : Z := default 0 (mFirstSymbolCounts ch !! c).
Definition pair_of (ch : Chain) (a b : Z) : Z :=
  default 0 (mCounts (default Node_default (mNodes ch !! a)) !! b).

(** ** Lemmas: counters *)

Lemma bump_get m c d : default 0 (bump m c !! d) = if decide (c = d) then u64 (default 0 (m !! c) + 1) else default 0 (m !! d).
Proof. unfold bump. case_decide; subst; [by rewrite lookup_insert_eq|by rewrite lookup_insert_ne]. Qed.

Lemma addFirst_first ch c d :
  first_of (addFirst ch c) d = if decide (c = d) then u64 (first_of ch c + 1) else first_of ch d.
Proof.
  unfold first_of, addFirst. cbn [mFirstSymbolCounts]. rewrite bump_get.
  destruct (mFirstSymbolCounts ch !! c) eqn:E; [case_decide; by rewrite ?E|].
  case_decide; [by rewrite lookup_insert_eq|by rewrite lookup_insert_ne].
Qed.

Lemma addPair_pair ch a b x y :
  pair_of (addPair ch a b) x y = if decide (a = x /\ b = y) then u64 (pair_of ch a b + 1) else pair_of ch x y.
Proof.
  unfold pair_of, addPair. cbn [mNodes].
  set (nodes := match mNodes ch !! a with None => _ | Some _ => _ end).
  assert (forall z, default Node_default (nodes !! z) = default Node_default (mNodes ch !! z)) as Hn.
  { intros z. unfold nodes. destruct (mNodes ch !! a) eqn:E; [done|].
    destruct (decide (a = z)) as [->|]; [by rewrite lookup_insert_eq, E|by rewrite lookup_insert_ne]. }
  destruct (decide (a = x)) as [->|Hne].
  - rewrite lookup_insert_eq. cbn [default from_option id]. unfold increment. cbn [mCounts]. rewrite bump_get, !Hn.
    repeat case_decide; try done; naive_solver.
  - rewrite lookup_insert_ne, Hn by done. rewrite decide_False by naive_solver. done.
Qed.

Lemma addPair_first ch a b c : first_of (addPair ch a b) c = first_of ch c.
Proof. done. Qed.
Lemma addFirst_pair ch c a b : pair_of (addFirst ch c) a b = pair_of ch a b.
Proof. done. Qed.

Lemma add_pairs_first s ch c : first_of (add_pairs ch s) c = first_of ch c.
Proof.
  revert ch. induction s as [|a s IH]; intros ch; [done|]. cbn [add_pairs].
  destruct s as [|b s]; [done|]. by rewrite IH.
Qed.

Lemma u64_add_l a b : u64 (u64 a + b) = u64 (a + b).
Proof. apply Zplus_mod_idemp_l. Qed.

Lemma pair_of_step ch a b x y : u64 (pair_of (addPair ch a b) x y) =
  u64 ((if decide (a = x /\ b = y) then 1 else 0) + pair_of ch x y).
Proof.
  rewrite addPair_pair. case_decide as Hd; [destruct Hd as [-> ->]|done].
  unfold u64. rewrite Z.mod_mod by lia. f_equal. lia.
Qed.

Lemma add_pairs_pair s ch x y : u64 (pair_of (add_pairs ch s) x y) = u64 (pair_of ch x y + pair_count s x y).
Proof.
  revert ch. induction s as [|a s IH]; intros ch; cbn [add_pairs pair_count]; [by rewrite Z.add_0_r|].
  destruct s as [|b s]; [by rewrite Z.add_0_r|]. rewrite IH, <- u64_add_l, pair_of_step, u64_add_l. f_equal. lia.
Qed.

Lemma train_counts utf ch p c x y :
  u64 (first_of (snd (train utf ch p)) c) =
    u64 (first_of ch c + if decide (head (symbols utf p) = Some c) then 1 else 0) /\
  u64 (pair_of (snd (train utf ch p)) x y) = u64 (pair_of ch x y + pair_count (symbols utf p) x y).
Proof.
  unfold train, symbols. case_decide; [by rewrite decide_False, !Z.add_0_r|].
  destruct (utf p) as [|d s]; [by rewrite decide_False, !Z.add_0_r|]. cbn [snd]. split.
  - rewrite add_pairs_first, addFirst_first. cbn [head].
    destruct (decide (d = c)) as [->|]; [rewrite decide_True by done|rewrite decide_False by congruence].
    + unfold u64. by rewrite Z.mod_mod.
    + by rewrite Z.add_0_r.
  - by rewrite add_pairs_pair, addFirst_pair.
Qed.

(** ** Lemmas: iteration *)

Lemma foldl_insert_lookup {V W} (f : V -> W) (l : list (Z * V)) (m : gmap Z W) c :
  NoDup l.*1 ->
  foldl (fun m e => <[fst e := f (snd e)]> m) m l !! c =
  match list_find (fun e => fst e = c) l with Some (_, e) => Some (f (snd e)) | None => m !! c end.
Proof.
  revert m. induction l as [|[k v] l IH]; intros m Hnd; [done|]. csimpl in Hnd.
  apply NoDup_cons in Hnd as [Hk Hnd]. cbn [foldl]. rewrite IH by done. cbn [list_find].
  destruct (decide (k = c)) as [->|Hne]; cbn [fst snd].
  - destruct (list_find _ l) as [[i e]|] eqn:E; [|by rewrite decide_True, lookup_insert_eq by done].
    apply list_find_Some in E as (He & <- & _). exfalso. apply Hk. apply list_elem_of_fmap.
    exists e. split; [done|]. by eapply list_elem_of_lookup_2.
  - rewrite decide_False by done. destruct (list_find _ l) as [[i e]|]; [done|]. by rewrite lookup_insert_ne.
Qed.

Section order_lemmas.
Context (order : forall V : Type, gmap Z V -> list (Z * V)).
Context (order_perm : forall V (m : gmap Z V), order V m ≡ₚ map_to_list m).
#[local] Set Default Proof Using "All".

Lemma order_elem {V} (m : gmap Z V) c v : (c, v) ∈ order _ m <-> m !! c = Some v.
Proof. by rewrite order_perm, elem_of_map_to_list. Qed.

Lemma order_NoDup {V} (m : gmap Z V) : NoDup (order _ m).*1.
Proof. rewrite order_perm. apply NoDup_fst_map_to_list. Qed.

Lemma list_find_order {V} (m : gmap Z V) c :
  match list_find (fun e => fst e = c) (order _ m) with Some (_, e) => Some (snd e) | None => None end = m !! c.
Proof.
  destruct (list_find _ _) as [[i [k v]]|] eqn:E.
  - apply list_find_Some in E as (He & Hk & _). simpl in Hk. subst k. symmetry. apply order_elem.
    by eapply list_elem_of_lookup_2.
  - apply list_find_None in E. symmetry. apply eq_None_not_Some. intros [v Hv].
    apply order_elem in Hv. rewrite Forall_forall in E. by apply (E _ Hv).
Qed.

Lemma sum_counts_spec m : sum_counts order m = u32 (sum_Z (snd <$> map_to_list m)).
Proof.
  unfold sum_counts. rewrite <- (sum_Z_perm (snd <$> order _ m)) by by rewrite order_perm.
  generalize (order _ m) as l. intros l.
  assert (forall l a, foldl (fun a (e : Z * Z) => u32 (u64 (snd e + a))) (u32 a) l = u32 (a + sum_Z (snd <$> l))) as Hgen.
  { clear. induction l as [|e l IH]; intros a; cbn [foldl]; [by rewrite Z.add_0_r|].
    assert (u32 (u64 (snd e + u32 a)) = u32 (a + snd e)) as ->.
    { unfold u32, u64. rewrite <- Znumtheory.Zmod_div_mod by (try lia; exists (2 ^ 32); lia).
      rewrite Zplus_mod_idemp_r. f_equal. lia. }
    rewrite IH. csimpl. f_equal. lia. }
  apply (Hgen l 0).
Qed.

Lemma to_probs_lookup counts probs c :
  to_probs order counts probs !! c =
  match counts !! c with
  | Some k => Some (f64_div (f64_of_Z k) (f64_of_Z (u32 (sum_Z (snd <$> map_to_list counts)))))
  | None => probs !! c
  end.
Proof.
  unfold to_probs. rewrite sum_counts_spec.
  rewrite (foldl_insert_lookup (fun k => f64_div (f64_of_Z k) _)) by apply order_NoDup.
  rewrite <- (list_find_order counts c). by destruct (list_find _ _) as [[i e]|].
Qed.
End order_lemmas.

(** ** Lemmas: the file format *)

Abbreviation in_symbol c := (- 2 ^ 31 <= c < 2 ^ 31).
Definition pair_ok (e : Z * f64) : Prop := in_symbol (fst e) /\ in_u64 (snd e).

Lemma symbol_of_u32 c : in_symbol c -> symbol_of (u32 c) = c.
Proof.
  intros Hc. unfold symbol_of, u32. rewrite Zplus_mod_idemp_l. rewrite Z.mod_small; lia.
Qed.

Lemma read_value_rest f z n l :
  has_rest f (le_split n z ++ l) -> 0 <= z < 2 ^ (Z.of_nat n * 8) ->
  exists f', read_value n f = (z, f') /\ has_rest f' l /\ eof f' = false.
Proof.
  intros Hf Hz. destruct (read_rest f _ _ n Hf (length_le_split n z)) as (f' & Hr & Hf').
  exists f'. unfold read_value. rewrite Hr, le_combine_split_small by done.
  split; [done|]. split; [done|]. by eapply has_rest_eof.
Qed.

Lemma load_pairs_ok l f tl acc :
  has_rest f (concat (write_pair <$> l) ++ tl) -> Forall pair_ok l ->
  exists f', load_pairs (length l) f acc = (OK, acc ++ l, f') /\ has_rest f' tl.
Proof.
  revert f acc. induction l as [|[c p] l IH]; intros f acc Hf Hl.
  { exists f. by rewrite app_nil_r. }
  rewrite fmap_cons in Hf. cbn [concat] in Hf.
  apply Forall_cons in Hl as [[Hc Hp] Hl]. cbn [fst snd] in Hc, Hp. cbn [load_pairs length].
  unfold write_pair, write_symbol, write_prob in Hf. cbn [fst snd] in Hf. rewrite <- !app_assoc in Hf.
  destruct (read_value_rest f (u32 c) 4 _ Hf) as (f1 & -> & Hf1 & ->); [pose proof (u32_range c); simpl; lia|].
  destruct (read_value_rest f1 p 8 _ Hf1) as (f2 & -> & Hf2 & ->); [simpl; lia|].
  rewrite symbol_of_u32 by done. destruct (IH f2 (acc ++ [(c, p)]) Hf2 Hl) as (f' & -> & Hf').
  exists f'. by rewrite <- app_assoc.
Qed.

Definition loaded_node (l : list (Z * f64)) : Node :=
  foldl (fun n e => addSuccessor n (fst e) (snd e)) Node_default l.

Lemma loaded_node_probs l : NoDup l.*1 ->
  loaded_node l = MkNode (list_to_map l) ∅ [].
Proof.
  intros Hnd. unfold loaded_node.
  assert (forall l m, foldl (fun n e => addSuccessor n (fst e) (snd e)) (MkNode m ∅ []) l =
    MkNode (foldl (fun m e => <[fst e := snd e]> m) m l) ∅ []) as Hgen.
  { clear. induction l as [|e l IH]; intros m; [done|]. cbn [foldl]. unfold addSuccessor at 2. apply IH. }
  unfold Node_default. rewrite Hgen. f_equal. apply map_eq. intros c.
  rewrite (foldl_insert_lookup (fun v : f64 => v)) by done.
  destruct (list_find _ l) as [[i [k v]]|] eqn:E.
  - apply list_find_Some in E as (He & Hk & _). simpl in Hk. subst k. symmetry.
    apply elem_of_list_to_map_1; [done|]. by eapply list_elem_of_lookup_2.
  - apply list_find_None in E. rewrite lookup_empty. symmetry. apply not_elem_of_list_to_map_1.
    intros (e & -> & He)%list_elem_of_fmap. rewrite Forall_forall in E. by apply (E e He).
Qed.

Definition node_ok (c : Z) (n : Node) : Prop :=
  in_symbol c /\ Forall pair_ok (mSortedProbs n) /\ Z.of_nat (length (mSortedProbs n)) < 2 ^ 32.

Lemma load_nodes_ok (l : list (Z * Node)) f tl nodes :
  has_rest f (concat (save_node <$> l) ++ tl) -> Forall (fun e => node_ok (fst e) (snd e)) l ->
  NoDup l.*1 -> (forall c, c ∈ l.*1 -> nodes !! c = None) ->
  exists f', load_nodes (length l) f nodes =
    (OK, foldl (fun m e => <[fst e := loaded_node (mSortedProbs (snd e))]> m) nodes l, f') /\ has_rest f' tl.
Proof.
  revert f nodes. induction l as [|[c n] l IH]; intros f nodes Hf Hl Hnd Hno; [by exists f|].
  rewrite fmap_cons in Hf. cbn [concat] in Hf.
  apply Forall_cons in Hl as [(Hc & Hpairs & Hlen) Hl]. cbn [fst snd] in *. csimpl in Hnd.
  apply NoDup_cons in Hnd as [Hcl Hnd]. cbn [load_nodes length foldl].
  unfold save_node, write_symbol, write_u32 in Hf. cbn [fst snd] in Hf. rewrite <- !app_assoc in Hf.
  destruct (read_value_rest f (u32 c) 4 _ Hf) as (f1 & -> & Hf1 & ->); [pose proof (u32_range c); simpl; lia|].
  rewrite symbol_of_u32 by done. rewrite (Hno c) by (csimpl; left).
  destruct (read_value_rest f1 (u32 (Z.of_nat (length (mSortedProbs n)))) 4 _ Hf1) as (f2 & -> & Hf2 & ->).
  { pose proof (u32_range (Z.of_nat (length (mSortedProbs n)))). simpl. lia. }
  rewrite u32_small, Nat2Z.id by lia.
  destruct (load_pairs_ok _ f2 _ [] Hf2 Hpairs) as (f3 & -> & Hf3).
  rewrite decide_True by done. fold (loaded_node ([] ++ mSortedProbs n)). rewrite app_nil_l. cbn [fst snd].
  apply IH; [done|done|done|].
  intros d Hd. rewrite lookup_insert_ne by (intros ->; done). apply Hno. csimpl. by right.
Qed.

Section file_lemmas.
Context (order : forall V : Type, gmap Z V -> list (Z * V)).
Context (order_perm : forall V (m : gmap Z V), order V m ≡ₚ map_to_list m).
#[local] Set Default Proof Using "All".

Lemma saveBinary_loaded ch ch0 :
  mNodes ch <> ∅ -> Z.of_nat (size (mNodes ch)) < 2 ^ 32 ->
  Forall pair_ok (mFirstSymbolSortedProbs ch) -> Z.of_nat (length (mFirstSymbolSortedProbs ch)) < 2 ^ 32 ->
  map_Forall node_ok (mNodes ch) ->
  (forall c n, mNodes ch !! c = Some n -> mSortedProbs n ≡ₚ map_to_list (mProbs n)) ->
  exists ch', loadBinary order true ch0 (open_stream (saveBinary order ch)) = (OK, ch') /\
    mFirstSymbolSortedProbs ch' = mFirstSymbolSortedProbs ch /\
    forall c, mNodes ch' !! c =
      (fun n => MkNode (mProbs n) ∅ (std_sort probLess (order _ (mProbs n)))) <$> mNodes ch !! c.
Proof.
  intros Hne Hsize Hfirst Hlen Hnodes Hsync. unfold saveBinary. rewrite decide_False by done.
  set (file := FileHeader ++ _). unfold loadBinary.
  pose proof (open_stream_rest file) as H0. cbn [good eof open_stream eofbit failbit badbit orb negb andb].
  change (good (open_stream file) && negb (eof (open_stream file))) with true. cbv iota.
  destruct (read_rest _ FileHeader _ 4 H0 eq_refl) as (f1 & -> & H1).
  rewrite (has_rest_eof _ _ H1). rewrite bool_decide_true by done. cbn [negb].
  destruct (read_value_rest f1 2 1 _ H1) as (f2 & -> & H2 & ->); [simpl; lia|]. cbn [negb FileVersion Z.eqb Pos.eqb].
  unfold write_u32 in H2.
  destruct (read_value_rest f2 _ 4 _ H2) as (f3 & -> & H3 & ->).
  { pose proof (u32_range (Z.of_nat (length (mFirstSymbolSortedProbs ch)))). simpl. lia. }
  rewrite u32_small, Nat2Z.id by lia.
  destruct (load_pairs_ok _ f3 _ [] H3 Hfirst) as (f4 & -> & H4). rewrite bool_decide_true by done. cbn [negb].
  assert (length (order _ (mNodes ch)) = size (mNodes ch)) as Hosize.
  { by rewrite (Permutation_length (order_perm _ (mNodes ch))), length_map_to_list. }
  unfold write_u32 in H4. destruct (read_value_rest f4 _ 4 _ H4) as (f5 & -> & H5 & ->).
  { pose proof (u32_range (Z.of_nat (length (order _ (mNodes ch))))). simpl. lia. }
  rewrite u32_small, Nat2Z.id by lia.
  destruct (load_nodes_ok (order _ (mNodes ch)) f5 [] ∅) as (f6 & Hload & _).
  - by rewrite app_nil_r.
  - apply Forall_forall. intros [c n] Hcn%order_elem; [|done]. by apply (Hnodes c n).
  - by apply order_NoDup.
  - intros. apply lookup_empty.
  - cbn [Chain_default mNodes]. rewrite Hload. rewrite bool_decide_true by done. cbn [negb].
    eexists. split; [done|]. split; [done|]. intros c. cbn [mNodes]. rewrite lookup_fmap.
    rewrite (foldl_insert_lookup (fun n => loaded_node (mSortedProbs n))) by by apply order_NoDup.
    rewrite <- (list_find_order order order_perm (mNodes ch) c).
    destruct (list_find _ _) as [[i [k n]]|] eqn:E; [|done]. simpl. f_equal.
    apply list_find_Some in E as (He & _ & _).
    assert (mSortedProbs n ≡ₚ map_to_list (mProbs n)) as Hs.
    { apply (Hsync k). apply (order_elem order order_perm); by eapply list_elem_of_lookup_2. }
    rewrite loaded_node_probs by (rewrite Hs; apply NoDup_fst_map_to_list).
    unfold postprocess. cbn [mProbs mCounts].
    assert (list_to_map (mSortedProbs n) = mProbs n) as ->; [|done].
    rewrite <- (list_to_map_to_list (mProbs n)). apply list_to_map_proper; [|done].
    rewrite Hs. apply NoDup_fst_map_to_list.
Qed.
End file_lemmas.

(** The probability of a password depends on the list of first symbols and the probabilities of
    the nodes only. *)
Lemma totalProbability_ext ch ch' pwd :
  mFirstSymbolSortedProbs ch' = mFirstSymbolSortedProbs ch ->
  (forall c, mProbs <$> mNodes ch' !! c = mProbs <$> mNodes ch !! c) ->
  totalProbability ch' pwd = totalProbability ch pwd.
Proof.
  intros Hf Hn. unfold totalProbability. destruct pwd as [|s rest]; [done|]. rewrite Hf.
  destruct (list_find _ _) as [[i [c p]]|]; [|done]. cbn [fst snd].
  assert (forall rest (n n' : option Node) p, mProbs <$> n' = mProbs <$> n -> total_loop (mNodes ch') n' p rest = total_loop (mNodes ch) n p rest) as Hgen.
  { clear - Hn. induction rest as [|d rest IH]; intros n n' p Heq; [done|]. cbn [total_loop].
    destruct n as [n|], n' as [n'|]; try done. injection Heq as Heq. unfold probability. rewrite Heq.
    destruct (at_ (mProbs n) d) as [q| | |]; cbn [mbind outcome_bind]; [by apply IH|done..]. }
  by apply Hgen.
Qed.

(** A chain without nodes. *)
Lemma saveBinary_empty order ch ch0 : mNodes ch = ∅ -> saveBinary order ch = [] /\
  loadBinary order true ch0 (open_stream (saveBinary order ch)) = (BAD_HEADER_PREMATURE_EOF, Chain_default).
Proof. intros Hn. unfold saveBinary. by rewrite decide_True. Qed.

(** ** Properties *)

(** C33: training counts, for every symbol, the passwords that begin with it, and for every
    pair of symbols the places where one follows the other (modulo [2 ^ 64]). *)
Theorem train_all_counts utf pwds c a b :
  let ch := train_all utf Chain_default pwds in
  let ss := symbols utf <$> pwds in
  u64 (first_of ch c) = u64 (first_count ss c) /\
  u64 (pair_of ch a b) = u64 (sum_Z ((fun s => pair_count s a b) <$> ss)).
Proof.
  cbv zeta. assert (forall ch, let ch' := train_all utf ch pwds in
    u64 (first_of ch' c) = u64 (first_of ch c + first_count (symbols utf <$> pwds) c) /\
    u64 (pair_of ch' a b) = u64 (pair_of ch a b + sum_Z ((fun s => pair_count s a b) <$> (symbols utf <$> pwds)))) as Hgen.
  { induction pwds as [|p pwds IH]; intros ch; cbv zeta; cbn [train_all foldl];
      [by rewrite !Z.add_0_r|].
    destruct (train_counts utf ch p c a b) as [H1 H2]. fold (train_all utf (snd (train utf ch p)) pwds).
    destruct (IH (snd (train utf ch p))) as [-> ->].
    rewrite <- (u64_add_l (first_of _ c)), H1, <- (u64_add_l (pair_of _ a b)), H2, !u64_add_l.
    unfold first_count. csimpl. split; f_equal; lia. }
  destruct (Hgen Chain_default) as [-> ->]. done.
Qed.

Section properties.
Context (order : forall V : Type, gmap Z V -> list (Z * V)).
Context (order_perm : forall V (m : gmap Z V), order V m ≡ₚ map_to_list m).
#[local] Set Default Proof Using "All".

(** [update] turns the counts of a node into quotients by their sum; the sum is taken
    in 32 bits, because the initial value of the fold is [0U]. *)
Theorem node_update_probs n c :
  probability (node_update order n) c =
  match mCounts n !! c with
  | Some k => Ok (f64_div (f64_of_Z k) (f64_of_Z (u32 (sum_Z (snd <$> map_to_list (mCounts n))))))
  | None => probability n c
  end.
Proof.
  unfold probability, at_, node_update, postprocess. cbn [mProbs]. rewrite to_probs_lookup by done.
  by destruct (mCounts n !! c).
Qed.

(** C34: loading what was saved gives the probabilities back: the list of first symbols as it
    was, and for every node the same map of successors, sorted again.  (The counts of the file
    are 32 bits wide, a symbol is a [wchar_t], and the lists [update] makes are sorted
    versions of the maps.)  But a chain without nodes, trained with passwords of one symbol
    only, saves nothing at all, and loading that fails and leaves an empty chain. *)
Theorem save_load_roundtrip ch ch0 :
  Z.of_nat (size (mNodes ch)) < 2 ^ 32 ->
  Forall pair_ok (mFirstSymbolSortedProbs ch) -> Z.of_nat (length (mFirstSymbolSortedProbs ch)) < 2 ^ 32 ->
  map_Forall node_ok (mNodes ch) ->
  (forall c n, mNodes ch !! c = Some n -> mSortedProbs n ≡ₚ map_to_list (mProbs n)) ->
  (mNodes ch <> ∅ ->
   exists ch', loadBinary order true ch0 (open_stream (saveBinary order ch)) = (OK, ch') /\
    mFirstSymbolSortedProbs ch' = mFirstSymbolSortedProbs ch /\
    forall c, mNodes ch' !! c =
      (fun n => MkNode (mProbs n) ∅ (std_sort probLess (order _ (mProbs n)))) <$> mNodes ch !! c) /\
  (mNodes ch = ∅ -> saveBinary order ch = [] /\
    loadBinary order true ch0 (open_stream (saveBinary order ch)) = (BAD_HEADER_PREMATURE_EOF, Chain_default)).
Proof. intros. split; [intros; by apply saveBinary_loaded|by apply saveBinary_empty]. Qed.
End properties.

(** the message table lacks a comma: the code [BAD_NODE_COUNT] gets two messages in one,
    and asking for the message of [BAD_NODE_COUNT_PREMATURE_EOF] throws. *)
Theorem errString_last_two :
  errString BAD_NODE_COUNT = Ok (bs "BAD_NODE_COUNTBAD_NODE_COUNT_PREMATURE_EOF") /\
  errString BAD_NODE_COUNT_PREMATURE_EOF = Throws (bs "out_of_range") /\
  forall ec, ec <> BAD_NODE_COUNT_PREMATURE_EOF -> exists s, errString ec = Ok s.
Proof. split; [done|]. split; [done|]. intros [] Hec; try done; by eexists. Qed.

(** a password with a known first symbol whose second symbol never followed it makes
    [totalProbability] throw instead of returning 0, as it does for an unknown first symbol. *)
Theorem totalProbability_throws ch s c rest q n :
  list_find (fun p => fst p = s) (mFirstSymbolSortedProbs ch) = Some q ->
  mNodes ch !! s = Some n -> mProbs n !! c = None ->
  totalProbability ch (s :: c :: rest) = Throws (bs "out_of_range").
Proof.
  intros Hq Hn Hc. unfold totalProbability. rewrite Hq. destruct q as [i [k p]].
  apply list_find_Some in Hq as (_ & Hk & _). simpl in Hk. subst k. cbn [fst snd total_loop]. rewrite Hn.
  unfold probability, at_. by rewrite Hc.
Qed.

(** ** Witnesses *)

Definition demo_order (V : Type) (m : gmap Z V) : list (Z * V) := map_to_list m.
Definition demo_utf (l : list byte) : list Z := byte.unsigned <$> l.
Definition demo_chain : Chain :=
  chain_update demo_order (train_all demo_utf Chain_default [bs "ab"; bs "aab"; bs "ba"]).

Lemma save_load_roundtrip_witness :
  exists ch', loadBinary demo_order true Chain_default (open_stream (saveBinary demo_order demo_chain)) = (OK, ch') /\
    mFirstSymbolSortedProbs ch' = mFirstSymbolSortedProbs demo_chain /\
    forall c, mNodes ch' !! c =
      (fun n => MkNode (mProbs n) ∅ (std_sort probLess (demo_order _ (mProbs n)))) <$> mNodes demo_chain !! c.
Proof.
  apply (save_load_roundtrip demo_order (fun V m => reflexivity _) demo_chain Chain_default).
  - vm_compute. reflexivity.
  - apply (bool_decide_unpack _). vm_compute. exact I.
  - vm_compute. reflexivity.
  - apply (bool_decide_unpack _). vm_compute. exact I.
  - intros c n Hn. unfold demo_chain, chain_update in Hn. cbn [mNodes] in Hn. rewrite lookup_fmap in Hn.
    destruct (mNodes _ !! c) as [n'|]; [|discriminate]. injection Hn as <-.
    unfold node_update, postprocess. cbn [mSortedProbs mProbs]. apply std_sort_perm.
  - discriminate.
Defined.

Lemma totalProbability_throws_witness :
  totalProbability demo_chain [97; 99; 98] = Throws (bs "out_of_range").
Proof.
  apply (totalProbability_throws demo_chain 97 99 [98]
    (1%nat, (97, f64_div (f64_of_Z 2) (f64_of_Z 3))) (default Node_default (mNodes demo_chain !! 97)));
    vm_compute; reflexivity.
Defined.

Lemma node_update_probs_witness :
  probability (node_update demo_order (MkNode ∅ (<[97 := 1]> (<[98 := 3]> ∅)) [])) 98 =
    Ok 0x3fe8000000000000.
Proof.
  transitivity (Ok (f64_div (f64_of_Z 3) (f64_of_Z 4))); [|vm_compute; reflexivity].
  exact (node_update_probs demo_order (fun V m => reflexivity _)
    (MkNode ∅ (<[97 := 1]> (<[98 := 3]> ∅)) []) 98).
Defined.
