(* ===== verification/MarkovJson.v ===== *)
(** * pwned-lib/markovchain.hpp: the chain as a property tree

    [writeJson] builds a tree of the probabilities, which boost's [write_json] prints.  The
    tree is modelled, the printing is boost's. *)

From S2P Require Import Prelude Decimal Stream Util Markov.
From stdpp Require Import options.

(** [boost::property_tree::ptree]: the empty tree, a value, [put] and [put_child] of a key, and
    the child of a key. *)
Record PTree := MkPTree {
  tree : Type;
  t_empty : tree;
  t_leaf : f64 -> tree;
  t_put : list byte -> tree -> tree -> tree;
  t_child : list byte -> tree -> option tree }.

(** What the documentation of boost says of keys without dots. *)
Definition ptree_law (P : PTree) : Prop :=
  (forall k, t_child P k (t_empty P) = None) /\
  (forall k k' t t0, x2e ∉ k' -> t_child P k (t_put P k' t t0) = if decide (k' = k) then Some t else t_child P k t0).

Section json.
Context (P : PTree) (order : forall V : Type, gmap Z V -> list (Z * V)).

(** The loops over sorted probabilities. *)
Definition probabilities_tree (probs : list (Z * f64)) : tree P :=
  foldl (fun t e => t_put P (to_string (fst e)) (t_leaf P (snd e)) t) (t_empty P) probs.

(** [void writeJson(std::ostream &os)]: the tree [root]. *)
Definition writeJson (ch : Chain) : tree P :=
  let first := probabilities_tree (mFirstSymbolSortedProbs ch) in
  let successor :=
    foldl (fun t e =>
      if decide (mSortedProbs (snd e) = []) then t
      else t_put P (to_string (fst e)) (probabilities_tree (mSortedProbs (snd e))) t) (t_empty P) (order _ (mNodes ch)) in
  t_put P (bs "successor") successor (t_put P (bs "first") first (t_empty P)).

(** The tree below a path. *)
Fixpoint get (path : list (list byte)) (t : tree P) : option (tree P) :=
  match path with
  | [] => Some t
  | key :: path => t_child P key t ≫= get path
  end.
End json.

(** ** Lemmas *)

Section put.
Context (P : PTree) (P_ok : ptree_law P).
#[local] Set Default Proof Using "All".

Lemma child_put key k t t0 : x2e ∉ k -> t_child P key (t_put P k t t0) = if decide (k = key) then Some t else t_child P key t0.
Proof. apply P_ok. Qed.

Lemma child_put_symbol c d t t0 :
  t_child P (to_string c) (t_put P (to_string d) t t0) = if decide (d = c) then Some t else t_child P (to_string c) t0.
Proof.
  rewrite child_put by (apply to_string_chars; vm_compute; [discriminate|by intros []]).
  destruct (decide (d = c)) as [->|Hne]; [by rewrite decide_True|]. rewrite decide_False; [done|]. by intros ?%to_string_inj.
Qed.

(** A loop of [put]s with different keys. *)
Lemma child_puts {V} (f : V -> option (tree P)) (l : list (Z * V)) c acc :
  NoDup l.*1 -> t_child P (to_string c) acc = None ->
  t_child P (to_string c) (foldl (fun t e => match f (snd e) with Some x => t_put P (to_string (fst e)) x t | None => t end) acc l) =
    match list_find (fun e => fst e = c) l with Some (_, e) => f (snd e) | None => None end.
Proof.
  intros Hl. revert acc. induction l as [|[d v] l IH]; intros acc Hacc; [done|].
  rewrite fmap_cons in Hl. apply NoDup_cons in Hl as [Hd Hl]. cbn [foldl list_find fst snd].
  assert (forall acc, (forall e, e ∈ l -> fst e <> c) -> t_child P (to_string c)
    (foldl (fun t e => match f (snd e) with Some x => t_put P (to_string (fst e)) x t | None => t end) acc l) =
      t_child P (to_string c) acc) as Hrest.
  { clear - P_ok. induction l as [|[d v] l IH]; intros acc Hne; [done|]. cbn [foldl fst snd].
    rewrite IH by (intros e He; apply Hne; by right). destruct (f v); [|done].
    rewrite child_put_symbol, decide_False; [done|]. intros E. by apply (Hne (d, v)); [left|]. }
  destruct (decide (d = c)) as [->|Hne].
  - rewrite Hrest.
    + cbn [snd]. destruct (f v); [|exact Hacc]. by rewrite child_put_symbol, decide_True.
    + intros [e w] He Heq. cbn in Heq. subst e. apply Hd, list_elem_of_fmap. by exists (c, w).
  - rewrite IH; [by destruct (list_find _ l) as [[? ?]|]|done|]. destruct (f v); [|done].
    by rewrite child_put_symbol, decide_False.
Qed.
End put.

Lemma list_find_perm {V} (l : list (Z * V)) (m : gmap Z V) c :
  l ≡ₚ map_to_list m -> match list_find (fun e => fst e = c) l with Some (_, e) => Some (snd e) | None => None end = m !! c.
Proof.
  intros Hl. assert (forall v, (c, v) ∈ l <-> m !! c = Some v) as Hin by (intros v; by rewrite Hl, elem_of_map_to_list).
  destruct (list_find _ l) as [[i [k v]]|] eqn:E.
  - apply list_find_Some in E as (He & Hk & _). simpl in Hk. subst k. symmetry. apply Hin. by eapply list_elem_of_lookup_2.
  - apply list_find_None in E. symmetry. apply eq_None_not_Some. intros [v Hv%Hin]. rewrite Forall_forall in E. by apply (E _ Hv).
Qed.

Lemma perm_NoDup {V} (l : list (Z * V)) (m : gmap Z V) : l ≡ₚ map_to_list m -> NoDup l.*1.
Proof. intros ->. apply NoDup_fst_map_to_list. Qed.

Section tree.
Context (P : PTree) (P_ok : ptree_law P).
Context (order : forall V : Type, gmap Z V -> list (Z * V)).
Context (order_perm : forall V (m : gmap Z V), order V m ≡ₚ map_to_list m).
#[local] Set Default Proof Using "All".

(** The tree of one table of probabilities. *)
Lemma probabilities_tree_child (l : list (Z * f64)) (m : gmap Z f64) c :
  l ≡ₚ map_to_list m -> t_child P (to_string c) (probabilities_tree P l) = t_leaf P <$> m !! c.
Proof.
  intros Hl. unfold probabilities_tree.
  rewrite (child_puts P P_ok (fun p => Some (t_leaf P p)) l c) by (by eapply perm_NoDup || apply P_ok).
  rewrite <- (list_find_perm l m c Hl). by destruct (list_find _ l) as [[? ?]|].
Qed.

(** Every probability of a chain is in the tree, under its symbols, and nothing else is. *)
Lemma writeJson_get ch (first : gmap Z f64) a b :
  mFirstSymbolSortedProbs ch ≡ₚ map_to_list first ->
  map_Forall (fun _ n => mSortedProbs n ≡ₚ map_to_list (mProbs n)) (mNodes ch) ->
  get P [bs "first"; to_string a] (writeJson P order ch) = t_leaf P <$> first !! a /\
  get P [bs "successor"; to_string a; to_string b] (writeJson P order ch) =
    t_leaf P <$> (mNodes ch !! a ≫= fun n => mProbs n !! b).
Proof.
  intros Hfirst Hn. unfold writeJson. cbn [get].
  rewrite !(child_put P P_ok) by (apply (bool_decide_unpack _); vm_compute; exact I). split.
  - rewrite decide_False, decide_True by done. cbn [mbind option_bind]. rewrite (probabilities_tree_child _ first) by done.
    by destruct (first !! a).
  - rewrite decide_True by done. cbn [mbind option_bind].
    set (f := fun n : Node => if decide (mSortedProbs n = []) then None else Some (probabilities_tree P (mSortedProbs n))).
    assert (forall acc l, foldl (fun t (e : Z * Node) =>
        if decide (mSortedProbs (snd e) = []) then t
        else t_put P (to_string (fst e)) (probabilities_tree P (mSortedProbs (snd e))) t) acc l =
      foldl (fun t e => match f (snd e) with Some x => t_put P (to_string (fst e)) x t | None => t end) acc l) as ->.
    { intros acc l. revert acc. induction l as [|e l IH]; intros acc; [done|]. cbn [foldl]. rewrite IH. unfold f. by case_decide. }
    rewrite (child_puts P P_ok f) by (by eapply perm_NoDup || apply P_ok).
    pose proof (list_find_perm _ _ a (order_perm _ (mNodes ch))) as Hfind.
    destruct (list_find _ _) as [[i e]|]; rewrite <- Hfind; [|done]. cbn [mbind option_bind].
    assert (mSortedProbs (snd e) ≡ₚ map_to_list (mProbs (snd e))) as Hp by (eapply Hn; symmetry; exact Hfind).
    unfold f. case_decide as E.
    + rewrite E in Hp. symmetry in Hp. apply Permutation_nil_r, map_to_list_empty_iff in Hp. rewrite Hp. done.
    + cbn [mbind option_bind]. rewrite (probabilities_tree_child _ _ _ Hp). by destruct (mProbs (snd e) !! b).
Qed.
End tree.

(** ** A tree that does what the law says *)

Inductive demo_tree :=
  | Leaf (value : f64)
  | Branch (children : list (list byte * demo_tree)).

Definition demo_children (t : demo_tree) : list (list byte * demo_tree) := match t with Leaf _ => [] | Branch l => l end.
Definition demo_ptree : PTree :=
  MkPTree demo_tree (Branch []) Leaf (fun k t t0 => Branch ((k, t) :: filter (fun e => fst e <> k) (demo_children t0)))
    (fun k t => snd <$> head (filter (fun e => fst e = k) (demo_children t))).

Lemma demo_ptree_law : ptree_law demo_ptree.
Proof.
  split; [done|]. intros k k' t t0 _. cbn [t_child t_put demo_ptree demo_children]. rewrite filter_cons. cbn [fst].
  case_decide as Hk; [done|]. rewrite list_filter_filter. f_equal.
  rewrite (list_filter_iff (fun e : list byte * demo_tree => fst e = k /\ fst e <> k') (fun e => fst e = k)); [done|].
  intros [j u]. cbn [fst]. split; [by intros []|]. intros ->. split; congruence.
Qed.
