(* ===== verification/MarkovTools.v ===== *)
(** * extras/pwned-markov-generator, extras/pwned-markov-lookup

    The generator trains a chain with the passwords of a list and saves it; the lookup loads a
    chain and prints the probability of every password typed in.  Both are loops over the
    reader ([UserPasswordReader]) and the chain ([Markov]); what the generator writes is what
    the lookup reads. *)

From S2P Require Import Prelude Decimal Stream Util Hash Regex UserPasswordReader Markov MarkovJson LookupCli.
From stdpp Require Import options.

(** ** pwned-markov-generator.cpp *)

Module Generator.
Record Options := MkOptions { help : bool; inputFilename : list byte; outputFilename : list byte }.

Inductive Exit (T : Type) := Usage | NoInput | NoOutput | Done (written : option (list byte)) (printed : T).
Arguments Usage {T}. Arguments NoInput {T}. Arguments NoOutput {T}. Arguments Done {T}.

Section generator.
Context (P : PTree) (order : forall V : Type, gmap Z V -> list (Z * V)) (utf_to_utf : list byte -> list Z).

(** [while (!reader.eof())] *)
Fixpoint train_loop (fuel : nat) (reader : UserPasswordReader) (chain : Chain) : outcome Chain :=
  match fuel with
  | O => OutOfFuel
  | S fuel =>
      if reader_eof reader then Ok chain
      else
        let '(pwd, reader) := nextPassword reader in
        let '(_, chain) := train utf_to_utf chain pwd in
        train_loop fuel reader chain
  end.

(** [main] after the options are parsed.  [files] gives the file a name stands for; a missing
    one makes [file_size] throw, a file that cannot be read only prints a message, and so does
    an output that cannot be written. *)
Definition generator_main (fuel : nat) (files : list byte -> option file_entry) (writable : list byte -> bool)
    (o : Options) : outcome (Exit (tree P)) :=
  if help o then Ok Usage
  else if decide (inputFilename o = []) then Ok NoInput
  else if decide (outputFilename o = []) then Ok NoOutput
  else
    let entry := files (inputFilename o) in
    let inputFile := match entry with Some e => snd (fopen e) | None => unopened end in
    let reader := new_reader inputFile [autoEvaluateHexEncodedPasswords] in
    match entry with
    | None => Throws (bs "file_size")
    | Some _ =>
        chain ← train_loop fuel reader Chain_default;
        let chain := chain_update order chain in
        let written := saveBinary order chain in
        Ok (Done (if writable (outputFilename o) then Some written else None) (writeJson P order chain))
    end.
End generator.
End Generator.

(** ** pwned-markov-lookup.cpp *)

Module Lookup.
Section lookup.
Context (order : forall V : Type, gmap Z V -> list (Z * V)) (utf_to_utf : list byte -> list Z) (ECHO : Z).

(** [while (true)]: the probabilities printed. *)
Fixpoint lookup_loop (fuel : nat) (chain : Chain) (c_lflag : Z) (cin : istream) : outcome (list f64) :=
  match fuel with
  | O => OutOfFuel
  | S fuel =>
      let c_lflag := setStdinEcho ECHO false c_lflag in
      let '(pwd, cin) := read_word cin [] in
      let c_lflag := setStdinEcho ECHO true c_lflag in
      if decide (pwd = []) then Ok []
      else
        p ← totalProbability chain (utf_to_utf pwd);
        ps ← lookup_loop fuel chain c_lflag cin;
        Ok (p :: ps)
  end.

(** [main]; the result of [loadBinary] is not looked at.  [None]: no argument was given. *)
Definition lookup_main (fuel : nat) (files : list byte -> option file_entry) (args : list (list byte))
    (c_lflag : Z) (cin : istream) : outcome (option (list f64)) :=
  match args with
  | [] => Ok None
  | inputFilename :: _ =>
      let inputFile := match files inputFilename with Some e => snd (fopen e) | None => unopened end in
      let '(_, chain) := loadBinary order true Chain_default inputFile in
      Some <$> lookup_loop fuel chain c_lflag cin
  end.
End lookup.
End Lookup.

(** ** Lemmas: the loops *)

Lemma train_loop_lines utf fuel r ls ch :
  has_lines (input r) ls -> (length ls < fuel)%nat ->
  Generator.train_loop utf fuel r ch = Ok (train_all utf ch (line_password (guessedSeparator r) <$> ls)).
Proof.
  revert r ls ch. induction fuel as [|fuel IH]; intros r ls ch Hl Hfuel; [lia|]. cbn [Generator.train_loop].
  unfold reader_eof. rewrite (has_lines_eof _ _ Hl). destruct ls as [|l ls]; [done|].
  change (bool_decide (l :: ls = [])) with false. cbv iota.
  destruct (nextPassword_line r l ls Hl) as (r' & -> & Hl' & (Hs & _) & _).
  destruct (train utf ch _) as [ok ch'] eqn:Ht. rewrite (IH r' ls ch' Hl'); [|simpl in Hfuel; lia].
  rewrite Hs. cbn [fmap list_fmap train_all foldl]. by rewrite Ht.
Qed.

(** The probabilities of a list of passwords, up to the first that throws. *)
Fixpoint probabilities (utf : list byte -> list Z) (ch : Chain) (ws : list (list byte)) : outcome (list f64) :=
  match ws with
  | [] => Ok []
  | w :: ws => p ← totalProbability ch (utf w); ps ← probabilities utf ch ws; Ok (p :: ps)
  end.

Lemma probabilities_ext utf ch ch' ws :
  (forall w, totalProbability ch' (utf w) = totalProbability ch (utf w)) -> probabilities utf ch' ws = probabilities utf ch ws.
Proof. intros H. induction ws as [|w ws IH]; [done|]. cbn [probabilities]. by rewrite H, IH. Qed.

Lemma words_nonempty t : Forall (fun w => w <> []) (words t).
Proof.
  induction t as [|c t IH]; [by constructor|]. cbn [words]. destruct (isspace c); [done|].
  destruct t as [|d t]; [by repeat constructor|]. destruct (isspace d); [by constructor|].
  destruct (words (d :: t)); [by repeat constructor|]. apply Forall_cons in IH as [_ IH]. by constructor.
Qed.

Lemma lookup_loop_words utf ECHO ws fuel ch flags f :
  has_words f ws -> Forall (fun w => w <> []) ws -> (length ws < fuel)%nat ->
  Lookup.lookup_loop utf ECHO fuel ch flags f = probabilities utf ch ws.
Proof.
  intros Hf Hws. revert f flags fuel Hf. induction Hws as [|w ws Hw _ IH]; intros f flags fuel Hf Hfuel;
    (destruct fuel as [|fuel]; [lia|]); cbn [Lookup.lookup_loop]; destruct (read_word_next f _ Hf) as (f' & -> & Hf');
    cbn [head default from_option id tail] in *; [done|].
  rewrite decide_False by done. cbn [probabilities]. destruct (totalProbability ch (utf w)); [|done..].
  cbn [mbind outcome_bind]. rewrite (IH f'); [done|done|simpl in Hfuel; lia].
Qed.

(** ** Lemmas: a trained chain *)

Lemma size_list_to_set_le (l : list Z) : (size (list_to_set l : gset Z) <= length l)%nat.
Proof.
  induction l as [|x l IH]; [done|]. cbn [list_to_set length].
  destruct (decide (x ∈ (list_to_set l : gset Z))) as [Hx|Hx].
  - replace ({[x]} ∪ list_to_set l : gset Z) with (list_to_set l : gset Z) by set_solver. lia.
  - rewrite size_union, size_singleton by set_solver. lia.
Qed.

(** Only these symbols occur, and no probability is set yet. *)
Definition counted (S : gset Z) (ch : Chain) : Prop :=
  dom (mFirstSymbolCounts ch) ⊆ S /\ mFirstSymbolProbs ch = ∅ /\
  forall c n, mNodes ch !! c = Some n -> c ∈ S /\ dom (mCounts n) ⊆ S /\ mProbs n = ∅.

Lemma counted_default S : counted S Chain_default.
Proof. split; [cbn; rewrite dom_empty; set_solver|]. split; [done|]. intros c n. cbn. by rewrite lookup_empty. Qed.

Lemma addFirst_counted S ch c : c ∈ S -> counted S ch -> counted S (addFirst ch c).
Proof.
  intros Hc (Hf & Hp & Hn). split; [|done]. unfold addFirst. cbn [mFirstSymbolCounts]. unfold bump.
  rewrite dom_insert. destruct (mFirstSymbolCounts ch !! c); [set_solver|]. rewrite dom_insert. set_solver.
Qed.

Lemma addPair_counted S ch a b : a ∈ S -> b ∈ S -> counted S ch -> counted S (addPair ch a b).
Proof.
  intros Ha Hb (Hf & Hp & Hn). split; [done|]. split; [done|]. unfold addPair. cbn [mNodes].
  set (nodes := match mNodes ch !! a with None => _ | Some _ => _ end).
  assert (forall c n, nodes !! c = Some n -> c ∈ S /\ dom (mCounts n) ⊆ S /\ mProbs n = ∅) as Hnodes.
  { intros c n. unfold nodes. destruct (mNodes ch !! a); [apply Hn|]. intros [[<- <-]|[_ H]]%lookup_insert_Some; [|by apply Hn].
    split; [done|]. split; [|done]. cbn. rewrite dom_empty. set_solver. }
  intros c n [[<- <-]|[_ H]]%lookup_insert_Some; [|by apply Hnodes]. split; [done|].
  assert (dom (mCounts (default Node_default (nodes !! a))) ⊆ S /\ mProbs (default Node_default (nodes !! a)) = ∅) as [Hd Hpr].
  { destruct (nodes !! a) as [n|] eqn:E; [by apply Hnodes in E as (_ & ? & ?)|]. split; [|done]. cbn. rewrite dom_empty. set_solver. }
  unfold increment, bump. cbn [mCounts mProbs]. rewrite dom_insert. split; [set_solver|done].
Qed.

Lemma add_pairs_counted S s ch : Forall (fun c => c ∈ S) s -> counted S ch -> counted S (add_pairs ch s).
Proof.
  intros Hs. revert ch. induction Hs as [|a s Ha Hs IH]; intros ch Hch; [done|]. cbn [add_pairs].
  destruct Hs as [|b s Hb Hs]; [done|]. apply IH. by apply addPair_counted.
Qed.

Lemma train_all_counted S utf pwds ch :
  Forall (fun p => Forall (fun c => c ∈ S) (symbols utf p)) pwds -> counted S ch -> counted S (train_all utf ch pwds).
Proof.
  intros Hp. revert ch. induction Hp as [|p pwds Hp _ IH]; intros ch Hch; [done|]. cbn [train_all foldl]. apply IH.
  unfold train, symbols in *. case_decide; [done|]. destruct (utf p) as [|c s]; [done|]. cbn [snd].
  apply add_pairs_counted; [done|]. apply addFirst_counted; [|done]. by apply Forall_cons in Hp as [? _].
Qed.

Lemma add_pairs_nodes s ch : mNodes ch <> ∅ -> mNodes (add_pairs ch s) <> ∅.
Proof.
  revert ch. induction s as [|a s IH]; intros ch Hch; [done|]. cbn [add_pairs]. destruct s as [|b s]; [done|].
  apply IH. apply insert_non_empty.
Qed.

Lemma train_all_nodes utf pwds ch :
  mNodes ch <> ∅ \/ Exists (fun p => 2 <= length (symbols utf p))%nat pwds -> mNodes (train_all utf ch pwds) <> ∅.
Proof.
  revert ch. induction pwds as [|p pwds IH]; intros ch [Hch|Hp]; [done|by apply Exists_nil in Hp|..]; cbn [train_all foldl];
    apply IH; unfold train, symbols in *.
  - left. case_decide; [done|]. destruct (utf p) as [|c s]; [done|]. cbn [snd]. by apply add_pairs_nodes.
  - apply Exists_cons in Hp as [Hp|Hp]; [|by right]. left. case_decide; [simpl in Hp; lia|].
    destruct (utf p) as [|c [|d s]]; [simpl in Hp; lia..|]. cbn [snd].
    change (add_pairs ?ch (c :: d :: s)) with (add_pairs (addPair ch c d) (d :: s)). apply add_pairs_nodes, insert_non_empty.
Qed.

Section updated.
Context (order : forall V : Type, gmap Z V -> list (Z * V)).
Context (order_perm : forall V (m : gmap Z V), order V m ≡ₚ map_to_list m).
Context (S : gset Z) (S_symbols : set_Forall (fun c => in_symbol c) S) (S_size : Z.of_nat (size S) < 2 ^ 32).
#[local] Set Default Proof Using "All".

Lemma to_probs_dom counts c p : dom counts ⊆ S -> to_probs order counts ∅ !! c = Some p -> c ∈ S /\ in_u64 p.
Proof.
  intros Hd. rewrite to_probs_lookup by done. destruct (counts !! c) as [k|] eqn:Hc; [|by rewrite lookup_empty].
  intros [= <-]. split; [apply Hd; by eapply elem_of_dom_2|]. unfold f64_div, f64_bits. apply u64_range.
Qed.

Lemma to_probs_size counts : dom counts ⊆ S -> (size (to_probs order counts ∅) <= size S)%nat.
Proof.
  intros Hd. rewrite <- size_dom. apply subseteq_size. intros c [p Hp]%elem_of_dom. by eapply to_probs_dom.
Qed.

Lemma sorted_probs_ok counts : dom counts ⊆ S ->
  let l := std_sort probLess (order _ (to_probs order counts ∅)) in
  Forall pair_ok l /\ Z.of_nat (length l) < 2 ^ 32 /\ l ≡ₚ map_to_list (to_probs order counts ∅).
Proof.
  intros Hd l. assert (l ≡ₚ map_to_list (to_probs order counts ∅)) as Hl by (unfold l; by rewrite std_sort_perm, order_perm).
  split_and!; [|rewrite Hl, length_map_to_list; pose proof (to_probs_size counts Hd); lia|done].
  rewrite Hl. apply Forall_forall. intros [c p] Hcp%elem_of_map_to_list.
  destruct (to_probs_dom counts c p Hd Hcp). split; [by apply S_symbols|done].
Qed.

Lemma counted_size ch : counted S ch -> (size (mNodes ch) <= size S)%nat.
Proof.
  intros (_ & _ & Hn). rewrite <- size_dom. apply subseteq_size. intros c [n Hc]%elem_of_dom. by apply Hn in Hc as [? _].
Qed.

(** A counted chain, updated, saved and loaded again. *)
Lemma updated_loaded ch ch0 : counted S ch -> mNodes ch <> ∅ ->
  exists ch', loadBinary order true ch0 (open_stream (saveBinary order (chain_update order ch))) = (OK, ch') /\
    forall pwd, totalProbability ch' pwd = totalProbability (chain_update order ch) pwd.
Proof.
  intros Hch Hne. pose proof Hch as (Hf & Hp & Hn).
  destruct (sorted_probs_ok (mFirstSymbolCounts ch) Hf) as (Hok & Hlen & _).
  assert (forall c n, mNodes (chain_update order ch) !! c = Some n -> node_ok c n /\ mSortedProbs n ≡ₚ map_to_list (mProbs n)) as Hnodes.
  { intros c n. unfold chain_update. cbn [mNodes]. rewrite lookup_fmap. intros (n0 & Hc & ->)%fmap_Some.
    apply Hn in Hc as (Hc & Hd & Hp0). unfold node_update, postprocess. cbn [mProbs mSortedProbs mCounts]. rewrite Hp0.
    destruct (sorted_probs_ok (mCounts n0) Hd) as (? & ? & ?). split; [|done]. split; [by apply S_symbols|done]. }
  destruct (saveBinary_loaded order order_perm (chain_update order ch) ch0) as (ch' & Hload & Hfirst & Hnode).
  - unfold chain_update. cbn [mNodes]. by rewrite fmap_empty_iff.
  - unfold chain_update. cbn [mNodes]. rewrite map_size_fmap. pose proof (counted_size ch Hch). lia.
  - unfold chain_update. cbn [mFirstSymbolSortedProbs]. by rewrite Hp.
  - unfold chain_update. cbn [mFirstSymbolSortedProbs]. by rewrite Hp.
  - intros c n Hc. by apply Hnodes in Hc as [? _].
  - intros c n Hc. by apply Hnodes in Hc as [_ ?].
  - exists ch'. split; [done|]. intros pwd. apply totalProbability_ext; [done|]. intros c. rewrite Hnode.
    by destruct (mNodes _ !! c).
Qed.
End updated.

Section sorted.
Context (order : forall V : Type, gmap Z V -> list (Z * V)).
Context (order_perm : forall V (m : gmap Z V), order V m ≡ₚ map_to_list m).
#[local] Set Default Proof Using "All".

(** What [update] sorts is what it computed. *)
Lemma updated_first_sorted ch :
  mFirstSymbolSortedProbs (chain_update order ch) ≡ₚ map_to_list (mFirstSymbolProbs (chain_update order ch)).
Proof. cbn. by rewrite std_sort_perm, order_perm. Qed.

Lemma updated_sorted ch :
  map_Forall (fun _ n => mSortedProbs n ≡ₚ map_to_list (mProbs n)) (mNodes (chain_update order ch)).
Proof.
  intros c n. unfold chain_update. cbn [mNodes]. rewrite lookup_fmap. intros (n0 & _ & ->)%fmap_Some.
  unfold node_update, postprocess. cbn [mSortedProbs mProbs]. by rewrite std_sort_perm, order_perm.
Qed.
End sorted.

(** Passwords of one symbol make no node. *)
Lemma train_all_no_nodes utf pwds ch : mNodes ch = ∅ -> ~ Exists (fun p => 2 <= length (symbols utf p))%nat pwds ->
  mNodes (train_all utf ch pwds) = ∅.
Proof.
  intros Hch Hno. apply not_Exists_Forall in Hno; [|intros p; apply _]. revert ch Hch.
  induction Hno as [|p pwds Hp _ IH]; intros ch Hch; [done|]. cbn [train_all foldl]. apply IH. unfold train, symbols in *.
  case_decide; [done|]. simpl in Hp. rewrite decide_False in Hp by done. destruct (utf p) as [|c [|d s]]; [done|done|]. simpl in Hp. lia.
Qed.

(** ** Properties *)

Section properties.
Context (P : PTree) (P_ok : ptree_law P).
Context (order : forall V : Type, gmap Z V -> list (Z * V)).
Context (order_perm : forall V (m : gmap Z V), order V m ≡ₚ map_to_list m).
Context (utf : list byte -> list Z) (ECHO : Z).
#[local] Set Default Proof Using "All".

(** C22: what the generator makes of a readable password list (of less than 2^32 symbols) is what
    the lookup answers from: for every word typed the probability of the chain trained with
    the passwords of all lines, up to the first one whose probability throws.  This needs one
    password of two symbols or more: without any the generator writes an empty file, and the lookup,
    which does not look at the error code, answers from an empty chain, to which every
    password is impossible.  The tree the generator prints holds exactly the probabilities of
    the trained chain in any case; both loops end. *)
Theorem generator_lookup t o db flags stdin :
  let pwds := line_password (guessedSeparator (new_reader (open_stream t) [autoEvaluateHexEncodedPasswords])) <$> lines t in
  let ch := chain_update order (train_all utf Chain_default pwds) in
  (forall p c, c ∈ utf p -> in_symbol c) ->
  Z.of_nat (length (concat (symbols utf <$> pwds))) < 2 ^ 32 ->
  Generator.help o = false -> Generator.inputFilename o <> [] -> Generator.outputFilename o <> [] ->
  exists bytes,
    Generator.generator_main P order utf (S (length (lines t))) (fun _ => Some (FileEntry t true)) (fun _ => true) o =
      Ok (Generator.Done (Some bytes) (writeJson P order ch)) /\
    (forall a b, get P [bs "first"; to_string a] (writeJson P order ch) = t_leaf P <$> mFirstSymbolProbs ch !! a /\
      get P [bs "successor"; to_string a; to_string b] (writeJson P order ch) =
        t_leaf P <$> (mNodes ch !! a ≫= fun n => mProbs n !! b)) /\
    let answers := Lookup.lookup_main order utf ECHO (S (length (words stdin))) (fun _ => Some (FileEntry bytes true)) [db] flags (open_stream stdin) in
    (Exists (fun p => 2 <= length (symbols utf p))%nat pwds -> answers = Some <$> probabilities utf ch (words stdin)) /\
    (~ Exists (fun p => 2 <= length (symbols utf p))%nat pwds ->
      bytes = [] /\ answers = Some <$> probabilities utf Chain_default (words stdin) /\
      forall s, s <> [] -> totalProbability Chain_default s = Ok 0).
Proof.
  intros pwds ch Hutf Hsize Hhelp Hin Hout.
  set (syms := list_to_set (concat (symbols utf <$> pwds)) : gset Z).
  assert (counted syms (train_all utf Chain_default pwds)) as Hcounted.
  { apply train_all_counted; [|apply counted_default].
    apply Forall_forall. intros p Hp. apply Forall_forall. intros c Hc. unfold syms. rewrite elem_of_list_to_set.
    apply list_elem_of_In, in_concat. exists (symbols utf p). rewrite <- !list_elem_of_In. split; [|done].
    by apply list_elem_of_fmap_2. }
  assert (set_Forall (fun c => in_symbol c) syms) as Hsyms.
  { intros c. unfold syms. rewrite elem_of_list_to_set, list_elem_of_In, in_concat.
    intros (l & Hl%list_elem_of_In & Hc%list_elem_of_In). apply list_elem_of_fmap in Hl as (p & -> & _).
    unfold symbols in Hc. case_decide; [by apply not_elem_of_nil in Hc|]. by eapply Hutf. }
  assert (Z.of_nat (size syms) < 2 ^ 32) as Hlt.
  { pose proof (size_list_to_set_le (concat (symbols utf <$> pwds))). unfold syms. lia. }
  exists (saveBinary order ch). split; [|split].
  - unfold Generator.generator_main. rewrite Hhelp, !decide_False by done. cbn [fopen freadable fbytes snd].
    rewrite (train_loop_lines utf _ _ (lines t)); [done| |lia]. rewrite new_reader_input by done. apply open_stream_lines.
  - intros a b. by apply (writeJson_get P P_ok order order_perm), updated_sorted; [apply updated_first_sorted|].
  - cbv zeta. unfold Lookup.lookup_main. cbn [fopen freadable fbytes snd].
    assert (forall ch' ec, loadBinary order true Chain_default (open_stream (saveBinary order ch)) = (ec, ch') ->
      (let '(_, chain) := loadBinary order true Chain_default (open_stream (saveBinary order ch)) in
        Some <$> Lookup.lookup_loop utf ECHO (S (length (words stdin))) chain flags (open_stream stdin)) =
      Some <$> probabilities utf ch' (words stdin)) as Hanswers.
    { intros ch' ec ->. by rewrite (lookup_loop_words utf ECHO (words stdin)); [|apply open_stream_words|apply words_nonempty|lia]. }
    split.
    + intros Hpair. destruct (updated_loaded order order_perm syms Hsyms Hlt _ Chain_default Hcounted) as (ch' & Hload & Hprob);
        [apply train_all_nodes; by right|]. fold ch in Hload. rewrite (Hanswers _ _ Hload).
      f_equal. apply probabilities_ext. intros w. apply Hprob.
    + intros Hnone. destruct (saveBinary_empty order ch Chain_default) as [Hsave Hload].
      { unfold ch, chain_update. cbn [mNodes]. apply fmap_empty_iff. by apply train_all_no_nodes. }
      split; [done|]. split; [by apply (Hanswers _ _ Hload)|]. by intros [].
Qed.
End properties.

(** ** Witnesses: plain ASCII *)

Definition demo_order (V : Type) (m : gmap Z V) : list (Z * V) := map_to_list m.
Definition demo_utf (l : list byte) : list Z := byte.unsigned <$> l.
Definition demo_list : list byte := bs "abc" ++ x0a :: bs "abba" ++ x0a :: bs "bab".
Definition demo_options : Generator.Options := Generator.MkOptions false (bs "list.txt") (bs "chain").
Definition demo_passwords : list (list byte) := [bs "abc"; bs "abba"; bs "bab"].

Lemma generator_lookup_witness :
  let ch := chain_update demo_order (train_all demo_utf Chain_default demo_passwords) in
  exists bytes,
    Generator.generator_main demo_ptree demo_order demo_utf 4 (fun _ => Some (FileEntry demo_list true)) (fun _ => true) demo_options =
      Ok (Generator.Done (Some bytes) (writeJson demo_ptree demo_order ch)) /\
    (forall a b, get demo_ptree [bs "first"; to_string a] (writeJson demo_ptree demo_order ch) = t_leaf demo_ptree <$> mFirstSymbolProbs ch !! a /\
      get demo_ptree [bs "successor"; to_string a; to_string b] (writeJson demo_ptree demo_order ch) =
        t_leaf demo_ptree <$> (mNodes ch !! a ≫= fun n => mProbs n !! b)) /\
    Lookup.lookup_main demo_order demo_utf 8 3 (fun _ => Some (FileEntry bytes true)) [bs "chain"] 0 (open_stream (bs "ab bac")) =
      Some <$> probabilities demo_utf ch (words (bs "ab bac")).
Proof.
  destruct (generator_lookup demo_ptree demo_ptree_law demo_order (fun V m => Permutation_refl _) demo_utf 8 demo_list demo_options (bs "chain") 0 (bs "ab bac"))
    as (bytes & H1 & H2 & H3 & _).
  - intros p c Hc. unfold demo_utf in Hc. apply list_elem_of_fmap in Hc as (b & -> & _). pose proof (byte.unsigned_range b). lia.
  - apply (bool_decide_unpack _). vm_compute. exact I.
  - reflexivity.
  - discriminate.
  - discriminate.
  - exists bytes. split; [exact H1|]. split; [exact H2|]. apply H3. apply (bool_decide_unpack _). vm_compute. exact I.
Defined.

(** One half: two first symbols, and one successor of [a]. *)
Example demo_probability :
  totalProbability (chain_update demo_order (train_all demo_utf Chain_default [bs "ab"; bs "ba"])) (demo_utf (bs "ab")) =
    Ok 0x3fe0000000000000.
Proof. vm_compute. reflexivity. Qed.
